(** * PipeJS: a shallow embedding of the parser, the state store, the
      scheduler and the executor, with the properties of its specification.

    The embedding follows [src/core/parser.ts], [src/core/state.ts],
    [src/core/scheduler.ts] and [src/core/executor.ts].  JavaScript values
    that reach the code untyped (the decoded configuration document, plugin
    configuration and output) are values of [JValue]; numbers of the
    configuration are integers ([Z]), on which [Math.floor] is the identity.
    Exceptions are values of [Exn] carried by [Outcome]; mutable arrays that
    the source passes by reference ([warnings], [errors], [run.tasks]) are
    threaded explicitly. *)

From Stdlib Require Import ZArith List Bool Ascii String Lia.
From stdpp Require Import base option list strings gmap pretty relations.

Set Warnings "-register-all,-clear-no-such-hyp".
Open Scope Z_scope.

(** ** JavaScript values *)

Inductive JValue : Type :=
| JNull
| JBool (b : bool)
| JNum (n : Z)
| JStr (s : string)
| JArr (items : list JValue)
| JObj (fields : list (string * JValue)).

(** [undefined] is the [None] of [option JValue]. *)
Definition JSVal := option JValue.

Inductive JsType := TyUndefined | TyObject | TyBoolean | TyNumber | TyString.

Definition typeof (v : JSVal) : JsType :=
  match v with
  | None => TyUndefined
  | Some JNull => TyObject
  | Some (JBool _) => TyBoolean
  | Some (JNum _) => TyNumber
  | Some (JStr _) => TyString
  | Some (JArr _) => TyObject
  | Some (JObj _) => TyObject
  end.

Definition JsType_eqb (a b : JsType) : bool :=
  match a, b with
  | TyUndefined, TyUndefined | TyObject, TyObject | TyBoolean, TyBoolean
  | TyNumber, TyNumber | TyString, TyString => true
  | _, _ => false
  end.

(** [!!v] of JavaScript. *)
Definition truthy (v : JSVal) : bool :=
  match v with
  | None => false
  | Some JNull => false
  | Some (JBool b) => b
  | Some (JNum n) => negb (n =? 0)
  | Some (JStr s) => negb (String.eqb s EmptyString)
  | Some (JArr _) => true
  | Some (JObj _) => true
  end.

Definition isArray (v : JSVal) : bool :=
  match v with Some (JArr _) => true | _ => false end.

Definition isNullish (v : JSVal) : bool :=
  match v with None | Some JNull => true | _ => false end.

Fixpoint assoc (k : string) (l : list (string * JValue)) : JSVal :=
  match l with
  | [] => None
  | (k', v) :: l' => if String.eqb k k' then Some v else assoc k l'
  end.

(** Property access [o.k] on a value that is neither [null] nor
    [undefined]: own fields of an object, [undefined] otherwise. *)
Definition prop (k : string) (o : JValue) : JSVal :=
  match o with
  | JObj fields => assoc k fields
  | _ => None
  end.

(** *** Strings

    A string is the sequence of the bytes of its UTF-8 encoding. *)

(** The white space and the line terminators that [trim] strips and that
    are one byte long: space, tab, LF, VT, FF, CR. *)
Definition is_ws (c : ascii) : bool :=
  match c with
  | " "%char | "009"%char | "010"%char | "011"%char | "012"%char | "013"%char => true
  | _ => false
  end.

(** Those that are two bytes long: U+00A0. *)
Definition is_ws2 (c1 c2 : ascii) : bool :=
  Ascii.eqb c1 "194"%char && Ascii.eqb c2 "160"%char.

(** Those that are three bytes long: U+1680, U+2000 to U+200A, U+2028,
    U+2029, U+202F, U+205F, U+3000 and U+FEFF. *)
Definition is_ws3 (c1 c2 c3 : ascii) : bool :=
  let b1 := nat_of_ascii c1 in
  let b2 := nat_of_ascii c2 in
  let b3 := nat_of_ascii c3 in
  ((b1 =? 225) && (b2 =? 154) && (b3 =? 128))%nat ||
  ((b1 =? 226) && (b2 =? 128) &&
   ((128 <=? b3) && (b3 <=? 138) || (b3 =? 168) || (b3 =? 169) || (b3 =? 175)))%nat ||
  ((b1 =? 226) && (b2 =? 129) && (b3 =? 159))%nat ||
  ((b1 =? 227) && (b2 =? 128) && (b3 =? 128))%nat ||
  ((b1 =? 239) && (b2 =? 187) && (b3 =? 191))%nat.

Fixpoint trimStart (s : string) : string :=
  match s with
  | EmptyString => EmptyString
  | String c1 s1 =>
      if is_ws c1 then trimStart s1
      else
        match s1 with
        | String c2 s2 =>
            if is_ws2 c1 c2 then trimStart s2
            else
              match s2 with
              | String c3 s3 => if is_ws3 c1 c2 c3 then trimStart s3 else s
              | EmptyString => s
              end
        | EmptyString => s
        end
  end.

Definition str_rev (s : string) : string :=
  string_of_list_ascii (rev (list_ascii_of_string s)).

(** [trimEnd], on the reversed string: the bytes of a character come in
    the reverse order. *)
Fixpoint trimStart_rev (s : string) : string :=
  match s with
  | EmptyString => EmptyString
  | String c1 s1 =>
      if is_ws c1 then trimStart_rev s1
      else
        match s1 with
        | String c2 s2 =>
            if is_ws2 c2 c1 then trimStart_rev s2
            else
              match s2 with
              | String c3 s3 => if is_ws3 c3 c2 c1 then trimStart_rev s3 else s
              | EmptyString => s
              end
        | EmptyString => s
        end
  end.

(** [s.trim()] *)
Definition trim (s : string) : string :=
  str_rev (trimStart_rev (str_rev (trimStart s))).

Definition startsWith (p s : string) : bool := String.prefix p s.

(** [s.split(sep)] for a one-character separator. *)
Fixpoint split_go (sep : ascii) (cur : string) (s : string) : list string :=
  match s with
  | EmptyString => [str_rev cur]
  | String c s' =>
      if Ascii.eqb c sep then str_rev cur :: split_go sep EmptyString s'
      else split_go sep (String c cur) s'
  end.

Definition split (sep : ascii) (s : string) : list string :=
  split_go sep EmptyString s.

Fixpoint join (sep : string) (l : list string) : string :=
  match l with
  | [] => EmptyString
  | [x] => x
  | x :: l' => x +:+ sep +:+ join sep l'
  end.

(** The double-quote character, and [s] between double quotes. *)
Definition dq : string := String "034"%char EmptyString.
Definition quoted (s : string) : string := dq +:+ s +:+ dq.

(** Does [String(v)] return?  The conversion of an object calls its
    [toString]; an object of a decoded document that has a property
    [toString] of its own has one that is not a function (and
    [Object.prototype.valueOf] returns the object), so the conversion throws
    a TypeError.  The conversion of an array converts its elements. *)
Fixpoint printable (v : JValue) : bool :=
  match v with
  | JArr items => forallb printable items
  | JObj fields => negb (existsb (fun kv => String.eqb (fst kv) "toString") fields)
  | _ => true
  end.

Definition notPrintable : string := "Cannot convert object to primitive value".

(** [String(v)], as a template literal applies it, where it returns (see
    [printable]). *)
Fixpoint toStr (v : JValue) : string :=
  match v with
  | JNull => "null"
  | JBool true => "true"
  | JBool false => "false"
  | JNum n => pretty n
  | JStr s => s
  | JArr items =>
      join "," (map (fun x => match x with JNull => EmptyString | _ => toStr x end) items)
  | JObj _ => "[object Object]"
  end.

Definition toStrU (v : JSVal) : string :=
  match v with None => "undefined" | Some x => toStr x end.

(** ** Exceptions and outcomes *)

Inductive Exn : Type :=
| ValidationError (message : string)
| PluginError (message : string)
| ExecutionError (message : string)
| PipeJSError (message : string) (code : string)
| JsError (message : string)      (* TypeError, SyntaxError, plain Error *)
| Thrown (value : string).         (* a thrown value that is not an Error *)

(** [error instanceof Error ? error.message : String(error)] *)
Definition message (e : Exn) : string :=
  match e with
  | ValidationError m | PluginError m | ExecutionError m
  | PipeJSError m _ | JsError m | Thrown m => m
  end.

Definition isValidationError (e : Exn) : bool :=
  match e with ValidationError _ => true | _ => false end.

Inductive Outcome (A : Type) : Type :=
| Ret (a : A)
| Throw (e : Exn)
| OutOfFuel.
Arguments Ret {A} a.
Arguments Throw {A} e.
Arguments OutOfFuel {A}.

Definition obind {A B} (m : Outcome A) (f : A -> Outcome B) : Outcome B :=
  match m with
  | Ret a => f a
  | Throw e => Throw e
  | OutOfFuel => OutOfFuel
  end.

(** ** Data model ([src/types.ts]) *)

Record Retry := { retry_attempts : Z; retry_delay : Z }.

Record Task := {
  task_id : string;
  task_name : string;
  task_description : JSVal;
  task_plugin : string;
  task_config : JValue;
  task_dependsOn : option (list string);
  task_retry : option Retry;
  task_timeout : option Z;
  task_enabled : option bool
}.

Inductive TriggerType := cron | webhook | manual.

Record PipelineTrigger := { trigger_type : TriggerType; trigger_config : JValue }.

Record Pipeline := {
  pipeline_name : string;
  pipeline_version : string;
  pipeline_description : JSVal;
  pipeline_tasks : list Task;
  pipeline_triggers : option (list PipelineTrigger);
  pipeline_concurrency : JSVal;
  pipeline_env : JSVal;
  pipeline_timeout : JSVal
}.

(** [task.dependsOn || []] *)
Definition deps (t : Task) : list string := default [] (task_dependsOn t).

(** ** The parser and validator ([src/core/parser.ts]) *)

Module Parser.

Record ParserOptions := { opt_validate : option bool; opt_strict : option bool }.

(** The constructor: [validate ?? true], [strict ?? false]. *)
Record Options := { validate : bool; strict : bool }.

Definition PipelineParser (o : ParserOptions) : Options :=
  {| validate := default true (opt_validate o);
     strict := default false (opt_strict o) |}.

Record ParseResult := {
  pipeline : Pipeline;
  warnings : list string;
  errors : list string
}.

(** The two arrays that [parse] allocates and every validation function
    pushes to. *)
Record Diags := { ws : list string; es : list string }.

Definition V (A : Type) : Type := Diags -> Outcome (A * Diags).

Definition vret {A} (a : A) : V A := fun d => Ret (a, d).
Definition vbind {A B} (m : V A) (f : A -> V B) : V B :=
  fun d => match m d with
           | Ret (a, d') => f a d'
           | Throw e => Throw e
           | OutOfFuel => OutOfFuel
           end.
Definition vthrow {A} (e : Exn) : V A := fun _ => Throw e.
Definition warn (m : string) : V unit :=
  fun d => Ret (tt, {| ws := ws d ++ [m]; es := es d |}).
Definition err (m : string) : V unit :=
  fun d => Ret (tt, {| ws := ws d; es := es d ++ [m] |}).
Definition when (b : bool) (m : V unit) : V unit := if b then m else vret tt.

Notation "'do' x <- m ; k" := (vbind m (fun x => k))
  (at level 10, x name, m at level 100, k at level 200).
Notation "'run' m ; k" := (vbind m (fun _ => k))
  (at level 10, m at level 100, k at level 200).

(** [typeof v !== 'string' || !v.trim()] *)
Definition notNonEmptyString (v : JSVal) : bool :=
  match v with
  | Some (JStr s) => String.eqb (trim s) EmptyString
  | _ => true
  end.

(** [(v as string)?.trim() || dflt]: a value that is neither nullish nor a
    string has no callable [trim]. *)
Definition trimOr (what : string) (v : JSVal) (dflt : string) : V string :=
  match v with
  | None | Some JNull => vret dflt
  | Some (JStr s) => vret (if String.eqb (trim s) EmptyString then dflt else trim s)
  | Some _ => vthrow (JsError (what +:+ "?.trim is not a function"))
  end.

Definition isNumber (v : JSVal) : bool := JsType_eqb (typeof v) TyNumber.
Definition isObject (v : JSVal) : bool := JsType_eqb (typeof v) TyObject.
Definition isString (v : JSVal) : bool := JsType_eqb (typeof v) TyString.
Definition numLt (v : JSVal) (k : Z) : bool :=
  match v with Some (JNum n) => n <? k | _ => false end.

Definition validateDependencies (dependsOn : JSVal) (taskId : string) : V (list string) :=
  match dependsOn with
  | None | Some JNull => vret []
  | Some (JArr items) =>
      fold_left
        (fun (acc : V (list string)) (dep : JValue) =>
           do dependencies <- acc;
           match dep with
           | JStr s => vret (dependencies ++ [trim s])
           | _ =>
               if printable dep then
                 run err ("Task " +:+ quoted taskId +:+
                          " dependsOn contains non-string value: " +:+ toStr dep);
                 vret dependencies
               else vthrow (JsError notPrintable)
           end)
        items (vret [])
  | Some _ =>
      run err ("Task " +:+ quoted taskId +:+ " dependsOn should be an array of task IDs");
      vret []
  end.

Definition validateRetryConfig (retry : JSVal) (taskId : string) : V (option Retry) :=
  match retry with
  | None | Some JNull => vret None
  | Some (JObj _ as r) =>
      let attempts := match prop "attempts" r with
                      | Some (JNum n) => Z.max 0 n
                      | _ => 0
                      end in
      let delay := match prop "delay" r with
                   | Some (JNum n) => Z.max 0 n
                   | _ => 1000
                   end in
      if 0 <? attempts
      then vret (Some {| retry_attempts := attempts; retry_delay := delay |})
      else vret None
  | Some _ =>
      run warn ("Task " +:+ quoted taskId +:+ " retry should be an object, ignoring");
      vret None
  end.

Definition validateTimeout (timeout : JSVal) (taskId : string) : V (option Z) :=
  match timeout with
  | None => vret None
  | Some v =>
      match v with
      | JNum n =>
          if 0 <? n then vret (Some n)
          else run warn ("Task " +:+ quoted taskId +:+
                         " timeout should be a positive number, ignoring");
               vret None
      | _ =>
          run warn ("Task " +:+ quoted taskId +:+
                    " timeout should be a positive number, ignoring");
          vret None
      end
  end.

(** One iteration of the loop of [validateTasks]; the state of the loop is
    the list built so far and the set [taskIds]. *)
Definition validateTask (index : nat) (task : JValue)
    (st : list Task * gset string) : V (list Task * gset string) :=
  let '(validatedTasks, taskIds) := st in
  if negb (isObject (Some task)) || isNullish (Some task) then
    run err ("Task at index " +:+ pretty index +:+ " must be an object");
    vret st
  else
    let t := task in
    if notNonEmptyString (prop "id" t) then
      run err ("Task at index " +:+ pretty index +:+
               " must have a non-empty " +:+ quoted "id" +:+ " string");
      vret st
    else
      let rawId := toStrU (prop "id" t) in
      run when (notNonEmptyString (prop "name" t))
            (warn ("Task " +:+ quoted rawId +:+
                   " should have a non-empty " +:+ quoted "name" +:+ " string"));
      if notNonEmptyString (prop "plugin" t) then
        run err ("Task " +:+ quoted rawId +:+
                 " must have a non-empty " +:+ quoted "plugin" +:+ " string");
        vret st
      else
        let taskId := trim rawId in
        if bool_decide (taskId ∈ taskIds) then
          run err ("Duplicate task ID: " +:+ taskId);
          vret st
        else
          let config :=
            if truthy (prop "config" t) && isObject (prop "config" t)
            then default (JObj []) (prop "config" t) else JObj [] in
          run when (negb (isObject (Some config)))
                (warn ("Task " +:+ quoted taskId +:+ " config should be an object"));
          do dependsOn <- validateDependencies (prop "dependsOn" t) taskId;
          do retry <- validateRetryConfig (prop "retry" t) taskId;
          do timeout <- validateTimeout (prop "timeout" t) taskId;
          do name <- trimOr "t.name" (prop "name" t) taskId;
          vret (validatedTasks ++
                  [{| task_id := taskId;
                      task_name := name;
                      task_description := prop "description" t;
                      task_plugin := trim (toStrU (prop "plugin" t));
                      task_config := config;
                      task_dependsOn := Some dependsOn;
                      task_retry := retry;
                      task_timeout := timeout;
                      task_enabled :=
                        Some (negb (match prop "enabled" t with
                                    | Some (JBool false) => true
                                    | _ => false
                                    end)) |}],
                {[taskId]} ∪ taskIds).

Fixpoint validateTasks_loop (index : nat) (tasks : list JValue)
    (st : list Task * gset string) : V (list Task * gset string) :=
  match tasks with
  | [] => vret st
  | task :: rest =>
      do st' <- validateTask index task st;
      validateTasks_loop (S index) rest st'
  end.

(** [validateTasks] is only called on an array, so its first test
    ([!Array.isArray(tasks)]) never fires. *)
Definition validateTasks (tasks : list JValue) : V (list Task) :=
  run when (Nat.eqb (length tasks) 0) (warn "Pipeline has no tasks");
  do st <- validateTasks_loop 0 tasks ([], ∅);
  vret (fst st).

Definition validateCronTrigger (c : JValue) (index : nat) : V unit :=
  run when (notNonEmptyString (prop "expression" c))
        (err ("Cron trigger at index " +:+ pretty index +:+
              " must have an " +:+ quoted "expression" +:+ " string"));
  run when (truthy (prop "timezone" c) && negb (isString (prop "timezone" c)))
        (warn ("Cron trigger at index " +:+ pretty index +:+ " timezone should be a string"));
  match prop "expression" c with
  | Some (JStr e) =>
      let expr := trim e in
      let parts := split " " expr in
      when (negb (Nat.eqb (length parts) 5))
        (warn ("Cron expression " +:+ quoted expr +:+ " at index " +:+ pretty index +:+
               " should have 5 parts"))
  | _ => vret tt
  end.

Definition isHttpMethod (v : JSVal) : bool :=
  match v with
  | Some (JStr m) => String.eqb m "GET" || String.eqb m "POST" || String.eqb m "PUT"
  | _ => false
  end.

Definition validateWebhookTrigger (c : JValue) (index : nat) : V unit :=
  run when (notNonEmptyString (prop "path" c))
        (err ("Webhook trigger at index " +:+ pretty index +:+
              " must have a " +:+ quoted "path" +:+ " string"));
  run when (truthy (prop "method" c) && negb (isHttpMethod (prop "method" c)))
        (warn ("Webhook trigger at index " +:+ pretty index +:+
               " method should be GET, POST, or PUT"));
  when (truthy (prop "secret" c) && negb (isString (prop "secret" c)))
    (warn ("Webhook trigger at index " +:+ pretty index +:+ " secret should be a string")).

Definition validateTrigger (index : nat) (trigger : JValue)
    (validatedTriggers : list PipelineTrigger) : V (list PipelineTrigger) :=
  if negb (isObject (Some trigger)) || isNullish (Some trigger) then
    run err ("Trigger at index " +:+ pretty index +:+ " must be an object");
    vret validatedTriggers
  else
    let t := trigger in
    match prop "type" t with
    | Some (JStr ty) =>
        if negb (truthy (prop "config" t)) || negb (isObject (prop "config" t)) then
          run err ("Trigger at index " +:+ pretty index +:+
                   " must have a " +:+ quoted "config" +:+ " object");
          vret validatedTriggers
        else
          let config := default JNull (prop "config" t) in
          if String.eqb ty "cron" then
            run validateCronTrigger config index;
            vret (validatedTriggers ++ [{| trigger_type := cron; trigger_config := config |}])
          else if String.eqb ty "webhook" then
            run validateWebhookTrigger config index;
            vret (validatedTriggers ++ [{| trigger_type := webhook; trigger_config := config |}])
          else if String.eqb ty "manual" then
            vret (validatedTriggers ++ [{| trigger_type := manual; trigger_config := config |}])
          else
            run warn ("Unknown trigger type: " +:+ ty +:+ " at index " +:+ pretty index);
            vret validatedTriggers
    | _ =>
        run err ("Trigger at index " +:+ pretty index +:+
                 " must have a " +:+ quoted "type" +:+ " string");
        vret validatedTriggers
    end.

Fixpoint validateTriggers_loop (index : nat) (triggers : list JValue)
    (acc : list PipelineTrigger) : V (list PipelineTrigger) :=
  match triggers with
  | [] => vret acc
  | trigger :: rest =>
      do acc' <- validateTrigger index trigger acc;
      validateTriggers_loop (S index) rest acc'
  end.

Definition validateTriggers (triggers : JValue) : V (option (list PipelineTrigger)) :=
  match triggers with
  | JArr items =>
      do l <- validateTriggers_loop 0 items [];
      vret (Some l)
  | _ =>
      run err "Triggers must be an array";
      vret None
  end.

(** *** DAG checks *)

Record DfsState := {
  visited : gset string;
  recursionStack : gset string;
  dfs_errors : list string
}.

(** [detectCycles].  The recursion follows [dependsOn] edges and stops at
    visited ids; [fuel] bounds its depth. *)
Fixpoint detectCycles (fuel : nat) (tasks : list Task) (taskId : string)
    (st : DfsState) : option DfsState :=
  match fuel with
  | O => None
  | S fuel' =>
      if bool_decide (taskId ∈ recursionStack st) then
        Some {| visited := visited st;
                recursionStack := recursionStack st;
                dfs_errors := dfs_errors st ++
                  ["Circular dependency detected involving task: " +:+ taskId] |}
      else if bool_decide (taskId ∈ visited st) then Some st
      else
        let st1 := {| visited := {[taskId]} ∪ visited st;
                      recursionStack := {[taskId]} ∪ recursionStack st;
                      dfs_errors := dfs_errors st |} in
        let after :=
          match find (fun t => String.eqb (task_id t) taskId) tasks with
          | Some task =>
              fold_left (fun acc depId =>
                           match acc with
                           | Some s => detectCycles fuel' tasks depId s
                           | None => None
                           end)
                        (deps task) (Some st1)
          | None => Some st1
          end in
        match after with
        | Some s => Some {| visited := visited s;
                            recursionStack := recursionStack s ∖ {[taskId]};
                            dfs_errors := dfs_errors s |}
        | None => None
        end
  end.

(** Every id that [detectCycles] can be called on. *)
Definition all_ids (tasks : list Task) : list string :=
  map task_id tasks ++ concat (map deps tasks).

Definition dfs_fuel (tasks : list Task) : nat := S (length (all_ids tasks)).

(** The first loop of [validateDAGStructure]: cycle detection from every
    unvisited task, then the dependencies that name no task. *)
Fixpoint checkTasks (all : list Task) (taskIds : gset string) (todo : list Task)
    (st : DfsState) : option DfsState :=
  match todo with
  | [] => Some st
  | task :: rest =>
      let st1 := if bool_decide (task_id task ∈ visited st) then Some st
                 else detectCycles (dfs_fuel all) all (task_id task) st in
      match st1 with
      | None => None
      | Some s =>
          let missing :=
            map (fun depId => "Task " +:+ quoted (task_id task) +:+
                              " depends on non-existent task: " +:+ depId)
                (filter (fun depId => negb (bool_decide (depId ∈ taskIds))) (deps task)) in
          checkTasks all taskIds rest
            {| visited := visited s; recursionStack := recursionStack s;
               dfs_errors := dfs_errors s ++ missing |}
      end
  end.

Definition hasDependents (tasks : list Task) : gset string :=
  list_to_set (concat (map deps tasks)).

(** A task with no dependencies and no dependents. *)
Definition isOrphan (tasks : list Task) (task : Task) : bool :=
  match task_dependsOn task with
  | None => true
  | Some l => Nat.eqb (length l) 0
  end && negb (bool_decide (task_id task ∈ hasDependents tasks)).

Definition orphanedTasks (tasks : list Task) : list Task :=
  filter (isOrphan tasks) tasks.

Definition multipleRootsError (tasks : list Task) : string :=
  "Multiple root tasks found: " +:+ join ", " (map task_id (orphanedTasks tasks)) +:+
  ". Pipeline should have a single entry point.".

(** [validateDAGStructure(pipeline, errors)]: the errors array after the
    call, [None] when [detectCycles] ran out of fuel. *)
Definition validateDAGStructure (p : Pipeline) (errors : list string) : option (list string) :=
  let tasks := pipeline_tasks p in
  let taskIds : gset string := list_to_set (map task_id tasks) in
  match checkTasks tasks taskIds tasks
          {| visited := ∅; recursionStack := ∅; dfs_errors := errors |} with
  | None => None
  | Some st =>
      Some (if (1 <? length (orphanedTasks tasks))%nat
            then dfs_errors st ++ [multipleRootsError tasks]
            else dfs_errors st)
  end.

Definition checkDAG (result : Pipeline) : V unit :=
  fun d => match validateDAGStructure result (es d) with
           | Some errors' => Ret (tt, {| ws := ws d; es := errors' |})
           | None => OutOfFuel
           end.

Definition validatePipeline (pipeline : JValue) : V Pipeline :=
  if negb (isObject (Some pipeline)) || isNullish (Some pipeline) then
    vthrow (ValidationError "Pipeline must be an object")
  else
    let p := pipeline in
    run when (notNonEmptyString (prop "name" p))
          (err ("Pipeline must have a non-empty " +:+ quoted "name" +:+ " string"));
    run when (notNonEmptyString (prop "version" p))
          (err ("Pipeline must have a non-empty " +:+ quoted "version" +:+ " string"));
    run when (negb (isArray (prop "tasks" p)))
          (err ("Pipeline must have a " +:+ quoted "tasks" +:+ " array"));
    run when (truthy (prop "description" p) && negb (isString (prop "description" p)))
          (warn "Pipeline description should be a string");
    run when (truthy (prop "concurrency" p) &&
              (negb (isNumber (prop "concurrency" p)) || numLt (prop "concurrency" p) 1))
          (warn "Pipeline concurrency should be a positive number, using default");
    run when (truthy (prop "timeout" p) &&
              (negb (isNumber (prop "timeout" p)) || numLt (prop "timeout" p) 0))
          (warn "Pipeline timeout should be a non-negative number, using default");
    run when (truthy (prop "env" p) &&
              (negb (isObject (prop "env" p)) || isArray (prop "env" p)))
          (warn "Pipeline env should be an object, ignoring");
    do tasks <- match prop "tasks" p with
                | Some (JArr items) => validateTasks items
                | _ => vret []
                end;
    do triggers <- match prop "triggers" p with
                   | Some v => if truthy (Some v) then validateTriggers v else vret None
                   | None => vret None
                   end;
    do name <- trimOr "p.name" (prop "name" p) "unnamed-pipeline";
    do version <- trimOr "p.version" (prop "version" p) "1.0.0";
    let result := {| pipeline_name := name;
                     pipeline_version := version;
                     pipeline_description := prop "description" p;
                     pipeline_tasks := tasks;
                     pipeline_triggers := triggers;
                     pipeline_concurrency := prop "concurrency" p;
                     pipeline_env := prop "env" p;
                     pipeline_timeout := prop "timeout" p |} in
    run checkDAG result;
    vret result.

(** [JSON.parse] and js-yaml's [load] are external: a decoder maps the text
    to the decoded document, or to the error it throws. *)
Record Decoders := {
  JSON_parse : string -> Exn + JValue;
  yaml_load : string -> Exn + JSVal
}.

Definition decode (D : Decoders) (content : string) : Outcome JSVal :=
  if startsWith "{" (trim content) then
    match JSON_parse D content with
    | inl e => Throw e
    | inr v => Ret (Some v)
    end
  else
    match yaml_load D content with
    | inl e => Throw e
    | inr v => Ret v
    end.

(** [config.pipeline] *)
Definition rootPipeline (config : JSVal) : Outcome JSVal :=
  match config with
  | None => Throw (JsError "Cannot read properties of undefined (reading 'pipeline')")
  | Some JNull => Throw (JsError "Cannot read properties of null (reading 'pipeline')")
  | Some c => Ret (prop "pipeline" c)
  end.

(** The body of the [try] block of [parse]. *)
Definition parse_try (D : Decoders) (o : Options) (content : string) : Outcome ParseResult :=
  obind (decode D content) (fun config =>
  obind (rootPipeline config) (fun root =>
  match root with
  | Some pv =>
      if negb (truthy root) then
        Throw (ValidationError ("Missing " +:+ quoted "pipeline" +:+ " root key in configuration"))
      else
        obind (validatePipeline pv {| ws := []; es := [] |}) (fun '(pl, d) =>
        if validate o && (0 <? length (es d))%nat then
          Throw (ValidationError "Pipeline validation failed")
        else
          Ret {| pipeline := pl;
                 warnings := ws d;
                 errors := if strict o then ws d ++ es d else es d |})
  | None =>
      Throw (ValidationError ("Missing " +:+ quoted "pipeline" +:+ " root key in configuration"))
  end)).

Definition parse (D : Decoders) (o : Options) (content : string) : Outcome ParseResult :=
  match parse_try D o content with
  | Throw error =>
      if isValidationError error then Throw error
      else Throw (ValidationError ("Failed to parse pipeline configuration: " +:+ message error))
  | r => r
  end.

End Parser.

(** ** Run records ([src/types.ts]) *)

Module TaskStatus.

Inductive t := pending | running | success | failed | skipped | cancelled.

#[global] Instance eq_dec : EqDecision t.
Proof. solve_decision. Defined.

End TaskStatus.

Module PipelineStatus.

Inductive t := running | success | failed | cancelled | partial_success.

#[global] Instance eq_dec : EqDecision t.
Proof. solve_decision. Defined.

End PipelineStatus.

(** A timestamp is a [Date] object or, once it went through
    [toISOString] or [JSON.stringify], the ISO-8601 string of the same
    instant (kept by the instant it denotes). *)
Inductive Timestamp := Date (ms : Z) | ISO (ms : Z).

Record PluginResult := {
  res_success : bool;
  res_output : JSVal;
  res_error : option string;
  res_metadata : JSVal
}.

Record TaskExecution := {
  te_task : Task;
  te_status : TaskStatus.t;
  te_result : option PluginResult;
  te_startedAt : option Timestamp;
  te_completedAt : option Timestamp;
  te_attempts : Z
}.

Record PipelineRun := {
  run_id : string;
  run_pipelineName : string;
  run_status : PipelineStatus.t;
  run_startedAt : Timestamp;
  run_completedAt : option Timestamp;
  run_tasks : list TaskExecution;
  run_trigger : PipelineTrigger;
  run_error : option string
}.

(** ** The state store ([src/core/state.ts]) *)

(** A store operation returns or throws. *)
Inductive Result (A : Type) : Type :=
| Ok (a : A)
| Err (e : Exn).
Arguments Ok {A} a.
Arguments Err {A} e.

Definition rbind {A B} (m : Result A) (f : A -> Result B) : Result B :=
  match m with
  | Ok a => f a
  | Err e => Err e
  end.

(** The part of the [StateManager] interface that keeps pipeline runs. *)
Module Store.

Class StateManager (S : Type) := {
  savePipelineRun : PipelineRun -> S -> Result S;
  getPipelineRun : string -> S -> Result (option PipelineRun)
}.

End Store.

Module FileState.

(** [JSON.parse (JSON.stringify x)]: dates become ISO strings, absent
    fields stay absent. *)
Definition json_time (t : Timestamp) : Timestamp :=
  match t with Date ms => ISO ms | ISO ms => ISO ms end.

Definition json_task (te : TaskExecution) : TaskExecution :=
  {| te_task := te_task te;
     te_status := te_status te;
     te_result := te_result te;
     te_startedAt := json_time <$> te_startedAt te;
     te_completedAt := json_time <$> te_completedAt te;
     te_attempts := te_attempts te |}.

Definition json_run (r : PipelineRun) : PipelineRun :=
  {| run_id := run_id r;
     run_pipelineName := run_pipelineName r;
     run_status := run_status r;
     run_startedAt := json_time (run_startedAt r);
     run_completedAt := json_time <$> run_completedAt r;
     run_tasks := map json_task (run_tasks r);
     run_trigger := run_trigger r;
     run_error := run_error r |}.

(** The JSON document: the reserved key [pipeline_runs] holds the array of
    runs, the other keys hold JSON values. *)
Record Doc := {
  pipeline_runs : option (list PipelineRun);
  entries : gmap string JValue
}.

(** The file at [filePath]. *)
Inductive Disk :=
| NoFile
| Unreadable (why : string)
| Document (d : Doc).

Definition loadState (disk : Disk) : Result Doc :=
  match disk with
  | NoFile => Ok {| pipeline_runs := None; entries := ∅ |}
  | Unreadable why => Err (PipeJSError ("Failed to load state: " +:+ why) "STATE_LOAD_ERROR")
  | Document d => Ok d
  end.

Definition saveState (state : Doc) : Disk :=
  Document {| pipeline_runs := map json_run <$> pipeline_runs state;
              entries := entries state |}.

(** [(await this.get('pipeline_runs') as PipelineRun[]) || []] *)
Definition getRuns (disk : Disk) : Result (list PipelineRun) :=
  rbind (loadState disk) (fun state => Ok (default [] (pipeline_runs state))).

(** [this.set('pipeline_runs', runs)] *)
Definition setRuns (runs : list PipelineRun) (disk : Disk) : Result Disk :=
  rbind (loadState disk) (fun state =>
    Ok (saveState {| pipeline_runs := Some runs; entries := entries state |})).

(** [runs.findIndex(r => r.id === id)] *)
Fixpoint findIndex (id : string) (runs : list PipelineRun) : option nat :=
  match runs with
  | [] => None
  | r :: rest => if String.eqb (run_id r) id then Some O
                 else S <$> findIndex id rest
  end.

Definition savePipelineRun (run : PipelineRun) (disk : Disk) : Result Disk :=
  rbind (getRuns disk) (fun runs =>
    let runs' := match findIndex (run_id run) runs with
                 | Some existingIndex => <[existingIndex := run]> runs
                 | None => runs ++ [run]
                 end in
    setRuns runs' disk).

Definition getPipelineRun (runId : string) (disk : Disk) : Result (option PipelineRun) :=
  rbind (getRuns disk) (fun runs =>
    Ok (find (fun r => String.eqb (run_id r) runId) runs)).

#[global] Instance manager : Store.StateManager Disk :=
  {| Store.savePipelineRun := savePipelineRun;
     Store.getPipelineRun := getPipelineRun |}.

End FileState.

Module SQLiteState.

Record RunRow := {
  r_id : string;
  r_pipeline_name : string;
  r_status : PipelineStatus.t;
  r_started_at : Z;
  r_completed_at : option Z;
  r_trigger_type : TriggerType;
  r_trigger_config : JValue;
  r_error_text : option string
}.

Record TaskRow := {
  k_run_id : string;
  k_task_id : string;
  k_task_name : string;
  k_status : TaskStatus.t;
  k_started_at : option Z;
  k_completed_at : option Z;
  k_attempts : Z;
  k_result_output : option JValue;
  k_result_error : option string;
  k_result_metadata : option JValue
}.

(** The [runs] table (primary key [id]) and the [tasks] table (primary key
    an auto-incremented row id, so rows are kept in insertion order). *)
Record Database := { runs : list RunRow; taskRows : list TaskRow }.

(** [d.toISOString()]: only a [Date] has the method. *)
Definition toISOString (t : Timestamp) : Result Z :=
  match t with
  | Date ms => Ok ms
  | ISO _ => Err (JsError "toISOString is not a function")
  end.

(** [d?.toISOString()] *)
Definition toISOStringOpt (t : option Timestamp) : Result (option Z) :=
  match t with
  | None => Ok None
  | Some d => rbind (toISOString d) (fun s => Ok (Some s))
  end.

(** [x ? JSON.stringify(x) : null] *)
Definition stringifyIfTruthy (v : JSVal) : option JValue :=
  if truthy v then v else None.

(** [s || null] on an optional string. *)
Definition nonEmpty (s : option string) : option string :=
  match s with
  | Some m => if String.eqb m EmptyString then None else Some m
  | None => None
  end.

Definition taskRow (runId : string) (taskExec : TaskExecution) : Result TaskRow :=
  rbind (toISOStringOpt (te_startedAt taskExec)) (fun started =>
  rbind (toISOStringOpt (te_completedAt taskExec)) (fun completed =>
  Ok {| k_run_id := runId;
         k_task_id := task_id (te_task taskExec);
         k_task_name := task_name (te_task taskExec);
         k_status := te_status taskExec;
         k_started_at := started;
         k_completed_at := completed;
         k_attempts := te_attempts taskExec;
         k_result_output :=
           match te_result taskExec with
           | Some r => stringifyIfTruthy (res_output r)
           | None => None
           end;
         k_result_error :=
           match te_result taskExec with
           | Some r => nonEmpty (res_error r)
           | None => None
           end;
         k_result_metadata :=
           match te_result taskExec with
           | Some r => stringifyIfTruthy (res_metadata r)
           | None => None
           end |})).

(** The [for] loop of [savePipelineRun]: one [INSERT] per task. *)
Fixpoint insertTasks (runId : string) (tes : list TaskExecution) (db : Database)
    : Result Database :=
  match tes with
  | [] => Ok db
  | taskExec :: rest =>
      rbind (taskRow runId taskExec) (fun row =>
        insertTasks runId rest {| runs := runs db; taskRows := taskRows db ++ [row] |})
  end.

(** [INSERT OR REPLACE] on the primary key [id]. *)
Definition replaceRun (row : RunRow) (rows : list RunRow) : list RunRow :=
  filter (fun r => negb (String.eqb (r_id r) (r_id row))) rows ++ [row].

Definition savePipelineRun (run : PipelineRun) (db : Database) : Result Database :=
  rbind (toISOString (run_startedAt run)) (fun started =>
  rbind (toISOStringOpt (run_completedAt run)) (fun completed =>
  let row := {| r_id := run_id run;
                r_pipeline_name := run_pipelineName run;
                r_status := run_status run;
                r_started_at := started;
                r_completed_at := completed;
                r_trigger_type := trigger_type (run_trigger run);
                r_trigger_config := trigger_config (run_trigger run);
                r_error_text := run_error run |} in
  insertTasks (run_id run) (run_tasks run)
    {| runs := replaceRun row (runs db); taskRows := taskRows db |})).

Definition taskOfRow (row : TaskRow) : TaskExecution :=
  {| te_task := {| task_id := k_task_id row;
                   task_name := k_task_name row;
                   task_description := None;
                   task_plugin := EmptyString;
                   task_config := JObj [];
                   task_dependsOn := None;
                   task_retry := None;
                   task_timeout := None;
                   task_enabled := None |};
     te_status := k_status row;
     te_startedAt := Date <$> k_started_at row;
     te_completedAt := Date <$> k_completed_at row;
     te_attempts := k_attempts row;
     te_result :=
       Some {| res_success := bool_decide (k_status row = TaskStatus.success);
               res_output := k_result_output row;
               res_error := nonEmpty (k_result_error row);
               res_metadata := k_result_metadata row |} |}.

Definition getPipelineRun (runId : string) (db : Database) : Result (option PipelineRun) :=
  match find (fun r => String.eqb (r_id r) runId) (runs db) with
  | None => Ok None
  | Some runRow =>
      let taskRows := filter (fun k => String.eqb (k_run_id k) runId) (taskRows db) in
      Ok (Some {| run_id := r_id runRow;
                   run_pipelineName := r_pipeline_name runRow;
                   run_status := r_status runRow;
                   run_startedAt := Date (r_started_at runRow);
                   run_completedAt := Date <$> r_completed_at runRow;
                   run_tasks := map taskOfRow taskRows;
                   run_trigger := {| trigger_type := r_trigger_type runRow;
                                     trigger_config := r_trigger_config runRow |};
                   run_error := nonEmpty (r_error_text runRow) |})
  end.

#[global] Instance manager : Store.StateManager Database :=
  {| Store.savePipelineRun := savePipelineRun;
     Store.getPipelineRun := getPipelineRun |}.

End SQLiteState.

(** ** The executor ([src/core/executor.ts]) *)

Module Executor.

Record ExecutorOptions := {
  opt_maxConcurrency : option Z;
  opt_timeout : option Z;
  opt_continueOnError : option bool
}.

Record Options := { maxConcurrency : Z; timeout : Z; continueOnError : bool }.

(** [x || d] on an optional number. *)
Definition orZ (x : option Z) (d : Z) : Z :=
  match x with
  | Some n => if n =? 0 then d else n
  | None => d
  end.

(** The constructor of [PipelineExecutor]. *)
Definition PipelineExecutor (o : ExecutorOptions) : Options :=
  {| maxConcurrency := orZ (opt_maxConcurrency o) 5;
     timeout := orZ (opt_timeout o) 0;
     continueOnError := default false (opt_continueOnError o) |}.

Record ExecutionContext := {
  ctx_pipeline : Pipeline;
  ctx_task : Task;
  ctx_executionId : string;
  ctx_previousResults : gmap string PluginResult;
  ctx_variables : JValue
}.

(** How the promise returned by [plugin.execute] settles. *)
Inductive Settled := Resolved (result : PluginResult) | Rejected (error : Exn).

(** A plugin: for a configuration, a context and the number of the attempt,
    the time (ms) its promise stays pending and the way it settles. *)
Record Plugin := { execute : JValue -> ExecutionContext -> Z -> nat * Settled }.

(** [pluginLoader.loadPlugin(name)] *)
Definition PluginLoader := string -> option Plugin.

(** *** The event loop

    [executeTask] is an [async] function whose body is cut at its [await]s;
    each piece is a job.  A task execution is designated by its position in
    [run.tasks]: the records are shared and mutated in place.  (A position
    outside [run.tasks] designates no record, and reading it throws; the
    loops below never produce one.) *)
Inductive Job :=
| Launch (i : nat)
    (* [executeTaskWithConcurrency] resumes after [await this.waitForSlot()] *)
| AfterLoad (i : nat) (attached : bool)
    (* [executeTask] resumes after [await this.pluginLoader.loadPlugin(..)] *)
| PluginSettled (i : nat) (attached : bool) (outcome : Settled)
    (* the promise of the plugin (or of [executeWithTimeout]) settled *)
| FlowSettled (i : nat) (res : option Exn)
    (* [executeTaskWithConcurrency] resumes after [await executionPromise]
       on a promise that [executeTask] returned already settled *)
| RetryTimer (i : nat).
    (* the callback that [setTimeout] armed for a retry *)

(** [attached] tells whether the promise of the [executeTask] call is
    awaited by [executeTaskWithConcurrency] (and so by [Promise.all]) or was
    started by a retry timer, whose rejection is only logged. *)
Definition isAttached (j : Job) : bool :=
  match j with
  | Launch _ | FlowSettled _ _ => true
  | AfterLoad _ a | PluginSettled _ a _ => a
  | RetryTimer _ => false
  end.

Record World := {
  now : Z;
  tasks : list TaskExecution;            (* [run.tasks] *)
  microtasks : list Job;
  macrotasks : list (Z * Job);           (* timers and pending plugin calls, by due time *)
  activeExecutions : gmap string nat;    (* task id -> the registered promise *)
  waiting : list (nat * list nat);       (* flows in [waitForSlot], with the promises raced *)
  rejected : option Exn;                 (* the first rejection seen by [Promise.all] *)
  calls : list ExecutionContext          (* the contexts handed to [plugin.execute] *)
}.

Definition setTasks (ts : list TaskExecution) (w : World) : World :=
  {| now := now w; tasks := ts; microtasks := microtasks w; macrotasks := macrotasks w;
     activeExecutions := activeExecutions w; waiting := waiting w;
     rejected := rejected w; calls := calls w |}.

Definition queueMicrotask (j : Job) (w : World) : World :=
  {| now := now w; tasks := tasks w; microtasks := microtasks w ++ [j];
     macrotasks := macrotasks w; activeExecutions := activeExecutions w;
     waiting := waiting w; rejected := rejected w; calls := calls w |}.

(** Timers fire by due time, and in the order they were armed when equal. *)
Fixpoint insertByDue (e : Z * Job) (l : list (Z * Job)) : list (Z * Job) :=
  match l with
  | [] => [e]
  | e' :: rest => if fst e <? fst e' then e :: l else e' :: insertByDue e rest
  end.

(** The job [j] becomes due at the time [due]. *)
Definition arm (due : Z) (j : Job) (w : World) : World :=
  {| now := now w; tasks := tasks w; microtasks := microtasks w;
     macrotasks := insertByDue (due, j) (macrotasks w);
     activeExecutions := activeExecutions w; waiting := waiting w;
     rejected := rejected w; calls := calls w |}.

(** The delay of a timer of Node: a delay below 1 or above [TIMEOUT_MAX]
    is set to 1 ms. *)
Definition TIMEOUT_MAX : Z := 2147483647.

Definition timerDelay (delay : Z) : Z :=
  if (delay <? 1) || (TIMEOUT_MAX <? delay) then 1 else delay.

(** [setTimeout(j, delay)] *)
Definition setTimeout (j : Job) (delay : Z) (w : World) : World :=
  arm (now w + timerDelay delay) j w.

Definition setActive (a : gmap string nat) (w : World) : World :=
  {| now := now w; tasks := tasks w; microtasks := microtasks w;
     macrotasks := macrotasks w; activeExecutions := a;
     waiting := waiting w; rejected := rejected w; calls := calls w |}.

(** Reading a field of a record that does not exist. *)
Definition noRecord : Exn :=
  JsError "Cannot read properties of undefined".

(** Does the suspended flow [x] race on the promise of flow [i]? *)
Definition races (i : nat) (x : nat * list nat) : bool := bool_decide (i ∈ snd x).

Definition taskIdAt (i : nat) (w : World) : string :=
  match tasks w !! i with
  | Some te => task_id (te_task te)
  | None => EmptyString
  end.

Section Run.

Context (loader : PluginLoader) (options : Options)
        (pipeline : Pipeline) (executionId : string).

(** The promise of [executeTask] for task [i] settled ([res] is the
    rejection, if any).  When attached: the [finally] of
    [executeTaskWithConcurrency] runs, [Promise.all] sees the result, and the
    flows that raced on the promise in [waitForSlot] resume (or reject). *)
Definition settle (i : nat) (attached : bool) (res : option Exn) (w : World) : World :=
  if attached then
    let woken := filter (fun x => races i x) (waiting w) in
    let others := filter (fun x => negb (races i x)) (waiting w) in
    {| now := now w; tasks := tasks w;
       microtasks := microtasks w ++
                     match res with
                     | None => map (fun x => Launch (fst x)) woken
                     | Some _ => []
                     end;
       macrotasks := macrotasks w;
       activeExecutions := delete (taskIdAt i w) (activeExecutions w);
       waiting := others;
       rejected := match rejected w with Some e => Some e | None => res end;
       calls := calls w |}
  else w.

(** [executeTask], up to its first [await]. *)
Definition executeTask (i : nat) (attached : bool) (w : World) : World :=
  match tasks w !! i with
  | None => if attached then queueMicrotask (FlowSettled i (Some noRecord)) w else w
  | Some taskExecution =>
      let task := te_task taskExecution in
      if negb (default false (task_enabled task)) then
        let w' := setTasks (<[i := {| te_task := task;
                                       te_status := TaskStatus.skipped;
                                       te_result := te_result taskExecution;
                                       te_startedAt := te_startedAt taskExecution;
                                       te_completedAt := te_completedAt taskExecution;
                                       te_attempts := te_attempts taskExecution |}]> (tasks w)) w in
        if attached then queueMicrotask (FlowSettled i None) w' else w'
      else
        queueMicrotask (AfterLoad i attached)
          (setTasks (<[i := {| te_task := task;
                                te_status := TaskStatus.running;
                                te_result := te_result taskExecution;
                                te_startedAt := Some (Date (now w));
                                te_completedAt := te_completedAt taskExecution;
                                te_attempts := te_attempts taskExecution + 1 |}]> (tasks w)) w)
  end.

(** The [catch] block of [executeTask]. *)
Definition executeTask_catch (i : nat) (attached : bool) (error : Exn) (w : World) : World :=
  match tasks w !! i with
  | None => settle i attached (Some noRecord) w
  | Some taskExecution =>
      let task := te_task taskExecution in
      let failedExec := {| te_task := task;
                           te_status := TaskStatus.failed;
                           te_result := Some {| res_success := false;
                                                res_output := None;
                                                res_error := Some (message error);
                                                res_metadata := None |};
                           te_startedAt := te_startedAt taskExecution;
                           te_completedAt := Some (Date (now w));
                           te_attempts := te_attempts taskExecution |} in
      match task_retry task with
      | Some retry =>
          if te_attempts taskExecution <? retry_attempts retry then
            let w1 := setTasks (<[i := {| te_task := task;
                                           te_status := TaskStatus.pending;
                                           te_result := None;
                                           te_startedAt := None;
                                           te_completedAt := None;
                                           te_attempts := te_attempts taskExecution |}]> (tasks w)) w in
            settle i attached None (setTimeout (RetryTimer i) (retry_delay retry) w1)
          else
            settle i attached (if continueOnError options then None else Some error)
                   (setTasks (<[i := failedExec]> (tasks w)) w)
      | None =>
          settle i attached (if continueOnError options then None else Some error)
                 (setTasks (<[i := failedExec]> (tasks w)) w)
      end
  end.

(** [task.timeout || this.options.timeout] *)
Definition taskTimeout (task : Task) : Z := orZ (task_timeout task) (timeout options).

(** The promise awaited for the result, with the time it takes to settle:
    the plugin's own, or the race of [executeWithTimeout] between the plugin
    and a timer of [taskTimeout] ms; the timer, armed first, wins a tie. *)
Definition awaited (plugin : Plugin) (context : ExecutionContext) (attempt : Z)
    : Z * Settled :=
  let '(d, outcome) := execute plugin (task_config (ctx_task context)) context attempt in
  let t := taskTimeout (ctx_task context) in
  if (0 <? t) && (timerDelay t <=? Z.of_nat d) then
    (timerDelay t,
     Rejected (ExecutionError ("Task execution timed out after " +:+ pretty t +:+ "ms")))
  else (Z.of_nat d, outcome).

(** [executeTask] after [await loadPlugin]: up to the call of the plugin. *)
Definition executeTask_afterLoad (i : nat) (attached : bool) (w : World) : World :=
  match tasks w !! i with
  | None => settle i attached (Some noRecord) w
  | Some taskExecution =>
      let task := te_task taskExecution in
      match loader (task_plugin task) with
      | None =>
          executeTask_catch i attached
            (PluginError ("Plugin not found: " +:+ task_plugin task)) w
      | Some plugin =>
          let context := {| ctx_pipeline := pipeline;
                            ctx_task := task;
                            ctx_executionId := executionId;
                            ctx_previousResults := ∅;
                            ctx_variables :=
                              if truthy (pipeline_env pipeline)
                              then default (JObj []) (pipeline_env pipeline)
                              else JObj [] |} in
          let '(d, outcome) := awaited plugin context (te_attempts taskExecution) in
          let w1 := arm (now w + d) (PluginSettled i attached outcome) w in
          {| now := now w1; tasks := tasks w1; microtasks := microtasks w1;
             macrotasks := macrotasks w1; activeExecutions := activeExecutions w1;
             waiting := waiting w1; rejected := rejected w1;
             calls := calls w1 ++ [context] |}
      end
  end.

(** [executeTask] after the plugin's promise settled. *)
Definition executeTask_settled (i : nat) (attached : bool) (outcome : Settled) (w : World)
    : World :=
  match outcome with
  | Rejected error => executeTask_catch i attached error w
  | Resolved result =>
      match tasks w !! i with
      | None => settle i attached (Some noRecord) w
      | Some taskExecution =>
          let w1 := setTasks (<[i := {| te_task := te_task taskExecution;
                                         te_status := if res_success result
                                                      then TaskStatus.success
                                                      else TaskStatus.failed;
                                         te_result := Some result;
                                         te_startedAt := te_startedAt taskExecution;
                                         te_completedAt := Some (Date (now w));
                                         te_attempts := te_attempts taskExecution |}]>
                                (tasks w)) w in
          if res_success result then settle i attached None w1
          else executeTask_catch i attached
                 (ExecutionError ("Task execution failed: " +:+
                                  default "undefined" (res_error result))) w1
      end
  end.

(** [executeTaskWithConcurrency], once a slot is free. *)
Definition launch (i : nat) (w : World) : World :=
  let w1 := executeTask i true w in
  setActive (<[taskIdAt i w := i]> (activeExecutions w1)) w1.

Definition executeTaskWithConcurrency (i : nat) (w : World) : World :=
  if maxConcurrency options <=? Z.of_nat (size (activeExecutions w)) then
    if (0 <? size (activeExecutions w))%nat then
      {| now := now w; tasks := tasks w; microtasks := microtasks w;
         macrotasks := macrotasks w; activeExecutions := activeExecutions w;
         waiting := waiting w ++ [(i, (map_to_list (activeExecutions w)).*2)];
         rejected := rejected w; calls := calls w |}
    else queueMicrotask (Launch i) w
  else launch i w.

Definition runJob (j : Job) (w : World) : World :=
  match j with
  | Launch i => launch i w
  | AfterLoad i attached => executeTask_afterLoad i attached w
  | PluginSettled i attached outcome => executeTask_settled i attached outcome w
  | FlowSettled i res => settle i true res w
  | RetryTimer i => executeTask i false w
  end.

(** One turn of the event loop: the oldest microtask, else the first timer
    or plugin call that is due. *)
Definition step (w : World) : option World :=
  match microtasks w with
  | j :: rest =>
      Some (runJob j {| now := now w; tasks := tasks w; microtasks := rest;
                        macrotasks := macrotasks w;
                        activeExecutions := activeExecutions w; waiting := waiting w;
                        rejected := rejected w; calls := calls w |})
  | [] =>
      match macrotasks w with
      | (due, j) :: rest =>
          Some (runJob j {| now := Z.max (now w) due; tasks := tasks w; microtasks := [];
                            macrotasks := rest;
                            activeExecutions := activeExecutions w; waiting := waiting w;
                            rejected := rejected w; calls := calls w |})
      | [] => None
      end
  end.

(** *** Running the loop

    The number of jobs that a job can still cause is bounded by the
    attempts that the retry policy of its task leaves; [budget] adds these
    bounds and is the fuel of the loops below. *)
Definition attemptsLeft (ts : list TaskExecution) (i : nat) (k : Z) : nat :=
  match ts !! i with
  | Some te =>
      match task_retry (te_task te) with
      | Some retry => Z.to_nat (retry_attempts retry - (te_attempts te + k))
      | None => O
      end
  | None => O
  end.

Definition jobWeight (ts : list TaskExecution) (j : Job) : nat :=
  match j with
  | Launch i | RetryTimer i => 3 * attemptsLeft ts i 1 + 3
  | AfterLoad i _ => 3 * attemptsLeft ts i 0 + 2
  | PluginSettled i _ _ => 3 * attemptsLeft ts i 0 + 1
  | FlowSettled _ _ => 1
  end.

Fixpoint sumWeights (ts : list TaskExecution) (js : list Job) : nat :=
  match js with
  | [] => O
  | j :: rest => (jobWeight ts j + sumWeights ts rest)%nat
  end.

Definition budget (w : World) : nat :=
  (sumWeights (tasks w) (microtasks w) +
   sumWeights (tasks w) (map snd (macrotasks w)) +
   sumWeights (tasks w) (map (fun x => Launch (fst x)) (waiting w)))%nat.

Inductive Ending := Done | Threw (e : Exn) | Diverges.

(** Does [Promise.all] still wait for a flow? *)
Definition allSettled (w : World) : bool :=
  forallb (fun j => negb (isAttached j)) (microtasks w) &&
  forallb (fun '(_, j) => negb (isAttached j)) (macrotasks w) &&
  Nat.eqb (length (waiting w)) 0.

(** [await Promise.all(executionPromises)] *)
Fixpoint awaitAll (fuel : nat) (w : World) : World * Ending :=
  match rejected w with
  | Some e => (w, Threw e)
  | None =>
      if allSettled w then (w, Done)
      else
        match fuel with
        | O => (w, Diverges)
        | S fuel' =>
            match step w with
            | Some w' => awaitAll fuel' w'
            | None => (w, Diverges)   (* nothing left to run: the await never resumes *)
            end
        end
  end.

(** What the timers and calls still pending do to the shared records once
    [executePipeline] has returned. *)
Fixpoint drain (fuel : nat) (w : World) : option World :=
  match step w with
  | None => Some w
  | Some w' =>
      match fuel with
      | O => None
      | S fuel' => drain fuel' w'
      end
  end.

Definition statusIs (s : TaskStatus.t) (te : TaskExecution) : bool :=
  bool_decide (te_status te = s).

(** The test on one dependency in [getExecutableTasks]. *)
Definition depSatisfied (taskExecutions : list TaskExecution) (depId : string) : bool :=
  match find (fun t => String.eqb (task_id (te_task t)) depId) taskExecutions with
  | Some dep => statusIs TaskStatus.success dep || statusIs TaskStatus.skipped dep
  | None => false
  end.

Definition isExecutable (taskExecutions : list TaskExecution) (executed : gset string)
    (te : TaskExecution) : bool :=
  if bool_decide (task_id (te_task te) ∈ executed) || negb (statusIs TaskStatus.pending te)
  then false
  else forallb (depSatisfied taskExecutions) (deps (te_task te)).

(** The positions of the elements of [l] that satisfy [p], from [i] on. *)
Fixpoint positions {A} (p : A -> bool) (i : nat) (l : list A) : list nat :=
  match l with
  | [] => []
  | x :: rest => if p x then i :: positions p (S i) rest else positions p (S i) rest
  end.

(** [getExecutableTasks]: the result is given by positions in [run.tasks]. *)
Definition getExecutableTasks (taskExecutions : list TaskExecution) (executed : gset string)
    : list nat :=
  positions (isExecutable taskExecutions executed) 0 taskExecutions.

(** [executableTasks.map(taskExec => this.executeTaskWithConcurrency(..))] *)
Definition dispatch (executableTasks : list nat) (w : World) : World :=
  fold_left (fun w i => executeTaskWithConcurrency i w) executableTasks w.

(** The [while] loop of [executeTasks]. *)
Fixpoint executeTasks_loop (fuel : nat) (executed : gset string) (w : World)
    : World * Ending :=
  match fuel with
  | O => (w, Diverges)
  | S fuel' =>
      if (size executed <? length (tasks w))%nat then
        let executableTasks := getExecutableTasks (tasks w) executed in
        if Nat.eqb (length executableTasks) 0 then
          (w, Threw (ExecutionError "Pipeline deadlock - circular dependencies detected"))
        else
          let w1 := dispatch executableTasks w in
          match awaitAll (budget w1) w1 with
          | (w2, Done) =>
              executeTasks_loop fuel'
                (executed ∪ list_to_set (map (fun i => taskIdAt i w2) executableTasks)) w2
          | (w2, ending) => (w2, ending)
          end
      else (w, Done)
  end.

Definition executeTasks (w : World) : World * Ending :=
  executeTasks_loop (S (length (tasks w))) ∅ w.

(** The status that [executePipeline] derives from the task records. *)
Definition finalStatus (ts : list TaskExecution) : PipelineStatus.t :=
  let hasFailures := existsb (statusIs TaskStatus.failed) ts in
  let hasRunning := existsb (statusIs TaskStatus.running) ts in
  let allSkipped := forallb (statusIs TaskStatus.skipped) ts in
  if hasRunning then PipelineStatus.running
  else if hasFailures then PipelineStatus.failed
  else if allSkipped then PipelineStatus.cancelled
  else PipelineStatus.success.

Definition manualTrigger : PipelineTrigger :=
  {| trigger_type := manual; trigger_config := JObj [] |}.

Definition newExecution (task : Task) : TaskExecution :=
  {| te_task := task; te_status := TaskStatus.pending; te_result := None;
     te_startedAt := None; te_completedAt := None; te_attempts := 0 |}.

Definition initialWorld (startTime : Z) (taskExecutions : list TaskExecution) : World :=
  {| now := startTime; tasks := taskExecutions; microtasks := []; macrotasks := [];
     activeExecutions := ∅; waiting := []; rejected := None; calls := [] |}.

(** The record that [executePipeline] creates, with one pending execution
    per task. *)
Definition newRun (startTime : Z) : PipelineRun :=
  {| run_id := executionId;
     run_pipelineName := pipeline_name pipeline;
     run_status := PipelineStatus.running;
     run_startedAt := Date startTime;
     run_completedAt := None;
     run_tasks := map newExecution (pipeline_tasks pipeline);
     run_trigger := manualTrigger;
     run_error := None |}.

(** The record when the [finally] block saves it: [ending] tells whether
    the [try] block ran to its end or threw. *)
Definition completedRun (run : PipelineRun) (w : World) (ending : Ending) : PipelineRun :=
  {| run_id := run_id run;
     run_pipelineName := run_pipelineName run;
     run_status := match ending with
                   | Threw _ => PipelineStatus.failed
                   | _ => finalStatus (tasks w)
                   end;
     run_startedAt := run_startedAt run;
     run_completedAt := Some (Date (now w));
     run_tasks := tasks w;
     run_trigger := run_trigger run;
     run_error := match ending with
                  | Threw error => Some (message error)
                  | _ => None
                  end |}.

(** The [try] block of [executePipeline]: the first save, then
    [executeTasks]. *)
Definition executePipeline_try {S} `{Store.StateManager S} (startTime : Z) (store : S)
    : World * S * Ending :=
  let run := newRun startTime in
  let w0 := initialWorld startTime (run_tasks run) in
  match Store.savePipelineRun run store with
  | Ok store1 => let '(w, ending) := executeTasks w0 in (w, store1, ending)
  | Err e => (w0, store, Threw e)
  end.

(** [executePipeline], called at [startTime] on an executor with no
    execution in flight.  Besides the run it returns the event loop as it
    stands at the [return] (the records of [run.tasks] stay shared with the
    jobs still pending) and the state store. *)
Definition executePipeline {S} `{Store.StateManager S} (startTime : Z) (store : S)
    : Outcome (PipelineRun * World * S) :=
  let '(w, store1, ending) := executePipeline_try startTime store in
  match ending with
  | Diverges => OutOfFuel
  | _ =>
      let run := completedRun (newRun startTime) w ending in
      match Store.savePipelineRun run store1 with
      | Ok store2 => Ret (run, w, store2)
      | Err e => Throw e
      end
  end.

End Run.
End Executor.

(** ** The scheduler ([src/core/scheduler.ts]) *)

Module Scheduler.

Definition parseCronToInterval (expression : string) : Z :=
  let parts := split " " expression in
  if Nat.eqb (length parts) 5 then 60000 else 60000.

(** The closure state of a job made by [createCronJob]: the interval
    computed once from the expression, the [running] flag and the due time
    of the armed timer. *)
Record CronJob := {
  interval : Z;
  running : bool;
  timeoutId : option Z
}.

Definition createCronJob (expression timezone : string) : CronJob :=
  {| interval := parseCronToInterval expression; running := false; timeoutId := None |}.

(** [job.start()] at time [now] *)
Definition start (now : Z) (job : CronJob) : CronJob :=
  if running job then job
  else {| interval := interval job; running := true;
          timeoutId := Some (now + interval job) |}.

(** [job.stop()] *)
Definition stop (job : CronJob) : CronJob :=
  {| interval := interval job; running := false; timeoutId := None |}.

(** The armed timer fires: [execute] runs the callback and arms the next
    timer.  The result is the time of the firing and the job afterwards. *)
Definition fire (job : CronJob) : option (Z * CronJob) :=
  match timeoutId job with
  | Some due =>
      if running job
      then Some (due, {| interval := interval job; running := true;
                         timeoutId := Some (due + interval job) |})
      else None
  | None => None
  end.

(** The times of the first [n] firings. *)
Fixpoint fireTimes (n : nat) (job : CronJob) : list Z :=
  match n with
  | O => []
  | S n' =>
      match fire job with
      | Some (t, job') => t :: fireTimes n' job'
      | None => []
      end
  end.

(** What [executeScheduledPipeline] leaves: the line it logs and the state
    store.  [executionId] is the fresh identifier that [uuidv4()] returns
    and [now] the time of the firing. *)
Inductive Logged :=
| Completed (status : PipelineStatus.t)
| Failed (error : string)
| NoReturn.

Definition executeScheduledPipeline {S} `{Store.StateManager S}
    (loader : Executor.PluginLoader) (options : Executor.Options)
    (pipeline : Pipeline) (trigger : PipelineTrigger) (jobId : string)
    (executionId : string) (now : Z) (store : S) : Logged * option S :=
  match Executor.executePipeline loader options pipeline executionId now store with
  | Ret (run, _, store') => (Completed (run_status run), Some store')
  | Throw error => (Failed (message error), None)
  | OutOfFuel => (NoReturn, None)
  end.

End Scheduler.
(** * Notions used in the statements *)

Module ParserSpec.
Import Parser.

Definition universe (tasks : list Task) : gset string := list_to_set (all_ids tasks).

(** The errors that the cycle and reference checks produce. *)
Definition isDagMessage (m : string) : Prop :=
  (exists x, m = "Circular dependency detected involving task: " +:+ x) \/
  (exists x y, m = "Task " +:+ quoted x +:+ " depends on non-existent task: " +:+ y).

Record Extends (tasks : list Task) (st st' : DfsState) : Prop := {
  ext_visited : visited st ⊆ visited st';
  ext_errors : exists new, dfs_errors st' = dfs_errors st ++ new /\ Forall isDagMessage new
}.

(** A task with no dependencies on which no task depends. *)
Definition isRoot (tasks : list Task) (t : Task) : Prop :=
  deps t = [] /\ Forall (fun t' => task_id t ∉ deps t') tasks.

#[global] Instance isRoot_dec tasks t : Decision (isRoot tasks t).
Proof. unfold isRoot. apply _. Defined.

(** A validation step is tame when it returns or throws (it never runs out
    of fuel) and only appends to the two arrays. *)
Definition Tame {A} (m : V A) : Prop :=
  forall d, match m d with
            | Ret (_, d') => (exists w, ws d' = ws d ++ w) /\ (exists e, es d' = es d ++ e)
            | Throw _ => True
            | OutOfFuel => False
            end.

(** The pipeline and the diagnostics that the validator computes, for an
    input that can be read: the decoder returns a document, the document has
    a truthy [pipeline] key and [validatePipeline] does not throw. *)
Definition validated (D : Decoders) (content : string) : option (Pipeline * Diags) :=
  match decode D content with
  | Ret config =>
      match rootPipeline config with
      | Ret (Some pv) =>
          if truthy (Some pv) then
            match validatePipeline pv {| ws := []; es := [] |} with
            | Ret x => Some x
            | _ => None
            end
          else None
      | _ => None
      end
  | _ => None
  end.

Definition exampleDecoders (doc : JValue) : Decoders :=
  {| JSON_parse := fun _ => inr doc; yaml_load := fun _ => inr (Some doc) |}.

Definition defaultParser : Options :=
  PipelineParser {| opt_validate := None; opt_strict := None |}.

(** [pipeline: {name: p, version: '1'}]: no [tasks] key. *)
Definition noTasksDoc : JValue :=
  JObj [("pipeline", JObj [("name", JStr "p"); ("version", JStr "1")])].

End ParserSpec.

Module StoreSpec.

Definition httpTask : Task :=
  {| task_id := "fetch"; task_name := "Fetch"; task_description := None;
     task_plugin := "http_get";
     task_config := JObj [("url", JStr "https://example.org/data")];
     task_dependsOn := Some []; task_retry := None; task_timeout := None;
     task_enabled := Some true |}.

(** A run of one pending task, as [executePipeline] first saves it. *)
Definition startedRun : PipelineRun :=
  {| run_id := "run-1"; run_pipelineName := "p";
     run_status := PipelineStatus.running; run_startedAt := Date 1000;
     run_completedAt := None;
     run_tasks := [{| te_task := httpTask; te_status := TaskStatus.pending;
                      te_result := None; te_startedAt := None;
                      te_completedAt := None; te_attempts := 0 |}];
     run_trigger := {| trigger_type := manual; trigger_config := JObj [] |};
     run_error := None |}.

Definition emptyDatabase : SQLiteState.Database :=
  {| SQLiteState.runs := []; SQLiteState.taskRows := [] |}.

(** What [getPipelineRun] of the relational backend gives for every task:
    no plugin, no configuration, and always a result. *)
Definition forgotten (te : TaskExecution) : Prop :=
  task_plugin (te_task te) = EmptyString /\
  task_config (te_task te) = JObj [] /\
  task_dependsOn (te_task te) = None /\
  te_result te <> None.

End StoreSpec.

Module ExecutorSpec.
Import Executor.

(** The jobs that the event loop still has to run. *)
Definition jobs (w : World) : list Job := microtasks w ++ map snd (macrotasks w).

(** The [executeTask] call, awaited by [executeTaskWithConcurrency], that
    a job belongs to. *)
Definition flowOf (j : Job) : option nat :=
  match j with
  | Launch i | FlowSettled i _ => Some i
  | AfterLoad i true | PluginSettled i true _ => Some i
  | _ => None
  end.

Definition hasJob (i : nat) (w : World) : Prop :=
  exists J, J ∈ jobs w /\ flowOf J = Some i.

(** Every flow suspended in [waitForSlot] races on a promise that is still
    pending, and so does every promise registered in [activeExecutions]. *)
Record Inv (w : World) : Prop := {
  inv_waiting : forall k snap, (k, snap) ∈ waiting w -> exists i, i ∈ snap /\ hasJob i w;
  inv_active : forall id i, activeExecutions w !! id = Some i ->
                            hasJob i w /\ id = taskIdAt i w
}.

Definition lighter (ts' ts : list TaskExecution) : Prop :=
  forall i k, (attemptsLeft ts' i k <= attemptsLeft ts i k)%nat.

(** What every piece of [executeTask] does to the event loop. *)
Record Ext (w w' : World) : Prop := {
  ext_tasks : map te_task (tasks w') = map te_task (tasks w);
  ext_lighter : lighter (tasks w') (tasks w);
  ext_jobs : forall J, J ∈ jobs w -> J ∈ jobs w';
  ext_waiting : forall x, x ∈ waiting w' -> x ∈ waiting w;
  ext_active : forall id i, activeExecutions w' !! id = Some i ->
                 activeExecutions w !! id = Some i \/
                 (hasJob i w' /\ id = taskIdAt i w);
  ext_calls : forall c, c ∈ calls w' -> c ∈ calls w \/ ctx_previousResults c = ∅
}.

(** The promise of flow [i] settled: nothing races on it any more and it is
    no longer registered. *)
Definition Gone (i : nat) (w w' : World) : Prop :=
  (forall k snap, (k, snap) ∈ waiting w' -> i ∉ snap) /\
  activeExecutions w' !! taskIdAt i w = None.

(** What running the loop never changes: the task of each record, and that
    the contexts handed to plugins carry no previous result. *)
Record Stable (w w' : World) : Prop := {
  st_tasks : map te_task (tasks w') = map te_task (tasks w);
  st_calls : forall c, c ∈ calls w' -> c ∈ calls w \/ ctx_previousResults c = ∅
}.

(** The exception that the [try] block of [executePipeline] catches. *)
Definition caught {S} `{Store.StateManager S} (loader : PluginLoader) (options : Options)
    (pipeline : Pipeline) (executionId : string) (startTime : Z) (store : S) : option Exn :=
  match snd (executePipeline_try loader options pipeline executionId startTime store) with
  | Threw e => Some e
  | _ => None
  end.

(** The execution record after a failed attempt that is retried, and after
    one that is not. *)
Definition resetForRetry (te : TaskExecution) : TaskExecution :=
  {| te_task := te_task te; te_status := TaskStatus.pending; te_result := None;
     te_startedAt := None; te_completedAt := None; te_attempts := te_attempts te |}.

Definition finalizedFailed (te : TaskExecution) (error : Exn) (time : Z) : TaskExecution :=
  {| te_task := te_task te; te_status := TaskStatus.failed;
     te_result := Some {| res_success := false; res_output := None;
                          res_error := Some (message error); res_metadata := None |};
     te_startedAt := te_startedAt te; te_completedAt := Some (Date time);
     te_attempts := te_attempts te |}.

(** *** Example pipelines and plugins *)

Definition simpleTask (id : string) (dependsOn : list string) (retry : option Retry) : Task :=
  {| task_id := id; task_name := id; task_description := None; task_plugin := id;
     task_config := JObj []; task_dependsOn := Some dependsOn; task_retry := retry;
     task_timeout := None; task_enabled := Some true |}.

Definition pipelineOf (ts : list Task) : Pipeline :=
  {| pipeline_name := "example"; pipeline_version := "1.0.0"; pipeline_description := None;
     pipeline_tasks := ts; pipeline_triggers := None; pipeline_concurrency := None;
     pipeline_env := None; pipeline_timeout := None |}.

(** A plugin that returns [{success: true, output: {ok: true}}] after [d] ms. *)
Definition succeeds (d : nat) : Plugin :=
  {| execute := fun _ _ _ =>
       (d, Resolved {| res_success := true; res_output := Some (JObj [("ok", JBool true)]);
                       res_error := None; res_metadata := None |}) |}.

(** A plugin that returns [{success: false, error: msg}] after [d] ms. *)
Definition failsWith (d : nat) (msg : string) : Plugin :=
  {| execute := fun _ _ _ =>
       (d, Resolved {| res_success := false; res_output := None;
                       res_error := Some msg; res_metadata := None |}) |}.

(** A plugin that throws after [d1] ms at its first call and after [d2] ms
    at the next ones. *)
Definition throwsAfter (d1 d2 : nat) : Plugin :=
  {| execute := fun _ _ attempt =>
       if attempt =? 1 then (d1, Rejected (JsError "connection reset"))
       else (d2, Rejected (JsError "connection reset")) |}.

Definition defaultExecutor : Options :=
  PipelineExecutor {| opt_maxConcurrency := None; opt_timeout := None;
                      opt_continueOnError := None |}.

(** [a -> b -> c], the plugin of [b] returns [{success: false, error: "boom"}]. *)
Definition chain : Pipeline :=
  pipelineOf [simpleTask "a" [] None; simpleTask "b" ["a"] None; simpleTask "c" ["b"] None].

Definition chainLoader : PluginLoader :=
  fun name => if String.eqb name "b" then Some (failsWith 5 "boom") else Some (succeeds 5).

(** [fetch -> transform -> load], every plugin succeeds. *)
Definition linear : Pipeline :=
  pipelineOf [simpleTask "fetch" [] None; simpleTask "transform" ["fetch"] None;
              simpleTask "load" ["transform"] None].

(** [root -> {flaky, steady}]: [flaky] may be retried once, after 1 ms; its
    plugin throws after 1 ms, then after 100 ms; [steady] succeeds after
    10 ms. *)
Definition fork : Pipeline :=
  pipelineOf [simpleTask "root" [] None;
              simpleTask "flaky" ["root"] (Some {| retry_attempts := 2; retry_delay := 1 |});
              simpleTask "steady" ["root"] None].

Definition forkLoader : PluginLoader :=
  fun name => if String.eqb name "flaky" then Some (throwsAfter 1 100) else Some (succeeds 10).

Definition statuses (ts : list TaskExecution) : list (string * TaskStatus.t) :=
  map (fun te => (task_id (te_task te), te_status te)) ts.

(** The task whose plugin call a job carries on. *)
Definition inFlight (j : Job) : option nat :=
  match j with
  | AfterLoad i _ | PluginSettled i _ _ => Some i
  | _ => None
  end.

Definition jobIndex (j : Job) : nat :=
  match j with
  | Launch i | AfterLoad i _ | PluginSettled i _ _ | FlowSettled i _ | RetryTimer i => i
  end.

Definition retried (ts : list TaskExecution) (i : nat) : Prop :=
  exists te, ts !! i = Some te /\ task_retry (te_task te) <> None.

(** A record is [running] only while a job carries on its plugin call, and
    only a task with a retry policy has jobs that no one awaits.  [x] is the
    record, if any, whose job is being run. *)
Definition Flight (x : option nat) (w : World) : Prop :=
  (forall i te, x <> Some i -> tasks w !! i = Some te ->
                te_status te = TaskStatus.running ->
                exists J, J ∈ jobs w /\ inFlight J = Some i) /\
  (forall J, J ∈ jobs w -> isAttached J = false -> retried (tasks w) (jobIndex J)).

End ExecutorSpec.

Module DagSpec.
Import Parser.

(** The dependency graph as [detectCycles] walks it: from an id to the
    dependencies of the first task that has this id. *)
Definition dependsOn (tasks : list Task) (x y : string) : Prop :=
  exists task, find (fun t => String.eqb (task_id t) x) tasks = Some task /\ y ∈ deps task.

(** [x] lies on a cycle of the dependency graph. *)
Definition onCycle (tasks : list Task) (x : string) : Prop := tc (dependsOn tasks) x x.

Definition circularError (x : string) : string :=
  "Circular dependency detected involving task: " +:+ x.

Definition danglingError (taskId depId : string) : string :=
  "Task " +:+ quoted taskId +:+ " depends on non-existent task: " +:+ depId.

(** The ids that the search has left for good. *)
Definition finished (st : DfsState) : gset string := visited st ∖ recursionStack st.

(** A set of ids that the graph does not leave and that holds no cycle. *)
Definition Settled (tasks : list Task) (B : gset string) : Prop :=
  (forall b y, b ∈ B -> dependsOn tasks b y -> y ∈ B) /\
  (forall b, b ∈ B -> ~ onCycle tasks b).

(** What a call of [detectCycles] guarantees, given that the recursion
    stack is a path to the id it is called on. *)
Definition DfsPost (tasks : list Task) (taskId : string) (st st' : DfsState) : Prop :=
  recursionStack st' = recursionStack st /\
  visited st ⊆ visited st' /\
  taskId ∈ visited st' /\
  exists new, dfs_errors st' = dfs_errors st ++ new /\
    Forall (fun m => exists x, m = circularError x /\ onCycle tasks x) new /\
    (new = [] -> Settled tasks (finished st) ->
     Settled tasks (finished st') /\ taskId ∈ finished st').

(** A message of the first loop of [validateDAGStructure] over [todo]. *)
Definition loopMessage (tasks : list Task) (taskIds : gset string) (todo : list Task)
    (m : string) : Prop :=
  (exists x, m = circularError x /\ onCycle tasks x) \/
  (exists task d, task ∈ todo /\ d ∈ deps task /\ (d ∉ taskIds) /\
                  m = danglingError (task_id task) d).

End DagSpec.

Module TasksSpec.
Import Parser.

(** What the validator guarantees of every task it lets through.  (Of the
    delay of a retry policy it guarantees nothing: [Math.max(0, delay)] is
    [NaN] when the document says so.) *)
Record wellFormed (t : Task) : Prop := {
  wf_id : task_id t <> EmptyString;
  wf_name : task_name t <> EmptyString;
  wf_plugin : task_plugin t <> EmptyString;
  wf_dependsOn : is_Some (task_dependsOn t);
  wf_enabled : is_Some (task_enabled t);
  wf_retry : forall r, task_retry t = Some r -> 1 <= retry_attempts r;
  wf_timeout : forall n, task_timeout t = Some n -> 0 < n
}.

(** The two exceptions of [validateTasks]: [(t.name as string)?.trim()] on
    a name that is neither a string nor nullish, and the conversion to a
    string, for the error message, of an entry of [dependsOn] that cannot be
    converted. *)
Definition nameError : Exn := JsError "t.name?.trim is not a function".
Definition conversionError : Exn := JsError notPrintable.

(** The entries of the array that make [validateTasks] throw: a name that
    is neither a string nor nullish, an entry of [dependsOn] that cannot be
    converted to a string. *)
Definition badName (task : JValue) : Prop :=
  match prop "name" task with
  | None | Some JNull | Some (JStr _) => False
  | Some _ => True
  end.

Definition unprintable (dependsOn : JSVal) : Prop :=
  exists items dep, dependsOn = Some (JArr items) /\ dep ∈ items /\ printable dep = false.

(** A validation step that throws nothing but [nameError], and this only
    when [P] holds, and [conversionError], and this only when [Q] holds (and
    that does not run out of fuel). *)
Definition Raises {A} (P Q : Prop) (m : V A) : Prop :=
  forall d, match m d with
            | Ret _ => True
            | Throw e => (e = nameError /\ P) \/ (e = conversionError /\ Q)
            | OutOfFuel => False
            end.

(** A postcondition on the value that a validation step returns. *)
Definition Post {A} (m : V A) (Q : A -> Prop) : Prop :=
  forall d, match m d with
            | Ret (a, _) => Q a
            | _ => True
            end.

(** The state of the loop of [validateTasks]: the set [taskIds] holds the
    ids of the tasks validated so far, which are distinct and well formed. *)
Definition Good (st : list Task * gset string) : Prop :=
  snd st = list_to_set (map task_id (fst st)) /\
  NoDup (map task_id (fst st)) /\
  Forall wellFormed (fst st).

End TasksSpec.

Module ParseSpec.
Import Parser ParserSpec DagSpec TasksSpec.

(** What a configuration that passed validation guarantees. *)
Record Valid (p : Pipeline) : Prop := {
  valid_name : pipeline_name p <> EmptyString;
  valid_version : pipeline_version p <> EmptyString;
  valid_ids : NoDup (map task_id (pipeline_tasks p));
  valid_tasks : Forall wellFormed (pipeline_tasks p);
  valid_acyclic : forall x, ~ onCycle (pipeline_tasks p) x;
  valid_deps : forall task d, task ∈ pipeline_tasks p -> d ∈ deps task ->
                              d ∈ map task_id (pipeline_tasks p);
  valid_root : (length (filter (isRoot (pipeline_tasks p)) (pipeline_tasks p)) <= 1)%nat
}.

(** [{pipeline: {name: 'etl', version: '1.0.0', tasks: [fetch, load]}}]
    where [load] depends on [fetch]. *)
Definition etlDoc : JValue :=
  JObj [("pipeline",
         JObj [("name", JStr "etl"); ("version", JStr "1.0.0");
               ("tasks",
                JArr [JObj [("id", JStr "fetch"); ("name", JStr "Fetch");
                            ("plugin", JStr "http_get");
                            ("config", JObj [("url", JStr "https://example.org/data")])];
                      JObj [("id", JStr "load"); ("name", JStr "Load");
                            ("plugin", JStr "bigquery_load");
                            ("dependsOn", JArr [JStr "fetch"]);
                            ("retry", JObj [("attempts", JNum 3); ("delay", JNum 500)])]])])].

(** [fetch -> load], as the parser returns it for [etlDoc]. *)
Definition etlPipeline : Pipeline :=
  Eval vm_compute in
    match validatePipeline
            (default (JObj []) (prop "pipeline" etlDoc))
            {| ws := []; es := [] |} with
    | Ret (pl, _) => pl
    | _ => ExecutorSpec.pipelineOf []
    end.

End ParseSpec.

(** ** The run history of the file backend ([src/core/state.ts]) *)

Module FileRuns.
Import FileState.

(** [x.startedAt.getTime()]: only a [Date] has the method; [who] is the
    name of the variable in the comparator. *)
Definition getTime (who : string) (t : Timestamp) : Result Z :=
  match t with
  | Date ms => Ok ms
  | ISO _ => Err (JsError (who +:+ ".startedAt.getTime is not a function"))
  end.

(** The comparator of [getPipelineRuns]:
    [(a, b) => b.startedAt.getTime() - a.startedAt.getTime()] *)
Definition newestFirst (a b : PipelineRun) : Result Z :=
  rbind (getTime "b" (run_startedAt b)) (fun tb =>
  rbind (getTime "a" (run_startedAt a)) (fun ta => Ok (tb - ta))).

(** [Array.prototype.sort] with a comparator: the sort is stable and gives
    up at the first exception of the comparator; an array of fewer than two
    elements is returned without any call.  The order of the calls, which
    the language leaves open, is that of an insertion from the left, the
    element inserted being the second argument. *)
Fixpoint insertSorted {A} (compareFn : A -> A -> Result Z) (x : A) (l : list A)
    : Result (list A) :=
  match l with
  | [] => Ok [x]
  | y :: rest =>
      rbind (compareFn y x) (fun c =>
        if c <=? 0 then rbind (insertSorted compareFn x rest) (fun l' => Ok (y :: l'))
        else Ok (x :: y :: rest))
  end.

Definition sort {A} (compareFn : A -> A -> Result Z) (l : list A) : Result (list A) :=
  fold_left (fun acc x => rbind acc (insertSorted compareFn x)) l (Ok []).

(** [l.slice(0, limit)] *)
Definition slice0 {A} (limit : Z) (l : list A) : list A :=
  if limit <? 0 then take (Z.to_nat (Z.of_nat (length l) + limit)) l
  else take (Z.to_nat limit) l.

Definition getPipelineRuns (pipelineName : string) (limit : Z) (disk : Disk)
    : Result (list PipelineRun) :=
  rbind (getRuns disk) (fun runs =>
  rbind (sort newestFirst
           (filter (fun r => String.eqb (run_pipelineName r) pipelineName) runs))
        (fun sorted => Ok (slice0 limit sorted))).

(** [run.startedAt > cutoff], where [cutoff] is a [Date]: a [Date] compares
    by its time value; an ISO string is converted to a number, which gives
    [NaN], and the comparison is false. *)
Definition startedAfter (cutoff : Z) (run : PipelineRun) : bool :=
  match run_startedAt run with
  | Date ms => cutoff <? ms
  | ISO _ => false
  end.

(** [cutoff.setDate(cutoff.getDate() - retentionDays)] on [new Date()], in
    a time zone whose clock does not shift in between. *)
Definition cutoffDate (now retentionDays : Z) : Z := now - retentionDays * 86400000.

(** [cleanupOldRuns(retentionDays)] called at [now]: the count it returns
    and the file afterwards. *)
Definition cleanupOldRuns (retentionDays : Z) (now : Z) (disk : Disk) : Result (Z * Disk) :=
  let cutoff := cutoffDate now retentionDays in
  rbind (getRuns disk) (fun runs =>
    let keptRuns := filter (fun run => startedAfter cutoff run) runs in
    let deletedCount := Z.of_nat (length runs) - Z.of_nat (length keptRuns) in
    if 0 <? deletedCount then
      rbind (setRuns keptRuns disk) (fun disk' => Ok (deletedCount, disk'))
    else Ok (deletedCount, disk)).

End FileRuns.

Module StoreSpec2.
Import FileState.

(** The runs that the file holds. *)
Definition stored (disk : Disk) : list PipelineRun :=
  match getRuns disk with
  | Ok runs => runs
  | Err _ => []
  end.

(** Every timestamp of the run is an ISO string. *)
Definition startedAsText (r : PipelineRun) : Prop := exists ms, run_startedAt r = ISO ms.

(** The part of a task execution that the relational backend keeps. *)
Definition kept (te : TaskExecution)
    : string * string * TaskStatus.t * Z * option Timestamp * option Timestamp :=
  (task_id (te_task te), task_name (te_task te), te_status te, te_attempts te,
   te_startedAt te, te_completedAt te).

(** A second run of the pipeline of [startedRun]. *)
Definition secondRun : PipelineRun :=
  {| run_id := "run-2"; run_pipelineName := "p";
     run_status := PipelineStatus.success; run_startedAt := Date 5000;
     run_completedAt := Some (Date 6000);
     run_tasks := [{| te_task := StoreSpec.httpTask; te_status := TaskStatus.success;
                      te_result := None; te_startedAt := Some (Date 5000);
                      te_completedAt := Some (Date 6000); te_attempts := 1 |}];
     run_trigger := {| trigger_type := manual; trigger_config := JObj [] |};
     run_error := None |}.

End StoreSpec2.

(** ** The [run] command ([src/cli/commands/run.ts]) *)

Module RunCommand.

(** [task.enabled], as a condition. *)
Definition isEnabled (task : Task) : bool := default false (task_enabled task).

(** The [for] loop of [generateExecutionPlan]: the ids of the enabled tasks
    not yet planned whose dependencies are all planned. *)
Definition nextBatch (tasks : list Task) (executed : gset string) : list string :=
  map task_id
    (filter (fun task =>
               negb (bool_decide (task_id task ∈ executed) || negb (isEnabled task)) &&
               forallb (fun dep => bool_decide (dep ∈ executed)) (deps task))
            tasks).

(** The [while] loop of [generateExecutionPlan]; [fuel] bounds its turns. *)
Fixpoint plan_loop (fuel : nat) (tasks : list Task) (executed : gset string)
    (plan : list (list string)) : option (list (list string)) :=
  match fuel with
  | O => None
  | S fuel' =>
      if (size executed <? length tasks)%nat then
        let batch := nextBatch tasks executed in
        if Nat.eqb (length batch) 0 then Some plan
        else plan_loop fuel' tasks (executed ∪ list_to_set batch) (plan ++ [batch])
      else Some plan
  end.

Definition generateExecutionPlan (pipeline : Pipeline) : option (list (list string)) :=
  plan_loop (S (length (pipeline_tasks pipeline))) (pipeline_tasks pipeline) ∅ [].

(** The plan so far: its batches are not empty; a batch holds ids of
    enabled tasks that no earlier batch holds and whose dependencies earlier
    batches hold. *)
Definition PlanOk (tasks : list Task) (plan : list (list string)) : Prop :=
  forall k batch, plan !! k = Some batch ->
    batch <> [] /\
    forall x, x ∈ batch ->
      (x ∉ concat (take k plan)) /\
      exists task, task ∈ tasks /\ task_id task = x /\ isEnabled task = true /\
                   forall d, d ∈ deps task -> d ∈ concat (take k plan).

End RunCommand.

(** * The bookkeeping of the executor *)

Module Bookkeeping.
Import Executor ExecutorSpec.

(** [task.enabled], as a condition. *)
Definition enabled (task : Task) : bool := default false (task_enabled task).

(** The most attempts that the retry policy of a task allows. *)
Definition maxAttempts (task : Task) : Z :=
  match task_retry task with
  | Some retry => Z.max 1 (retry_attempts retry)
  | None => 1
  end.

Definition isDate (t : option Timestamp) : Prop := exists ms, t = Some (Date ms).

(** A task that was started: enabled, with a start date and a count of
    attempts that its retry policy allows. *)
Definition Started (te : TaskExecution) : Prop :=
  enabled (te_task te) = true /\ isDate (te_startedAt te) /\
  1 <= te_attempts te <= maxAttempts (te_task te).

(** The records that the executor writes, by status. *)
Definition Shape (te : TaskExecution) : Prop :=
  match te_status te with
  | TaskStatus.pending =>
      te_result te = None /\ te_startedAt te = None /\ te_completedAt te = None /\
      (te_attempts te = 0 \/
       (enabled (te_task te) = true /\
        exists retry, task_retry (te_task te) = Some retry /\
                      1 <= te_attempts te < retry_attempts retry))
  | TaskStatus.running =>
      Started te /\ te_result te = None /\ te_completedAt te = None
  | TaskStatus.success =>
      Started te /\ isDate (te_completedAt te) /\
      exists result, te_result te = Some result /\ res_success result = true
  | TaskStatus.failed =>
      Started te /\ isDate (te_completedAt te) /\
      (exists result, te_result te = Some result /\ res_success result = false) /\
      (forall retry, task_retry (te_task te) = Some retry ->
                     retry_attempts retry <= te_attempts te)
  | TaskStatus.skipped =>
      enabled (te_task te) = false /\ te_result te = None /\ te_startedAt te = None /\
      te_completedAt te = None /\ te_attempts te = 0
  | TaskStatus.cancelled => False
  end.

(** The records that the event loop still has something to do with: one
    index per job and per flow suspended in [waitForSlot]. *)
Definition tokens (w : World) : list nat := map jobIndex (jobs w) ++ map fst (waiting w).

(** The state in which a job expects to find its record. *)
Definition tokenOk (ts : list TaskExecution) (J : Job) : Prop :=
  match J with
  | Launch i =>
      forall te, ts !! i = Some te ->
                 te_status te = TaskStatus.pending /\ te_attempts te = 0
  | RetryTimer i =>
      exists te, ts !! i = Some te /\ te_status te = TaskStatus.pending /\
                 1 <= te_attempts te
  | AfterLoad i _ | PluginSettled i _ _ =>
      exists te, ts !! i = Some te /\ te_status te = TaskStatus.running
  | FlowSettled i None =>
      exists te, ts !! i = Some te /\ te_status te = TaskStatus.skipped
  | FlowSettled i (Some _) => ts !! i = None
  end.

(** A record with which the loop has nothing to do is not running, and if
    it is pending it was never started. *)
Definition atRest (te : TaskExecution) : Prop :=
  te_status te <> TaskStatus.running /\
  (te_status te = TaskStatus.pending -> te_attempts te = 0).

(** The invariant of the event loop.  [D] is the set of the records that
    were dispatched; [x] is the record, if any, whose job is being run. *)
Record Sane (x : option nat) (D : gset nat) (w : World) : Prop := {
  sane_tokens : NoDup (match x with Some i => i :: tokens w | None => tokens w end);
  sane_D : forall i, i ∈ tokens w \/ x = Some i -> i ∈ D;
  sane_fresh : forall i te, i ∉ D -> tasks w !! i = Some te ->
                            te_status te = TaskStatus.pending;
  sane_shape : forall i te, x <> Some i -> tasks w !! i = Some te -> Shape te;
  sane_jobs : forall J, J ∈ jobs w -> tokenOk (tasks w) J;
  sane_waiting : forall k snap, (k, snap) ∈ waiting w -> tokenOk (tasks w) (Launch k);
  sane_rest : forall i te, x <> Some i -> i ∉ tokens w -> tasks w !! i = Some te -> atRest te
}.

(** What the executor hands to plugins: the context of an enabled task of
    the pipeline, for this execution. *)
Definition CallsOk (pipeline : Pipeline) (executionId : string) (w : World) : Prop :=
  forall c, c ∈ calls w ->
    enabled (ctx_task c) = true /\ ctx_task c ∈ pipeline_tasks pipeline /\
    ctx_pipeline c = pipeline /\ ctx_executionId c = executionId.

(** What every turn of the event loop keeps. *)
Record Core (pipeline : Pipeline) (executionId : string) (D : gset nat) (w : World)
    : Prop := {
  core_sane : Sane None D w;
  core_inv : Inv w;
  core_tasks : map te_task (tasks w) = pipeline_tasks pipeline;
  core_calls : CallsOk pipeline executionId w
}.

(** The state of the loop of [executeTasks] at the head of a turn: nothing
    awaited is pending, and [executed] holds the ids of the records that were
    dispatched. *)
Record Head (pipeline : Pipeline) (executionId : string)
    (D : gset nat) (executed : gset string) (w : World) : Prop := {
  head_core : Core pipeline executionId D w;
  head_settled : allSettled w = true;
  head_executed : forall i, i ∈ D -> taskIdAt i w ∈ executed;
  head_dispatched : forall id, id ∈ executed -> exists i, i ∈ D /\ taskIdAt i w = id;
  head_dom : forall i, i ∈ D -> (i < length (tasks w))%nat
}.

End Bookkeeping.

(** * The order in which the executor starts tasks *)

Module Ordering.
Import Executor ExecutorSpec Bookkeeping.

(** A record that ended well: [success] or [skipped]. *)
Definition final (te : TaskExecution) : Prop :=
  te_status te = TaskStatus.success \/ te_status te = TaskStatus.skipped.

(** Every dependency of [task] passes the test of [getExecutableTasks]. *)
Definition Ready (ts : list TaskExecution) (task : Task) : Prop :=
  forall d, d ∈ deps task -> depSatisfied ts d = true.

(** The same, spelled out: each dependency is the id of a record, and the
    first record with this id ended well. *)
Definition dependenciesDone (ts : list TaskExecution) (task : Task) : Prop :=
  forall d, d ∈ deps task ->
    exists dep, find (fun t => String.eqb (task_id (te_task t)) d) ts = Some dep /\
                final dep.

(** What the event loop may do to the records: the tasks stay, and a
    record that ended well is left alone. *)
Definition Grows (ts ts' : list TaskExecution) : Prop :=
  Forall2 (fun te te' => te_task te' = te_task te /\
                         (final te -> te_status te' = te_status te)) ts ts'.

(** The dependencies of the tasks that were dispatched, and of those whose
    plugin was called, ended well. *)
Record Order (D : gset nat) (w : World) : Prop := {
  ord_dispatched : forall i te, i ∈ D -> tasks w !! i = Some te ->
                                Ready (tasks w) (te_task te);
  ord_calls : forall c, c ∈ calls w -> Ready (tasks w) (ctx_task c)
}.

End Ordering.

(** * A valid pipeline whose plugins work *)

Module HappyPath.
Import Executor ExecutorSpec Bookkeeping Ordering.

(** The plugin of [task] is found, and every call of it for [task] resolves
    with a successful result before the timer of [executeWithTimeout] fires,
    if the task has a timeout (the timer fires after [timerDelay] of the
    timeout: after 1 ms when the timeout exceeds 2147483647). *)
Definition Succeeds (loader : PluginLoader) (options : Options) (task : Task) : Prop :=
  exists plugin, loader (task_plugin task) = Some plugin /\
    forall context attempt, ctx_task context = task ->
      exists d result,
        execute plugin (task_config task) context attempt = (d, Resolved result) /\
        res_success result = true /\
        (taskTimeout options task <= 0 \/
         Z.of_nat d < timerDelay (taskTimeout options task)).

(** The jobs of a run in which nothing fails: each belongs to a flow that
    [Promise.all] awaits, and carries no failure. *)
Definition goodJob (j : Job) : Prop :=
  isAttached j = true /\
  match j with
  | PluginSettled _ _ outcome =>
      exists result, outcome = Resolved result /\ res_success result = true
  | FlowSettled _ (Some _) => False
  | _ => True
  end.

(** The invariant of such a run: nothing was rejected, and a record that
    was dispatched and with which the loop has nothing left to do ended
    well.  [x] is the record, if any, whose job is being run. *)
Record Happy (x : option nat) (D : gset nat) (w : World) : Prop := {
  happy_rejected : rejected w = None;
  happy_jobs : forall j, j ∈ jobs w -> goodJob j;
  happy_closed : forall i te, i ∈ D -> x <> Some i -> i ∉ tokens w ->
                              tasks w !! i = Some te -> final te;
  happy_dom : forall i, i ∈ D -> (i < length (tasks w))%nat
}.

(** The record of a task that was carried out: [success], or [skipped]
    for a task that is not enabled. *)
Definition carriedOut (te : TaskExecution) : Prop :=
  te_status te = if enabled (te_task te) then TaskStatus.success else TaskStatus.skipped.

End HappyPath.

(** ** The scheduler and its persisted jobs ([PipelineScheduler]) *)

Module PipelineScheduler.

(** *** Keyed collections

    A JavaScript [Map] and the keys of an object that are not array indices
    keep the order of insertion: setting a key that is present replaces its
    value in place, setting a new key appends it. *)
Fixpoint setKey {V} (k : string) (v : V) (m : list (string * V)) : list (string * V) :=
  match m with
  | [] => [(k, v)]
  | (k', v') :: rest =>
      if String.eqb k' k then (k, v) :: rest else (k', v') :: setKey k v rest
  end.

Definition getKey {V} (k : string) (m : list (string * V)) : option V :=
  snd <$> find (fun kv => String.eqb (fst kv) k) m.

Definition deleteKey {V} (k : string) (m : list (string * V)) : list (string * V) :=
  filter (fun kv => negb (String.eqb (fst kv) k)) m.

(** *** The state file, as the scheduler uses it

    The scheduler reaches the state store through the instance
    [stateManager] of [src/core/state.ts], a [FileStateManager], and only
    with keys that start with [scheduler:job:]. *)
Record SchedulerJob := {
  sj_id : string;
  sj_pipeline : Pipeline;
  sj_trigger : PipelineTrigger;
  sj_nextRun : Timestamp;
  sj_enabled : bool
}.

(** [JSON.parse (JSON.stringify schedulerJob)] *)
Definition json_job (sj : SchedulerJob) : SchedulerJob :=
  {| sj_id := sj_id sj; sj_pipeline := sj_pipeline sj; sj_trigger := sj_trigger sj;
     sj_nextRun := FileState.json_time (sj_nextRun sj); sj_enabled := sj_enabled sj |}.

Module StateFile.

(** The file: unreadable; or a document, of which the entries that hold
    scheduler jobs are kept, in the order of its keys (a missing file reads
    as the empty document); or a document that can be read and not written
    (the directory or the file refuses the write, for the reason [why]). *)
Inductive JobFile :=
| Unreadable (why : string)
| Entries (state : list (string * SchedulerJob))
| ReadOnly (state : list (string * SchedulerJob)) (why : string).

Definition loadState (file : JobFile) : Result (list (string * SchedulerJob)) :=
  match file with
  | Unreadable why => Err (PipeJSError ("Failed to load state: " +:+ why) "STATE_LOAD_ERROR")
  | Entries state => Ok state
  | ReadOnly state _ => Ok state
  end.

(** The file that [writeFile(filePath, JSON.stringify(state))] leaves. *)
Definition written (state : list (string * SchedulerJob)) : JobFile :=
  Entries (map (fun kv => (fst kv, json_job (snd kv))) state).

Definition saveState (state : list (string * SchedulerJob)) (file : JobFile)
    : Result JobFile :=
  match file with
  | ReadOnly _ why =>
      Err (PipeJSError ("Failed to save state: " +:+ why) "STATE_SAVE_ERROR")
  | _ => Ok (written state)
  end.

Definition get (key : string) (file : JobFile) : Result (option SchedulerJob) :=
  rbind (loadState file) (fun state => Ok (getKey key state)).

Definition set (key : string) (value : SchedulerJob) (file : JobFile) : Result JobFile :=
  rbind (loadState file) (fun state => saveState (setKey key value state) file).

Definition delete (key : string) (file : JobFile) : Result JobFile :=
  rbind (loadState file) (fun state => saveState (deleteKey key state) file).

Definition list (prefix : string) (file : JobFile) : Result (list string) :=
  rbind (loadState file) (fun state =>
    Ok (filter (fun key => startsWith prefix key) (map fst state))).

End StateFile.

(** *** The scheduler *)

Record SchedulerOptions := {
  opt_concurrency : option Z;
  opt_timezone : option string;
  opt_maxRetention : option Z
}.

Record Options := { concurrency : Z; timezone : string; maxRetention : Z }.

(** An entry of [this.jobs]: the job made by [createCronJob] and the
    variables that its callback closes over. *)
Record Entry := {
  entry_job : Scheduler.CronJob;
  entry_pipeline : Pipeline;
  entry_trigger : PipelineTrigger
}.

Record State := {
  jobs : list (string * Entry);
  options : Options;
  isRunning : bool;
  cleanupJob : option Scheduler.CronJob
}.

(** The constructor. *)
Definition new (o : SchedulerOptions) : State :=
  {| jobs := [];
     options := {| concurrency := Executor.orZ (opt_concurrency o) 10;
                   timezone := match opt_timezone o with
                               | Some tz => if String.eqb tz EmptyString then "UTC" else tz
                               | None => "UTC"
                               end;
                   maxRetention := Executor.orZ (opt_maxRetention o) 30 |};
     isRunning := false;
     cleanupJob := None |}.

(** The scheduler, the state file and the number of identifiers that
    [uuidv4] has returned. *)
Record World := { sched : State; file : StateFile.JobFile; issued : nat }.

Definition jobKey (jobId : string) : string := "scheduler:job:" +:+ jobId.

(** [(trigger.config as any).timezone || this.options.timezone], as the
    string that [createCronJob] receives (and does not look at). *)
Definition timezoneOf (config : JValue) (o : Options) : string :=
  if truthy (prop "timezone" config) then toStrU (prop "timezone" config) else timezone o.

(** The message of the [TypeError] of [expression.split(' ')] on a value
    that is not a string. *)
Definition splitError (expression : JSVal) : string :=
  match expression with
  | None => "Cannot read properties of undefined (reading 'split')"
  | Some JNull => "Cannot read properties of null (reading 'split')"
  | Some _ => "expression.split is not a function"
  end.

Section Calls.

(** The identifiers that successive calls of [uuidv4()] return. *)
Context (uuid : nat -> string).

Definition withJobs (js : list (string * Entry)) (s : State) : State :=
  {| jobs := js; options := options s; isRunning := isRunning s;
     cleanupJob := cleanupJob s |}.

(** [schedulePipeline], called at [now]: what it returns or throws, and
    the scheduler and the file afterwards. *)
Definition schedulePipeline (pipeline : Pipeline) (trigger : PipelineTrigger) (now : Z)
    (w : World) : Result string * World :=
  match trigger_type trigger with
  | cron =>
      let jobId := uuid (issued w) in
      let w0 := {| sched := sched w; file := file w; issued := S (issued w) |} in
      match trigger_config trigger with
      | JNull =>
          (Err (JsError "Cannot read properties of null (reading 'expression')"), w0)
      | config =>
          match prop "expression" config with
          | Some (JStr cronExpression) =>
              let job := Scheduler.createCronJob cronExpression
                           (timezoneOf config (options (sched w))) in
              let s1 := withJobs (setKey jobId {| entry_job := job;
                                                  entry_pipeline := pipeline;
                                                  entry_trigger := trigger |}
                                         (jobs (sched w))) (sched w) in
              let schedulerJob := {| sj_id := jobId; sj_pipeline := pipeline;
                                     sj_trigger := trigger;
                                     sj_nextRun := Date (now + 60000);
                                     sj_enabled := true |} in
              match StateFile.set (jobKey jobId) schedulerJob (file w) with
              | Ok file1 => (Ok jobId, {| sched := s1; file := file1; issued := S (issued w) |})
              | Err error =>
                  (Err (ValidationError ("Invalid cron expression: " +:+ message error)),
                   {| sched := s1; file := file w; issued := S (issued w) |})
              end
          | notString =>
              (Err (ValidationError ("Invalid cron expression: " +:+ splitError notString)),
               w0)
          end
      end
  | _ => (Err (ValidationError "Only cron triggers are supported for scheduling"), w)
  end.

Definition stopEntry (e : Entry) : Entry :=
  {| entry_job := Scheduler.stop (entry_job e); entry_pipeline := entry_pipeline e;
     entry_trigger := entry_trigger e |}.

Definition startEntry (now : Z) (e : Entry) : Entry :=
  {| entry_job := Scheduler.start now (entry_job e); entry_pipeline := entry_pipeline e;
     entry_trigger := entry_trigger e |}.

Definition unschedulePipeline (jobId : string) (w : World) : Result bool * World :=
  match getKey jobId (jobs (sched w)) with
  | Some job =>
      let s1 := withJobs (deleteKey jobId (jobs (sched w))) (sched w) in
      match StateFile.delete (jobKey jobId) (file w) with
      | Ok file1 => (Ok true, {| sched := s1; file := file1; issued := issued w |})
      | Err error => (Err error, {| sched := s1; file := file w; issued := issued w |})
      end
  | None => (Ok false, w)
  end.

(** The [for] loop of [loadPersistedJobs]; an exception of [get] ends it,
    one of [schedulePipeline] is logged. *)
Fixpoint loadJobs (jobKeys : list string) (now : Z) (w : World) : World :=
  match jobKeys with
  | [] => w
  | key :: rest =>
      match StateFile.get key (file w) with
      | Ok (Some schedulerJob) =>
          if sj_enabled schedulerJob
          then loadJobs rest now
                 (snd (schedulePipeline (sj_pipeline schedulerJob)
                         (sj_trigger schedulerJob) now w))
          else loadJobs rest now w
      | Ok None => loadJobs rest now w
      | Err _ => w
      end
  end.

Definition loadPersistedJobs (now : Z) (w : World) : World :=
  match StateFile.list "scheduler:job:" (file w) with
  | Ok jobKeys => loadJobs jobKeys now w
  | Err _ => w
  end.

(** [startCleanupJob] *)
Definition startCleanupJob (now : Z) : Scheduler.CronJob :=
  Scheduler.start now (Scheduler.createCronJob "0 2 * * *" "UTC").

Definition start (now : Z) (w : World) : World :=
  if isRunning (sched w) then w
  else
    let w1 := loadPersistedJobs now w in
    {| sched := {| jobs := map (fun kv => (fst kv, startEntry now (snd kv)))
                               (jobs (sched w1));
                   options := options (sched w1);
                   isRunning := true;
                   cleanupJob := Some (startCleanupJob now) |};
       file := file w1; issued := issued w1 |}.

Definition stop (w : World) : World :=
  if negb (isRunning (sched w)) then w
  else
    {| sched := {| jobs := map (fun kv => (fst kv, stopEntry (snd kv))) (jobs (sched w));
                   options := options (sched w);
                   isRunning := false;
                   cleanupJob := Scheduler.stop <$> cleanupJob (sched w) |};
       file := file w; issued := issued w |}.

(** The armed timer of a job fires: its callback runs (it touches neither
    the scheduler nor its keys of the file) and the next timer is armed. *)
Definition timerFires (jobId : string) (w : World) : World :=
  match getKey jobId (jobs (sched w)) with
  | Some e =>
      match Scheduler.fire (entry_job e) with
      | Some (_, job') =>
          {| sched := withJobs (setKey jobId {| entry_job := job';
                                                entry_pipeline := entry_pipeline e;
                                                entry_trigger := entry_trigger e |}
                                       (jobs (sched w))) (sched w);
             file := file w; issued := issued w |}
      | None => w
      end
  | None => w
  end.

(** The same for the cleanup job. *)
Definition cleanupFires (w : World) : World :=
  match cleanupJob (sched w) with
  | Some job =>
      match Scheduler.fire job with
      | Some (_, job') =>
          {| sched := {| jobs := jobs (sched w); options := options (sched w);
                         isRunning := isRunning (sched w); cleanupJob := Some job' |};
             file := file w; issued := issued w |}
      | None => w
      end
  | None => w
  end.

(** [getStatus().jobCount] *)
Definition jobCount (w : World) : nat := length (jobs (sched w)).

(** A use of the scheduler: a sequence of calls of its methods, each
    awaited before the next one is made, and of firings of its timers between
    the calls.  (The methods are [async]: calls that overlap, for which the
    code of one runs between two [await]s of another, are not sequences of
    this kind.) *)
Inductive Call :=
| SchedulePipeline (pipeline : Pipeline) (trigger : PipelineTrigger) (now : Z)
| UnschedulePipeline (jobId : string)
| Start (now : Z)
| Stop
| TimerFires (jobId : string)
| CleanupFires.

Definition call (c : Call) (w : World) : World :=
  match c with
  | SchedulePipeline pipeline trigger now => snd (schedulePipeline pipeline trigger now w)
  | UnschedulePipeline jobId => snd (unschedulePipeline jobId w)
  | Start now => start now w
  | Stop => stop w
  | TimerFires jobId => timerFires jobId w
  | CleanupFires => cleanupFires w
  end.

Definition calls (cs : list Call) (w : World) : World := fold_left (fun w c => call c w) cs w.

End Calls.

(** *** What is stated of it *)

(** A job that is not running and has no timer armed. *)
Definition halted (job : Scheduler.CronJob) : Prop :=
  Scheduler.running job = false /\ Scheduler.timeoutId job = None.

(** No job of the scheduler runs. *)
Definition idle (s : State) : Prop :=
  Forall (fun kv => halted (entry_job (snd kv))) (jobs s) /\
  match cleanupJob s with
  | Some job => halted job
  | None => True
  end.

(** The scheduler runs jobs only between [start] and [stop]. *)
Definition Quiet (w : World) : Prop :=
  (isRunning (sched w) = false -> idle (sched w)) /\
  (isRunning (sched w) = true ->
   exists job, cleanupJob (sched w) = Some job /\ Scheduler.running job = true).

(** Does the loop of [loadPersistedJobs] register this job again? *)
Definition reloadable (sj : SchedulerJob) : bool :=
  sj_enabled sj &&
  match trigger_type (sj_trigger sj), prop "expression" (trigger_config (sj_trigger sj)) with
  | cron, Some (JStr _) => true
  | _, _ => false
  end.

Definition reloaded (kv : string * SchedulerJob) : bool :=
  startsWith "scheduler:job:" (fst kv) && reloadable (snd kv).

(** The same, for the job under [key] in [state]. *)
Definition reloadsKey (state : list (string * SchedulerJob)) (key : string) : bool :=
  match getKey key state with
  | Some sj => reloadable sj
  | None => false
  end.

(** The pipeline and the trigger of a persisted job, of a registered job. *)
Definition about (sj : SchedulerJob) : Pipeline * PipelineTrigger :=
  (sj_pipeline sj, sj_trigger sj).

Definition aboutEntry (e : Entry) : Pipeline * PipelineTrigger :=
  (entry_pipeline e, entry_trigger e).

(** [uuidv4] returns identifiers that are new: the identifiers from the
    [n]-th on differ from each other, from the identifiers in [taken] and
    from those of the keys in [keys]. *)
Definition Fresh (uuid : nat -> string) (n : nat) (taken keys : list string) : Prop :=
  (forall i j, uuid i = uuid j -> i = j) /\
  forall i, (n <= i)%nat -> (uuid i ∉ taken) /\ (jobKey (uuid i) ∉ keys).

(** A trigger [{type: 'cron', config: {expression: e}}]. *)
Definition cronTrigger (expression : string) : PipelineTrigger :=
  {| trigger_type := cron; trigger_config := JObj [("expression", JStr expression)] |}.

(** *** Examples *)

(** The identifiers [job-0], [job-1], ... *)
Definition exampleUuid (i : nat) : string := "job-" +:+ pretty i.

Definition defaultScheduler : State :=
  new {| opt_concurrency := None; opt_timezone := None; opt_maxRetention := None |}.

(** The file that an earlier process left after it had scheduled [linear]
    under the identifier [x]. *)
Definition persisted : list (string * SchedulerJob) :=
  [(jobKey "x",
    {| sj_id := "x"; sj_pipeline := ExecutorSpec.linear;
       sj_trigger := cronTrigger "* * * * *"; sj_nextRun := ISO 60000;
       sj_enabled := true |})].

End PipelineScheduler.

(** ** The triggers that the validator lets through *)

Module TriggersSpec.
Import Parser.

(** A trigger whose configuration passed the check of its type: a cron
    trigger has a string that is not blank for [expression], a webhook
    trigger has one for [path]. *)
Definition checked (t : PipelineTrigger) : Prop :=
  match trigger_type t with
  | cron => exists e, prop "expression" (trigger_config t) = Some (JStr e) /\
                      trim e <> EmptyString
  | webhook => exists p, prop "path" (trigger_config t) = Some (JStr p) /\
                         trim p <> EmptyString
  | manual => True
  end.

(** [{pipeline: {name: 'hourly', version: '1.0.0', tasks: [{id: 'fetch', ..}],
      triggers: [{type: 'cron', config: {expression: '0 * * * *'}},
                 {type: 'manual', config: {}}]}}] *)
Definition hourlyDoc : JValue :=
  JObj [("pipeline",
         JObj [("name", JStr "hourly"); ("version", JStr "1.0.0");
               ("tasks",
                JArr [JObj [("id", JStr "fetch"); ("name", JStr "Fetch");
                            ("plugin", JStr "http_get"); ("config", JObj [])]]);
               ("triggers",
                JArr [JObj [("type", JStr "cron");
                            ("config", JObj [("expression", JStr "0 * * * *")])];
                      JObj [("type", JStr "manual"); ("config", JObj [])]])])].

End TriggersSpec.

(** * Properties of the parser *)

Module ParserProofs.
Import Parser ParserSpec.

Lemma Extends_refl tasks st : Extends tasks st st.
Proof.
  split; [done|]. exists []. by rewrite app_nil_r.
Qed.

Lemma Extends_trans tasks a b c : Extends tasks a b -> Extends tasks b c -> Extends tasks a c.
Proof.
  intros [V1 (n1 & E1 & F1)] [V2 (n2 & E2 & F2)]. split; [set_solver|].
  exists (n1 ++ n2). rewrite E2, E1, app_assoc. split; [done|]. by apply Forall_app.
Qed.

Lemma deps_in_universe tasks task d :
  task ∈ tasks -> d ∈ deps task -> d ∈ universe tasks.
Proof.
  intros Ht Hd. unfold universe, all_ids. apply elem_of_list_to_set, elem_of_app. right.
  apply list_elem_of_In, in_concat. exists (deps task). split.
  - apply in_map. by apply list_elem_of_In.
  - by apply list_elem_of_In.
Qed.

Lemma find_elem {A} (p : A -> bool) (l : list A) x : find p l = Some x -> x ∈ l.
Proof.
  intros H. apply find_some in H as [H _]. by apply list_elem_of_In.
Qed.

Lemma detectCycles_total tasks fuel : forall taskId st,
  (size (universe tasks ∖ visited st) < fuel)%nat ->
  exists st', detectCycles fuel tasks taskId st = Some st' /\ Extends tasks st st'.
Proof.
  induction fuel as [|fuel IH]; intros taskId st Hsz; [lia|].
  cbn [detectCycles].
  case_bool_decide as Hstack.
  { eexists. split; [done|]. split; [done|]. cbn.
    eexists. split; [done|]. constructor; [|constructor]. left. by eexists. }
  case_bool_decide as Hvis.
  { eexists. split; [done|]. apply Extends_refl. }
  set (st1 := {| visited := {[taskId]} ∪ visited st;
                 recursionStack := {[taskId]} ∪ recursionStack st;
                 dfs_errors := dfs_errors st |}).
  assert (E1 : Extends tasks st st1).
  { split; [set_solver|]. exists []. by rewrite app_nil_r. }
  destruct (find _ tasks) as [task|] eqn:Hfind.
  2:{ eexists. split; [done|]. destruct E1 as [? ?]. by split. }
  assert (Hin : taskId ∈ universe tasks).
  { apply find_some in Hfind as [Hin Heq]. apply String.eqb_eq in Heq. subst taskId.
    unfold universe, all_ids. apply elem_of_list_to_set, elem_of_app. left.
    apply list_elem_of_In, in_map, Hin. }
  assert (Hsz1 : (size (universe tasks ∖ visited st1) < fuel)%nat).
  { assert (universe tasks ∖ visited st1 ⊂ universe tasks ∖ visited st) as Hsub.
    { subst st1; cbn. apply strict_spec_alt. split; [set_solver|].
      intros Heq. assert (taskId ∈ universe tasks ∖ visited st) as Ht by set_solver.
      rewrite <- Heq in Ht. set_solver. }
    apply subset_size in Hsub. lia. }
  assert (Hloop : forall ds s, (forall d, d ∈ ds -> d ∈ universe tasks) ->
            (size (universe tasks ∖ visited s) < fuel)%nat ->
            exists s', fold_left (fun acc depId =>
                           match acc with
                           | Some s => detectCycles fuel tasks depId s
                           | None => None
                           end) ds (Some s) = Some s' /\ Extends tasks s s').
  { induction ds as [|d ds IHds]; intros s Hds Hs.
    - exists s. split; [done|]. apply Extends_refl.
    - cbn [fold_left]. destruct (IH d s Hs) as (s1 & -> & Ex1).
      destruct (IHds s1) as (s2 & -> & Ex2).
      + intros; apply Hds. by right.
      + destruct Ex1 as [V _].
        assert (size (universe tasks ∖ visited s1) <= size (universe tasks ∖ visited s))%nat
          by (apply subseteq_size; set_solver). lia.
      + exists s2. split; [done|]. by eapply Extends_trans. }
  destruct (Hloop (deps task) st1) as (s' & -> & Ex); [|done|].
  { intros d Hd. eapply deps_in_universe; [|done]. by eapply find_elem. }
  eexists. split; [done|].
  eapply Extends_trans; [exact E1|]. destruct Ex as [? ?]. by split.
Qed.

Lemma universe_bound tasks (V : gset string) :
  (size (universe tasks ∖ V) < dfs_fuel tasks)%nat.
Proof.
  unfold dfs_fuel.
  assert (size (universe tasks ∖ V) <= size (universe tasks))%nat
    by (apply subseteq_size; set_solver).
  assert (size (universe tasks) <= length (all_ids tasks))%nat; [|lia].
  unfold universe. generalize (all_ids tasks) as l.
  induction l as [|x l IH]; cbn.
  - by rewrite size_empty.
  - rewrite size_union_alt, size_singleton.
    assert (size (list_to_set l ∖ {[x]} : gset string) <= size (list_to_set l : gset string))%nat
      by (apply subseteq_size; set_solver).
    lia.
Qed.

Lemma checkTasks_total all taskIds todo : forall st,
  exists st', checkTasks all taskIds todo st = Some st' /\ Extends all st st'.
Proof.
  induction todo as [|task rest IH]; intros st; cbn [checkTasks].
  - exists st. split; [done|]. apply Extends_refl.
  - assert (exists s, (if bool_decide (task_id task ∈ visited st) then Some st
                       else detectCycles (dfs_fuel all) all (task_id task) st) = Some s
                      /\ Extends all st s) as (s & -> & Ex).
    { case_bool_decide.
      - exists st. split; [done|]. apply Extends_refl.
      - apply detectCycles_total, universe_bound. }
    match goal with |- context [checkTasks all taskIds rest ?s1] =>
      destruct (IH s1) as (st' & -> & Ex') end.
    exists st'. split; [done|].
    eapply Extends_trans; [exact Ex|]. eapply Extends_trans; [|exact Ex'].
    split; [done|]. cbn. eexists. split; [done|].
    apply Forall_forall. intros m Hm. apply list_elem_of_In, in_map_iff in Hm as (y & <- & _).
    right. by do 2 eexists.
Qed.

Lemma in_hasDependents tasks x :
  x ∈ hasDependents tasks <-> Exists (fun t' => x ∈ deps t') tasks.
Proof.
  unfold hasDependents. rewrite elem_of_list_to_set, list_elem_of_In, in_concat, Exists_exists.
  split.
  - intros (l & Hl & Hx). apply in_map_iff in Hl as (t' & <- & Ht').
    exists t'. split; [by apply list_elem_of_In|by apply list_elem_of_In].
  - intros (t' & Ht' & Hx). exists (deps t'). split.
    + apply in_map. by apply list_elem_of_In.
    + by apply list_elem_of_In.
Qed.

Lemma isOrphan_isRoot tasks t : isOrphan tasks t <-> isRoot tasks t.
Proof.
  unfold isOrphan, isRoot, deps.
  rewrite andb_True, negb_True, bool_decide_spec, in_hasDependents.
  rewrite <- Forall_Exists_neg.
  apply and_iff_compat_r.
  destruct (task_dependsOn t) as [[|d l]|]; cbn; split; intros H; try done.
Qed.

Lemma orphanedTasks_roots tasks : orphanedTasks tasks = filter (isRoot tasks) tasks.
Proof. apply list_filter_iff. intros t. apply isOrphan_isRoot. Qed.

Lemma multipleRootsError_not_dag tasks : ~ isDagMessage (multipleRootsError tasks).
Proof.
  unfold multipleRootsError. intros [(x & E) | (x & y & E)]; cbn in E; discriminate E.
Qed.

Lemma validateDAGStructure_appends (p : Pipeline) (errors : list string) :
  exists added, validateDAGStructure p errors = Some (errors ++ added).
Proof.
  unfold validateDAGStructure.
  destruct (checkTasks_total (pipeline_tasks p) (list_to_set (map task_id (pipeline_tasks p)))
              (pipeline_tasks p)
              {| visited := ∅; recursionStack := ∅; dfs_errors := errors |})
    as (st & -> & [_ (new & E & _)]).
  cbn in E. rewrite E. destruct (_ <? _)%nat; [|by eexists].
  rewrite <- app_assoc. by eexists.
Qed.

(** C8.  [validateDAGStructure] keeps the errors it is given and appends
    its own; the error [Multiple root tasks found] is among those it appends
    if and only if more than one task has neither dependencies nor
    dependents. *)
Theorem validateDAGStructure_multiple_roots (p : Pipeline) (errors : list string) :
  exists added,
    validateDAGStructure p errors = Some (errors ++ added) /\
    (multipleRootsError (pipeline_tasks p) ∈ added <->
     (1 < length (filter (isRoot (pipeline_tasks p)) (pipeline_tasks p)))%nat).
Proof.
  unfold validateDAGStructure.
  destruct (checkTasks_total (pipeline_tasks p) (list_to_set (map task_id (pipeline_tasks p)))
              (pipeline_tasks p)
              {| visited := ∅; recursionStack := ∅; dfs_errors := errors |})
    as (st & -> & [_ (new & E & F)]).
  cbn in E. rewrite E, orphanedTasks_roots.
  destruct (Nat.ltb_spec 1 (length (filter (isRoot (pipeline_tasks p)) (pipeline_tasks p))))
    as [Hlt|Hge].
  - exists (new ++ [multipleRootsError (pipeline_tasks p)]).
    rewrite app_assoc. split; [done|]. split; [done|].
    intros _. apply elem_of_app. right. by left.
  - exists new. split; [done|]. split; [|lia].
    intros Hin. exfalso. rewrite Forall_forall in F.
    eapply multipleRootsError_not_dag, F. exact Hin.
Qed.

Lemma Tame_vret {A} (a : A) : Tame (vret a).
Proof. intros d. cbn. split; exists []; by rewrite app_nil_r. Qed.

Lemma Tame_vthrow {A} e : Tame (@vthrow A e).
Proof. by intros d. Qed.

Lemma Tame_warn m : Tame (warn m).
Proof. intros d. cbn. split; [by eexists|]. exists []. by rewrite app_nil_r. Qed.

Lemma Tame_err m : Tame (err m).
Proof. intros d. cbn. split; [|by eexists]. exists []. by rewrite app_nil_r. Qed.

Lemma Tame_vbind {A B} (m : V A) (f : A -> V B) :
  Tame m -> (forall a, Tame (f a)) -> Tame (vbind m f).
Proof.
  intros Hm Hf d. unfold vbind. specialize (Hm d).
  destruct (m d) as [[a d1]| |]; [|done|done].
  specialize (Hf a d1). destruct (f a d1) as [[b d2]| |]; [|done|done].
  destruct Hm as [(w1 & E1) (e1 & E2)], Hf as [(w2 & E3) (e2 & E4)].
  split; [exists (w1 ++ w2)|exists (e1 ++ e2)]; rewrite app_assoc; congruence.
Qed.

Lemma Tame_when b m : Tame m -> Tame (when b m).
Proof. intros H. destruct b; [done|apply Tame_vret]. Qed.

Create HintDb tame.
#[local] Hint Resolve Tame_vret Tame_vthrow Tame_warn Tame_err Tame_when : tame.

Ltac tame :=
  repeat first
    [ solve [auto with tame]
    | apply Tame_vbind; [|intros ?]
    | match goal with
      | |- Tame (if ?b then _ else _) => destruct b
      | |- Tame (match ?x with _ => _ end) => destruct x
      | |- Tame (let '(_, _) := ?x in _) => destruct x
      end ].

Lemma Tame_validateDependencies v taskId : Tame (validateDependencies v taskId).
Proof.
  unfold validateDependencies. destruct v as [[| | | |items|]|]; tame.
  assert (forall acc, Tame acc -> Tame (fold_left
    (fun (acc : V (list string)) (dep : JValue) =>
       do dependencies <- acc;
       match dep with
       | JStr s => vret (dependencies ++ [trim s])
       | _ =>
           if printable dep then
             run err ("Task " +:+ quoted taskId +:+
                      " dependsOn contains non-string value: " +:+ toStr dep);
             vret dependencies
           else vthrow (JsError notPrintable)
       end) items acc)) as H.
  { induction items as [|x items IH]; intros acc Hacc; [done|].
    cbn [fold_left]. apply IH. tame. }
  apply H. tame.
Qed.

Lemma Tame_validateRetryConfig v taskId : Tame (validateRetryConfig v taskId).
Proof. unfold validateRetryConfig. tame. Qed.

Lemma Tame_validateTimeout v taskId : Tame (validateTimeout v taskId).
Proof. unfold validateTimeout. tame. Qed.

Lemma Tame_trimOr what v dflt : Tame (trimOr what v dflt).
Proof. unfold trimOr. tame. Qed.

#[local] Hint Resolve Tame_validateDependencies Tame_validateRetryConfig
  Tame_validateTimeout Tame_trimOr : tame.

Lemma Tame_validateTask index task st : Tame (validateTask index task st).
Proof. unfold validateTask. tame. Qed.

Lemma Tame_validateTasks_loop tasks : forall index st,
  Tame (validateTasks_loop index tasks st).
Proof.
  induction tasks as [|t tasks IH]; intros index st; cbn [validateTasks_loop]; tame.
  apply Tame_validateTask.
Qed.

Lemma Tame_validateTasks tasks : Tame (validateTasks tasks).
Proof. unfold validateTasks. tame. apply Tame_validateTasks_loop. Qed.

Lemma Tame_validateCronTrigger c index : Tame (validateCronTrigger c index).
Proof. unfold validateCronTrigger. tame. Qed.

Lemma Tame_validateWebhookTrigger c index : Tame (validateWebhookTrigger c index).
Proof. unfold validateWebhookTrigger. tame. Qed.

#[local] Hint Resolve Tame_validateCronTrigger Tame_validateWebhookTrigger : tame.

Lemma Tame_validateTrigger index trigger acc : Tame (validateTrigger index trigger acc).
Proof. unfold validateTrigger. tame. Qed.

Lemma Tame_validateTriggers_loop triggers : forall index acc,
  Tame (validateTriggers_loop index triggers acc).
Proof.
  induction triggers as [|t triggers IH]; intros index acc;
    cbn [validateTriggers_loop]; tame.
  apply Tame_validateTrigger.
Qed.

Lemma Tame_validateTriggers v : Tame (validateTriggers v).
Proof. unfold validateTriggers. tame; apply Tame_validateTriggers_loop. Qed.

Lemma Tame_checkDAG result : Tame (checkDAG result).
Proof.
  intros d. unfold checkDAG.
  destruct (validateDAGStructure_appends result (es d)) as (added & ->).
  cbn. split; [|by eexists]. exists []. by rewrite app_nil_r.
Qed.

#[local] Hint Resolve Tame_validateTasks Tame_validateTriggers Tame_checkDAG : tame.

Lemma Tame_validatePipeline pv : Tame (validatePipeline pv).
Proof. unfold validatePipeline. tame. Qed.




Lemma vbind_Ret {A B} (m : V A) (f : A -> V B) d b d2 :
  vbind m f d = Ret (b, d2) -> exists a d1, m d = Ret (a, d1) /\ f a d1 = Ret (b, d2).
Proof.
  unfold vbind. destruct (m d) as [[a d1]| |]; [|done|done]. intros H. by exists a, d1.
Qed.

Lemma Tame_ws {A} (m : V A) d a d' :
  Tame m -> m d = Ret (a, d') -> exists w, ws d' = ws d ++ w.
Proof. intros T H. specialize (T d). rewrite H in T. apply T. Qed.

(** The validator warns about an empty [tasks] array, and the pipeline it
    builds has no task. *)
Lemma validatePipeline_warns_on_no_tasks pv d pl d' :
  prop "tasks" pv = Some (JArr []) ->
  validatePipeline pv d = Ret (pl, d') ->
  "Pipeline has no tasks" ∈ ws d' /\ pipeline_tasks pl = [].
Proof.
  intros Ht. unfold validatePipeline. rewrite Ht.
  destruct (negb (isObject (Some pv)) || isNullish (Some pv)); [done|].
  intros H.
  do 7 (apply vbind_Ret in H as (? & ? & _ & H)).
  apply vbind_Ret in H as (tasks & d1 & Hv & H).
  injection Hv as <- <-.
  match type of H with ?k _ = _ => assert (Tame k) as HT by tame end.
  destruct (Tame_ws _ _ _ _ HT H) as (w & Hw). split.
  - rewrite Hw. cbn. rewrite !elem_of_app, list_elem_of_singleton. auto.
  - do 3 (apply vbind_Ret in H as (? & ? & _ & H)).
    apply vbind_Ret in H as ([] & ? & _ & H). by injection H as <- _.
Qed.

End ParserProofs.

(** * Properties of the state store *)

Module StoreProofs.
Import StoreSpec.

Lemma json_run_id r : run_id (FileState.json_run r) = run_id r.
Proof. done. Qed.

Lemma json_time_idem t : FileState.json_time (FileState.json_time t) = FileState.json_time t.
Proof. by destruct t. Qed.

Lemma find_replaced id (r : PipelineRun) runs i :
  run_id r = id ->
  FileState.findIndex id runs = Some i ->
  find (fun x => String.eqb (run_id x) id) (map FileState.json_run (<[i := r]> runs))
  = Some (FileState.json_run r).
Proof.
  intros Hid. revert i. induction runs as [|x runs IH]; intros i; cbn; [done|].
  destruct (String.eqb (run_id x) id) eqn:E.
  - intros [= <-]. cbn. by rewrite Hid, String.eqb_refl.
  - destruct (FileState.findIndex id runs) as [k|]; [|done].
    intros [= <-]. cbn. rewrite E. by apply IH.
Qed.

Lemma find_appended id (r : PipelineRun) runs :
  run_id r = id ->
  FileState.findIndex id runs = None ->
  find (fun x => String.eqb (run_id x) id) (map FileState.json_run (runs ++ [r]))
  = Some (FileState.json_run r).
Proof.
  intros Hid. induction runs as [|x runs IH]; cbn.
  - intros _. by rewrite Hid, String.eqb_refl.
  - destruct (String.eqb (run_id x) id) eqn:E; [done|].
    destruct (FileState.findIndex id runs); [done|]. intros _. by apply IH.
Qed.

(** The file backend gives back what it was given, timestamps as ISO
    strings, whenever the file can be read. *)
Lemma file_save_then_get (r : PipelineRun) (disk : FileState.Disk) :
  match FileState.savePipelineRun r disk with
  | Ok disk' =>
      FileState.getPipelineRun (run_id r) disk' = Ok (Some (FileState.json_run r))
  | Err _ => exists why, disk = FileState.Unreadable why
  end.
Proof.
  unfold FileState.savePipelineRun, FileState.getRuns, FileState.setRuns.
  destruct disk as [|why|d]; cbn; [| by eexists |].
  - by rewrite String.eqb_refl.
  - unfold FileState.getPipelineRun, FileState.getRuns. cbn.
    destruct (FileState.findIndex (run_id r) (default [] (FileState.pipeline_runs d)))
      as [i|] eqn:E; f_equal.
    + by apply find_replaced.
    + by apply find_appended.
Qed.

Lemma insertTasks_runs runId tes : forall db db',
  SQLiteState.insertTasks runId tes db = Ok db' ->
  SQLiteState.runs db' = SQLiteState.runs db.
Proof.
  induction tes as [|te tes IH]; intros db db'; cbn.
  - by intros [= <-].
  - destruct (SQLiteState.taskRow runId te) as [row|e]; cbn; [|done].
    intros H. by apply IH in H.
Qed.

Lemma insertTasks_err runId tes : forall db e,
  SQLiteState.insertTasks runId tes db = Err e ->
  exists ms, Exists (fun te => te_startedAt te = Some (ISO ms) \/
                               te_completedAt te = Some (ISO ms)) tes.
Proof.
  induction tes as [|te tes IH]; intros db e; cbn; [done|].
  unfold SQLiteState.taskRow.
  destruct (te_startedAt te) as [[s|s]|] eqn:Hs; cbn;
    [|intros _; exists s; left; by left|].
  all: destruct (te_completedAt te) as [[c|c]|] eqn:Hc; cbn;
    try (intros _; exists c; left; by right).
  all: intros H; apply IH in H as (ms & H); exists ms; by right.
Qed.

Lemma find_replaceRun row rows :
  find (fun r => String.eqb (SQLiteState.r_id r) (SQLiteState.r_id row))
       (SQLiteState.replaceRun row rows) = Some row.
Proof.
  unfold SQLiteState.replaceRun. induction rows as [|x rows IH].
  - cbn. by rewrite String.eqb_refl.
  - rewrite filter_cons.
    destruct (String.eqb (SQLiteState.r_id x) (SQLiteState.r_id row)) eqn:E.
    + rewrite decide_False by (cbn; auto). exact IH.
    + rewrite decide_True by done. cbn [app find]. rewrite E. exact IH.
Qed.

Lemma taskOfRow_forgotten row : forgotten (SQLiteState.taskOfRow row).
Proof. done. Qed.

Lemma sqlite_forgets (r : PipelineRun) (db : SQLiteState.Database) :
  match SQLiteState.savePipelineRun r db with
  | Ok db' =>
      exists r', SQLiteState.getPipelineRun (run_id r) db' = Ok (Some r') /\
                 run_id r' = run_id r /\
                 Forall forgotten (run_tasks r')
  | Err _ => exists ms, run_startedAt r = ISO ms \/ run_completedAt r = Some (ISO ms) \/
                        Exists (fun te => te_startedAt te = Some (ISO ms) \/
                                          te_completedAt te = Some (ISO ms)) (run_tasks r)
  end.
Proof.
  unfold SQLiteState.savePipelineRun.
  destruct (run_startedAt r) as [s|s] eqn:Hs; cbn; [|by exists s; left].
  destruct (run_completedAt r) as [[c|c]|] eqn:Hc; cbn; [|by exists c; right; left|].
  all: match goal with |- context [SQLiteState.insertTasks ?i ?t ?d] =>
         destruct (SQLiteState.insertTasks i t d) as [db'|e] eqn:Hins end.
  all: try (apply insertTasks_err in Hins as (ms & Hex); exists ms; by do 2 right).
  all: apply insertTasks_runs in Hins as Hruns; cbn in Hruns.
  all: unfold SQLiteState.getPipelineRun; rewrite Hruns.
  all: match goal with |- context [SQLiteState.replaceRun ?row _] =>
         rewrite (find_replaceRun row) end.
  all: eexists; split; [done|]; split; [done|]; cbn.
  all: apply Forall_forall; intros te Hte.
  all: apply list_elem_of_In, in_map_iff in Hte as (row & <- & _); apply taskOfRow_forgotten.
Qed.

(** C7 on the code.  The relational backend always finds the run it
    saved (a save fails only on a timestamp that is a string and not a
    [Date]), and every task of the run it returns has lost its plugin and
    configuration and has a result, whatever the saved run held.  On
    [startedRun], saved in an empty database, the task read back has neither
    the plugin, nor the configuration, nor the absent result of the task
    saved. *)
Theorem sqlite_save_then_get_forgets :
  (forall (r : PipelineRun) (db : SQLiteState.Database),
     match SQLiteState.savePipelineRun r db with
     | Ok db' =>
         exists r', SQLiteState.getPipelineRun (run_id r) db' = Ok (Some r') /\
                    run_id r' = run_id r /\
                    Forall forgotten (run_tasks r')
     | Err _ => exists ms, run_startedAt r = ISO ms \/ run_completedAt r = Some (ISO ms) \/
                           Exists (fun te => te_startedAt te = Some (ISO ms) \/
                                             te_completedAt te = Some (ISO ms)) (run_tasks r)
     end) /\
  (exists db' r',
     SQLiteState.savePipelineRun startedRun emptyDatabase = Ok db' /\
     SQLiteState.getPipelineRun (run_id startedRun) db' = Ok (Some r') /\
     map (fun te => (task_plugin (te_task te), task_config (te_task te), te_result te))
         (run_tasks startedRun)
     = [("http_get", JObj [("url", JStr "https://example.org/data")], None)] /\
     map (fun te => (task_plugin (te_task te), task_config (te_task te), te_result te))
         (run_tasks r')
     = [(EmptyString, JObj [],
         Some {| res_success := false; res_output := None;
                 res_error := None; res_metadata := None |})] /\
     r' <> startedRun).
Proof.
  split; [exact sqlite_forgets|].
  do 2 eexists. split; [reflexivity|]. split; [reflexivity|].
  split; [reflexivity|]. split; [reflexivity|]. discriminate.
Qed.

(** On the run of one [http_get] task the two backends differ: the file
    backend returns the task with its plugin and configuration and without a
    result, the relational backend returns it with an empty plugin name, an
    empty configuration and a result. *)
Example backends_differ_on_startedRun :
  (exists disk' r',
     FileState.savePipelineRun startedRun FileState.NoFile = Ok disk' /\
     FileState.getPipelineRun "run-1" disk' = Ok (Some r') /\
     run_tasks r' = run_tasks startedRun) /\
  (exists db' r',
     SQLiteState.savePipelineRun startedRun emptyDatabase = Ok db' /\
     SQLiteState.getPipelineRun "run-1" db' = Ok (Some r') /\
     run_tasks r' = [{| te_task := {| task_id := "fetch"; task_name := "Fetch";
                                  task_description := None;
                                  task_plugin := EmptyString;
                                  task_config := JObj [];
                                  task_dependsOn := None; task_retry := None;
                                  task_timeout := None; task_enabled := None |};
                    te_status := TaskStatus.pending;
                    te_result := Some {| res_success := false; res_output := None;
                                         res_error := None; res_metadata := None |};
                    te_startedAt := None; te_completedAt := None;
                    te_attempts := 0 |}]).
Proof. split; do 2 eexists; (split; [|split]); reflexivity. Qed.

End StoreProofs.

(** * Properties of the scheduler *)

Module SchedulerProofs.
Import Scheduler.

Lemma parseCronToInterval_fixed expression : parseCronToInterval expression = 60000.
Proof. unfold parseCronToInterval. by destruct (Nat.eqb _ _). Qed.

Lemma fireTimes_running n : forall itv due,
  fireTimes n {| interval := itv; running := true; timeoutId := Some due |}
  = map (fun k => due + itv * Z.of_nat k) (seq 0 n).
Proof.
  induction n as [|n IH]; intros itv due; [done|].
  cbn [fireTimes fire timeoutId running interval]. rewrite IH.
  cbn [seq map]. f_equal; [lia|].
  rewrite <- seq_shift, map_map. apply map_ext. intros k. lia.
Qed.

(** C9, as the code has it: whatever the cron expression and the time
    zone, a job started at [now] fires at [now + 60000], [now + 120000], ...:
    the interval is the constant 60000 ms and not one derived from the five
    fields of the expression. *)
Theorem cron_fires_every_minute (expression timezone : string) (now : Z) (n : nat) :
  fireTimes n (start now (createCronJob expression timezone))
  = map (fun k => now + 60000 * Z.of_nat (S k)) (seq 0 n).
Proof.
  unfold start, createCronJob. cbn [running interval].
  rewrite parseCronToInterval_fixed, fireTimes_running.
  apply map_ext. intros k. lia.
Qed.

(** The daily expression that the scheduler itself uses for its cleanup
    job, started at midnight, first fires one minute later. *)
Example cleanup_job_fires_after_a_minute :
  fireTimes 3 (start 0 (createCronJob "0 2 * * *" "UTC")) = [60000; 120000; 180000].
Proof. reflexivity. Qed.

End SchedulerProofs.

(** * Properties of the executor *)

Module ExecutorProofs.
Import Executor ExecutorSpec.


Lemma taskIdAt_stable w w' i :
  map te_task (tasks w') = map te_task (tasks w) -> taskIdAt i w' = taskIdAt i w.
Proof.
  intros H. unfold taskIdAt.
  assert (E : map te_task (tasks w') !! i = map te_task (tasks w) !! i) by by rewrite H.
  change (map te_task ?l) with (te_task <$> l) in E. rewrite !list_lookup_fmap in E.
  destruct (tasks w' !! i), (tasks w !! i); cbn in E; congruence.
Qed.

Lemma hasJob_mono w w' i : (forall J, J ∈ jobs w -> J ∈ jobs w') -> hasJob i w -> hasJob i w'.
Proof. intros H (J & HJ & F). exists J. auto. Qed.

Lemma lighter_refl ts : lighter ts ts.
Proof. by intros i k. Qed.

Lemma lighter_trans a b c : lighter a b -> lighter b c -> lighter a c.
Proof. intros H1 H2 i k. etrans; [apply H1|apply H2]. Qed.

Lemma Ext_refl w : Ext w w.
Proof. split; auto using lighter_refl. Qed.

Lemma Ext_trans a b c : Ext a b -> Ext b c -> Ext a c.
Proof.
  intros [T1 L1 J1 W1 A1 C1] [T2 L2 J2 W2 A2 C2]. split.
  - congruence.
  - eauto using lighter_trans.
  - auto.
  - auto.
  - intros id i H. apply A2 in H as [H|[H ->]].
    + apply A1 in H as [H|[H ->]]; [by left|]. right. split; [|done].
      by eapply hasJob_mono.
    + right. split; [done|]. by apply taskIdAt_stable.
  - intros x H. apply C2 in H as [H|H]; auto.
Qed.

(** Updating record [i] in place, keeping its task and not lowering its
    count of attempts. *)
Lemma update_tasks ts i te te' :
  ts !! i = Some te -> te_task te' = te_task te -> te_attempts te <= te_attempts te' ->
  map te_task (<[i := te']> ts) = map te_task ts /\ lighter (<[i := te']> ts) ts.
Proof.
  intros Hi Ht Ha. split.
  - change (map te_task ?l) with (te_task <$> l). rewrite list_fmap_insert, Ht.
    apply list_insert_id. by rewrite list_lookup_fmap, Hi.
  - intros j k. unfold attemptsLeft. destruct (decide (j = i)) as [->|Hne].
    + rewrite list_lookup_insert_eq by by eapply lookup_lt_Some.
      rewrite Hi, Ht. destruct (task_retry (te_task te)); lia.
    + by rewrite list_lookup_insert_ne.
Qed.

Lemma attemptsLeft_insert ts i te' k :
  (i < length ts)%nat ->
  attemptsLeft (<[i := te']> ts) i k =
  match task_retry (te_task te') with
  | Some retry => Z.to_nat (retry_attempts retry - (te_attempts te' + k))
  | None => O
  end.
Proof. intros H. unfold attemptsLeft. by rewrite list_lookup_insert_eq. Qed.

Lemma sumWeights_app ts a b :
  sumWeights ts (a ++ b) = (sumWeights ts a + sumWeights ts b)%nat.
Proof. induction a as [|x a IH]; cbn [app sumWeights]; [done|]. rewrite IH. lia. Qed.

Lemma jobWeight_lighter ts' ts j : lighter ts' ts -> (jobWeight ts' j <= jobWeight ts j)%nat.
Proof.
  intros H. destruct j as [i|i a|i a o|i r|i]; cbn; try lia.
  all: pose proof (H i 0%Z); pose proof (H i 1%Z); lia.
Qed.

Lemma sumWeights_lighter ts' ts js :
  lighter ts' ts -> (sumWeights ts' js <= sumWeights ts js)%nat.
Proof.
  intros H. induction js as [|j js IH]; cbn [sumWeights]; [done|].
  pose proof (jobWeight_lighter ts' ts j H). lia.
Qed.

Lemma sumWeights_insertByDue ts e l :
  sumWeights ts (map snd (insertByDue e l)) =
  (jobWeight ts (snd e) + sumWeights ts (map snd l))%nat.
Proof.
  induction l as [|x l IH]; cbn [insertByDue map sumWeights]; [done|].
  destruct (fst e <? fst x); cbn [map sumWeights]; [done|]. rewrite IH. lia.
Qed.

Lemma elem_of_insertByDue e l x : x ∈ l -> x ∈ insertByDue e l.
Proof.
  induction l as [|y l IH]; cbn; [by intros ?%elem_of_nil|].
  intros H. destruct (fst e <? fst y); [by right|].
  apply elem_of_cons in H as [->|H]; [by left|right; auto].
Qed.

Lemma insertByDue_head e l : e ∈ insertByDue e l.
Proof.
  induction l as [|y l IH]; cbn; [by left|].
  destruct (fst e <? fst y); [by left|by right].
Qed.

Lemma budget_setTasks ts' w :
  lighter ts' (tasks w) -> (budget (setTasks ts' w) <= budget w)%nat.
Proof.
  intros H. unfold budget. cbn.
  pose proof (sumWeights_lighter _ _ (microtasks w) H).
  pose proof (sumWeights_lighter _ _ (map snd (macrotasks w)) H).
  pose proof (sumWeights_lighter _ _ (map (fun x => Launch (fst x)) (waiting w)) H).
  lia.
Qed.

Lemma budget_queueMicrotask j w :
  budget (queueMicrotask j w) = (budget w + jobWeight (tasks w) j)%nat.
Proof. unfold budget. cbn. rewrite sumWeights_app. cbn. lia. Qed.

Lemma budget_arm due j w :
  budget (arm due j w) = (budget w + jobWeight (tasks w) j)%nat.
Proof. unfold budget. cbn. rewrite sumWeights_insertByDue. cbn. lia. Qed.

Lemma budget_setTimeout j d w :
  budget (setTimeout j d w) = (budget w + jobWeight (tasks w) j)%nat.
Proof. apply budget_arm. Qed.

Lemma Ext_setTasks w i te te' :
  tasks w !! i = Some te -> te_task te' = te_task te -> te_attempts te <= te_attempts te' ->
  Ext w (setTasks (<[i := te']> (tasks w)) w).
Proof.
  intros Hi Ht Ha. destruct (update_tasks _ _ _ _ Hi Ht Ha). split; cbn; auto.
Qed.

Lemma Ext_queueMicrotask j w : Ext w (queueMicrotask j w).
Proof.
  split; cbn; auto using lighter_refl.
  intros J. unfold jobs. cbn. rewrite !elem_of_app. tauto.
Qed.

Lemma Ext_arm due j w : Ext w (arm due j w).
Proof.
  split; cbn; auto using lighter_refl.
  intros J. unfold jobs. cbn. rewrite !elem_of_app.
  intros [H|H]; [by left|right].
  apply list_elem_of_In, in_map_iff in H as (x & <- & Hx).
  apply list_elem_of_In, in_map. apply list_elem_of_In, elem_of_insertByDue.
  by apply list_elem_of_In.
Qed.

Section Run.
Context (loader : PluginLoader) (options : Options)
        (pipeline : Pipeline) (executionId : string).

Lemma sumWeights_partition ts (p : nat * list nat -> bool) l :
  (sumWeights ts (map (fun x => Launch (fst x)) (filter (fun x => p x) l)) +
   sumWeights ts (map (fun x => Launch (fst x)) (filter (fun x => negb (p x)) l)))%nat
  = sumWeights ts (map (fun x => Launch (fst x)) l).
Proof.
  induction l as [|x l IH]; [done|].
  rewrite !filter_cons. destruct (p x) eqn:E.
  - rewrite decide_True by done. rewrite decide_False by (cbn; auto).
    cbn [map sumWeights]. lia.
  - rewrite decide_False by (cbn; auto). rewrite decide_True by done.
    cbn [map sumWeights]. lia.
Qed.

Lemma settle_spec i attached res w :
  Ext w (settle i attached res w) /\
  (budget (settle i attached res w) <= budget w)%nat /\
  (attached = true -> Gone i w (settle i attached res w)).
Proof.
  unfold settle. destruct attached; [|split; [apply Ext_refl|split; [lia|done]]].
  split; [|split].
  - split; cbn; auto using lighter_refl.
    + intros J. unfold jobs. cbn. rewrite !elem_of_app. tauto.
    + intros x Hx. by apply list_elem_of_filter in Hx as [_ ?].
    + intros id k H. left. apply lookup_delete_Some in H. tauto.
  - unfold budget. cbn [tasks microtasks macrotasks waiting]. rewrite sumWeights_app.
    pose proof (sumWeights_partition (tasks w) (races i) (waiting w)) as P.
    destruct res; cbn [sumWeights map]; lia.
  - intros _. split.
    + intros k snap Hx. apply list_elem_of_filter in Hx as [Hx _].
      apply negb_True in Hx. unfold races in Hx. by rewrite bool_decide_spec in Hx.
    + cbn. apply lookup_delete_eq.
Qed.

Lemma Gone_stable i w w2 w' :
  map te_task (tasks w2) = map te_task (tasks w) -> Gone i w2 w' -> Gone i w w'.
Proof. intros H [G1 G2]. split; [done|]. by rewrite <- (taskIdAt_stable w w2). Qed.

Lemma settle_after i attached res w w2 n :
  Ext w w2 -> (budget w2 <= n)%nat ->
  Ext w (settle i attached res w2) /\
  (budget (settle i attached res w2) <= n)%nat /\
  (attached = true -> Gone i w (settle i attached res w2)).
Proof.
  intros E B. destruct (settle_spec i attached res w2) as (E' & B' & G).
  split; [by eapply Ext_trans|]. split; [lia|].
  intros Ha. eapply Gone_stable; [apply E|auto].
Qed.

Lemma hasJob_queueMicrotask i J w : flowOf J = Some i -> hasJob i (queueMicrotask J w).
Proof.
  intros F. exists J. split; [|done].
  unfold jobs. cbn. rewrite !elem_of_app, list_elem_of_singleton. auto.
Qed.

Lemma Ext_setTimeout j d w : Ext w (setTimeout j d w).
Proof. apply Ext_arm. Qed.

Lemma hasJob_arm i J due w : flowOf J = Some i -> hasJob i (arm due J w).
Proof.
  intros F. exists J. split; [|done].
  unfold jobs. cbn. rewrite elem_of_app. right.
  apply list_elem_of_In, (in_map snd _ (due, J)), list_elem_of_In,
    insertByDue_head.
Qed.

Lemma hasJob_setTimeout i J d w : flowOf J = Some i -> hasJob i (setTimeout J d w).
Proof. apply hasJob_arm. Qed.

(** The record at [i] was replaced by one with the same task and at least
    as many attempts. *)
Ltac updated w i te Hi E B :=
  match goal with
  | |- context [setTasks ?l w] =>
      assert (E : Ext w (setTasks l w))
        by (eapply (Ext_setTasks w i te); [exact Hi|reflexivity|cbn; lia]);
      pose proof (budget_setTasks l w (ext_lighter _ _ E)) as B
  end.

Lemma executeTask_spec i attached w :
  Ext w (executeTask i attached w) /\
  (budget (executeTask i attached w) <= budget w + 3 * attemptsLeft (tasks w) i 1 + 2)%nat /\
  (attached = true -> hasJob i (executeTask i attached w)) /\
  activeExecutions (executeTask i attached w) = activeExecutions w.
Proof.
  unfold executeTask. destruct (tasks w !! i) as [te|] eqn:Hi.
  2:{ destruct attached.
      - split; [apply Ext_queueMicrotask|]. rewrite budget_queueMicrotask. cbn.
        split; [lia|]. split; [|done]. intros _. by apply hasJob_queueMicrotask.
      - split; [apply Ext_refl|]. split; [lia|]. done. }
  assert (Hlen : (i < length (tasks w))%nat) by by eapply lookup_lt_Some.
  destruct (negb (default false (task_enabled (te_task te)))).
  - updated w i te Hi E B.
    destruct attached.
    + split; [eapply Ext_trans; [exact E|apply Ext_queueMicrotask]|].
      rewrite budget_queueMicrotask. cbn [jobWeight]. split; [lia|]. split; [|done].
      intros _. by apply hasJob_queueMicrotask.
    + split; [exact E|]. split; [lia|]. done.
  - updated w i te Hi E B.
    split; [eapply Ext_trans; [exact E|apply Ext_queueMicrotask]|].
    rewrite budget_queueMicrotask. cbn [jobWeight tasks setTasks].
    rewrite attemptsLeft_insert by done. cbn [te_task te_attempts].
    unfold attemptsLeft. rewrite Hi.
    split; [destruct (task_retry (te_task te)); lia|]. split; [|done].
    intros ->. by apply hasJob_queueMicrotask.
Qed.

Lemma executeTask_catch_spec i attached error w :
  Ext w (executeTask_catch options i attached error w) /\
  (budget (executeTask_catch options i attached error w)
   <= budget w + 3 * attemptsLeft (tasks w) i 0)%nat /\
  (attached = true -> Gone i w (executeTask_catch options i attached error w)).
Proof.
  unfold executeTask_catch. destruct (tasks w !! i) as [te|] eqn:Hi.
  2:{ apply settle_after; [apply Ext_refl|lia]. }
  assert (Hlen : (i < length (tasks w))%nat) by by eapply lookup_lt_Some.
  destruct (task_retry (te_task te)) as [retry|] eqn:Hr.
  - destruct (te_attempts te <? retry_attempts retry) eqn:Hlt.
    + apply Z.ltb_lt in Hlt. updated w i te Hi E B.
      apply settle_after.
      * eapply Ext_trans; [exact E|apply Ext_setTimeout].
      * rewrite budget_setTimeout. cbn [jobWeight tasks setTasks].
        rewrite attemptsLeft_insert by done. cbn [te_task te_attempts].
        unfold attemptsLeft. rewrite Hi, Hr. lia.
    + updated w i te Hi E B. apply settle_after; [exact E|lia].
  - updated w i te Hi E B. apply settle_after; [exact E|lia].
Qed.

Lemma executeTask_afterLoad_spec i attached w :
  let w' := executeTask_afterLoad loader options pipeline executionId i attached w in
  Ext w w' /\
  (budget w' <= budget w + 3 * attemptsLeft (tasks w) i 0 + 1)%nat /\
  (attached = true -> hasJob i w' \/ Gone i w w').
Proof.
  unfold executeTask_afterLoad. destruct (tasks w !! i) as [te|] eqn:Hi.
  2:{ destruct (settle_after i attached (Some noRecord) w w (budget w) (Ext_refl w))
        as (E & B & G); [lia|]. split; [done|]. split; [lia|]. auto. }
  destruct (loader (task_plugin (te_task te))) as [plugin|].
  - destruct (awaited _ _ _ _) as [d outcome].
    split; [|split].
    + destruct (Ext_arm (now w + d) (PluginSettled i attached outcome) w). split; try done.
      cbn. intros c Hc. apply elem_of_app in Hc as [Hc|Hc]; [by left|].
      apply list_elem_of_singleton in Hc as ->. by right.
    + pose proof (budget_arm (now w + d) (PluginSettled i attached outcome) w) as B.
      unfold budget in *. cbn in *. lia.
    + intros ->. left.
      destruct (hasJob_arm i (PluginSettled i true outcome) (now w + d) w eq_refl)
        as (J & HJ & F).
      exists J. by split.
  - destruct (executeTask_catch_spec i attached
                (PluginError ("Plugin not found: " +:+ task_plugin (te_task te))) w)
      as (E & B & G).
    split; [done|]. split; [lia|]. auto.
Qed.

Lemma executeTask_settled_spec i attached outcome w :
  let w' := executeTask_settled options i attached outcome w in
  Ext w w' /\
  (budget w' <= budget w + 3 * attemptsLeft (tasks w) i 0)%nat /\
  (attached = true -> Gone i w w').
Proof.
  unfold executeTask_settled. destruct outcome as [result|error].
  2:{ apply executeTask_catch_spec. }
  destruct (tasks w !! i) as [te|] eqn:Hi.
  2:{ apply settle_after; [apply Ext_refl|lia]. }
  updated w i te Hi E B.
  destruct (res_success result).
  - apply settle_after; [done|lia].
  - match goal with |- context [executeTask_catch options i attached ?e ?w1] =>
      destruct (executeTask_catch_spec i attached e w1) as (E' & B' & G') end.
    split; [by eapply Ext_trans|]. split.
    + pose proof (ext_lighter _ _ E i 0). lia.
    + intros Ha. eapply Gone_stable; [apply E|auto].
Qed.

Lemma launch_spec i w :
  Ext w (launch i w) /\
  (budget (launch i w) <= budget w + 3 * attemptsLeft (tasks w) i 1 + 2)%nat /\
  hasJob i (launch i w).
Proof.
  unfold launch. destruct (executeTask_spec i true w) as (E & B & H & A).
  specialize (H eq_refl). split; [|split; [exact B|exact H]].
  destruct E as [T L J W _ C]. split; cbn; auto.
  intros id k Hl. apply lookup_insert_Some in Hl as [[<- <-]|[_ Hl]].
  - right. by split.
  - left. by rewrite <- A.
Qed.

(** The effect of one job on a loop from which it was taken. *)
Lemma runJob_spec j w :
  let w' := runJob loader options pipeline executionId j w in
  Ext w w' /\
  (budget w' < jobWeight (tasks w) j + budget w)%nat /\
  (forall i, flowOf j = Some i -> hasJob i w' \/ Gone i w w').
Proof.
  destruct j as [i|i a|i a o|i r|i]; cbn [runJob jobWeight flowOf].
  - destruct (launch_spec i w) as (E & B & H). split; [done|]. split; [lia|].
    intros ? [= <-]. by left.
  - destruct (executeTask_afterLoad_spec i a w) as (E & B & H).
    split; [done|]. split; [lia|]. intros k Hk. destruct a; [|done].
    injection Hk as <-. auto.
  - destruct (executeTask_settled_spec i a o w) as (E & B & H).
    split; [done|]. split; [lia|]. intros k Hk. destruct a; [|done].
    injection Hk as <-. auto.
  - destruct (settle_spec i true r w) as (E & B & H).
    split; [done|]. split; [lia|]. intros k [= <-]. auto.
  - destruct (executeTask_spec i false w) as (E & B & H & A).
    split; [done|]. split; [lia|]. done.
Qed.

Lemma step_None w : step loader options pipeline executionId w = None -> jobs w = [].
Proof.
  unfold step, jobs. destruct (microtasks w); [|done].
  by destruct (macrotasks w) as [|[??]?].
Qed.

Lemma step_spec w w' :
  step loader options pipeline executionId w = Some w' ->
  Inv w ->
  Inv w' /\ (budget w' < budget w)%nat /\ Stable w w'.
Proof.
  intros Hstep [IW IA].
  assert (exists j w0,
            w' = runJob loader options pipeline executionId j w0 /\
            jobs w = j :: jobs w0 /\ tasks w0 = tasks w /\ waiting w0 = waiting w /\
            activeExecutions w0 = activeExecutions w /\ calls w0 = calls w /\
            budget w = (jobWeight (tasks w) j + budget w0)%nat)
    as (j & w0 & -> & HJ & HT & HW & HA & HC & HB).
  { unfold step in Hstep. destruct (microtasks w) as [|j rest] eqn:Hm.
    - destruct (macrotasks w) as [|[due j] rest] eqn:HM; [done|].
      injection Hstep as <-. do 2 eexists. split; [done|].
      unfold jobs, budget. rewrite Hm, HM. cbn. repeat split; lia.
    - injection Hstep as <-. do 2 eexists. split; [done|].
      unfold jobs, budget. rewrite Hm. cbn. repeat split; lia. }
  destruct (runJob_spec j w0) as ([T L J W A C] & B & F).
  rewrite HT in B. split; [|split; [lia|]].
  2:{ split; [by rewrite T, HT|]. by rewrite <- HC. }
  assert (Hkeep : forall i, hasJob i w ->
            hasJob i (runJob loader options pipeline executionId j w0) \/
            Gone i w0 (runJob loader options pipeline executionId j w0)).
  { intros i (K & HK & FK). rewrite HJ in HK. apply elem_of_cons in HK as [->|HK].
    - by apply F.
    - left. exists K. auto. }
  split.
  - intros k snap Hx. apply W in Hx as Hx0. rewrite HW in Hx0.
    destruct (IW k snap Hx0) as (i & Hi & Hjob). exists i. split; [done|].
    destruct (Hkeep i Hjob) as [?|[G _]]; [done|]. by destruct (G k snap Hx).
  - intros id i Hl. apply A in Hl as Hl0. destruct Hl0 as [Hl0|[Hjob ->]].
    + rewrite HA in Hl0. destruct (IA id i Hl0) as [Hjob ->].
      assert (taskIdAt i w = taskIdAt i w0) as Eid by (unfold taskIdAt; by rewrite HT).
      split; [|rewrite Eid; symmetry; by apply taskIdAt_stable].
      destruct (Hkeep i Hjob) as [?|[_ G]]; [done|]. rewrite <- Eid in G. congruence.
    + split; [done|]. symmetry. by apply taskIdAt_stable.
Qed.

Lemma Stable_refl w : Stable w w.
Proof. split; auto. Qed.

Lemma Stable_trans a b c : Stable a b -> Stable b c -> Stable a c.
Proof.
  intros [T1 C1] [T2 C2]. split; [congruence|].
  intros x H. apply C2 in H as [H|H]; auto.
Qed.

Lemma Ext_Stable w w' : Ext w w' -> Stable w w'.
Proof. intros E. split; apply E. Qed.

Lemma Inv_Ext w w' : Inv w -> Ext w w' -> Inv w'.
Proof.
  intros [IW IA] [T L J W A C]. split.
  - intros k snap Hx. destruct (IW k snap (W _ Hx)) as (i & Hi & Hjob).
    exists i. split; [done|]. by eapply hasJob_mono.
  - intros id i Hl. apply A in Hl as [Hl|[Hjob ->]].
    + destruct (IA id i Hl) as [Hjob ->]. split; [by eapply hasJob_mono|].
      symmetry. by apply taskIdAt_stable.
    + split; [done|]. symmetry. by apply taskIdAt_stable.
Qed.

Lemma allSettled_no_jobs w : jobs w = [] -> allSettled w = false -> waiting w <> [].
Proof.
  unfold jobs, allSettled. intros H.
  apply app_eq_nil in H as [-> H]. apply map_eq_nil in H as ->. cbn.
  by destruct (waiting w).
Qed.

Lemma awaitAll_spec fuel : forall w,
  Inv w -> (budget w <= fuel)%nat ->
  exists w' e, awaitAll loader options pipeline executionId fuel w = (w', e) /\
               e <> Diverges /\ Inv w' /\ Stable w w'.
Proof.
  induction fuel as [|fuel IH]; intros w I B; cbn [awaitAll].
  all: destruct (rejected w) as [e|];
    [exists w, (Threw e); split; [done|]; split; [done|]; split; [done|apply Stable_refl]|].
  all: destruct (allSettled w) eqn:HS;
    [exists w, Done; split; [done|]; split; [done|]; split; [done|apply Stable_refl]|].
  all: destruct (step loader options pipeline executionId w) as [w1|] eqn:Hstep.
  all: try (apply step_None in Hstep; pose proof (allSettled_no_jobs w Hstep HS) as Hw;
            destruct (waiting w) as [|[k snap] rest] eqn:Ew; [done|];
            destruct (inv_waiting w I k snap) as (i & _ & J & HJ & _);
              [rewrite Ew; by left|]; rewrite Hstep in HJ; by apply elem_of_nil in HJ).
  all: destruct (step_spec w w1 Hstep I) as (I1 & B1 & S1).
  - lia.
  - destruct (IH w1 I1) as (w' & e & -> & He & I' & S'); [lia|].
    exists w', e. split; [done|]. split; [done|]. split; [done|].
    by eapply Stable_trans.
Qed.

Lemma awaitAll_Done fuel : forall w w',
  awaitAll loader options pipeline executionId fuel w = (w', Done) -> rejected w' = None.
Proof.
  induction fuel as [|fuel IH]; intros w w'; cbn [awaitAll].
  all: destruct (rejected w) eqn:R; [done|].
  all: destruct (allSettled w); [by intros [= <-]|]; try done.
  destruct (step loader options pipeline executionId w); [apply IH|done].
Qed.

Lemma executeTaskWithConcurrency_spec i w :
  Inv w ->
  Inv (executeTaskWithConcurrency options i w) /\
  Stable w (executeTaskWithConcurrency options i w).
Proof.
  intros I. unfold executeTaskWithConcurrency.
  destruct (maxConcurrency options <=? _).
  - destruct (0 <? size (activeExecutions w))%nat eqn:Hsz.
    + split; [|split; cbn; auto]. destruct I as [IW IA]. split; cbn.
      2:{ intros id i0 Hl. destruct (IA id i0 Hl) as [(J & HJ & F) ->].
          split; [by exists J|done]. }
      assert (forall i0, hasJob i0 w -> hasJob i0
                {| now := now w; tasks := tasks w; microtasks := microtasks w;
                   macrotasks := macrotasks w; activeExecutions := activeExecutions w;
                   waiting := waiting w ++ [(i, (map_to_list (activeExecutions w)).*2)];
                   rejected := rejected w; calls := calls w |}) as Hsame
        by (intros i0 (J & HJ & F); by exists J).
      intros k snap Hx. apply elem_of_app in Hx as [Hx|Hx].
      { destruct (IW k snap Hx) as (i0 & ? & ?). exists i0. auto. }
      apply list_elem_of_singleton in Hx as [= -> ->].
      apply Nat.ltb_lt in Hsz.
      destruct (map_to_list (activeExecutions w)) as [|[id i0] rest] eqn:El.
      { apply map_to_list_empty_iff in El. rewrite El, map_size_empty in Hsz. lia. }
      exists i0. split; [cbn; by left|].
      apply Hsame, (IA id). apply elem_of_map_to_list. rewrite El. by left.
    + pose proof (Ext_queueMicrotask (Launch i) w) as E.
      split; [by eapply Inv_Ext|by apply Ext_Stable].
  - destruct (launch_spec i w) as (E & _ & _).
    split; [by eapply Inv_Ext|by apply Ext_Stable].
Qed.

Lemma dispatch_spec l : forall w,
  Inv w -> Inv (dispatch options l w) /\ Stable w (dispatch options l w).
Proof.
  unfold dispatch. induction l as [|i l IH]; intros w I; cbn [fold_left].
  - split; [done|apply Stable_refl].
  - destruct (executeTaskWithConcurrency_spec i w I) as [I1 S1].
    destruct (IH _ I1) as [I2 S2]. split; [done|]. by eapply Stable_trans.
Qed.

Lemma positions_spec {A} (p : A -> bool) l : forall k i,
  i ∈ positions p k l ->
  exists x, (k <= i)%nat /\ l !! (i - k)%nat = Some x /\ p x = true.
Proof.
  induction l as [|y l IH]; intros k i; cbn [positions]; [by intros ?%elem_of_nil|].
  destruct (p y) eqn:Hp.
  - intros [->|H]%elem_of_cons.
    + exists y. rewrite Nat.sub_diag. by split.
    + destruct (IH _ _ H) as (x & Hk & Hl & Hx). exists x.
      replace (i - k)%nat with (S (i - S k)) by lia. split; [lia|]. by split.
  - intros H. destruct (IH _ _ H) as (x & Hk & Hl & Hx). exists x.
    replace (i - k)%nat with (S (i - S k)) by lia. split; [lia|]. by split.
Qed.

Lemma Stable_length w w' : Stable w w' -> length (tasks w') = length (tasks w).
Proof. intros [T _]. by rewrite <- (length_map te_task), T, length_map. Qed.

Lemma executeTasks_loop_spec fuel : forall executed w,
  Inv w -> (length (tasks w) - size executed < fuel)%nat ->
  exists w' e, executeTasks_loop loader options pipeline executionId fuel executed w = (w', e) /\
               e <> Diverges /\ Inv w' /\ Stable w w'.
Proof.
  induction fuel as [|fuel IH]; intros executed w I Hm; [lia|].
  cbn [executeTasks_loop].
  destruct (size executed <? length (tasks w))%nat eqn:Hlt.
  2:{ exists w, Done. split; [done|]. split; [done|]. split; [done|apply Stable_refl]. }
  apply Nat.ltb_lt in Hlt.
  destruct (getExecutableTasks (tasks w) executed) as [|i0 rest] eqn:Hex.
  { cbn. eexists w, _. split; [done|]. split; [done|]. split; [done|apply Stable_refl]. }
  cbn [length Nat.eqb].
  destruct (dispatch_spec (i0 :: rest) w I) as [I1 S1].
  destruct (awaitAll_spec (budget (dispatch options (i0 :: rest) w)) _ I1 (le_n _))
    as (w2 & e & -> & He & I2 & S2).
  assert (S12 : Stable w w2) by by eapply Stable_trans.
  destruct e as [|err|]; [|by exists w2, (Threw err)|done].
  match goal with |- context [executeTasks_loop _ _ _ _ fuel ?ex w2] =>
    destruct (IH ex w2 I2) as (w' & e & -> & He' & I' & S') end.
  - rewrite (Stable_length _ _ S12).
    assert (i0 ∈ getExecutableTasks (tasks w) executed) as Hi0 by (rewrite Hex; by left).
    apply positions_spec in Hi0 as (te & _ & Hl & Hx). rewrite Nat.sub_0_r in Hl.
    unfold isExecutable in Hx.
    destruct (bool_decide (task_id (te_task te) ∈ executed)) eqn:Hin; [done|].
    apply bool_decide_eq_false in Hin.
    assert (taskIdAt i0 w2 = task_id (te_task te)) as Eid.
    { rewrite (taskIdAt_stable w w2) by apply S12. unfold taskIdAt. by rewrite Hl. }
    match goal with |- (_ - size ?ex < _)%nat =>
      assert (executed ⊂ ex) as Hsub end.
    { cbn [map list_to_set]. rewrite Eid. set_solver. }
    apply subset_size in Hsub. lia.
  - exists w', e. split; [done|]. split; [done|]. split; [done|]. by eapply Stable_trans.
Qed.

Lemma Inv_initialWorld startTime ts : Inv (initialWorld startTime ts).
Proof. split; cbn; [by intros ?? ?%elem_of_nil|by intros ?? ?%lookup_empty_Some]. Qed.

Lemma executeTasks_spec w :
  Inv w ->
  exists w' e, executeTasks loader options pipeline executionId w = (w', e) /\
               e <> Diverges /\ Inv w' /\ Stable w w'.
Proof.
  intros I. apply executeTasks_loop_spec; [done|]. rewrite size_empty. lia.
Qed.

(** The [try] block always comes to an end. *)
Lemma executePipeline_try_spec {S} `{Store.StateManager S} (startTime : Z) (store : S) :
  exists w store1 e,
    executePipeline_try loader options pipeline executionId startTime store = (w, store1, e) /\
    e <> Diverges /\ Inv w /\
    Stable (initialWorld startTime (map newExecution (pipeline_tasks pipeline))) w.
Proof.
  unfold executePipeline_try. cbn [newRun run_tasks].
  destruct (Store.savePipelineRun _ store) as [store1|e].
  - destruct (executeTasks_spec _ (Inv_initialWorld startTime
                (map newExecution (pipeline_tasks pipeline)))) as (w & e & -> & He & I & St).
    by exists w, store1, e.
  - eexists _, _, _. split; [done|]. split; [done|].
    split; [apply Inv_initialWorld|apply Stable_refl].
Qed.

Lemma finalStatus_cases ts :
  finalStatus ts ∈ [PipelineStatus.success; PipelineStatus.failed;
                    PipelineStatus.cancelled; PipelineStatus.running] /\
  (finalStatus ts = PipelineStatus.running ->
   exists te, te ∈ ts /\ te_status te = TaskStatus.running).
Proof.
  unfold finalStatus. destruct (existsb (statusIs TaskStatus.running) ts) eqn:HR.
  - split; [solve [repeat constructor]|]. intros _.
    apply existsb_exists in HR as (te & Hin & Hs).
    exists te. split; [by apply list_elem_of_In|]. unfold statusIs in Hs.
    by apply bool_decide_eq_true in Hs.
  - destruct (existsb (statusIs TaskStatus.failed) ts); cbn;
      [split; [solve [repeat constructor]|done]|].
    destruct (forallb _ ts); cbn; (split; [solve [repeat constructor]|done]).
Qed.

Lemma drain_spec fuel : forall w,
  Inv w -> (budget w <= fuel)%nat ->
  exists w', drain loader options pipeline executionId fuel w = Some w' /\
             jobs w' = [] /\ Stable w w'.
Proof.
  induction fuel as [|fuel IH]; intros w I B; cbn [drain].
  all: destruct (step loader options pipeline executionId w) as [w1|] eqn:Hstep.
  all: try (exists w; split; [done|]; split; [by apply step_None|apply Stable_refl]).
  all: destruct (step_spec w w1 Hstep I) as (I1 & B1 & S1).
  - lia.
  - destruct (IH w1 I1) as (w' & -> & HJ & S'); [lia|].
    exists w'. split; [done|]. split; [done|]. by eapply Stable_trans.
Qed.

End Run.


Lemma elem_of_jobs_queueMicrotask J j w :
  J ∈ jobs (queueMicrotask j w) <-> J ∈ jobs w \/ J = j.
Proof.
  unfold jobs. cbn. rewrite !elem_of_app, list_elem_of_singleton. tauto.
Qed.

Lemma elem_of_insertByDue_inv e l x : x ∈ insertByDue e l -> x = e \/ x ∈ l.
Proof.
  induction l as [|y l IH]; cbn.
  - intros ->%list_elem_of_singleton. by left.
  - destruct (fst e <? fst y).
    + intros [->|H]%elem_of_cons; auto.
    + intros [->|H]%elem_of_cons; [right; by left|].
      destruct (IH H) as [->|?]; [by left|right; by right].
Qed.

Lemma elem_of_jobs_arm J j due w :
  J ∈ jobs (arm due j w) <-> J ∈ jobs w \/ J = j.
Proof.
  split.
  - unfold jobs. cbn. rewrite !elem_of_app. intros [H|H]; [by left; left|].
    apply list_elem_of_In, in_map_iff in H as ([due' x] & <- & Hx).
    apply list_elem_of_In, elem_of_insertByDue_inv in Hx as [[= -> ->]|Hx]; [by right|].
    left. right. apply list_elem_of_In, (in_map snd _ (due', x)). by apply list_elem_of_In.
  - intros [H| ->].
    + by apply (ext_jobs _ _ (Ext_arm due j w)).
    + unfold jobs. cbn. rewrite elem_of_app. right.
      apply list_elem_of_In, (in_map snd _ (due, j)), list_elem_of_In,
        insertByDue_head.
Qed.

Lemma elem_of_jobs_setTimeout J j d w :
  J ∈ jobs (setTimeout j d w) <-> J ∈ jobs w \/ J = j.
Proof. apply elem_of_jobs_arm. Qed.

Lemma Flight_add x w w' j :
  tasks w' = tasks w ->
  (forall J, J ∈ jobs w' <-> J ∈ jobs w \/ J = j) ->
  (isAttached j = false -> retried (tasks w) (jobIndex j)) ->
  Flight x w -> Flight x w'.
Proof.
  intros T HJ Hd [F1 F2]. split.
  - intros i te Hx Hl Hs. rewrite T in Hl. destruct (F1 i te Hx Hl Hs) as (J & ? & ?).
    exists J. split; [apply HJ; by left|done].
  - intros J HJ' Ha. rewrite T. apply HJ in HJ' as [?| ->]; auto.
Qed.

Lemma Flight_close i w j :
  j ∈ jobs w -> inFlight j = Some i -> Flight (Some i) w -> Flight None w.
Proof.
  intros Hj Hf [F1 F2]. split; [|done].
  intros k te _ Hl Hs. destruct (decide (k = i)) as [->|Hne].
  - by exists j.
  - apply (F1 k te); [congruence|done|done].
Qed.

Lemma Flight_idle i w :
  (forall te, tasks w !! i = Some te -> te_status te <> TaskStatus.running) ->
  Flight (Some i) w -> Flight None w.
Proof.
  intros Hi [F1 F2]. split; [|done].
  intros k te _ Hl Hs. destruct (decide (k = i)) as [->|Hne].
  - by destruct (Hi te Hl).
  - apply (F1 k te); [congruence|done|done].
Qed.

Lemma Flight_weaken x w : Flight None w -> Flight x w.
Proof. intros [F1 F2]. split; [|done]. intros i te _. by apply F1. Qed.

Lemma retried_insert ts i te te' k :
  ts !! i = Some te -> te_task te' = te_task te ->
  retried (<[i := te']> ts) k <-> retried ts k.
Proof.
  intros Hi Ht. unfold retried. destruct (decide (k = i)) as [->|Hne].
  - rewrite list_lookup_insert_eq by by eapply lookup_lt_Some. rewrite Hi.
    split; intros (x & [= <-] & Hr); eexists; (split; [done|]); congruence.
  - by rewrite list_lookup_insert_ne.
Qed.

Lemma retried_insert_fwd ts i te te' k :
  ts !! i = Some te -> te_task te' = te_task te ->
  retried ts k -> retried (<[i := te']> ts) k.
Proof. intros Hi Ht. by apply (retried_insert ts i te te' k Hi Ht). Qed.

Lemma Flight_update i w te te' l :
  tasks w !! i = Some te -> te_task te' = te_task te -> l = <[i := te']> (tasks w) ->
  Flight (Some i) w -> Flight (Some i) (setTasks l w).
Proof.
  intros Hi Ht -> [F1 F2]. split; cbn.
  - intros k x Hk Hl Hs. rewrite list_lookup_insert_ne in Hl by congruence.
    apply (F1 k x); auto.
  - intros J HJ Ha. apply (retried_insert _ _ _ _ _ Hi Ht). by apply F2.
Qed.

Lemma Flight_settle x i attached res w : Flight x w -> Flight x (settle i attached res w).
Proof.
  unfold settle. destruct attached; [|done]. intros [F1 F2]. split; cbn.
  - intros k te Hk Hl Hs. destruct (F1 k te Hk Hl Hs) as (J & HJ & Hf). exists J.
    split; [|done]. unfold jobs in *. cbn. rewrite !elem_of_app in *. tauto.
  - intros J HJ Ha. apply F2; [|done]. unfold jobs in *. cbn in HJ.
    rewrite !elem_of_app in *. destruct HJ as [[?|HJ]|?]; [tauto| |tauto].
    destruct res; [by apply elem_of_nil in HJ|].
    apply list_elem_of_In, in_map_iff in HJ as (y & <- & _). done.
Qed.

Section Run.
Context (loader : PluginLoader) (options : Options)
        (pipeline : Pipeline) (executionId : string).

Ltac updating w i te Hi F :=
  match goal with
  | |- context [setTasks ?l w] =>
      let F' := fresh "F" in
      assert (F' : Flight (Some i) (setTasks l w))
        by (eapply (Flight_update i w te); [exact Hi| |reflexivity|exact F]; reflexivity)
  end.

Lemma executeTask_Flight i attached w :
  (attached = false -> retried (tasks w) i) ->
  Flight (Some i) w -> Flight None (executeTask i attached w).
Proof.
  intros Hr F. unfold executeTask. destruct (tasks w !! i) as [te|] eqn:Hi.
  2:{ assert (Flight None w) as F0 by (apply (Flight_idle i); [by rewrite Hi|done]).
      destruct attached; [|done].
      apply (Flight_add None w _ (FlowSettled i (Some noRecord)));
        [done|intros ?; apply elem_of_jobs_queueMicrotask|done|exact F0]. }
  assert (Hlen : (i < length (tasks w))%nat) by by eapply lookup_lt_Some.
  destruct (negb (default false (task_enabled (te_task te)))).
  - updating w i te Hi F.
    match goal with |- context [setTasks ?l w] =>
      assert (Flight None (setTasks l w)) as F1 end.
    { apply (Flight_idle i); [|done]. cbn. rewrite list_lookup_insert_eq by done.
      by intros ? [= <-]. }
    destruct attached; [|done].
    match goal with |- Flight None (queueMicrotask ?j ?w1) =>
      apply (Flight_add None w1 _ j);
        [done|intros ?; apply elem_of_jobs_queueMicrotask|done|exact F1] end.
  - updating w i te Hi F.
    apply (Flight_close i _ (AfterLoad i attached)); [|done|].
    { apply elem_of_jobs_queueMicrotask. by right. }
    match goal with |- Flight (Some i) (queueMicrotask ?j ?w1) =>
      apply (Flight_add (Some i) w1 _ j);
        [done|intros ?; apply elem_of_jobs_queueMicrotask| |exact F0] end.
    cbn [isAttached jobIndex tasks setTasks]. intros Ha.
    eapply retried_insert_fwd; [exact Hi|reflexivity|auto].
Qed.

Lemma executeTask_catch_Flight i attached error w :
  Flight (Some i) w -> Flight None (executeTask_catch options i attached error w).
Proof.
  intros F. unfold executeTask_catch. destruct (tasks w !! i) as [te|] eqn:Hi.
  2:{ apply Flight_settle, (Flight_idle i); [by rewrite Hi|done]. }
  assert (Hlen : (i < length (tasks w))%nat) by by eapply lookup_lt_Some.
  assert (forall l te',
            l = <[i := te']> (tasks w) -> te_task te' = te_task te ->
            te_status te' <> TaskStatus.running ->
            Flight None (setTasks l w)) as Hidle.
  { intros l te' -> Ht Hs. apply (Flight_idle i).
    - cbn. rewrite list_lookup_insert_eq by done. by intros ? [= <-].
    - by eapply Flight_update. }
  destruct (task_retry (te_task te)) as [retry|] eqn:Hretry.
  - destruct (te_attempts te <? retry_attempts retry).
    + apply Flight_settle.
      match goal with |- Flight None (setTimeout ?j ?d ?w1) =>
        apply (Flight_add None w1 _ j);
          [done|intros ?; apply elem_of_jobs_setTimeout| |by eapply Hidle] end.
      intros _. cbn [isAttached jobIndex tasks setTasks].
      eapply retried_insert_fwd; [exact Hi|reflexivity|].
      exists te. split; [done|]. by rewrite Hretry.
    + apply Flight_settle. by eapply Hidle.
  - apply Flight_settle. by eapply Hidle.
Qed.

Lemma executeTask_afterLoad_Flight i attached w :
  (attached = false -> retried (tasks w) i) ->
  Flight (Some i) w ->
  Flight None (executeTask_afterLoad loader options pipeline executionId i attached w).
Proof.
  intros Hr F. unfold executeTask_afterLoad. destruct (tasks w !! i) as [te|] eqn:Hi.
  2:{ apply Flight_settle, (Flight_idle i); [by rewrite Hi|done]. }
  destruct (loader (task_plugin (te_task te))) as [plugin|].
  2:{ by apply executeTask_catch_Flight. }
  destruct (awaited _ _ _ _) as [d outcome].
  assert (Flight None (arm (now w + d) (PluginSettled i attached outcome) w)) as F1.
  { apply (Flight_close i _ (PluginSettled i attached outcome)); [|done|].
    { apply elem_of_jobs_arm. by right. }
    apply (Flight_add (Some i) w _ (PluginSettled i attached outcome));
      [done|intros ?; apply elem_of_jobs_arm| |exact F].
    cbn. intros ->. auto. }
  destruct F1 as [G1 G2]. by split.
Qed.

Lemma executeTask_settled_Flight i attached outcome w :
  Flight (Some i) w -> Flight None (executeTask_settled options i attached outcome w).
Proof.
  intros F. unfold executeTask_settled. destruct outcome as [result|error].
  2:{ by apply executeTask_catch_Flight. }
  destruct (tasks w !! i) as [te|] eqn:Hi.
  2:{ apply Flight_settle, (Flight_idle i); [by rewrite Hi|done]. }
  assert (Hlen : (i < length (tasks w))%nat) by by eapply lookup_lt_Some.
  updating w i te Hi F.
  destruct (res_success result).
  - apply Flight_settle, (Flight_idle i); [|done]. cbn.
    rewrite list_lookup_insert_eq by done. by intros ? [= <-].
  - by apply executeTask_catch_Flight.
Qed.

Lemma launch_Flight i w : Flight None w -> Flight None (launch i w).
Proof.
  intros F. unfold launch.
  pose proof (executeTask_Flight i true w ltac:(done) (Flight_weaken _ _ F)) as [F1 F2].
  by split.
Qed.

(** A job taken from a loop in flight leaves the loop in flight. *)
Lemma runJob_Flight j w w0 :
  jobs w = j :: jobs w0 -> tasks w0 = tasks w ->
  Flight None w -> Flight None (runJob loader options pipeline executionId j w0).
Proof.
  intros HJ HT [F1 F2].
  assert (Hd : isAttached j = false -> retried (tasks w0) (jobIndex j)).
  { intros Ha. rewrite HT. apply F2; [|done]. rewrite HJ. by left. }
  assert (FX : Flight (Some (jobIndex j)) w0).
  { split.
    - intros k te Hk Hl Hs. rewrite HT in Hl. destruct (F1 k te ltac:(done) Hl Hs) as (J & HJ' & Hf).
      exists J. split; [|done]. rewrite HJ in HJ'. apply elem_of_cons in HJ' as [->|?]; [|done].
      destruct j; cbn in *; congruence.
    - intros J HJ' Ha. rewrite HT. apply F2; [|done]. rewrite HJ. by right. }
  assert (F0 : inFlight j = None -> Flight None w0).
  { intros Hn. split; [|apply FX].
    intros k te _ Hl Hs. rewrite HT in Hl. destruct (F1 k te ltac:(done) Hl Hs) as (J & HJ' & Hf).
    exists J. split; [|done]. rewrite HJ in HJ'. apply elem_of_cons in HJ' as [->|?]; [|done].
    congruence. }
  destruct j as [i|i a|i a o|i r|i]; cbn [runJob jobIndex isAttached] in *.
  - by apply launch_Flight, F0.
  - apply executeTask_afterLoad_Flight; [|done]. intros ->. by apply Hd.
  - by apply executeTask_settled_Flight.
  - by apply Flight_settle, F0.
  - apply executeTask_Flight; [|done]. intros _. by apply Hd.
Qed.

Lemma step_Flight w w' :
  step loader options pipeline executionId w = Some w' -> Flight None w -> Flight None w'.
Proof.
  unfold step. intros Hstep F. destruct (microtasks w) as [|j rest] eqn:Hm.
  - destruct (macrotasks w) as [|[due j] rest] eqn:HM; [done|].
    injection Hstep as <-. apply (runJob_Flight j w); [|done|done].
    unfold jobs. by rewrite Hm, HM.
  - injection Hstep as <-. apply (runJob_Flight j w); [|done|done].
    unfold jobs. by rewrite Hm.
Qed.

Lemma awaitAll_Flight fuel : forall w w' e,
  awaitAll loader options pipeline executionId fuel w = (w', e) ->
  Flight None w -> Flight None w' /\ (e = Done -> allSettled w' = true).
Proof.
  induction fuel as [|fuel IH]; intros w w' e; cbn [awaitAll].
  all: destruct (rejected w); [by intros [= <- <-]|].
  all: destruct (allSettled w) eqn:HS; [by intros [= <- <-]|].
  - by intros [= <- <-].
  - destruct (step loader options pipeline executionId w) as [w1|] eqn:Hstep;
      [|by intros [= <- <-]].
    intros H F. apply (IH _ _ _ H). by eapply step_Flight.
Qed.

Lemma executeTaskWithConcurrency_Flight i w :
  Flight None w -> Flight None (executeTaskWithConcurrency options i w).
Proof.
  intros F. unfold executeTaskWithConcurrency.
  destruct (maxConcurrency options <=? _); [|by apply launch_Flight].
  destruct (0 <? size (activeExecutions w))%nat.
  - destruct F as [F1 F2]. by split.
  - apply (Flight_add None w _ (Launch i));
      [done|intros ?; apply elem_of_jobs_queueMicrotask|done|done].
Qed.

Lemma dispatch_Flight l : forall w, Flight None w -> Flight None (dispatch options l w).
Proof.
  unfold dispatch. induction l as [|i l IH]; intros w F; cbn [fold_left]; [done|].
  by apply IH, executeTaskWithConcurrency_Flight.
Qed.

Lemma executeTasks_loop_Flight fuel : forall executed w w' e,
  executeTasks_loop loader options pipeline executionId fuel executed w = (w', e) ->
  Flight None w -> allSettled w = true ->
  Flight None w' /\ (e = Done -> allSettled w' = true).
Proof.
  induction fuel as [|fuel IH]; intros executed w w' e; cbn [executeTasks_loop].
  { by intros [= <- <-]. }
  destruct (size executed <? length (tasks w))%nat; [|by intros [= <- <-]].
  destruct (Nat.eqb _ 0); [by intros [= <- <-]|].
  destruct (awaitAll _ _ _ _ _ _) as [w2 e2] eqn:Hwave.
  intros H F HS.
  destruct (awaitAll_Flight _ _ _ _ Hwave (dispatch_Flight _ _ F)) as [F2 HS2].
  destruct e2; [by apply (IH _ _ _ _ H); auto| |]; by injection H as <- <-.
Qed.

Lemma Flight_initialWorld startTime ts :
  Flight None (initialWorld startTime (map newExecution ts)).
Proof.
  split; cbn.
  - intros i te _ Hl Hs. apply list_elem_of_lookup_2, list_elem_of_In, in_map_iff in Hl
      as (t & <- & _). done.
  - by intros J ?%elem_of_nil.
Qed.

Lemma executePipeline_try_Flight {S} `{Store.StateManager S} (startTime : Z) (store : S) :
  let '(w, _, e) := executePipeline_try loader options pipeline executionId startTime store in
  Flight None w /\ (e = Done -> allSettled w = true).
Proof.
  unfold executePipeline_try. cbn [newRun run_tasks].
  destruct (Store.savePipelineRun _ store) as [store1|err].
  - destruct (executeTasks _ _ _ _ _) as [w e] eqn:Hex.
    by apply (executeTasks_loop_Flight _ _ _ _ _ Hex (Flight_initialWorld _ _)).
  - split; [apply Flight_initialWorld|done].
Qed.

(** At the end of the loop a record still [running] belongs to a task with
    a retry policy. *)
Lemma running_at_exit w :
  Flight None w -> allSettled w = true ->
  finalStatus (tasks w) = PipelineStatus.running ->
  exists te, te ∈ tasks w /\ te_status te = TaskStatus.running /\
             task_retry (te_task te) <> None.
Proof.
  intros [F1 F2] HS Hfin.
  destruct (finalStatus_cases (tasks w)) as [_ Hrun].
  destruct (Hrun Hfin) as (te & Hin & Hs).
  apply list_elem_of_lookup_1 in Hin as (i & Hi).
  destruct (F1 i te ltac:(done) Hi Hs) as (J & HJ & Hf).
  assert (isAttached J = false) as Ha.
  { unfold allSettled in HS. apply andb_prop in HS as [HS _]. apply andb_prop in HS as [H1 H2].
    rewrite forallb_forall in H1, H2. unfold jobs in HJ. apply elem_of_app in HJ as [HJ|HJ].
    - apply list_elem_of_In, H1 in HJ. by destruct (isAttached J).
    - apply list_elem_of_In, in_map_iff in HJ as ([due K] & <- & HK).
      apply H2 in HK. cbn in *. by destruct (isAttached K). }
  destruct (F2 J HJ Ha) as (te' & Hi' & Hr).
  assert (jobIndex J = i) as Hidx by (destruct J; cbn in *; congruence).
  rewrite Hidx, Hi in Hi'. injection Hi' as <-.
  exists te. split; [by eapply list_elem_of_lookup_2|done].
Qed.

End Run.

(** ** What [executePipeline] guarantees *)


(** The run of [fork] under the default options. *)
Lemma fork_run :
  exists run w disk,
    executePipeline forkLoader defaultExecutor fork "run-1" 0 FileState.NoFile
    = Ret (run, w, disk) /\
    run_status run = PipelineStatus.running.
Proof. do 3 eexists. split; [by vm_compute|done]. Qed.



(** C2 on the code.  On the chain [a -> b -> c] where the plugin of [b]
    returns [{success: false, error: "boom"}] and no task has a retry
    policy, the run is [failed] with [a] successful and [b] failed, and [c],
    which never started, is left [pending] with no result: nothing marks it
    [skipped].  With [continueOnError] the loop goes on, finds no executable
    task and reports a deadlock; [c] is [pending] as well. *)
Theorem failed_task_leaves_descendant_pending :
  (exists run w disk,
     executePipeline chainLoader defaultExecutor chain "run-1" 0 FileState.NoFile
     = Ret (run, w, disk) /\
     run_status run = PipelineStatus.failed /\
     run_error run = Some "Task execution failed: boom" /\
     statuses (run_tasks run)
     = [("a", TaskStatus.success); ("b", TaskStatus.failed); ("c", TaskStatus.pending)] /\
     te_result <$> run_tasks run !! 2%nat = Some None /\
     jobs w = []) /\
  (exists run w disk,
     executePipeline chainLoader
       (PipelineExecutor {| opt_maxConcurrency := None; opt_timeout := None;
                            opt_continueOnError := Some true |})
       chain "run-1" 0 FileState.NoFile
     = Ret (run, w, disk) /\
     run_status run = PipelineStatus.failed /\
     run_error run = Some "Pipeline deadlock - circular dependencies detected" /\
     statuses (run_tasks run)
     = [("a", TaskStatus.success); ("b", TaskStatus.failed); ("c", TaskStatus.pending)]).
Proof.
  split; do 3 eexists; (split; [by vm_compute|]); repeat split.
Qed.

(** C3 on the code.  Every context that [executePipeline] hands to a plugin
    has an empty [previousResults], whatever tasks have succeeded before. *)
Theorem previousResults_always_empty {S} `{Store.StateManager S}
    (loader : PluginLoader) (options : Options) (pipeline : Pipeline)
    (executionId : string) (startTime : Z) (store : S) :
  Forall (fun c => ctx_previousResults c = ∅)
    (calls (fst (fst (executePipeline_try loader options pipeline executionId
                        startTime store)))).
Proof.
  destruct (executePipeline_try_spec loader options pipeline executionId startTime store)
    as (w & store1 & e & -> & _ & _ & [_ C]).
  cbn [fst]. apply Forall_forall. intros c Hc.
  destruct (C c Hc) as [Hin|Hc']; [|done]. by apply elem_of_nil in Hin.
Qed.

(** On [fetch -> transform -> load] with plugins that all succeed, the run
    is [success] and the plugin of [load] is called with no previous result,
    not with those of [fetch] and [transform]. *)
Example load_sees_no_previous_result :
  exists run w disk,
    executePipeline (fun _ => Some (succeeds 3)) defaultExecutor linear "run-1" 0
      FileState.NoFile = Ret (run, w, disk) /\
    run_status run = PipelineStatus.success /\
    map (fun c => (task_id (ctx_task c), dom (ctx_previousResults c))) (calls w)
    = [("fetch", ∅); ("transform", ∅); ("load", ∅)].
Proof. do 3 eexists. split; [by vm_compute|]. split; reflexivity. Qed.

(** C4 on the code.  For a pipeline with no task, once the first save is
    done, [executePipeline] ends with the status [cancelled] (every task of
    the empty list is skipped) and zero task records. *)
Theorem empty_pipeline_is_cancelled {S} `{Store.StateManager S}
    (loader : PluginLoader) (options : Options) (pipeline : Pipeline)
    (executionId : string) (startTime : Z) (store store1 : S) :
  pipeline_tasks pipeline = [] ->
  Store.savePipelineRun (newRun pipeline executionId startTime) store = Ok store1 ->
  let run := {| run_id := executionId;
                run_pipelineName := pipeline_name pipeline;
                run_status := PipelineStatus.cancelled;
                run_startedAt := Date startTime;
                run_completedAt := Some (Date startTime);
                run_tasks := [];
                run_trigger := manualTrigger;
                run_error := None |} in
  executePipeline loader options pipeline executionId startTime store
  = match Store.savePipelineRun run store1 with
    | Ok store2 => Ret (run, initialWorld startTime [], store2)
    | Err e => Throw e
    end.
Proof.
  intros Hempty Hsave. unfold executePipeline, executePipeline_try.
  rewrite Hsave. unfold newRun. rewrite Hempty. reflexivity.
Qed.

Lemma empty_pipeline_is_cancelled_witness :
  exists disk,
    executePipeline chainLoader defaultExecutor (pipelineOf []) "run-1" 7 FileState.NoFile
    = Ret ({| run_id := "run-1"; run_pipelineName := "example";
              run_status := PipelineStatus.cancelled;
              run_startedAt := Date 7; run_completedAt := Some (Date 7);
              run_tasks := []; run_trigger := manualTrigger; run_error := None |},
           initialWorld 7 [], disk).
Proof.
  eexists.
  etransitivity;
    [eapply (empty_pipeline_is_cancelled chainLoader defaultExecutor (pipelineOf [])
               "run-1" 7 FileState.NoFile); [reflexivity|vm_compute; reflexivity]|].
  reflexivity.
Defined.

Lemma settle_keeps i attached res w :
  tasks (settle i attached res w) = tasks w /\
  macrotasks (settle i attached res w) = macrotasks w.
Proof. unfold settle. by destruct attached. Qed.

(** The [catch] block on a record that exists: retried or finalized. *)
Lemma catch_retries_or_fails (options : Options) (i : nat) (attached : bool)
    (error : Exn) (w : World) :
  match tasks w !! i with
  | Some te =>
      let w' := executeTask_catch options i attached error w in
      match task_retry (te_task te) with
      | Some retry =>
          if te_attempts te <? retry_attempts retry then
            tasks w' !! i = Some (resetForRetry te) /\
            (now w + timerDelay (retry_delay retry), RetryTimer i) ∈ macrotasks w'
          else
            tasks w' !! i = Some (finalizedFailed te error (now w)) /\
            macrotasks w' = macrotasks w
      | None =>
          tasks w' !! i = Some (finalizedFailed te error (now w)) /\
          macrotasks w' = macrotasks w
      end
  | None => True
  end.
Proof.
  destruct (tasks w !! i) as [te|] eqn:Hi; [|done].
  assert (Hlen : (i < length (tasks w))%nat) by by eapply lookup_lt_Some.
  unfold executeTask_catch. rewrite Hi.
  destruct (task_retry (te_task te)) as [retry|].
  - destruct (te_attempts te <? retry_attempts retry).
    + match goal with |- context [settle i attached ?r ?w1] =>
        destruct (settle_keeps i attached r w1) as [-> ->] end.
      cbn. split; [by apply list_lookup_insert_eq|apply insertByDue_head].
    + match goal with |- context [settle i attached ?r ?w1] =>
        destruct (settle_keeps i attached r w1) as [-> ->] end.
      cbn. split; [by apply list_lookup_insert_eq|done].
  - match goal with |- context [settle i attached ?r ?w1] =>
      destruct (settle_keeps i attached r w1) as [-> ->] end.
    cbn. split; [by apply list_lookup_insert_eq|done].
Qed.

(** The retry timer fires: the record is dispatched again, as at its first
    attempt (running with one more attempt, or skipped if the task is not
    enabled). *)
Lemma retry_timer_dispatches (loader : PluginLoader) (options : Options)
    (pipeline : Pipeline) (executionId : string) (i : nat) (w : World) :
  match tasks w !! i with
  | Some te =>
      tasks (runJob loader options pipeline executionId (RetryTimer i) w) !! i
      = Some (if default false (task_enabled (te_task te))
              then {| te_task := te_task te; te_status := TaskStatus.running;
                      te_result := te_result te; te_startedAt := Some (Date (now w));
                      te_completedAt := te_completedAt te;
                      te_attempts := te_attempts te + 1 |}
              else {| te_task := te_task te; te_status := TaskStatus.skipped;
                      te_result := te_result te; te_startedAt := te_startedAt te;
                      te_completedAt := te_completedAt te;
                      te_attempts := te_attempts te |})
  | None => True
  end.
Proof.
  destruct (tasks w !! i) as [te|] eqn:Hi; [|done].
  assert (Hlen : (i < length (tasks w))%nat) by by eapply lookup_lt_Some.
  cbn [runJob]. unfold executeTask. rewrite Hi.
  destruct (default false (task_enabled (te_task te))); cbn;
    by apply list_lookup_insert_eq.
Qed.

(** The run of a task [x] with [retry.attempts = 3] whose plugin always
    returns [{success: false, error: msg}]: what [executePipeline] returns and
    saves, and the record of [x] once the retry timers have fired. *)
Lemma retried_task_is_returned_pending (d : nat) (msg : string) (delay startTime : Z) :
  exists run w disk,
    executePipeline (fun _ => Some (failsWith d msg)) defaultExecutor
      (pipelineOf [simpleTask "x" []
                     (Some {| retry_attempts := 3; retry_delay := delay |})])
      "run-1" startTime FileState.NoFile
    = Ret (run, w, disk) /\
    run_status run = PipelineStatus.success /\
    run_error run = None /\
    map (fun te => (te_status te, te_attempts te, te_result te)) (run_tasks run)
    = [(TaskStatus.pending, 1, None)] /\
    FileState.getPipelineRun "run-1" disk = Ok (Some (FileState.json_run run)) /\
    (fun w' => map (fun te => (te_status te, te_attempts te, te_result te)) (tasks w')) <$>
    drain (fun _ => Some (failsWith d msg)) defaultExecutor
      (pipelineOf [simpleTask "x" []
                     (Some {| retry_attempts := 3; retry_delay := delay |})])
      "run-1" (budget w) w
    = Some [(TaskStatus.failed, 3,
             Some {| res_success := false; res_output := None;
                     res_error := Some ("Task execution failed: " +:+ msg);
                     res_metadata := None |})].
Proof.
  do 3 eexists. split; [by vm_compute|].
  split; [done|]. split; [done|]. split; [done|]. split; by vm_compute.
Qed.


Lemma file_save_Ok r disk disk' :
  FileState.savePipelineRun r disk = Ok disk' -> exists d, disk' = FileState.Document d.
Proof.
  unfold FileState.savePipelineRun, FileState.getRuns, FileState.setRuns.
  destruct disk; cbn; [|done|]; intros [= <-]; by eexists.
Qed.

(** C10.  The run that [executePipeline] returns, and the run that it hands
    to the state store, has the trigger [{type: 'manual', config: {}}]; and
    when the scheduler fires, whatever the trigger of the entry, the run
    found in the store under the execution id has that same manual trigger. *)
Theorem recorded_trigger_is_manual :
  (forall S (M : Store.StateManager S) loader options pipeline executionId startTime
          (store : S),
     match executePipeline loader options pipeline executionId startTime store with
     | Ret (run, _, _) => run_trigger run = manualTrigger
     | Throw e => exists run store1,
         Store.savePipelineRun run store1 = Err e /\ run_trigger run = manualTrigger
     | OutOfFuel => False
     end) /\
  (forall loader options pipeline trigger jobId executionId time (disk : FileState.Disk),
     match Scheduler.executeScheduledPipeline loader options pipeline trigger jobId
             executionId time disk with
     | (Scheduler.Completed _, Some disk') =>
         exists run, FileState.getPipelineRun executionId disk' = Ok (Some run) /\
                     run_trigger run = manualTrigger
     | (Scheduler.Failed _, _) => exists why, disk = FileState.Unreadable why
     | _ => False
     end).
Proof.
  split.
  - intros S M loader options pipeline executionId startTime store.
    unfold executePipeline.
    destruct (executePipeline_try_spec loader options pipeline executionId startTime store)
      as (w & store1 & e & -> & He & _ & _).
    destruct e as [|err|]; [| |done].
    all: destruct (Store.savePipelineRun _ store1) as [store2|e] eqn:Hsave; [done|].
    all: do 2 eexists; split; [exact Hsave|done].
  - intros loader options pipeline trigger jobId executionId time disk.
    unfold Scheduler.executeScheduledPipeline, executePipeline.
    destruct (executePipeline_try_spec loader options pipeline executionId time disk)
      as (w & store1 & e & Htry & He & _ & _).
    rewrite Htry.
    assert (Hstore : (exists why, disk = FileState.Unreadable why) \/
                     exists d, store1 = FileState.Document d).
    { unfold executePipeline_try in Htry.
      destruct (Store.savePipelineRun _ disk) as [s1|e1] eqn:Hfirst.
      - right. destruct (executeTasks _ _ _ _ _) as [w' e']. injection Htry as _ <- _.
        by eapply file_save_Ok.
      - left. pose proof (StoreProofs.file_save_then_get
                            (newRun pipeline executionId time) disk) as Hget.
        cbn in Hfirst. by rewrite Hfirst in Hget. }
    assert (forall run,
      match (match Store.savePipelineRun run store1 with
             | Ok store2 => Ret (run, w, store2)
             | Err e => Throw e
             end : Outcome (PipelineRun * World * FileState.Disk)) with
      | Ret (run', _, disk') =>
          run_id run = executionId -> run_trigger run = manualTrigger ->
          exists r, FileState.getPipelineRun executionId disk' = Ok (Some r) /\
                    run_trigger r = manualTrigger
      | Throw _ => exists why, disk = FileState.Unreadable why
      | OutOfFuel => False
      end) as Hfin.
    { intros run. pose proof (StoreProofs.file_save_then_get run store1) as Hget.
      cbn [Store.savePipelineRun FileState.manager].
      destruct (FileState.savePipelineRun run store1) as [disk'|e'].
      - intros <- Ht. eexists. split; [exact Hget|]. exact Ht.
      - destruct Hstore as [?|(d & ->)]; [done|]. by destruct Hget. }
    destruct e as [|err|]; [| |done].
    + match goal with |- context [Store.savePipelineRun ?r store1] =>
        specialize (Hfin r) end.
      destruct (Store.savePipelineRun _ store1); [by apply Hfin|done].
    + match goal with |- context [Store.savePipelineRun ?r store1] =>
        specialize (Hfin r) end.
      destruct (Store.savePipelineRun _ store1); [by apply Hfin|done].
Qed.

End ExecutorProofs.

Module DagProofs.
Import Parser ParserSpec DagSpec.

Lemma circularError_inj x y : circularError x = circularError y -> x = y.
Proof. intros H. vm_compute in H. by injection H. Qed.

Lemma danglingError_not_circular t d x : danglingError t d <> circularError x.
Proof. intros H. vm_compute in H. discriminate H. Qed.

Lemma multipleRootsError_not_circular tasks x : multipleRootsError tasks <> circularError x.
Proof. intros H. unfold multipleRootsError, circularError in H. cbn in H. discriminate H. Qed.

Lemma Settled_reach tasks B b y :
  Settled tasks B -> b ∈ B -> tc (dependsOn tasks) b y -> y ∈ B.
Proof.
  intros [C _] Hb Hr. induction Hr as [x y E|x y z E _ IH]; [by eapply C|].
  apply IH. by eapply C.
Qed.

Section Dfs.
Context (tasks : list Task).

Lemma detectCycles_correct fuel : forall taskId st st',
  detectCycles fuel tasks taskId st = Some st' ->
  recursionStack st ⊆ visited st ->
  (forall s, s ∈ recursionStack st -> tc (dependsOn tasks) s taskId) ->
  DfsPost tasks taskId st st'.
Proof.
  induction fuel as [|fuel IH]; intros taskId st st' H Hsub Hpath; [done|].
  cbn [detectCycles] in H.
  case_bool_decide as Hstack.
  { injection H as <-. cbn. split; [done|]. split; [done|]. split; [set_solver|].
    eexists. split; [done|]. split; [|done].
    constructor; [|constructor]. exists taskId. split; [done|]. by apply Hpath. }
  case_bool_decide as Hvis.
  { injection H as <-. split; [done|]. split; [done|]. split; [done|].
    exists []. rewrite app_nil_r. split; [done|]. split; [constructor|].
    intros _ HS. split; [done|]. unfold finished. set_solver. }
  set (st1 := {| visited := {[taskId]} ∪ visited st;
                 recursionStack := {[taskId]} ∪ recursionStack st;
                 dfs_errors := dfs_errors st |}) in *.
  (* the loop over the dependencies *)
  assert (Hloop : forall ds s s',
            fold_left (fun acc depId =>
                         match acc with
                         | Some s => detectCycles fuel tasks depId s
                         | None => None
                         end) ds (Some s) = Some s' ->
            (forall d, d ∈ ds -> dependsOn tasks taskId d) ->
            recursionStack s = recursionStack st1 -> visited st1 ⊆ visited s ->
            recursionStack s' = recursionStack st1 /\ visited s ⊆ visited s' /\
            exists new, dfs_errors s' = dfs_errors s ++ new /\
              Forall (fun m => exists x, m = circularError x /\ onCycle tasks x) new /\
              (new = [] -> Settled tasks (finished s) ->
               Settled tasks (finished s') /\ forall d, d ∈ ds -> d ∈ finished s')).
  { induction ds as [|d ds IHds]; intros s s' Hf Hd Hst Hv.
    - injection Hf as <-. split; [done|]. split; [done|]. exists [].
      rewrite app_nil_r. split; [done|]. split; [constructor|].
      intros _ HS. split; [done|]. intros d Hin. by apply elem_of_nil in Hin.
    - cbn [fold_left] in Hf.
      destruct (detectCycles fuel tasks d s) as [s1|] eqn:Hd1.
      2:{ exfalso. clear -Hf. induction ds as [|x ds IHx]; [done|]. by apply IHx. }
      apply IH in Hd1 as (R1 & V1 & _ & new1 & E1 & F1 & G1).
      + apply IHds in Hf as (R2 & V2 & new2 & E2 & F2 & G2).
        * split; [done|]. split; [set_solver|].
          exists (new1 ++ new2). rewrite E2, E1, app_assoc. split; [done|].
          split; [by apply Forall_app|].
          intros Hnil HS. apply app_eq_nil in Hnil as [-> ->].
          destruct (G1 eq_refl HS) as [HS1 Hd1].
          destruct (G2 eq_refl HS1) as [HS2 Hds].
          split; [done|]. intros d' [->|Hin]%elem_of_cons; [|by apply Hds].
          unfold finished in *. rewrite R2. rewrite R1, Hst in Hd1. set_solver.
        * intros d' Hin. apply Hd. by right.
        * by rewrite R1.
        * set_solver.
      + rewrite Hst. set_solver.
      + rewrite Hst. cbn. intros s0 [->%elem_of_singleton|Hs0]%elem_of_union.
        * apply tc_once, Hd. by left.
        * eapply tc_r; [by apply Hpath|]. apply Hd. by left. }
  assert (Hfin1 : finished st1 = finished st).
  { unfold finished. cbn. set_solver. }
  destruct (find (fun t => String.eqb (task_id t) taskId) tasks) as [task|] eqn:Hfind.
  - destruct (fold_left _ (deps task) (Some st1)) as [s|] eqn:Hfold; [|done].
    injection H as <-. cbn.
    apply Hloop in Hfold as (R & V & new & En & Fn & Gn); [| |done|done].
    2:{ intros d Hd. by exists task. }
    split; [rewrite R; cbn; set_solver|]. split; [set_solver|]. split; [set_solver|].
    exists new. split; [done|]. split; [done|].
    intros Hnil HS. rewrite <- Hfin1 in HS. destruct (Gn Hnil HS) as [HSs Hds].
    assert (Hf' : finished {| visited := visited s;
                              recursionStack := recursionStack s ∖ {[taskId]};
                              dfs_errors := dfs_errors s |} = {[taskId]} ∪ finished s).
    { unfold finished. cbn. rewrite R. cbn.
      apply set_eq. intros z. rewrite elem_of_union, !elem_of_difference, elem_of_singleton,
        elem_of_union, elem_of_singleton.
      destruct (decide (z = taskId)) as [->|]; [|naive_solver].
      split; [auto|]. intros _. split; [set_solver|]. naive_solver. }
    rewrite Hf'. split; [|set_solver].
    assert (Hnot : taskId ∉ finished s).
    { unfold finished. rewrite R. cbn. set_solver. }
    split.
    + intros b y [->%elem_of_singleton|Hb]%elem_of_union Hby.
      * destruct Hby as (task' & Hf2 & Hy). rewrite Hfind in Hf2. injection Hf2 as <-.
        apply elem_of_union. right. by apply Hds.
      * apply elem_of_union. right. destruct HSs as [C _]. by eapply C.
    + intros b [->%elem_of_singleton|Hb]%elem_of_union Hc.
      * apply Hnot. unfold onCycle in Hc. inversion Hc as [? ? Hby|? y ? Hby Hr]; subst.
        -- destruct Hby as (task' & Hf2 & Hy). rewrite Hfind in Hf2. injection Hf2 as <-.
           by apply Hds.
        -- eapply Settled_reach; [exact HSs| |exact Hr].
           destruct Hby as (task' & Hf2 & Hy). rewrite Hfind in Hf2. injection Hf2 as <-.
           by apply Hds.
      * destruct HSs as [_ A]. by eapply A.
  - injection H as <-. cbn.
    split; [set_solver|]. split; [set_solver|]. split; [set_solver|].
    exists []. rewrite app_nil_r. split; [done|]. split; [constructor|].
    intros _ HS.
    assert (Hf' : finished {| visited := {[taskId]} ∪ visited st;
                              recursionStack := ({[taskId]} ∪ recursionStack st) ∖ {[taskId]};
                              dfs_errors := dfs_errors st |} = {[taskId]} ∪ finished st).
    { unfold finished. cbn.
      apply set_eq. intros z. rewrite elem_of_union, !elem_of_difference, elem_of_singleton,
        !elem_of_union, elem_of_singleton.
      destruct (decide (z = taskId)) as [->|]; [|naive_solver].
      split; [auto|]. intros _. split; [auto|]. naive_solver. }
    rewrite Hf'. split; [|set_solver].
    assert (Hno : forall y, ~ dependsOn tasks taskId y).
    { intros y (task' & Hf2 & _). by rewrite Hfind in Hf2. }
    destruct HS as [C A]. split.
    + intros b y [->%elem_of_singleton|Hb]%elem_of_union Hby; [by apply Hno in Hby|].
      apply elem_of_union. right. by eapply C.
    + intros b [->%elem_of_singleton|Hb]%elem_of_union Hc; [|by eapply A].
      unfold onCycle in Hc. inversion Hc as [? ? Hby|? y ? Hby Hr]; subst; by apply Hno in Hby.
Qed.


Lemma loopMessage_mono taskIds todo todo' m :
  (forall t, t ∈ todo -> t ∈ todo') ->
  loopMessage tasks taskIds todo m -> loopMessage tasks taskIds todo' m.
Proof.
  intros Hsub [H|(task & d & Ht & H)]; [by left|]. right. exists task, d. split; [auto|done].
Qed.

Lemma checkTasks_correct taskIds todo : forall st st',
  checkTasks tasks taskIds todo st = Some st' ->
  recursionStack st = ∅ ->
  recursionStack st' = ∅ /\ visited st ⊆ visited st' /\
  (forall t, t ∈ todo -> task_id t ∈ visited st') /\
  exists new, dfs_errors st' = dfs_errors st ++ new /\
    Forall (loopMessage tasks taskIds todo) new /\
    (forall task d, task ∈ todo -> d ∈ deps task -> d ∉ taskIds ->
                    danglingError (task_id task) d ∈ new) /\
    ((forall x, circularError x ∉ new) -> Settled tasks (visited st) ->
     Settled tasks (visited st')).
Proof.
  induction todo as [|task rest IH]; intros st st' H Hst; cbn [checkTasks] in H.
  { injection H as <-. split; [done|]. split; [done|].
    split; [intros t Ht; by apply elem_of_nil in Ht|].
    exists []. rewrite app_nil_r. split; [done|]. split; [constructor|].
    split; [intros t d Ht; by apply elem_of_nil in Ht|]. auto. }
  set (missing := map (fun depId => "Task " +:+ quoted (task_id task) +:+
                                    " depends on non-existent task: " +:+ depId)
                      (filter (fun depId => negb (bool_decide (depId ∈ taskIds))) (deps task)))
    in *.
  assert (Hmiss : forall m, m ∈ missing <->
            exists d, d ∈ deps task /\ (d ∉ taskIds) /\ m = danglingError (task_id task) d).
  { intros m. unfold missing. rewrite list_elem_of_fmap. split.
    - intros (d & -> & Hd). apply list_elem_of_filter in Hd as [Hd1 Hd2].
      exists d. split; [done|]. split; [|done].
      apply negb_True in Hd1. by rewrite bool_decide_spec in Hd1.
    - intros (d & Hd & Hn & ->). exists d. split; [done|].
      apply list_elem_of_filter. split; [|done]. apply negb_True. by rewrite bool_decide_spec. }
  assert (exists s new1,
            (if bool_decide (task_id task ∈ visited st) then Some st
             else detectCycles (dfs_fuel tasks) tasks (task_id task) st) = Some s /\
            recursionStack s = ∅ /\ visited st ⊆ visited s /\ task_id task ∈ visited s /\
            dfs_errors s = dfs_errors st ++ new1 /\
            Forall (fun m => exists x, m = circularError x /\ onCycle tasks x) new1 /\
            (new1 = [] -> Settled tasks (visited st) -> Settled tasks (visited s)))
    as (s & new1 & Hs & R1 & V1 & T1 & E1 & F1 & G1).
  { destruct (bool_decide (task_id task ∈ visited st)) eqn:Hv.
    - apply bool_decide_eq_true in Hv. exists st, []. rewrite app_nil_r.
      split; [done|]. split; [done|]. split; [done|]. split; [done|]. split; [done|].
      split; [constructor|auto].
    - destruct (detectCycles (dfs_fuel tasks) tasks (task_id task) st) as [s|] eqn:Hd; [|done].
      apply detectCycles_correct in Hd as (R & V & T & new & En & Fn & Gn).
      + exists s, new. rewrite R, Hst.
        split; [done|]. split; [done|]. split; [done|]. split; [done|]. split; [done|].
        split; [done|].
        intros Hnil HS.
        assert (finished st = visited st) as Ef by (unfold finished; rewrite Hst; set_solver).
        assert (finished s = visited s) as Ef' by (unfold finished; rewrite R, Hst; set_solver).
        rewrite <- Ef'. apply Gn; [done|]. by rewrite Ef.
      + rewrite Hst. set_solver.
      + rewrite Hst. intros s0 Hs0. by apply elem_of_empty in Hs0. }
  rewrite Hs in H.
  apply IH in H as (R2 & V2 & T2 & new2 & E2 & F2 & D2 & G2); [|done].
  cbn in V2, E2, G2.
  split; [done|]. split; [set_solver|]. split.
  { intros t [->|Ht]%elem_of_cons; [set_solver|by apply T2]. }
  exists (new1 ++ missing ++ new2). split; [by rewrite E2, E1, <- !app_assoc|].
  split; [|split].
  - apply Forall_app. split; [|apply Forall_app; split].
    + eapply Forall_impl; [exact F1|]. intros m Hm. by left.
    + apply Forall_forall. intros m Hm. apply Hmiss in Hm as (d & Hd & Hn & ->).
      right. exists task, d. split; [by left|done].
    + eapply Forall_impl; [exact F2|]. intros m Hm.
      eapply loopMessage_mono; [|exact Hm]. intros t Ht. by right.
  - intros t d [->|Ht]%elem_of_cons Hd Hn; rewrite !elem_of_app.
    + right. left. apply Hmiss. by exists d.
    + right. right. by eapply D2.
  - intros Hno HS. apply G2.
    + intros x Hx. apply (Hno x). rewrite !elem_of_app. auto.
    + apply G1; [|done]. destruct new1 as [|m new1]; [done|]. exfalso.
      apply Forall_cons in F1 as [(x & -> & _) _]. apply (Hno x). by left.
Qed.

End Dfs.

Lemma danglingError_not_multipleRoots t d tasks : danglingError t d <> multipleRootsError tasks.
Proof. intros H. unfold multipleRootsError, danglingError in H. cbn in H. discriminate H. Qed.

Lemma loopMessages_circular tasks taskIds todo new :
  Forall (loopMessage tasks taskIds todo) new ->
  (exists x, circularError x ∈ new) \/ (forall x, circularError x ∉ new).
Proof.
  induction 1 as [|m new Hm _ IH]; [right; intros x Hx; by apply elem_of_nil in Hx|].
  destruct Hm as [(x & -> & _)|(task & d & _ & _ & _ & ->)].
  - left. exists x. by left.
  - destruct IH as [(x & Hx)|Hno]; [left; exists x; by right|].
    right. intros x [Hx|Hx]%elem_of_cons; [|by eapply Hno].
    symmetry in Hx. by apply danglingError_not_circular in Hx.
Qed.

Lemma dependsOn_task tasks x y : dependsOn tasks x y -> x ∈ map task_id tasks.
Proof.
  intros (task & Hf & _). apply find_some in Hf as [Hin Heq].
  apply String.eqb_eq in Heq. subst x. apply list_elem_of_fmap. exists task.
  split; [done|]. by apply list_elem_of_In.
Qed.

(** A non-empty finite set of ids each of which depends on an id of the
    set holds a cycle. *)
Lemma closed_set_has_cycle tasks (U : gset string) :
  U <> ∅ ->
  (forall x, x ∈ U -> exists d, dependsOn tasks x d /\ d ∈ U) ->
  exists x, onCycle tasks x.
Proof.
  intros Hne Hsucc.
  assert (Hpath : forall n, (exists x, onCycle tasks x) \/
            exists l h, length l = S n /\ NoDup l /\ h ∈ U /\
                        (forall x, x ∈ l -> x ∈ U /\ rtc (dependsOn tasks) x h)).
  { induction n as [|n [Hc|(l & h & Hlen & Hnd & Hh & Hl)]]; [|by left|].
    - right. apply set_choose_L in Hne as (u & Hu). exists [u], u.
      split; [done|]. split; [apply NoDup_singleton|]. split; [done|].
      by intros x ->%list_elem_of_singleton.
    - destruct (Hsucc h Hh) as (d & Hd & HdU).
      destruct (decide (d ∈ l)) as [Hin|Hnin].
      + left. exists d. destruct (Hl d Hin) as [_ Hr].
        eapply tc_rtc_l; [exact Hr|by apply tc_once].
      + right. exists (d :: l), d. split; [cbn; lia|]. split; [by apply NoDup_cons|].
        split; [done|]. intros x [->|Hx]%elem_of_cons; [done|].
        destruct (Hl x Hx) as [HxU Hr]. split; [done|]. by eapply rtc_r. }
  destruct (Hpath (size U)) as [Hc|(l & h & Hlen & Hnd & _ & Hl)]; [done|]. exfalso.
  assert (Hsz : (size (list_to_set l : gset string) <= size U)%nat).
  { apply subseteq_size. intros x Hx. apply elem_of_list_to_set in Hx. by apply Hl. }
  rewrite size_list_to_set in Hsz by done. lia.
Qed.

(** What [validateDAGStructure] appends: a circular-dependency error for
    ids that lie on a cycle (at least one if there is a cycle), one error for
    each dependency that names no task, and the multiple-roots error. *)
Lemma validateDAGStructure_spec (p : Pipeline) (errors : list string) :
  let tasks := pipeline_tasks p in
  exists added,
    validateDAGStructure p errors = Some (errors ++ added) /\
    Forall (fun m =>
              (exists x, m = circularError x /\ onCycle tasks x) \/
              (exists task d, task ∈ tasks /\ d ∈ deps task /\ (d ∉ map task_id tasks) /\
                              m = danglingError (task_id task) d) \/
              (m = multipleRootsError tasks /\
               (1 < length (filter (isRoot tasks) tasks))%nat)) added /\
    (forall task d, task ∈ tasks -> d ∈ deps task -> d ∉ map task_id tasks ->
                    danglingError (task_id task) d ∈ added) /\
    ((exists x, onCycle tasks x) -> exists x, circularError x ∈ added) /\
    ((1 < length (filter (isRoot tasks) tasks))%nat -> multipleRootsError tasks ∈ added).
Proof.
  intros tasks. unfold validateDAGStructure. fold tasks.
  set (taskIds := list_to_set (map task_id tasks) : gset string).
  assert (Hids : forall d, d ∈ taskIds <-> d ∈ map task_id tasks).
  { intros d. unfold taskIds. by rewrite elem_of_list_to_set. }
  destruct (ParserProofs.checkTasks_total tasks taskIds tasks
              {| visited := ∅; recursionStack := ∅; dfs_errors := errors |})
    as (st & Hc & _).
  rewrite Hc.
  apply checkTasks_correct in Hc as (_ & _ & T & new & E & F & D & G); [|done].
  cbn in E, G. rewrite E, ParserProofs.orphanedTasks_roots.
  assert (Fnew : Forall (fun m =>
              (exists x, m = circularError x /\ onCycle tasks x) \/
              (exists task d, task ∈ tasks /\ d ∈ deps task /\ (d ∉ map task_id tasks) /\
                              m = danglingError (task_id task) d) \/
              (m = multipleRootsError tasks /\
               (1 < length (filter (isRoot tasks) tasks))%nat)) new).
  { eapply Forall_impl; [exact F|]. intros m [H|(task & d & Ht & Hd & Hn & ->)]; [by left|].
    right. left. exists task, d. by rewrite <- Hids. }
  assert (Dnew : forall task d, task ∈ tasks -> d ∈ deps task -> d ∉ map task_id tasks ->
                                danglingError (task_id task) d ∈ new).
  { intros task d Ht Hd Hn. apply D; [done|done|]. by rewrite Hids. }
  assert (Cnew : (exists x, onCycle tasks x) -> exists x, circularError x ∈ new).
  { intros (x & Hx). destruct (loopMessages_circular _ _ _ _ F) as [H|Hno]; [done|].
    exfalso. assert (HS : Settled tasks (visited st)).
    { apply G; [done|]. split; intros b; set_solver. }
    destruct HS as [_ A]. apply (A x); [|done].
    assert (x ∈ map task_id tasks) as Hin.
    { unfold onCycle in Hx. inversion Hx; subst; by eapply dependsOn_task. }
    apply list_elem_of_fmap in Hin as (t & -> & Ht). by apply T. }
  destruct (Nat.ltb_spec 1 (length (filter (isRoot tasks) tasks))) as [Hlt|Hge].
  - exists (new ++ [multipleRootsError tasks]). rewrite app_assoc. split; [done|].
    split; [|split; [|split]].
    + apply Forall_app. split; [done|]. constructor; [|constructor]. right. by right.
    + intros task d Ht Hd Hn. apply elem_of_app. left. by apply Dnew.
    + intros Hx. destruct (Cnew Hx) as (x & Hin). exists x. apply elem_of_app. by left.
    + intros _. apply elem_of_app. right. by left.
  - exists new. split; [done|]. split; [done|]. split; [done|]. split; [done|]. lia.
Qed.

(** The cycle check is exact: [validateDAGStructure] appends a circular
    dependency error if and only if the dependency graph has a cycle, and every
    task that such an error names lies on a cycle. *)
Theorem validateDAGStructure_detects_cycles (p : Pipeline) (errors : list string) :
  exists added,
    validateDAGStructure p errors = Some (errors ++ added) /\
    (forall x, circularError x ∈ added -> onCycle (pipeline_tasks p) x) /\
    ((exists x, circularError x ∈ added) <-> (exists x, onCycle (pipeline_tasks p) x)).
Proof.
  destruct (validateDAGStructure_spec p errors) as (added & E & F & _ & C & _).
  exists added. split; [done|].
  assert (S : forall x, circularError x ∈ added -> onCycle (pipeline_tasks p) x).
  { intros x Hx. rewrite Forall_forall in F.
    destruct (F _ Hx) as [(y & Hy & Hc)|[(task & d & _ & _ & _ & Hm)|[Hm _]]].
    - by apply circularError_inj in Hy as ->.
    - symmetry in Hm. by apply danglingError_not_circular in Hm.
    - symmetry in Hm. by apply multipleRootsError_not_circular in Hm. }
  split; [done|]. split; [|done]. intros (x & Hx). exists x. by apply S.
Qed.

(** Every dependency that names no task of the pipeline is reported, and
    when all dependencies name a task no such error is appended. *)
Theorem validateDAGStructure_reports_missing_tasks (p : Pipeline) (errors : list string) :
  exists added,
    validateDAGStructure p errors = Some (errors ++ added) /\
    (forall task d, task ∈ pipeline_tasks p -> d ∈ deps task ->
                    d ∉ map task_id (pipeline_tasks p) ->
                    danglingError (task_id task) d ∈ added) /\
    ((exists t d, danglingError t d ∈ added) <->
     (exists task d, task ∈ pipeline_tasks p /\ d ∈ deps task /\
                     (d ∉ map task_id (pipeline_tasks p)))).
Proof.
  destruct (validateDAGStructure_spec p errors) as (added & E & F & D & _ & _).
  exists added. split; [done|]. split; [done|]. split.
  - intros (t & d & Hin). rewrite Forall_forall in F.
    destruct (F _ Hin) as [(y & Hy & _)|[(task & d' & Ht & Hd & Hn & _)|[Hm _]]].
    + by apply danglingError_not_circular in Hy.
    + by exists task, d'.
    + by apply danglingError_not_multipleRoots in Hm.
  - intros (task & d & Ht & Hd & Hn). exists (task_id task), d. by apply D.
Qed.

Lemma validateDAGStructure_clean (p : Pipeline) (errors : list string) :
  validateDAGStructure p errors = Some errors <->
  (forall x, ~ onCycle (pipeline_tasks p) x) /\
  (forall task d, task ∈ pipeline_tasks p -> d ∈ deps task ->
                  d ∈ map task_id (pipeline_tasks p)) /\
  (length (filter (isRoot (pipeline_tasks p)) (pipeline_tasks p)) <= 1)%nat.
Proof.
  destruct (validateDAGStructure_spec p errors) as (added & E & F & D & C & M).
  rewrite E. split.
  - intros H. assert (added = []) as ->.
    { injection H as H. rewrite <- (app_nil_r errors) in H at 2. by apply app_inv_head in H. }
    split; [|split].
    + intros x Hx. destruct C as (y & Hy); [by exists x|]. by apply elem_of_nil in Hy.
    + intros task d Ht Hd.
      destruct (decide (d ∈ map task_id (pipeline_tasks p))) as [|Hn]; [done|].
      exfalso. eapply elem_of_nil, D; done.
    + destruct (Nat.ltb_spec 1 (length (filter (isRoot (pipeline_tasks p)) (pipeline_tasks p))))
        as [Hlt|Hge]; [|lia].
      exfalso. eapply elem_of_nil, M; done.
  - intros (Hc & Hd & Hr). destruct added as [|m added]; [by rewrite app_nil_r|]. exfalso.
    apply Forall_cons in F as [[(x & _ & Hx)|[(task & d & Ht & Hin & Hn & _)|[_ Hlt]]] _].
    + by apply Hc in Hx.
    + apply Hn. by eapply Hd.
    + lia.
Qed.

(** The DAG check adds no error exactly when the dependency graph has no
    cycle, every dependency names a task, and at most one task has neither
    dependencies nor dependents. *)
Theorem validateDAGStructure_accepts_iff (p : Pipeline) (errors : list string) :
  validateDAGStructure p errors = Some errors <->
  (forall x, ~ onCycle (pipeline_tasks p) x) /\
  (forall task d, task ∈ pipeline_tasks p -> d ∈ deps task ->
                  d ∈ map task_id (pipeline_tasks p)) /\
  (length (filter (isRoot (pipeline_tasks p)) (pipeline_tasks p)) <= 1)%nat.
Proof. apply validateDAGStructure_clean. Qed.

End DagProofs.

Module TasksProofs.
Import Parser ParserSpec TasksSpec.

Lemma Post_vret {A} (a : A) (Q : A -> Prop) : Q a -> Post (vret a) Q.
Proof. by intros H d. Qed.

Lemma Post_vthrow {A} e (Q : A -> Prop) : Post (vthrow e) Q.
Proof. by intros d. Qed.

Lemma Post_vbind {A B} (m : V A) (f : A -> V B) (P : A -> Prop) (Q : B -> Prop) :
  Post m P -> (forall a, P a -> Post (f a) Q) -> Post (vbind m f) Q.
Proof.
  intros Hm Hf d. unfold vbind. specialize (Hm d).
  destruct (m d) as [[a d1]| |]; [|done|done]. by apply Hf.
Qed.

Lemma Post_any {A} (m : V A) : Post m (fun _ => True).
Proof. intros d. by destruct (m d) as [[]| |]. Qed.

Lemma Post_seq {A B} (m : V A) (k : V B) (Q : B -> Prop) :
  Post k Q -> Post (vbind m (fun _ => k)) Q.
Proof. intros Hk. eapply Post_vbind; [apply Post_any|]. by intros _ _. Qed.

Lemma Post_validateRetryConfig v taskId :
  Post (validateRetryConfig v taskId)
       (fun r => forall x, r = Some x -> 1 <= retry_attempts x).
Proof.
  unfold validateRetryConfig.
  destruct v as [[| | | | |fields]|]; try (by apply Post_vret); try (by apply Post_seq, Post_vret).
  destruct (0 <? _) eqn:Hlt; apply Post_vret; [|done].
  intros x [= <-]. cbn [retry_attempts retry_delay].
  cbn [prop] in Hlt |- *. revert Hlt.
  destruct (assoc "attempts" fields) as [[]|]; intros Hlt%Z.ltb_lt; lia.
Qed.

Lemma Post_validateTimeout v taskId :
  Post (validateTimeout v taskId) (fun t => forall n, t = Some n -> 0 < n).
Proof.
  unfold validateTimeout.
  destruct v as [[| |n| | |]|]; try (by apply Post_vret); try (by apply Post_seq, Post_vret).
  destruct (0 <? n) eqn:Hlt; [|by apply Post_seq, Post_vret].
  apply Post_vret. intros ? [= <-]. by apply Z.ltb_lt.
Qed.

Lemma Post_trimOr what v dflt :
  dflt <> EmptyString -> Post (trimOr what v dflt) (fun s => s <> EmptyString).
Proof.
  intros Hd. unfold trimOr.
  destruct v as [[| | |s| |]|]; try (by apply Post_vret); try apply Post_vthrow.
  apply Post_vret. destruct (String.eqb (trim s) EmptyString) eqn:E; [done|].
  by apply String.eqb_neq in E.
Qed.

Lemma notNonEmptyString_false v :
  notNonEmptyString v = false ->
  exists s, v = Some (JStr s) /\ trim s <> EmptyString.
Proof.
  destruct v as [[| | |s| |]|]; try discriminate. cbn. intros E.
  exists s. split; [done|]. by apply String.eqb_neq in E.
Qed.

Lemma Post_validateTask index task st :
  Good st ->
  Post (validateTask index task st)
       (fun st' => Good st' /\ (length (fst st') <= S (length (fst st)))%nat).
Proof.
  intros HG. assert (Hsame : Good st /\ (length (fst st) <= S (length (fst st)))%nat)
    by (split; [done|lia]).
  unfold validateTask. destruct st as [validatedTasks taskIds].
  destruct (negb (isObject (Some task)) || isNullish (Some task));
    [by apply Post_seq, Post_vret|].
  destruct (notNonEmptyString (prop "id" task)) eqn:Hid; [by apply Post_seq, Post_vret|].
  apply notNonEmptyString_false in Hid as (rawId & Hraw & Hne). rewrite Hraw. cbn [toStrU toStr].
  apply Post_seq.
  destruct (notNonEmptyString (prop "plugin" task)) eqn:Hpl; [by apply Post_seq, Post_vret|].
  apply notNonEmptyString_false in Hpl as (pl & Hpl & Hpne). rewrite Hpl. cbn [toStrU toStr].
  case_bool_decide as Hdup; [by apply Post_seq, Post_vret|].
  apply Post_seq.
  eapply Post_vbind; [apply Post_any|]. intros dependsOn _.
  eapply Post_vbind; [apply Post_validateRetryConfig|]. intros retry Hretry.
  eapply Post_vbind; [apply Post_validateTimeout|]. intros timeout Htimeout.
  eapply Post_vbind; [by apply Post_trimOr|]. intros name Hname.
  apply Post_vret. destruct HG as (Hids & Hnd & Hwf). cbn in *.
  split; [|rewrite length_app; cbn; lia].
  split; [|split]; cbn.
  - rewrite map_app, list_to_set_app_L. cbn. set_solver.
  - rewrite map_app. apply NoDup_app. split; [done|]. split.
    + intros x Hx [->|Hn]%elem_of_cons; [|by apply elem_of_nil in Hn].
      apply Hdup. rewrite Hids. by apply elem_of_list_to_set.
    + apply NoDup_singleton.
  - apply Forall_app. split; [done|]. constructor; [|constructor].
    split; cbn; try done; by eexists.
Qed.

Lemma Post_validateTasks_loop tasks : forall index st,
  Good st ->
  Post (validateTasks_loop index tasks st)
       (fun st' => Good st' /\ (length (fst st') <= length tasks + length (fst st))%nat).
Proof.
  induction tasks as [|task rest IH]; intros index st HG; cbn [validateTasks_loop].
  - apply Post_vret. split; [done|cbn; lia].
  - eapply Post_vbind; [by apply Post_validateTask|]. intros st1 [HG1 Hl1].
    intros d. specialize (IH (S index) st1 HG1 d).
    destruct (validateTasks_loop (S index) rest st1 d) as [[st2 d2]| |]; [|done|done].
    destruct IH as [HG2 Hl2]. split; [done|]. cbn. lia.
Qed.

Lemma Post_validateTasks items :
  Post (validateTasks items)
       (fun ts => NoDup (map task_id ts) /\ Forall wellFormed ts /\
                  (length ts <= length items)%nat).
Proof.
  unfold validateTasks. apply Post_seq.
  eapply Post_vbind; [apply (Post_validateTasks_loop items 0 ([], ∅))|].
  - split; [done|]. split; [constructor|constructor].
  - intros [ts ids] [(_ & Hnd & Hwf) Hl]. apply Post_vret. cbn in *.
    split; [done|]. split; [done|]. lia.
Qed.


Lemma Raises_mono {A} (P Q P' Q' : Prop) (m : V A) :
  (P -> P') -> (Q -> Q') -> Raises P Q m -> Raises P' Q' m.
Proof.
  intros HP HQ H d. specialize (H d). destruct (m d) as [|e|]; [done| |done].
  destruct H as [[-> H]|[-> H]]; [left|right]; auto.
Qed.

Lemma Raises_vret {A} P Q (a : A) : Raises P Q (vret a).
Proof. by intros d. Qed.

Lemma Raises_warn P Q m : Raises P Q (warn m).
Proof. by intros d. Qed.

Lemma Raises_err P Q m : Raises P Q (err m).
Proof. by intros d. Qed.

Lemma Raises_when P Q b m : Raises P Q m -> Raises P Q (when b m).
Proof. intros H. destruct b; [done|apply Raises_vret]. Qed.

Lemma Raises_vbind {A B} P Q (m : V A) (f : A -> V B) :
  Raises P Q m -> (forall a, Raises P Q (f a)) -> Raises P Q (vbind m f).
Proof.
  intros Hm Hf d. unfold vbind. specialize (Hm d).
  destruct (m d) as [[a d1]| |]; [|done|done]. apply Hf.
Qed.

Lemma Raises_said {A} P Q (m : string) (k : V A) :
  Raises P Q k -> Raises P Q (run err m; k).
Proof. intros H. apply Raises_vbind; [apply Raises_err|by intros _]. Qed.

Lemma Raises_warned {A} P Q (m : string) (k : V A) :
  Raises P Q k -> Raises P Q (run warn m; k).
Proof. intros H. apply Raises_vbind; [apply Raises_warn|by intros _]. Qed.

Lemma Raises_validateDependencies v taskId :
  Raises False (unprintable v) (validateDependencies v taskId).
Proof.
  unfold validateDependencies.
  destruct v as [[| | | |items|]|]; try apply Raises_vret;
    try (apply Raises_said, Raises_vret).
  assert (forall l acc, (forall x, x ∈ l -> x ∈ items) ->
    Raises False (unprintable (Some (JArr items))) acc ->
    Raises False (unprintable (Some (JArr items))) (fold_left
    (fun (acc : V (list string)) (dep : JValue) =>
       do dependencies <- acc;
       match dep with
       | JStr s => vret (dependencies ++ [trim s])
       | _ =>
           if printable dep then
             run err ("Task " +:+ quoted taskId +:+
                      " dependsOn contains non-string value: " +:+ toStr dep);
             vret dependencies
           else vthrow (JsError notPrintable)
       end) l acc)) as H.
  { induction l as [|x l IH]; intros acc Hsub Hacc; [done|].
    cbn [fold_left]. apply IH; [intros y Hy; apply Hsub; by right|].
    apply Raises_vbind; [done|]. intros deps.
    assert (Hx : Raises False (unprintable (Some (JArr items)))
                   (if printable x
                    then run err ("Task " +:+ quoted taskId +:+
                                  " dependsOn contains non-string value: " +:+ toStr x);
                         vret deps
                    else vthrow (JsError notPrintable))).
    { destruct (printable x) eqn:Hp; [apply Raises_said, Raises_vret|].
      intros d. right. split; [done|]. exists items, x.
      split; [done|]. split; [apply Hsub; by left|done]. }
    destruct x; exact Hx. }
  apply H; [done|apply Raises_vret].
Qed.

Lemma Raises_validateRetryConfig P Q v taskId : Raises P Q (validateRetryConfig v taskId).
Proof.
  unfold validateRetryConfig.
  destruct v as [[| | | | |fields]|]; try apply Raises_vret;
    try (apply Raises_warned, Raises_vret).
  destruct (0 <? _); apply Raises_vret.
Qed.

Lemma Raises_validateTimeout P Q v taskId : Raises P Q (validateTimeout v taskId).
Proof.
  unfold validateTimeout.
  destruct v as [[| |n| | |]|]; try apply Raises_vret;
    try (apply Raises_warned, Raises_vret).
  destruct (0 <? n); [apply Raises_vret|apply Raises_warned, Raises_vret].
Qed.

Lemma Raises_trimOr v dflt :
  Raises (match v with
          | None | Some JNull | Some (JStr _) => False
          | Some _ => True
          end) False (trimOr "t.name" v dflt).
Proof.
  unfold trimOr. destruct v as [[]|]; try apply Raises_vret; intros d; by left.
Qed.

Lemma Raises_validateTask index task st :
  Raises (badName task) (unprintable (prop "dependsOn" task)) (validateTask index task st).
Proof.
  unfold validateTask. destruct st as [validatedTasks taskIds].
  destruct (negb (isObject (Some task)) || isNullish (Some task));
    [apply Raises_said, Raises_vret|].
  destruct (notNonEmptyString (prop "id" task)); [apply Raises_said, Raises_vret|].
  apply Raises_vbind; [apply Raises_when, Raises_warn|intros _].
  destruct (notNonEmptyString (prop "plugin" task)); [apply Raises_said, Raises_vret|].
  case_bool_decide; [apply Raises_said, Raises_vret|].
  apply Raises_vbind; [apply Raises_when, Raises_warn|intros _].
  apply Raises_vbind; [|intros dependsOn].
  { eapply Raises_mono; [| |apply Raises_validateDependencies]; [by intros []|done]. }
  apply Raises_vbind; [apply Raises_validateRetryConfig|intros retry].
  apply Raises_vbind; [apply Raises_validateTimeout|intros timeout].
  apply Raises_vbind; [|intros; apply Raises_vret].
  eapply Raises_mono; [| |apply Raises_trimOr]; [done|by intros []].
Qed.

Lemma Raises_validateTasks items :
  Raises (exists task, task ∈ items /\ badName task)
         (exists task, task ∈ items /\ unprintable (prop "dependsOn" task))
         (validateTasks items).
Proof.
  unfold validateTasks. apply Raises_vbind; [apply Raises_when, Raises_warn|intros _].
  apply Raises_vbind; [|intros; apply Raises_vret].
  generalize 0%nat as index. generalize (([], ∅) : list Task * gset string) as st.
  induction items as [|task rest IH]; intros st index; cbn [validateTasks_loop].
  - apply Raises_vret.
  - apply Raises_vbind.
    + eapply Raises_mono; [| |apply Raises_validateTask]; intros H;
        exists task; (split; [by left|done]).
    + intros st'. eapply Raises_mono; [| |apply IH];
        intros (t & Ht & H); exists t; (split; [by right|done]).
Qed.

(** The tasks that [validateTasks] returns have distinct ids and are well
    formed (non-empty id, name and plugin; [enabled] and [dependsOn] set; a
    retry policy of at least one attempt; a positive timeout), and are no
    more than the entries of the array.  It throws two exceptions only, both
    a [TypeError]: that of [trim] on a name, when an entry has a name that is
    neither a string nor nullish, and that of the conversion to a string,
    when [dependsOn] of an entry holds a value that cannot be converted (an
    object with a property [toString] of its own). *)
Theorem validateTasks_returns_well_formed_tasks (items : list JValue) (d : Diags) :
  match validateTasks items d with
  | Ret (ts, _) =>
      NoDup (map task_id ts) /\ Forall wellFormed ts /\ (length ts <= length items)%nat
  | Throw e =>
      (e = nameError /\ exists task, task ∈ items /\ badName task) \/
      (e = conversionError /\
       exists task, task ∈ items /\ unprintable (prop "dependsOn" task))
  | OutOfFuel => False
  end.
Proof.
  pose proof (Post_validateTasks items d) as HP.
  pose proof (Raises_validateTasks items d) as HR.
  by destruct (validateTasks items d) as [[ts d']|e|].
Qed.

End TasksProofs.

Module ParseProofs.
Import Parser ParserSpec DagSpec TasksSpec ParseSpec.
Import ParserProofs DagProofs TasksProofs.

Lemma Post_Ret {A} (m : V A) (Q : A -> Prop) d a d' : Post m Q -> m d = Ret (a, d') -> Q a.
Proof. intros H E. specialize (H d). by rewrite E in H. Qed.

Lemma Tame_es {A} (m : V A) d a d' :
  Tame m -> m d = Ret (a, d') -> exists e, es d' = es d ++ e.
Proof. intros T H. specialize (T d). rewrite H in T. apply T. Qed.

(** The pipeline that [validatePipeline] returns without having recorded an
    error is valid. *)
Lemma validatePipeline_Valid pv d pl d' :
  validatePipeline pv d = Ret (pl, d') -> es d' = [] -> Valid pl.
Proof.
  unfold validatePipeline.
  destruct (negb (isObject (Some pv)) || isNullish (Some pv)); [done|].
  intros H Hes.
  do 7 (apply vbind_Ret in H as (? & ? & _ & H)).
  apply vbind_Ret in H as (tasks & d1 & Htasks & H).
  apply vbind_Ret in H as (triggers & d2 & _ & H).
  apply vbind_Ret in H as (name & d3 & Hname & H).
  apply vbind_Ret in H as (version & d4 & Hversion & H).
  apply vbind_Ret in H as ([] & d5 & Hdag & H).
  injection H as <- <-.
  assert (Ht : NoDup (map task_id tasks) /\ Forall wellFormed tasks).
  { destruct (prop "tasks" pv) as [[| | | |items|]|];
      try (injection Htasks as <- _; split; constructor).
    apply (Post_Ret _ _ _ _ _ (Post_validateTasks items)) in Htasks.
    cbn beta in Htasks. destruct Htasks as (H1 & H2 & _). exact (conj H1 H2). }
  eapply Post_Ret in Hname; [|by apply Post_trimOr].
  eapply Post_Ret in Hversion; [|by apply Post_trimOr].
  unfold checkDAG in Hdag.
  match type of Hdag with context [validateDAGStructure ?r ?e] =>
    destruct (validateDAGStructure_clean r e) as [Hclean _];
    destruct (validateDAGStructure_appends r e) as (added & Ea) end.
  rewrite Ea in Hdag. injection Hdag as <-. cbn in Hes.
  apply app_eq_nil in Hes as [Hes ->]. rewrite Hes, app_nil_r in Ea.
  rewrite Hes in Hclean. destruct (Hclean Ea) as (Hc & Hd & Hr). cbn in *.
  destruct Ht. by split.
Qed.

Lemma Valid_etlPipeline : Valid etlPipeline.
Proof.
  eapply (validatePipeline_Valid (default (JObj []) (prop "pipeline" etlDoc))
            {| ws := []; es := [] |}); by vm_compute.
Qed.

(** With validation on, the pipeline that [parse] returns is valid, and
    the errors it returns are the warnings in strict mode and none
    otherwise. *)
Theorem parse_returns_valid_pipeline (D : Decoders) (o : Options) (content : string)
    (r : ParseResult) :
  validate o = true ->
  parse D o content = Ret r ->
  Valid (pipeline r) /\ errors r = (if strict o then warnings r else []).
Proof.
  intros Hv. unfold parse, parse_try.
  destruct (decode D content) as [config|e|]; cbn [obind].
  2:{ by destruct (isValidationError e). }
  2:{ done. }
  destruct (rootPipeline config) as [[pv|]|e|]; cbn [obind]; try done.
  2:{ by destruct (isValidationError e). }
  destruct (negb (truthy (Some pv))); [done|].
  destruct (validatePipeline pv {| ws := []; es := [] |}) as [[pl d]|e|] eqn:Hvp; cbn [obind].
  2:{ by destruct (isValidationError e). }
  2:{ done. }
  rewrite Hv. cbn [andb].
  destruct (0 <? length (es d))%nat eqn:Hlen; [done|].
  intros [= <-]. cbn.
  assert (es d = []) as Hes.
  { apply Nat.ltb_ge in Hlen. destruct (es d); [done|cbn in Hlen; lia]. }
  split; [by eapply validatePipeline_Valid|].
  rewrite Hes. destruct (strict o); [by rewrite app_nil_r|done].
Qed.

Lemma parse_returns_valid_pipeline_witness :
  exists r, parse (exampleDecoders etlDoc) defaultParser "{}" = Ret r /\
            Valid (pipeline r) /\ errors r = [].
Proof.
  eexists. split; [by vm_compute|].
  apply (parse_returns_valid_pipeline (exampleDecoders etlDoc) defaultParser "{}");
    [reflexivity|by vm_compute].
Defined.

End ParseProofs.

Module FileRunsProofs.
Import FileState FileRuns StoreSpec StoreSpec2.

Lemma stored_saveState state :
  stored (saveState state) = map json_run (default [] (pipeline_runs state)).
Proof. unfold stored, getRuns, saveState. cbn. by destruct (pipeline_runs state). Qed.

Lemma json_run_text r : startedAsText (json_run r).
Proof. unfold startedAsText. cbn. destruct (run_startedAt r) as [ms|ms]; by exists ms. Qed.

Lemma setRuns_stored runs disk disk' :
  setRuns runs disk = Ok disk' -> stored disk' = map json_run runs.
Proof.
  unfold setRuns. destruct (loadState disk) as [state|e]; cbn; [|done].
  intros [= <-]. by rewrite stored_saveState.
Qed.

(** What a save leaves in the file: the runs it held, the saved run put in
    the place of the one with its id or else added at the end, all of them as
    [JSON.stringify] writes them. *)
Lemma savePipelineRun_stored r disk disk' :
  savePipelineRun r disk = Ok disk' ->
  stored disk' =
    map json_run (match findIndex (run_id r) (stored disk) with
                  | Some i => <[i := r]> (stored disk)
                  | None => stored disk ++ [r]
                  end).
Proof.
  unfold savePipelineRun, stored. destruct (getRuns disk) as [runs|e] eqn:Hg; cbn; [|done].
  intros H. apply setRuns_stored in H. unfold stored in H. exact H.
Qed.

Lemma savePipelineRun_text r disk disk' :
  savePipelineRun r disk = Ok disk' -> Forall startedAsText (stored disk').
Proof.
  intros H. rewrite (savePipelineRun_stored _ _ _ H).
  apply Forall_forall. intros x Hx. apply list_elem_of_fmap in Hx as (y & -> & _).
  apply json_run_text.
Qed.

Lemma insertSorted_text (x : PipelineRun) l :
  l <> [] -> startedAsText x ->
  insertSorted newestFirst x l = Err (JsError "b.startedAt.getTime is not a function").
Proof.
  destruct l as [|y rest]; [done|]. intros _ (ms & Hx). cbn [insertSorted].
  unfold newestFirst. by rewrite Hx.
Qed.

Lemma sort_Err {A} (cmp : A -> A -> Result Z) l e :
  fold_left (fun acc x => rbind acc (insertSorted cmp x)) l (Err e) = Err e.
Proof. induction l as [|x l IH]; [done|]. exact IH. Qed.

(** Sorting runs whose timestamps are strings throws as soon as there are
    two of them. *)
Lemma sort_text l :
  Forall startedAsText l ->
  sort newestFirst l =
    if (2 <=? length l)%nat then Err (JsError "b.startedAt.getTime is not a function")
    else Ok l.
Proof.
  destruct l as [|x [|y l]]; [done|done|]. intros HF. cbn [length Nat.leb].
  apply Forall_cons in HF as [_ HF]. apply Forall_cons in HF as [Hy _].
  unfold sort. cbn [fold_left]. change (rbind (Ok []) (insertSorted newestFirst x)) with
    (Ok (A := list PipelineRun) [x]).
  cbn [rbind]. rewrite insertSorted_text by done. apply sort_Err.
Qed.

Lemma getPipelineRuns_text name limit disk :
  Forall startedAsText (stored disk) ->
  getRuns disk = Ok (stored disk) ->
  let matching := filter (fun r => String.eqb (run_pipelineName r) name) (stored disk) in
  getPipelineRuns name limit disk =
    if (2 <=? length matching)%nat
    then Err (JsError "b.startedAt.getTime is not a function")
    else Ok (slice0 limit matching).
Proof.
  intros HF Hg matching. unfold getPipelineRuns. rewrite Hg. cbn [rbind].
  fold matching. rewrite sort_text.
  - by destruct (2 <=? length matching)%nat.
  - apply Forall_forall. intros x Hx. apply list_elem_of_filter in Hx as [_ Hx].
    rewrite Forall_forall in HF. by apply HF.
Qed.

Lemma saved_getRuns r disk disk' :
  savePipelineRun r disk = Ok disk' -> getRuns disk' = Ok (stored disk').
Proof.
  unfold savePipelineRun, setRuns. destruct (getRuns disk) as [runs|]; cbn; [|done].
  destruct (loadState disk); cbn; [|done]. intros [= <-]. unfold stored. by cbn.
Qed.


Lemma find_json id runs :
  find (fun x => String.eqb (run_id x) id) (map json_run runs)
  = json_run <$> find (fun x => String.eqb (run_id x) id) runs.
Proof.
  induction runs as [|x runs IH]; [done|]. cbn.
  by destruct (String.eqb (run_id x) id).
Qed.

Lemma find_insert_other id (r : PipelineRun) runs : forall i,
  run_id r <> id ->
  findIndex (run_id r) runs = Some i ->
  find (fun x => String.eqb (run_id x) id) (<[i := r]> runs)
  = find (fun x => String.eqb (run_id x) id) runs.
Proof.
  induction runs as [|x runs IH]; intros i Hne; cbn; [done|].
  destruct (String.eqb (run_id x) (run_id r)) eqn:E.
  - intros [= <-]. cbn. apply String.eqb_eq in E.
    apply String.eqb_neq in Hne. rewrite Hne. rewrite E, Hne. done.
  - destruct (findIndex (run_id r) runs) as [k|]; [|done]. intros [= <-]. cbn.
    destruct (String.eqb (run_id x) id); [done|]. by apply IH.
Qed.

Lemma find_app_other id (r : PipelineRun) runs :
  run_id r <> id ->
  find (fun x => String.eqb (run_id x) id) (runs ++ [r])
  = find (fun x => String.eqb (run_id x) id) runs.
Proof.
  intros Hne. induction runs as [|x runs IH]; cbn.
  - apply String.eqb_neq in Hne. by rewrite Hne.
  - by destruct (String.eqb (run_id x) id).
Qed.

Lemma getPipelineRun_stored id disk disk0 r :
  savePipelineRun r disk0 = Ok disk ->
  getPipelineRun id disk = Ok (find (fun x => String.eqb (run_id x) id) (stored disk)).
Proof.
  intros H. unfold getPipelineRun. by rewrite (saved_getRuns _ _ _ H).
Qed.

(** Round trip of the file backend: the saved run is read back as
    [JSON.stringify] wrote it, and every other run is read back as before. *)
Theorem file_save_then_get_round_trip (r : PipelineRun) (disk disk' : Disk) :
  savePipelineRun r disk = Ok disk' ->
  getPipelineRun (run_id r) disk' = Ok (Some (json_run r)) /\
  forall id, id <> run_id r ->
    getPipelineRun id disk' =
    Ok (json_run <$> find (fun x => String.eqb (run_id x) id) (stored disk)).
Proof.
  intros H. split.
  - pose proof (StoreProofs.file_save_then_get r disk) as G. by rewrite H in G.
  - intros id Hne. rewrite (getPipelineRun_stored _ _ _ _ H).
    rewrite (savePipelineRun_stored _ _ _ H), find_json. f_equal. f_equal.
    destruct (findIndex (run_id r) (stored disk)) as [i|] eqn:E.
    + by apply find_insert_other.
    + by apply find_app_other.
Qed.

Lemma file_save_then_get_round_trip_witness :
  exists disk',
    savePipelineRun startedRun NoFile = Ok disk' /\
    getPipelineRun "run-1" disk' = Ok (Some (json_run startedRun)) /\
    getPipelineRun "run-2" disk' = Ok None.
Proof.
  eexists. split; [reflexivity|].
  destruct (file_save_then_get_round_trip startedRun NoFile _ eq_refl) as [H1 H2].
  split; [exact H1|]. exact (H2 "run-2" ltac:(discriminate)).
Defined.

Lemma findIndex_None id runs :
  findIndex id runs = None <-> id ∉ map run_id runs.
Proof.
  induction runs as [|x runs IH]; cbn.
  - split; [intros _ H; by apply elem_of_nil in H|done].
  - destruct (String.eqb (run_id x) id) eqn:E.
    + apply String.eqb_eq in E. subst id. split; [done|]. intros H. exfalso. apply H. by left.
    + apply String.eqb_neq in E. rewrite not_elem_of_cons, <- IH.
      destruct (findIndex id runs); cbn; naive_solver.
Qed.

Lemma findIndex_Some id runs i :
  findIndex id runs = Some i -> exists x, runs !! i = Some x /\ run_id x = id.
Proof.
  revert i. induction runs as [|x runs IH]; intros i; cbn; [done|].
  destruct (String.eqb (run_id x) id) eqn:E.
  - intros [= <-]. exists x. split; [done|]. by apply String.eqb_eq.
  - destruct (findIndex id runs) as [k|]; [|done]. intros [= <-]. by apply IH.
Qed.

Lemma map_json_ids runs : map run_id (map json_run runs) = map run_id runs.
Proof. by rewrite map_map. Qed.

(** A save is an upsert: the ids of the runs in the file stay distinct, and
    the file grows by one run exactly when the id is new. *)
Theorem file_save_is_upsert (r : PipelineRun) (disk disk' : Disk) :
  savePipelineRun r disk = Ok disk' ->
  (NoDup (map run_id (stored disk)) -> NoDup (map run_id (stored disk'))) /\
  length (stored disk') =
    (if bool_decide (run_id r ∈ map run_id (stored disk))
     then length (stored disk) else S (length (stored disk))).
Proof.
  intros H. rewrite (savePipelineRun_stored _ _ _ H).
  destruct (findIndex (run_id r) (stored disk)) as [i|] eqn:E.
  - destruct (findIndex_Some _ _ _ E) as (x & Hx & Hid).
    assert (Hmap : map run_id (<[i := r]> (stored disk)) = map run_id (stored disk)).
    { change (map run_id ?l) with (run_id <$> l). rewrite list_fmap_insert.
      apply list_insert_id. rewrite list_lookup_fmap, Hx. cbn. by rewrite Hid. }
    rewrite map_json_ids, Hmap, length_map, length_insert. split; [done|].
    rewrite bool_decide_true; [done|]. apply list_elem_of_fmap. exists x.
    split; [done|]. by eapply list_elem_of_lookup_2.
  - apply findIndex_None in E. rewrite map_json_ids, length_map, length_app.
    rewrite bool_decide_false by done. split; [|cbn; lia].
    intros Hnd. rewrite map_app. apply NoDup_app. split; [done|]. split.
    + intros x Hx [->|Hn]%elem_of_cons; [done|by apply elem_of_nil in Hn].
    + apply NoDup_singleton.
Qed.

Lemma file_save_is_upsert_witness :
  exists disk1 disk2,
    savePipelineRun startedRun NoFile = Ok disk1 /\
    savePipelineRun startedRun disk1 = Ok disk2 /\
    length (stored disk1) = 1%nat /\ length (stored disk2) = 1%nat.
Proof.
  do 2 eexists. split; [reflexivity|].
  match goal with |- savePipelineRun _ ?d = _ /\ _ =>
    pose proof (file_save_is_upsert startedRun NoFile d eq_refl) as [_ H1];
    pose proof (file_save_is_upsert startedRun d _ eq_refl) as [_ H2] end.
  split; [reflexivity|]. split; [exact H1|exact H2].
Defined.

Lemma two_elements {A} (l : list A) x y : x ∈ l -> y ∈ l -> x <> y -> (2 <= length l)%nat.
Proof.
  intros Hx Hy Hne.
  assert ([x; y] ⊆+ l) as Hsub.
  { apply NoDup_submseteq.
    - apply NoDup_cons. split; [by intros ->%list_elem_of_singleton|apply NoDup_singleton].
    - intros z [->|[->|Hz]%elem_of_cons]%elem_of_cons; [done|done|by apply elem_of_nil in Hz]. }
  by apply submseteq_length in Hsub.
Qed.

Lemma saved_elem r disk disk' : savePipelineRun r disk = Ok disk' -> json_run r ∈ stored disk'.
Proof.
  intros H. pose proof (StoreProofs.file_save_then_get r disk) as G. rewrite H in G.
  rewrite (getPipelineRun_stored _ _ _ _ H) in G. injection G as G.
  by apply ParserProofs.find_elem in G.
Qed.

Lemma saved_keeps r disk disk' x :
  savePipelineRun r disk = Ok disk' -> x ∈ stored disk -> run_id x <> run_id r ->
  json_run x ∈ stored disk'.
Proof.
  intros H Hx Hne. rewrite (savePipelineRun_stored _ _ _ H).
  apply list_elem_of_fmap. exists x. split; [done|].
  destruct (findIndex (run_id r) (stored disk)) as [i|] eqn:E.
  - apply list_elem_of_lookup in Hx as (k & Hk).
    apply list_elem_of_lookup. exists k. rewrite list_lookup_insert_ne; [done|].
    intros <-. destruct (findIndex_Some _ _ _ E) as (y & Hy & Hid).
    rewrite Hk in Hy. injection Hy as <-. done.
  - apply elem_of_app. by left.
Qed.

(** The history of the file backend: as soon as two runs of a pipeline
    were saved, [getPipelineRuns] of this pipeline throws, because the
    comparator calls [getTime] on the strings that [JSON.parse] returned. *)
Theorem file_history_throws_on_two_runs (r1 r2 : PipelineRun) (disk disk1 disk2 : Disk)
    (limit : Z) :
  savePipelineRun r1 disk = Ok disk1 ->
  savePipelineRun r2 disk1 = Ok disk2 ->
  run_id r2 <> run_id r1 ->
  run_pipelineName r2 = run_pipelineName r1 ->
  getPipelineRuns (run_pipelineName r1) limit disk2
  = Err (JsError "b.startedAt.getTime is not a function").
Proof.
  intros H1 H2 Hid Hname.
  rewrite getPipelineRuns_text;
    [|by eapply savePipelineRun_text|by eapply saved_getRuns].
  cbn zeta. rewrite (proj2 (Nat.leb_le _ _)); [done|].
  eapply (two_elements _ (json_run (json_run r1)) (json_run r2)).
  - apply list_elem_of_filter. split; [cbn; by rewrite String.eqb_refl|].
    eapply saved_keeps; [done|by eapply saved_elem|cbn; congruence].
  - apply list_elem_of_filter. split; [cbn; by rewrite Hname, String.eqb_refl|].
    by eapply saved_elem.
  - intros E. apply (f_equal run_id) in E. cbn in E. congruence.
Qed.

Lemma file_history_throws_on_two_runs_witness :
  exists disk1 disk2,
    savePipelineRun startedRun NoFile = Ok disk1 /\
    savePipelineRun secondRun disk1 = Ok disk2 /\
    getPipelineRuns "p" 100 disk1 = Ok [json_run startedRun] /\
    getPipelineRuns "p" 100 disk2 = Err (JsError "b.startedAt.getTime is not a function").
Proof.
  do 2 eexists. split; [reflexivity|]. split; [reflexivity|]. split; [reflexivity|].
  apply (file_history_throws_on_two_runs startedRun secondRun NoFile _ _ 100 eq_refl eq_refl);
    [discriminate|reflexivity].
Defined.

(** [cleanupOldRuns] on the file backend deletes every run, whatever the
    retention and the age of the runs: the runs read from the file have
    strings for timestamps, which never compare as later than the cutoff. *)
Theorem file_cleanup_deletes_every_run (r : PipelineRun) (disk disk1 : Disk)
    (retentionDays now : Z) :
  savePipelineRun r disk = Ok disk1 ->
  exists disk2,
    cleanupOldRuns retentionDays now disk1 = Ok (Z.of_nat (length (stored disk1)), disk2) /\
    (0 < length (stored disk1))%nat /\
    stored disk2 = [] /\
    forall id, getPipelineRun id disk2 = Ok None.
Proof.
  intros H. unfold cleanupOldRuns. rewrite (saved_getRuns _ _ _ H). cbn [rbind].
  assert (Hk : filter (fun run => startedAfter (cutoffDate now retentionDays) run) (stored disk1)
               = []).
  { pose proof (savePipelineRun_text _ _ _ H) as HF.
    induction HF as [|x l (ms & Hx) _ IH]; [done|].
    rewrite filter_cons. destruct (decide _) as [Hd|]; [|exact IH].
    exfalso. revert Hd. unfold startedAfter. by rewrite Hx. }
  rewrite Hk. cbn [length].
  assert (Hpos : (0 < length (stored disk1))%nat).
  { pose proof (saved_elem _ _ _ H) as Hin. destruct (stored disk1); [|cbn; lia].
    by apply elem_of_nil in Hin. }
  rewrite (proj2 (Z.ltb_lt _ _)) by lia.
  assert (exists d, disk1 = Document d) as (d & ->).
  { revert H. unfold savePipelineRun, setRuns.
    destruct (getRuns disk); cbn; [|done]. destruct (loadState disk); cbn; [|done].
    intros [= <-]. by eexists. }
  cbn. eexists. split; [by rewrite Z.sub_0_r|]. split; [done|]. split; [done|]. done.
Qed.

Lemma file_cleanup_deletes_every_run_witness :
  exists disk1 disk2,
    savePipelineRun startedRun NoFile = Ok disk1 /\
    cleanupOldRuns 30 1000 disk1 = Ok (1, disk2) /\
    getPipelineRun "run-1" disk1 = Ok (Some (json_run startedRun)) /\
    getPipelineRun "run-1" disk2 = Ok None.
Proof.
  destruct (file_cleanup_deletes_every_run startedRun NoFile _ 30 1000 eq_refl)
    as (disk2 & Hc & _ & _ & Hg).
  eexists _, disk2. split; [reflexivity|]. split; [exact Hc|].
  split; [reflexivity|]. apply Hg.
Defined.

End FileRunsProofs.

Module SQLiteProofs.
Import SQLiteState StoreSpec StoreSpec2.

(** The rows that the loop of [savePipelineRun] adds: one per task, in
    order, after the rows that the table held. *)
Lemma insertTasks_rows runId tes : forall db db',
  insertTasks runId tes db = Ok db' ->
  exists rows, taskRows db' = taskRows db ++ rows /\
               Forall2 (fun te row => taskRow runId te = Ok row) tes rows.
Proof.
  induction tes as [|te tes IH]; intros db db'; cbn.
  - intros [= <-]. exists []. by rewrite app_nil_r.
  - destruct (taskRow runId te) as [row|e] eqn:Hrow; cbn; [|done].
    intros H. apply IH in H as (rows & E & F). cbn in E.
    exists (row :: rows). rewrite E, <- app_assoc. split; [done|]. by constructor.
Qed.

Lemma toISOStringOpt_Ok t s : toISOStringOpt t = Ok s -> Date <$> s = t.
Proof.
  destruct t as [[ms|ms]|]; cbn; [|done|]; by intros [= <-].
Qed.

Lemma taskRow_kept runId te row :
  taskRow runId te = Ok row -> k_run_id row = runId /\ kept (taskOfRow row) = kept te.
Proof.
  unfold taskRow.
  destruct (toISOStringOpt (te_startedAt te)) as [s|] eqn:Hs; cbn; [|done].
  destruct (toISOStringOpt (te_completedAt te)) as [c|] eqn:Hc; cbn; [|done].
  intros [= <-]. split; [done|]. unfold kept. cbn.
  by rewrite (toISOStringOpt_Ok _ _ Hs), (toISOStringOpt_Ok _ _ Hc).
Qed.

Lemma rows_kept runId tes rows :
  Forall2 (fun te row => taskRow runId te = Ok row) tes rows ->
  filter (fun k => String.eqb (k_run_id k) runId) rows = rows /\
  map kept (map taskOfRow rows) = map kept tes.
Proof.
  induction 1 as [|te row tes rows H _ [IH1 IH2]]; [done|].
  apply taskRow_kept in H as [Hid Hk]. split.
  - rewrite filter_cons. destruct (decide _) as [_|Hd]; [by rewrite IH1|].
    exfalso. apply Hd. by rewrite Hid, String.eqb_refl.
  - cbn. by rewrite Hk, IH2.
Qed.

Lemma filter_none runId (rows : list TaskRow) :
  Forall (fun k => k_run_id k <> runId) rows ->
  filter (fun k => String.eqb (k_run_id k) runId) rows = [].
Proof.
  induction 1 as [|k rows Hk _ IH]; [done|].
  rewrite filter_cons. destruct (decide _) as [Hd|_]; [|done].
  exfalso. apply String.eqb_neq in Hk. revert Hd. by rewrite Hk.
Qed.

(** What a save followed by a read gives on the relational backend. *)
Lemma save_then_get r db db' :
  savePipelineRun r db = Ok db' ->
  exists r' rows,
    getPipelineRun (run_id r) db' = Ok (Some r') /\
    taskRows db' = taskRows db ++ rows /\
    Forall2 (fun te row => taskRow (run_id r) te = Ok row) (run_tasks r) rows /\
    runs db' = replaceRun {| r_id := run_id r;
                             r_pipeline_name := run_pipelineName r;
                             r_status := run_status r;
                             r_started_at := match run_startedAt r with
                                             | Date ms | ISO ms => ms end;
                             r_completed_at := match run_completedAt r with
                                               | Some (Date ms) | Some (ISO ms) => Some ms
                                               | None => None end;
                             r_trigger_type := trigger_type (run_trigger r);
                             r_trigger_config := trigger_config (run_trigger r);
                             r_error_text := run_error r |} (runs db) /\
    run_id r' = run_id r /\ run_pipelineName r' = run_pipelineName r /\
    run_status r' = run_status r /\ run_startedAt r' = run_startedAt r /\
    run_completedAt r' = run_completedAt r /\ run_trigger r' = run_trigger r /\
    run_error r' = nonEmpty (run_error r) /\
    run_tasks r' = map taskOfRow
                     (filter (fun k => String.eqb (k_run_id k) (run_id r)) (taskRows db ++ rows)).
Proof.
  unfold savePipelineRun.
  destruct (run_startedAt r) as [s|s] eqn:Hs; cbn; [|done].
  destruct (toISOStringOpt (run_completedAt r)) as [c|] eqn:Hc; cbn; [|done].
  intros H. pose proof (StoreProofs.insertTasks_runs _ _ _ _ H) as Hruns.
  apply insertTasks_rows in H as (rows & E & F). cbn in E, Hruns.
  unfold getPipelineRun. rewrite Hruns.
  match goal with |- context [replaceRun ?row _] =>
    rewrite (StoreProofs.find_replaceRun row) end.
  do 2 eexists. split; [done|]. split; [exact E|]. split; [exact F|].
  split.
  { f_equal. f_equal. revert Hc. destruct (run_completedAt r) as [[|]|]; cbn; try done;
      by intros [= <-]. }
  cbn. rewrite E. repeat split; try done.
  - by rewrite (toISOStringOpt_Ok _ _ Hc).
  - by destruct (run_trigger r).
Qed.

(** Round trip of the relational backend on a run that the table of tasks
    does not know yet: the run is read back with its id, pipeline name,
    status, timestamps and trigger, and its tasks with their id, name, status,
    attempts and timestamps; an empty error message is read back as absent. *)
Theorem sqlite_round_trip_keeps (r : PipelineRun) (db db' : Database) :
  savePipelineRun r db = Ok db' ->
  Forall (fun k => k_run_id k <> run_id r) (taskRows db) ->
  exists r',
    getPipelineRun (run_id r) db' = Ok (Some r') /\
    run_id r' = run_id r /\ run_pipelineName r' = run_pipelineName r /\
    run_status r' = run_status r /\ run_startedAt r' = run_startedAt r /\
    run_completedAt r' = run_completedAt r /\ run_trigger r' = run_trigger r /\
    run_error r' = nonEmpty (run_error r) /\
    map kept (run_tasks r') = map kept (run_tasks r).
Proof.
  intros H Hnew.
  destruct (save_then_get _ _ _ H)
    as (r' & rows & Hg & _ & F & _ & ? & ? & ? & ? & ? & ? & ? & Ht).
  exists r'. repeat split; try done.
  rewrite Ht, filter_app, (filter_none _ _ Hnew). cbn [app].
  destruct (rows_kept _ _ _ F) as [-> ->]. done.
Qed.

Lemma sqlite_round_trip_keeps_witness :
  exists db' r',
    savePipelineRun secondRun emptyDatabase = Ok db' /\
    getPipelineRun "run-2" db' = Ok (Some r') /\
    run_startedAt r' = Date 5000 /\
    map kept (run_tasks r') = map kept (run_tasks secondRun).
Proof.
  destruct (sqlite_round_trip_keeps secondRun emptyDatabase _ eq_refl)
    as (r' & Hg & _ & _ & _ & Hs & _ & _ & _ & Ht); [constructor|].
  eexists _, r'. split; [reflexivity|]. split; [exact Hg|]. split; [exact Hs|exact Ht].
Defined.

Lemma second_save (r1 r2 : PipelineRun) (db db1 db2 : Database) :
  savePipelineRun r1 db = Ok db1 ->
  savePipelineRun r2 db1 = Ok db2 ->
  run_id r2 = run_id r1 ->
  Forall (fun k => k_run_id k <> run_id r1) (taskRows db) ->
  exists r',
    getPipelineRun (run_id r1) db2 = Ok (Some r') /\
    run_status r' = run_status r2 /\
    map kept (run_tasks r') = map kept (run_tasks r1) ++ map kept (run_tasks r2).
Proof.
  intros H1 H2 Hid Hnew.
  destruct (save_then_get _ _ _ H1) as (_ & rows1 & _ & E1 & F1 & _).
  destruct (save_then_get _ _ _ H2)
    as (r' & rows2 & Hg & _ & F2 & _ & _ & _ & Hst & _ & _ & _ & _ & Ht).
  rewrite Hid in Hg, Ht, F2. exists r'. split; [done|]. split; [done|].
  rewrite Ht, E1, !filter_app, (filter_none _ _ Hnew). cbn [app].
  destruct (rows_kept _ _ _ F1) as [-> <-]. destruct (rows_kept _ _ _ F2) as [-> <-].
  by rewrite !map_app.
Qed.

(** Saving a run again adds its task rows to those of the earlier save:
    the table of tasks has its own row id for key, so an insert never
    replaces, and replacing the row of the run deletes no task, the foreign
    key being declared and never enforced (the code leaves the pragma off).
    The run read back holds the tasks of the first save followed by those of
    the second. *)
Theorem sqlite_second_save_duplicates_tasks (r1 r2 : PipelineRun) (db db1 db2 : Database) :
  savePipelineRun r1 db = Ok db1 ->
  savePipelineRun r2 db1 = Ok db2 ->
  run_id r2 = run_id r1 ->
  Forall (fun k => k_run_id k <> run_id r1) (taskRows db) ->
  exists r',
    getPipelineRun (run_id r1) db2 = Ok (Some r') /\
    run_status r' = run_status r2 /\
    map kept (run_tasks r') = map kept (run_tasks r1) ++ map kept (run_tasks r2).
Proof. apply second_save. Qed.

Lemma sqlite_second_save_duplicates_tasks_witness :
  exists db1 db2 r',
    savePipelineRun startedRun emptyDatabase = Ok db1 /\
    savePipelineRun startedRun db1 = Ok db2 /\
    getPipelineRun "run-1" db2 = Ok (Some r') /\
    length (run_tasks r') = 2%nat.
Proof.
  do 2 eexists.
  match goal with |- exists r', _ = Ok ?d1 /\ _ = Ok ?d2 /\ _ =>
    destruct (sqlite_second_save_duplicates_tasks startedRun startedRun emptyDatabase
                d1 d2 eq_refl eq_refl eq_refl) as (r' & Hg & _ & Ht); [constructor|] end.
  exists r'. split; [reflexivity|]. split; [reflexivity|]. split; [exact Hg|].
  apply (f_equal length) in Ht. by rewrite length_app, !length_map in Ht.
Defined.

(** A run read from the file backend cannot be saved in the relational
    one: its timestamps are strings, on which [toISOString] is not a function. *)
Theorem sqlite_rejects_runs_read_from_file (r r' : PipelineRun) (disk disk' : FileState.Disk)
    (db : Database) :
  FileState.savePipelineRun r disk = Ok disk' ->
  FileState.getPipelineRun (run_id r) disk' = Ok (Some r') ->
  exists e, savePipelineRun r' db = Err e.
Proof.
  intros Hs Hg. pose proof (StoreProofs.file_save_then_get r disk) as G.
  rewrite Hs, Hg in G. injection G as ->.
  unfold savePipelineRun. cbn. destruct (run_startedAt r); by eexists.
Qed.

Lemma sqlite_rejects_runs_read_from_file_witness :
  exists disk' r',
    FileState.savePipelineRun startedRun FileState.NoFile = Ok disk' /\
    FileState.getPipelineRun "run-1" disk' = Ok (Some r') /\
    exists e, savePipelineRun r' emptyDatabase = Err e.
Proof.
  do 2 eexists. split; [reflexivity|]. split; [reflexivity|].
  exact (sqlite_rejects_runs_read_from_file startedRun _ FileState.NoFile _ emptyDatabase
           eq_refl eq_refl).
Defined.

End SQLiteProofs.

Module RunCommandProofs.
Import RunCommand.

Lemma elem_of_nextBatch tasks executed x :
  x ∈ nextBatch tasks executed <->
  exists task, task ∈ tasks /\ task_id task = x /\ (x ∉ executed) /\ isEnabled task = true /\
               forall d, d ∈ deps task -> d ∈ executed.
Proof.
  unfold nextBatch. rewrite list_elem_of_fmap. split.
  - intros (task & -> & Hin). apply list_elem_of_filter in Hin as [Hp Hin].
    apply andb_True in Hp as [H1 H2]. apply negb_True in H1.
    exists task. split; [done|]. split; [done|].
    destruct (bool_decide (task_id task ∈ executed)) eqn:Hb; [by destruct H1|].
    apply bool_decide_eq_false in Hb. split; [done|].
    destruct (isEnabled task); [|by destruct H1]. split; [done|].
    intros d Hd. apply Is_true_true in H2. rewrite forallb_forall in H2.
    apply list_elem_of_In, H2 in Hd. by apply bool_decide_eq_true in Hd.
  - intros (task & Hin & <- & Hx & He & Hd). exists task. split; [done|].
    apply list_elem_of_filter. split; [|done]. apply andb_True. split.
    + rewrite He, bool_decide_false by done. done.
    + apply Is_true_true, forallb_forall. intros d Hin'. apply bool_decide_eq_true, Hd.
      by apply list_elem_of_In.
Qed.

Lemma PlanOk_snoc tasks plan batch :
  PlanOk tasks plan -> batch <> [] ->
  (forall x, x ∈ batch ->
     (x ∉ concat plan) /\
     exists task, task ∈ tasks /\ task_id task = x /\ isEnabled task = true /\
                  forall d, d ∈ deps task -> d ∈ concat plan) ->
  PlanOk tasks (plan ++ [batch]).
Proof.
  intros HP Hne Hb k b Hk.
  destruct (decide (k < length plan)%nat) as [Hlt|Hge].
  - rewrite lookup_app_l in Hk by done. rewrite take_app_le by lia. by apply HP.
  - rewrite lookup_app_r in Hk by lia.
    destruct (k - length plan)%nat as [|n] eqn:En; [|by destruct n].
    injection Hk as <-. assert (k = length plan) as -> by lia.
    rewrite take_app_length. by split.
Qed.

Lemma nextBatch_NoDup tasks executed :
  NoDup (map task_id tasks) -> NoDup (nextBatch tasks executed).
Proof.
  intros Hnd. unfold nextBatch. refine (sublist_NoDup _ _ Hnd _).
  apply (fmap_sublist task_id), sublist_filter.
Qed.

Lemma plan_loop_spec tasks fuel : forall executed plan,
  (length tasks - size executed < fuel)%nat ->
  executed = list_to_set (concat plan) ->
  PlanOk tasks plan ->
  exists plan',
    plan_loop fuel tasks executed plan = Some plan' /\
    PlanOk tasks plan' /\
    (NoDup (map task_id tasks) -> NoDup (concat plan) -> NoDup (concat plan')) /\
    forall task, task ∈ tasks -> isEnabled task = true -> task_id task ∉ concat plan' ->
                 exists d, d ∈ deps task /\ d ∉ concat plan'.
Proof.
  induction fuel as [|fuel IH]; intros executed plan Hfuel Hex HP; [lia|].
  cbn [plan_loop].
  assert (Hsub : executed ⊆ list_to_set (map task_id tasks)).
  { intros x Hx. rewrite Hex, elem_of_list_to_set in Hx.
    apply elem_of_list_to_set.
    apply list_elem_of_In, in_concat in Hx as (b & Hb & Hx).
    apply list_elem_of_In, list_elem_of_lookup in Hb as (k & Hk).
    destruct (HP k b Hk) as [_ Hall].
    destruct (Hall x) as (_ & task & Hin & <- & _); [by apply list_elem_of_In|].
    apply list_elem_of_fmap. by exists task. }
  destruct (Nat.ltb_spec (size executed) (length tasks)) as [Hlt|Hge].
  - destruct (nextBatch tasks executed) as [|x batch] eqn:Hb; cbn [length Nat.eqb].
    + exists plan. split; [done|]. split; [done|]. split; [done|].
      intros task Hin He Hnot.
      assert (Hx : task_id task ∉ nextBatch tasks executed)
        by (rewrite Hb; apply not_elem_of_nil).
      rewrite elem_of_nextBatch in Hx.
      assert (Hne : task_id task ∉ executed) by (by rewrite Hex, elem_of_list_to_set).
      destruct (forallb (fun dep => bool_decide (dep ∈ executed)) (deps task)) eqn:Hf.
      * exfalso. apply Hx. exists task. repeat split; try done.
        intros d Hd. rewrite forallb_forall in Hf.
        apply list_elem_of_In, Hf in Hd. by apply bool_decide_eq_true in Hd.
      * apply not_true_iff_false in Hf. rewrite forallb_forall in Hf.
        assert (Exists (fun d => d ∉ executed) (deps task)) as Hexs.
        { apply not_Forall_Exists; [intros d; apply _|].
          intros HF. apply Hf. intros d Hd. apply bool_decide_eq_true.
          rewrite Forall_forall in HF. by apply HF, list_elem_of_In. }
        apply Exists_exists in Hexs as (d & Hd & Hn). exists d. split; [done|].
        by rewrite Hex, elem_of_list_to_set in Hn.
    + rewrite <- Hb.
      destruct (IH (executed ∪ list_to_set (nextBatch tasks executed))
                   (plan ++ [nextBatch tasks executed])) as (plan' & Hp & HP' & Hnd' & Hmax).
      4:{ exists plan'. split; [done|]. split; [done|]. split; [|done].
          intros Hids Hnd. apply Hnd'; [done|]. rewrite concat_app. cbn. rewrite app_nil_r.
          apply NoDup_app. split; [done|]. split; [|by apply nextBatch_NoDup].
          intros y Hy Hy'. apply elem_of_nextBatch in Hy' as (_ & _ & _ & Hne & _).
          by rewrite Hex, elem_of_list_to_set in Hne. }
      * assert (x ∈ nextBatch tasks executed) as Hx by (rewrite Hb; by left).
        apply elem_of_nextBatch in Hx as (_ & _ & _ & Hx & _).
        assert (size ({[x]} ∪ executed)
                <= size (executed ∪ list_to_set (nextBatch tasks executed)))%nat.
        { apply subseteq_size. rewrite Hb. set_solver. }
        rewrite size_union, size_singleton in H by set_solver. lia.
      * rewrite Hex, concat_app, list_to_set_app_L. cbn. by rewrite app_nil_r.
      * apply PlanOk_snoc; [done|by rewrite Hb|].
        intros y Hy. apply elem_of_nextBatch in Hy as (task & Hin & <- & Hne & He & Hd).
        split; [by rewrite Hex, elem_of_list_to_set in Hne|].
        exists task. repeat split; try done. intros d Hdd.
        specialize (Hd d Hdd). by rewrite Hex, elem_of_list_to_set in Hd.
  - exists plan. split; [done|]. split; [done|]. split; [done|].
    intros task Hin He Hnot. exfalso.
    assert (Hle : (size (list_to_set (map task_id tasks) : gset string) <= length tasks)%nat).
    { clear. induction tasks as [|t tasks IH]; cbn; [by rewrite size_empty|].
      destruct (decide (task_id t ∈ (list_to_set (map task_id tasks) : gset string))).
      - rewrite subseteq_union_1_L by set_solver. lia.
      - rewrite size_union, size_singleton by set_solver. lia. }
    assert (Heq : executed = list_to_set (map task_id tasks)).
    { apply set_eq. apply set_subseteq_size_equiv; [done|]. lia. }
    apply Hnot. assert (Hin' : task_id task ∈ executed).
    { rewrite Heq. apply elem_of_list_to_set, list_elem_of_fmap. by exists task. }
    by rewrite Hex, elem_of_list_to_set in Hin'.
Qed.


(** The execution plan of the dry run.  [generateExecutionPlan] returns: no
    batch of the plan is empty; a batch holds ids of enabled tasks that no
    earlier batch holds and all of whose dependencies earlier batches hold;
    and every enabled task that the plan leaves out has a dependency that the
    plan leaves out. *)
Theorem generateExecutionPlan_respects_dependencies (pipeline : Pipeline) :
  exists plan,
    generateExecutionPlan pipeline = Some plan /\
    (forall k batch, plan !! k = Some batch ->
       batch <> [] /\
       forall x, x ∈ batch ->
         (x ∉ concat (take k plan)) /\
         exists task, task ∈ pipeline_tasks pipeline /\ task_id task = x /\
                      isEnabled task = true /\
                      forall d, d ∈ deps task -> d ∈ concat (take k plan)) /\
    (forall task, task ∈ pipeline_tasks pipeline -> isEnabled task = true ->
                  task_id task ∉ concat plan ->
                  exists d, d ∈ deps task /\ d ∉ concat plan).
Proof.
  unfold generateExecutionPlan.
  destruct (plan_loop_spec (pipeline_tasks pipeline) (S (length (pipeline_tasks pipeline)))
              ∅ []) as (plan & Hp & HP & _ & Hmax).
  - rewrite size_empty. lia.
  - done.
  - intros k b Hk. by rewrite lookup_nil in Hk.
  - exists plan. split; [done|]. split; [exact HP|exact Hmax].
Qed.

(** For a valid pipeline all of whose tasks are enabled, the plan holds
    every task exactly once. *)
Theorem generateExecutionPlan_covers_valid_pipeline (pipeline : Pipeline) :
  ParseSpec.Valid pipeline ->
  Forall (fun task => isEnabled task = true) (pipeline_tasks pipeline) ->
  exists plan,
    generateExecutionPlan pipeline = Some plan /\
    concat plan ≡ₚ map task_id (pipeline_tasks pipeline).
Proof.
  intros HV Hen. unfold generateExecutionPlan.
  destruct (plan_loop_spec (pipeline_tasks pipeline) (S (length (pipeline_tasks pipeline)))
              ∅ []) as (plan & Hp & HP & Hnd & Hmax).
  { rewrite size_empty. lia. }
  { done. }
  { intros k b Hk. by rewrite lookup_nil in Hk. }
  exists plan. split; [done|].
  set (tasks := pipeline_tasks pipeline) in *.
  assert (Hsub : forall x, x ∈ concat plan -> x ∈ map task_id tasks).
  { intros x Hx. apply list_elem_of_In, in_concat in Hx as (b & Hb & Hx).
    apply list_elem_of_In, list_elem_of_lookup in Hb as (k & Hk).
    destruct (HP k b Hk) as [_ Hall].
    destruct (Hall x) as (_ & task & Hin & <- & _); [by apply list_elem_of_In|].
    apply list_elem_of_fmap. by exists task. }
  apply NoDup_Permutation.
  - apply Hnd; [apply HV|constructor].
  - apply HV.
  - intros x. split; [apply Hsub|]. intros Hx.
    destruct (decide (x ∈ concat plan)) as [|Hnot]; [done|]. exfalso.
    set (U := (list_to_set (map task_id tasks) ∖ list_to_set (concat plan)) : gset string).
    destruct (DagProofs.closed_set_has_cycle tasks U) as (c & Hc).
    + intros HU. assert (x ∈ U) as Hin; [|by rewrite HU in Hin].
      apply elem_of_difference. by rewrite !elem_of_list_to_set.
    + intros y Hy. apply elem_of_difference in Hy as [Hy Hny].
      rewrite elem_of_list_to_set in Hy, Hny.
      destruct (find (fun t => String.eqb (task_id t) y) tasks) as [task|] eqn:Hf.
      * apply find_some in Hf as Hf'. destruct Hf' as [Hin Heq].
        apply String.eqb_eq in Heq. apply list_elem_of_In in Hin.
        destruct (Hmax task Hin) as (d & Hd & Hnd').
        { rewrite Forall_forall in Hen. by apply Hen. }
        { by rewrite Heq. }
        exists d. split; [by exists task|].
        apply elem_of_difference. rewrite !elem_of_list_to_set. split; [|done].
        by eapply (ParseSpec.valid_deps _ HV).
      * exfalso. apply list_elem_of_fmap in Hy as (t & -> & Ht).
        eapply find_none in Hf; [|by apply list_elem_of_In]. cbn in Hf.
        by rewrite String.eqb_refl in Hf.
    + by apply (ParseSpec.valid_acyclic _ HV) in Hc.
Qed.

Lemma generateExecutionPlan_covers_valid_pipeline_witness :
  exists plan,
    generateExecutionPlan ParseSpec.etlPipeline = Some plan /\
    concat plan ≡ₚ ["fetch"; "load"].
Proof.
  apply (generateExecutionPlan_covers_valid_pipeline ParseSpec.etlPipeline
           ParseProofs.Valid_etlPipeline).
  by repeat constructor.
Defined.

End RunCommandProofs.

Module BookkeepingProofs.
Import Executor ExecutorSpec Bookkeeping.

Lemma tokens_queueMicrotask j w :
  tokens (queueMicrotask j w) ≡ₚ jobIndex j :: tokens w.
Proof.
  unfold tokens, jobs. cbn. rewrite !map_app. cbn.
  rewrite <- !app_assoc. cbn. by rewrite <- Permutation_middle.
Qed.

Lemma insertByDue_perm e l : insertByDue e l ≡ₚ e :: l.
Proof.
  induction l as [|y l IH]; cbn; [done|].
  destruct (fst e <? fst y); [done|]. rewrite IH. apply perm_swap.
Qed.

Lemma tokens_arm due j w :
  tokens (arm due j w) ≡ₚ jobIndex j :: tokens w.
Proof.
  unfold tokens, jobs. cbn. rewrite insertByDue_perm. cbn.
  rewrite !map_app. cbn. by rewrite <- Permutation_middle.
Qed.

Lemma tokens_setTimeout j d w :
  tokens (setTimeout j d w) ≡ₚ jobIndex j :: tokens w.
Proof. apply tokens_arm. Qed.

Lemma jobs_queueMicrotask j w : jobs (queueMicrotask j w) ≡ₚ j :: jobs w.
Proof. unfold jobs. cbn. rewrite <- app_assoc. cbn. by rewrite <- Permutation_middle. Qed.

Lemma jobs_arm due j w : jobs (arm due j w) ≡ₚ j :: jobs w.
Proof.
  unfold jobs. cbn. rewrite insertByDue_perm. cbn. by rewrite <- Permutation_middle.
Qed.

Lemma jobs_setTimeout j d w : jobs (setTimeout j d w) ≡ₚ j :: jobs w.
Proof. apply jobs_arm. Qed.

Lemma tokenOk_other ts i te' J :
  jobIndex J <> i -> tokenOk ts J -> tokenOk (<[i := te']> ts) J.
Proof.
  intros Hne. destruct J as [k|k a|k a o|k [e|]|k]; cbn in *;
    by rewrite ?list_lookup_insert_ne by done.
Qed.

Lemma elem_of_tokens_job J w : J ∈ jobs w -> jobIndex J ∈ tokens w.
Proof.
  intros H. unfold tokens. apply elem_of_app. left. apply list_elem_of_fmap. by exists J.
Qed.

Lemma elem_of_tokens_waiting k snap w : (k, snap) ∈ waiting w -> k ∈ tokens w.
Proof.
  intros H. unfold tokens. apply elem_of_app. right. apply list_elem_of_fmap.
  by exists (k, snap).
Qed.

(** Record [i], whose job is being run, is rewritten. *)
Lemma Sane_update i D w te' :
  Sane (Some i) D w -> Sane (Some i) D (setTasks (<[i := te']> (tasks w)) w).
Proof.
  intros [T HD F S J W R].
  assert (Hnot : i ∉ tokens w) by (by apply NoDup_cons in T as [? _]).
  split; cbn.
  - exact T.
  - exact HD.
  - intros k te Hk. destruct (decide (k = i)) as [->|Hne].
    + exfalso. apply Hk, HD. by right.
    + rewrite list_lookup_insert_ne by done. by apply F.
  - intros k te Hk. assert (k <> i) by congruence.
    rewrite list_lookup_insert_ne by done. by apply S.
  - intros j Hj. apply tokenOk_other; [|by apply J].
    intros <-. by apply Hnot, elem_of_tokens_job.
  - intros k snap Hk. apply (tokenOk_other _ _ _ (Launch k)); [|by eapply W].
    intros <-. by eapply Hnot, elem_of_tokens_waiting.
  - intros k te Hk. assert (k <> i) by congruence.
    rewrite list_lookup_insert_ne by done. by apply R.
Qed.


(** The invariant only looks at the records, the jobs and the suspended
    flows. *)
Lemma Sane_same x D w w' :
  Sane x D w -> tasks w' = tasks w -> jobs w' = jobs w -> waiting w' = waiting w ->
  Sane x D w'.
Proof.
  intros [T HD F S J W R] Ht Hj Hw.
  assert (Hk : tokens w' = tokens w) by (unfold tokens; by rewrite Hj, Hw).
  split; rewrite ?Hk, ?Ht, ?Hj, ?Hw; done.
Qed.

(** The job being run leaves a job [J] for its record. *)
Lemma Sane_close_job i D w w' J :
  Sane (Some i) D w ->
  tasks w' = tasks w -> waiting w' = waiting w -> jobs w' ≡ₚ J :: jobs w ->
  jobIndex J = i -> tokenOk (tasks w) J ->
  (forall te, tasks w !! i = Some te -> Shape te) ->
  Sane None D w'.
Proof.
  intros [T HD F S Jb W R] Ht Hw Hj Hi HJ HS.
  assert (Hk : tokens w' ≡ₚ i :: tokens w).
  { unfold tokens. rewrite Hw, Hj. cbn. by rewrite Hi. }
  split; rewrite ?Ht, ?Hw.
  - by rewrite Hk.
  - intros k [Hin|?]; [|done]. rewrite Hk in Hin. apply HD.
    apply elem_of_cons in Hin as [->|Hin]; auto.
  - done.
  - intros k te _ Hte. destruct (decide (k = i)) as [->|Hne]; [by apply HS|].
    apply (S k); [congruence|done].
  - intros J' HJ'. rewrite Hj in HJ'. apply elem_of_cons in HJ' as [->|HJ']; auto.
  - done.
  - intros k te _ Hnot Hte. rewrite Hk in Hnot. apply not_elem_of_cons in Hnot as [Hne Hnot].
    apply (R k); [congruence|done|done].
Qed.

(** The job being run suspends its flow in [waitForSlot]. *)
Lemma Sane_close_waiting i D w w' snap :
  Sane (Some i) D w ->
  tasks w' = tasks w -> jobs w' = jobs w -> waiting w' = waiting w ++ [(i, snap)] ->
  tokenOk (tasks w) (Launch i) ->
  (forall te, tasks w !! i = Some te -> Shape te) ->
  Sane None D w'.
Proof.
  intros [T HD F S Jb W R] Ht Hj Hw HJ HS.
  assert (Hk : tokens w' ≡ₚ i :: tokens w).
  { unfold tokens. rewrite Hw, Hj, map_app. cbn.
    by rewrite app_assoc, <- Permutation_cons_append. }
  split; rewrite ?Ht, ?Hj.
  - by rewrite Hk.
  - intros k [Hin|?]; [|done]. rewrite Hk in Hin. apply HD.
    apply elem_of_cons in Hin as [->|Hin]; auto.
  - done.
  - intros k te _ Hte. destruct (decide (k = i)) as [->|Hne]; [by apply HS|].
    apply (S k); [congruence|done].
  - done.
  - intros k sn Hin. rewrite Hw in Hin. apply elem_of_app in Hin as [Hin|Hin]; [by eapply W|].
    apply list_elem_of_singleton in Hin. by injection Hin as -> _.
  - intros k te _ Hnot Hte. rewrite Hk in Hnot. apply not_elem_of_cons in Hnot as [Hne Hnot].
    apply (R k); [congruence|done|done].
Qed.

(** The job being run leaves its record at rest. *)
Lemma Sane_close_idle i D w :
  Sane (Some i) D w ->
  (forall te, tasks w !! i = Some te -> Shape te /\ atRest te) ->
  Sane None D w.
Proof.
  intros [T HD F S J W R] HS. split.
  - by apply NoDup_cons in T as [_ ?].
  - intros k [Hin|?]; [|done]. apply HD. by left.
  - done.
  - intros k te _ Hte. destruct (decide (k = i)) as [->|Hne]; [by apply HS|].
    apply (S k); [congruence|done].
  - done.
  - done.
  - intros k te _ Hnot Hte. destruct (decide (k = i)) as [->|Hne]; [by apply HS|].
    apply (R k); [congruence|done|done].
Qed.

Lemma submseteq_NoDup {A} (l k : list A) : l ⊆+ k -> NoDup k -> NoDup l.
Proof.
  induction 1 as [|x l k Hs IH|x y l|x l k Hs IH|l k m _ IH1 _ IH2]; intros Hnd.
  - done.
  - apply NoDup_cons in Hnd as [Hx Hk]. apply NoDup_cons. split; [|auto].
    intros Hin. apply Hx. by eapply elem_of_submseteq.
  - by rewrite perm_swap.
  - apply NoDup_cons in Hnd as [_ Hk]. auto.
  - auto.
Qed.

Lemma filter_split {A} (p : A -> bool) (l : list A) :
  filter (fun x => p x) l ++ filter (fun x => negb (p x)) l ≡ₚ l.
Proof.
  induction l as [|x l IH]; [done|]. rewrite !filter_cons.
  destruct (p x) eqn:E; cbn.
  - rewrite decide_True, decide_False by (rewrite ?E; cbn; auto). cbn. by rewrite IH.
  - rewrite decide_False, decide_True by (rewrite ?E; cbn; auto).
    rewrite <- Permutation_middle. by rewrite IH.
Qed.

(** Settling the promise of a flow moves the flows that raced on it from
    [waitForSlot] to the microtask queue, or drops them. *)
Lemma Sane_settle x D i attached res w :
  Sane x D w -> Sane x D (settle i attached res w).
Proof.
  intros HS. unfold settle. destruct attached; [|done].
  destruct HS as [T HD F S J W R].
  set (woken := filter (fun x => races i x) (waiting w)).
  set (others := filter (fun x => negb (races i x)) (waiting w)).
  set (added := match res with
                | None => map (fun x => Launch (fst x)) woken
                | Some _ => []
                end).
  assert (Hw : woken ++ others ≡ₚ waiting w) by apply filter_split.
  assert (Hadd : map jobIndex added ⊆+ map fst woken).
  { unfold added. destruct res; [apply submseteq_nil_l|]. by rewrite map_map. }
  set (w' := {| now := now w; tasks := tasks w; microtasks := microtasks w ++ added;
                macrotasks := macrotasks w;
                activeExecutions := delete (taskIdAt i w) (activeExecutions w);
                waiting := others; rejected := match rejected w with
                                               | Some e => Some e
                                               | None => res
                                               end;
                calls := calls w |}).
  assert (Hk : tokens w' ⊆+ tokens w).
  { unfold tokens, jobs. cbn. rewrite <- Hw, !map_app.
    set (a := map jobIndex (microtasks w)). set (b := map jobIndex (map snd (macrotasks w))).
    set (c := map jobIndex added) in *. set (d := map fst others). set (e := map fst woken) in *.
    assert (((a ++ c) ++ b) ++ d ≡ₚ (a ++ b) ++ c ++ d) as ->.
    { rewrite <- !app_assoc. f_equiv. rewrite !app_assoc. f_equiv. apply Permutation_app_comm. }
    apply submseteq_app; [done|]. by apply submseteq_app. }
  assert (Hin : forall k, k ∈ tokens w' -> k ∈ tokens w).
  { intros k Hk'. by eapply elem_of_submseteq. }
  split; cbn.
  - destruct x as [k|]; [|by eapply submseteq_NoDup].
    eapply submseteq_NoDup; [|exact T]. by apply submseteq_skip.
  - intros k [Hk'|?]; apply HD; auto.
  - done.
  - done.
  - intros J' HJ'. unfold jobs in HJ'. cbn in HJ'.
    rewrite <- app_assoc, elem_of_app, elem_of_app in HJ'.
    destruct HJ' as [HJ'|[HJ'|HJ']].
    + apply J. unfold jobs. apply elem_of_app. by left.
    + unfold added in HJ'. destruct res; [by apply elem_of_nil in HJ'|].
      apply list_elem_of_fmap in HJ' as ([k snap] & -> & Hx).
      apply list_elem_of_filter in Hx as [_ Hx]. by eapply W.
    + apply J. unfold jobs. apply elem_of_app. by right.
  - intros k snap Hk'. apply list_elem_of_filter in Hk' as [_ Hk']. by eapply W.
  - intros k te Hx Hnot Hte.
    destruct (decide (k ∈ tokens w)) as [Hold|Hnew]; [|by apply (R k)].
    assert (exists snap, (k, snap) ∈ waiting w) as (snap & Hsn).
    { unfold tokens in Hold. apply elem_of_app in Hold as [Hold|Hold].
      - exfalso. apply Hnot. unfold tokens, jobs. cbn. apply elem_of_app. left.
        unfold jobs in Hold. rewrite !map_app in *.
        rewrite elem_of_app in Hold. rewrite !elem_of_app. tauto.
      - apply list_elem_of_fmap in Hold as ([k' snap] & -> & Hx'). by exists snap. }
    destruct (W _ _ Hsn te Hte) as [Hst Hat]. split; [by rewrite Hst|done].
Qed.


Ltac fields :=
  cbn [te_status te_task te_attempts te_startedAt te_result te_completedAt
       res_success res_output res_error res_metadata].

Lemma maxAttempts_pos task : 1 <= maxAttempts task.
Proof. unfold maxAttempts. destruct (task_retry task); lia. Qed.

Section Run.
Context (loader : PluginLoader) (options : Options)
        (pipeline : Pipeline) (executionId : string).

(** [executeTask] on a pending record. *)
Lemma executeTask_Sane i attached D w :
  Sane (Some i) D w ->
  (forall te, tasks w !! i = Some te -> te_status te = TaskStatus.pending /\ Shape te) ->
  Sane None D (executeTask i attached w).
Proof.
  intros HS Hi. unfold executeTask.
  destruct (tasks w !! i) as [te|] eqn:Hte.
  2:{ destruct attached.
      - eapply (Sane_close_job i D w _ (FlowSettled i (Some noRecord))); try done.
        + apply jobs_queueMicrotask.
        + by rewrite Hte.
      - apply (Sane_close_idle i); [done|]. by rewrite Hte. }
  destruct (Hi te eq_refl) as [Hst Hsh]. unfold Shape in Hsh. rewrite Hst in Hsh.
  destruct Hsh as (Hres & Hsa & Hca & Hat).
  assert (Hlen : (i < length (tasks w))%nat) by by eapply lookup_lt_Some.
  destruct (default false (task_enabled (te_task te))) eqn:Hen; cbn [negb].
  - (* enabled: the record starts *)
    match goal with |- context [setTasks ?l w] =>
      pose proof (Sane_update i D w _ HS : Sane (Some i) D (setTasks l w)) as HS1 end.
    eapply (Sane_close_job i D _ _ (AfterLoad i attached) HS1); try done.
    + apply (jobs_queueMicrotask _ (setTasks _ w)).
    + cbn. rewrite list_lookup_insert_eq by done. by eexists.
    + cbn. rewrite list_lookup_insert_eq by done. intros ? [= <-].
      unfold Shape, Started. fields. split; [|done]. split; [done|]. split; [by eexists|].
      pose proof (maxAttempts_pos (te_task te)).
      destruct Hat as [->|(_ & r & Hr & Ha)]; [lia|].
      unfold maxAttempts. rewrite Hr. lia.
  - (* disabled: the record is skipped *)
    assert (Ha0 : te_attempts te = 0).
    { destruct Hat as [?|(He & _)]; [done|]. unfold enabled in He. congruence. }
    match goal with |- context [setTasks ?l w] =>
      pose proof (Sane_update i D w _ HS : Sane (Some i) D (setTasks l w)) as HS1 end.
    assert (Hsk : forall te', tasks (setTasks (<[i := {| te_task := te_task te;
                                       te_status := TaskStatus.skipped;
                                       te_result := te_result te;
                                       te_startedAt := te_startedAt te;
                                       te_completedAt := te_completedAt te;
                                       te_attempts := te_attempts te |}]> (tasks w)) w) !! i
                               = Some te' -> Shape te' /\ atRest te').
    { cbn. rewrite list_lookup_insert_eq by done. intros ? [= <-]. split.
      - unfold Shape. cbn. done.
      - split; cbn; done. }
    destruct attached.
    + eapply (Sane_close_job i D _ _ (FlowSettled i None) HS1); try done.
      * apply (jobs_queueMicrotask _ (setTasks _ w)).
      * cbn. rewrite list_lookup_insert_eq by done. by eexists.
      * intros te' Hte'. by apply Hsk.
    + by apply (Sane_close_idle i).
Qed.

(** The [catch] block, on a record that was started. *)
Lemma executeTask_catch_Sane i attached error D w :
  Sane (Some i) D w ->
  (forall te, tasks w !! i = Some te -> Started te) ->
  Sane None D (executeTask_catch options i attached error w).
Proof.
  intros HS Hi. unfold executeTask_catch.
  destruct (tasks w !! i) as [te|] eqn:Hte.
  2:{ apply (Sane_close_idle i); [by apply Sane_settle|].
      intros te. destruct attached; cbn; by rewrite Hte. }
  destruct (Hi te eq_refl) as (Hen & Hsa & Hat).
  assert (Hlen : (i < length (tasks w))%nat) by by eapply lookup_lt_Some.
  assert (Hfail : forall res,
    Sane None D (settle i attached res
      (setTasks (<[i := {| te_task := te_task te;
                           te_status := TaskStatus.failed;
                           te_result := Some {| res_success := false;
                                                res_output := None;
                                                res_error := Some (message error);
                                                res_metadata := None |};
                           te_startedAt := te_startedAt te;
                           te_completedAt := Some (Date (now w));
                           te_attempts := te_attempts te |}]> (tasks w)) w)) \/
    exists retry, task_retry (te_task te) = Some retry /\
                  te_attempts te < retry_attempts retry).
  { intros res.
    destruct (task_retry (te_task te)) as [retry|] eqn:Hr.
    - destruct (Z.ltb_spec (te_attempts te) (retry_attempts retry)) as [Hlt|Hge];
        [right; by exists retry|]. left.
      apply (Sane_close_idle i); [apply Sane_settle, Sane_update, HS|].
      intros te'. assert (tasks (settle i attached res (setTasks (<[i := _]> (tasks w)) w))
                          = <[i := _]> (tasks w)) as -> by (by destruct attached).
      rewrite list_lookup_insert_eq by done. intros [= <-]. split; [|by split].
      unfold Shape. cbn. split; [done|]. split; [by eexists|]. split; [by eexists|].
      intros r' Hr'. rewrite Hr in Hr'. injection Hr' as <-. lia.
    - left.
      apply (Sane_close_idle i); [apply Sane_settle, Sane_update, HS|].
      intros te'. assert (tasks (settle i attached res (setTasks (<[i := _]> (tasks w)) w))
                          = <[i := _]> (tasks w)) as -> by (by destruct attached).
      rewrite list_lookup_insert_eq by done. intros [= <-]. split; [|by split].
      unfold Shape. cbn. split; [done|]. split; [by eexists|]. split; [by eexists|].
      intros r' Hr'. by rewrite Hr in Hr'. }
  destruct (task_retry (te_task te)) as [retry|] eqn:Hr.
  - destruct (Z.ltb_spec (te_attempts te) (retry_attempts retry)) as [Hlt|Hge].
    + apply Sane_settle.
      match goal with |- context [setTasks ?l w] =>
        pose proof (Sane_update i D w _ HS : Sane (Some i) D (setTasks l w)) as HS1 end.
      eapply (Sane_close_job i D _ _ (RetryTimer i) HS1); try done.
      * apply (jobs_setTimeout _ _ (setTasks _ w)).
      * cbn. rewrite list_lookup_insert_eq by done. eexists. split; [done|]. cbn.
        split; [done|lia].
      * cbn. rewrite list_lookup_insert_eq by done. intros ? [= <-].
        unfold Shape. cbn. split; [done|]. split; [done|]. split; [done|]. right.
        split; [done|]. exists retry. split; [done|lia].
    + destruct (Hfail (if continueOnError options then None else Some error))
        as [H|(r' & Hr' & Hlt)]; [done|]. injection Hr' as <-. lia.
  - destruct (Hfail (if continueOnError options then None else Some error))
      as [H|(r' & Hr' & Hlt)]; [done|done].
Qed.

Lemma running_Started te : te_status te = TaskStatus.running -> Shape te -> Started te.
Proof. intros Hst Hsh. unfold Shape in Hsh. rewrite Hst in Hsh. apply Hsh. Qed.

(** [executeTask] after the plugin was loaded, on a running record. *)
Lemma executeTask_afterLoad_Sane i attached D w :
  Sane (Some i) D w ->
  (forall te, tasks w !! i = Some te -> te_status te = TaskStatus.running /\ Shape te) ->
  Sane None D (executeTask_afterLoad loader options pipeline executionId i attached w).
Proof.
  intros HS Hi. unfold executeTask_afterLoad.
  destruct (tasks w !! i) as [te|] eqn:Hte.
  2:{ apply (Sane_close_idle i); [by apply Sane_settle|].
      intros te. destruct attached; cbn; by rewrite Hte. }
  destruct (Hi te eq_refl) as [Hst Hsh].
  destruct (loader (task_plugin (te_task te))) as [plugin|].
  - destruct (awaited _ _ _ _) as [d outcome].
    eapply (Sane_close_job i D w _ (PluginSettled i attached outcome) HS); try done.
    + apply (jobs_arm _ _ w).
    + cbn. by exists te.
    + intros te' Hte'. rewrite Hte in Hte'. by injection Hte' as <-.
  - apply executeTask_catch_Sane; [done|].
    intros te' Hte'. rewrite Hte in Hte'. injection Hte' as <-. by apply running_Started.
Qed.

(** [executeTask] after the promise of the plugin settled, on a running
    record. *)
Lemma executeTask_settled_Sane i attached outcome D w :
  Sane (Some i) D w ->
  (forall te, tasks w !! i = Some te -> te_status te = TaskStatus.running /\ Shape te) ->
  Sane None D (executeTask_settled options i attached outcome w).
Proof.
  intros HS Hi. unfold executeTask_settled.
  destruct outcome as [result|error].
  2:{ apply executeTask_catch_Sane; [done|].
      intros te Hte. destruct (Hi te Hte). by apply running_Started. }
  destruct (tasks w !! i) as [te|] eqn:Hte.
  2:{ apply (Sane_close_idle i); [by apply Sane_settle|].
      intros te. destruct attached; cbn; by rewrite Hte. }
  destruct (Hi te eq_refl) as [Hst Hsh]. pose proof (running_Started _ Hst Hsh) as Hs.
  assert (Hlen : (i < length (tasks w))%nat) by by eapply lookup_lt_Some.
  destruct (res_success result) eqn:Hok.
  - apply (Sane_close_idle i); [apply Sane_settle, Sane_update, HS|].
    intros te'. assert (tasks (settle i attached None (setTasks (<[i := _]> (tasks w)) w))
                        = <[i := _]> (tasks w)) as -> by (by destruct attached).
    rewrite list_lookup_insert_eq by done. intros [= <-]. split; [|by split].
    unfold Shape. fields. split; [done|]. split; [by eexists|]. by eexists.
  - apply executeTask_catch_Sane; [apply Sane_update, HS|].
    cbn. rewrite list_lookup_insert_eq by done. by intros ? [= <-].
Qed.

Lemma launch_Sane i D w :
  Sane (Some i) D w ->
  (forall te, tasks w !! i = Some te -> te_status te = TaskStatus.pending /\ Shape te) ->
  Sane None D (launch i w).
Proof.
  intros HS Hi. unfold launch. eapply Sane_same; [by apply executeTask_Sane|done..].
Qed.

Lemma pending_Shape te :
  te_status te = TaskStatus.pending -> te_attempts te = 0 -> Shape te ->
  te_status te = TaskStatus.pending /\ Shape te.
Proof. done. Qed.

(** Running the job [j], taken from the queue. *)
Lemma runJob_Sane j D w :
  Sane (Some (jobIndex j)) D w ->
  tokenOk (tasks w) j ->
  (forall te, tasks w !! jobIndex j = Some te -> Shape te) ->
  Sane None D (runJob loader options pipeline executionId j w).
Proof.
  intros HS Hj Hsh. destruct j as [i|i a|i a o|i res|i]; cbn [runJob jobIndex] in *.
  - apply launch_Sane; [done|]. intros te Hte. destruct (Hj te Hte). auto.
  - apply executeTask_afterLoad_Sane; [done|].
    destruct Hj as (te & Hte & Hst). intros ? Hte'. rewrite Hte in Hte'.
    injection Hte' as <-. auto.
  - apply executeTask_settled_Sane; [done|].
    destruct Hj as (te & Hte & Hst). intros ? Hte'. rewrite Hte in Hte'.
    injection Hte' as <-. auto.
  - apply (Sane_close_idle i); [by apply Sane_settle|].
    intros te Hte. cbn in Hte. destruct res as [e|].
    + by rewrite Hj in Hte.
    + destruct Hj as (te' & Hte' & Hst). rewrite Hte in Hte'. injection Hte' as <-.
      split; [auto|]. split; by rewrite Hst.
  - apply executeTask_Sane; [done|].
    destruct Hj as (te & Hte & Hst & Ha). intros ? Hte'. rewrite Hte in Hte'.
    injection Hte' as <-. auto.
Qed.

(** Taking the first job [j] out of the queue. *)
Lemma Sane_open j D w w0 :
  Sane None D w ->
  tasks w0 = tasks w -> waiting w0 = waiting w -> jobs w = j :: jobs w0 ->
  Sane (Some (jobIndex j)) D w0 /\ tokenOk (tasks w0) j /\
  (forall te, tasks w0 !! jobIndex j = Some te -> Shape te).
Proof.
  intros [T HD F S J W R] Ht Hw Hj.
  assert (Hk : tokens w = jobIndex j :: tokens w0).
  { unfold tokens. by rewrite Hj, Hw. }
  split; [|split].
  - split; rewrite ?Ht, ?Hw.
    + by rewrite <- Hk.
    + intros k [Hin|[= <-]]; apply HD; left; rewrite Hk; [by right|by left].
    + done.
    + intros k te _. by apply S.
    + intros J' HJ'. apply J. rewrite Hj. by right.
    + done.
    + intros k te Hne Hnot. apply R; [done|]. rewrite Hk.
      apply not_elem_of_cons. split; [congruence|done].
  - rewrite Ht. apply J. rewrite Hj. by left.
  - rewrite Ht. intros te. by apply S.
Qed.

Lemma step_Sane D w w' :
  step loader options pipeline executionId w = Some w' -> Sane None D w -> Sane None D w'.
Proof.
  unfold step. intros H HS.
  destruct (microtasks w) as [|j rest] eqn:Hm.
  - destruct (macrotasks w) as [|[due j] rest] eqn:Hmac; [done|].
    injection H as <-.
    match goal with |- Sane None D (runJob _ _ _ _ j ?w0) =>
      destruct (Sane_open j D w w0 HS) as (H1 & H2 & H3); [done|done| |] end.
    + unfold jobs. by rewrite Hm, Hmac.
    + by apply runJob_Sane.
  - injection H as <-.
    match goal with |- Sane None D (runJob _ _ _ _ j ?w0) =>
      destruct (Sane_open j D w w0 HS) as (H1 & H2 & H3); [done|done| |] end.
    + unfold jobs. by rewrite Hm.
    + by apply runJob_Sane.
Qed.

Lemma awaitAll_Sane D fuel : forall w w' e,
  awaitAll loader options pipeline executionId fuel w = (w', e) ->
  Sane None D w -> Sane None D w'.
Proof.
  induction fuel as [|fuel IH]; intros w w' e; cbn [awaitAll].
  - destruct (rejected w); [by intros [= <- _]|].
    destruct (allSettled w); by intros [= <- _].
  - destruct (rejected w); [by intros [= <- _]|].
    destruct (allSettled w); [by intros [= <- _]|].
    destruct (step _ _ _ _ w) as [w1|] eqn:Hs; [|by intros [= <- _]].
    intros H HS. eapply IH; [exact H|]. by eapply step_Sane.
Qed.

Lemma drain_Sane D fuel : forall w w',
  drain loader options pipeline executionId fuel w = Some w' ->
  Sane None D w -> Sane None D w'.
Proof.
  induction fuel as [|fuel IH]; intros w w'; cbn [drain].
  - destruct (step _ _ _ _ w); [done|]. by intros [= <-].
  - destruct (step _ _ _ _ w) as [w1|] eqn:Hs; [|by intros [= <-]].
    intros H HS. eapply IH; [exact H|]. by eapply step_Sane.
Qed.

(** *** Dispatching *)

Lemma Sane_dispatch i D w : Sane None D w -> i ∉ D -> Sane (Some i) ({[i]} ∪ D) w.
Proof.
  intros [T HD F S J W R] Hi. split.
  - apply NoDup_cons. split; [|done]. intros Hin. apply Hi, HD. by left.
  - intros k [Hk|[= <-]]; [|set_solver]. apply elem_of_union. right. apply HD. by left.
  - intros k te Hk. apply F. set_solver.
  - intros k te _. by apply S.
  - done.
  - done.
  - intros k te _. by apply R.
Qed.

Lemma executeTask_other i attached w k :
  k <> i -> tasks (executeTask i attached w) !! k = tasks w !! k.
Proof.
  intros Hne. unfold executeTask. destruct (tasks w !! i) as [te|]; [|by destruct attached].
  destruct (negb _); [destruct attached|]; cbn; by rewrite list_lookup_insert_ne.
Qed.

Lemma executeTaskWithConcurrency_other i w k :
  k <> i -> tasks (executeTaskWithConcurrency options i w) !! k = tasks w !! k.
Proof.
  intros Hne. unfold executeTaskWithConcurrency.
  destruct (_ <=? _); [by destruct (_ <? _)%nat|].
  unfold launch. cbn. by apply executeTask_other.
Qed.

Lemma executeTaskWithConcurrency_Sane i D w :
  Sane None D w -> i ∉ D ->
  (forall te, tasks w !! i = Some te ->
              te_status te = TaskStatus.pending /\ te_attempts te = 0) ->
  Sane None ({[i]} ∪ D) (executeTaskWithConcurrency options i w).
Proof.
  intros HS Hi Hp. pose proof (Sane_dispatch i D w HS Hi) as HS1.
  assert (Hsh : forall te, tasks w !! i = Some te -> Shape te).
  { intros te. by apply (sane_shape _ _ _ HS). }
  unfold executeTaskWithConcurrency.
  destruct (_ <=? _).
  - destruct (_ <? _)%nat.
    + by eapply (Sane_close_waiting i _ w).
    + eapply (Sane_close_job i _ w _ (Launch i)); try done. apply jobs_queueMicrotask.
  - apply launch_Sane; [done|]. intros te Hte. destruct (Hp te Hte). auto.
Qed.

Lemma dispatch_Sane l : forall D w,
  Sane None D w -> NoDup l -> (forall i, i ∈ l -> i ∉ D) ->
  (forall i te, i ∈ l -> tasks w !! i = Some te ->
                te_status te = TaskStatus.pending /\ te_attempts te = 0) ->
  Sane None (list_to_set l ∪ D) (dispatch options l w).
Proof.
  induction l as [|i l IH]; intros D w HS Hnd HD Hp; cbn [dispatch fold_left list_to_set].
  - by rewrite union_empty_l_L.
  - apply NoDup_cons in Hnd as [Hi Hnd].
    assert (list_to_set l ∪ ({[i]} ∪ D) = {[i]} ∪ list_to_set l ∪ D) as <- by set_solver.
    apply IH; [|done| |].
    + apply executeTaskWithConcurrency_Sane; [done|apply HD; by left|].
      intros te. apply Hp. by left.
    + intros k Hk. specialize (HD k ltac:(by right)). set_solver.
    + intros k te Hk. rewrite executeTaskWithConcurrency_other by set_solver.
      apply Hp. by right.
Qed.

Lemma positions_lt {A} (p : A -> bool) l : forall k i, i ∈ positions p k l -> (k <= i)%nat.
Proof.
  intros k i H. by apply ExecutorProofs.positions_spec in H as (x & ? & _).
Qed.

Lemma positions_NoDup {A} (p : A -> bool) l : forall k, NoDup (positions p k l).
Proof.
  induction l as [|x l IH]; intros k; cbn; [constructor|].
  destruct (p x); [|apply IH]. apply NoDup_cons. split; [|apply IH].
  intros H. apply positions_lt in H. lia.
Qed.

Lemma elem_of_getExecutableTasks ts executed i :
  i ∈ getExecutableTasks ts executed ->
  exists te, ts !! i = Some te /\ isExecutable ts executed te = true.
Proof.
  intros H. apply ExecutorProofs.positions_spec in H as (te & _ & Hl & Hx).
  rewrite Nat.sub_0_r in Hl. by exists te.
Qed.

Lemma isExecutable_pending ts executed te :
  isExecutable ts executed te = true ->
  (task_id (te_task te) ∉ executed) /\ te_status te = TaskStatus.pending /\
  forall d, d ∈ deps (te_task te) -> depSatisfied ts d = true.
Proof.
  unfold isExecutable. destruct (bool_decide (task_id (te_task te) ∈ executed)) eqn:Hin; [done|].
  apply bool_decide_eq_false in Hin. cbn [orb].
  destruct (statusIs TaskStatus.pending te) eqn:Hst; [|done]. cbn [negb].
  intros Hall. split; [done|]. split; [by apply bool_decide_eq_true in Hst|].
  intros d Hd. rewrite forallb_forall in Hall. by apply Hall, list_elem_of_In.
Qed.

(** *** The calls *)

Lemma calls_settle i attached res w : calls (settle i attached res w) = calls w.
Proof. unfold settle. by destruct attached. Qed.

Lemma calls_executeTask i attached w : calls (executeTask i attached w) = calls w.
Proof.
  unfold executeTask. destruct (tasks w !! i); [|by destruct attached].
  destruct (negb _); [by destruct attached|done].
Qed.

Lemma calls_executeTask_catch i attached error w :
  calls (executeTask_catch options i attached error w) = calls w.
Proof.
  unfold executeTask_catch. destruct (tasks w !! i) as [te|]; [|apply calls_settle].
  destruct (task_retry (te_task te)) as [r|]; [destruct (_ <? _)|]; by rewrite calls_settle.
Qed.

Lemma calls_executeTask_settled i attached outcome w :
  calls (executeTask_settled options i attached outcome w) = calls w.
Proof.
  unfold executeTask_settled. destruct outcome; [|apply calls_executeTask_catch].
  destruct (tasks w !! i); [|apply calls_settle].
  destruct (res_success result); [by rewrite calls_settle|by rewrite calls_executeTask_catch].
Qed.

Lemma runJob_CallsOk j D w :
  Sane (Some (jobIndex j)) D w -> tokenOk (tasks w) j ->
  (forall te, tasks w !! jobIndex j = Some te -> Shape te) ->
  map te_task (tasks w) = pipeline_tasks pipeline ->
  CallsOk pipeline executionId w ->
  CallsOk pipeline executionId (runJob loader options pipeline executionId j w).
Proof.
  intros HS Hj Hsh Ht HC.
  destruct j as [i|i a|i a o|i res|i]; cbn [runJob jobIndex] in *.
  - unfold launch, CallsOk. cbn. by rewrite calls_executeTask.
  - unfold executeTask_afterLoad. destruct Hj as (te & Hte & Hst). rewrite Hte.
    destruct (loader (task_plugin (te_task te))) as [plugin|];
      [|unfold CallsOk; by rewrite calls_executeTask_catch].
    destruct (awaited _ _ _ _) as [d outcome]. intros c Hc. cbn in Hc.
    apply elem_of_app in Hc as [Hc|Hc]; [by apply HC|].
    apply list_elem_of_singleton in Hc as ->. cbn.
    pose proof (running_Started _ Hst (Hsh _ Hte)) as (He & _).
    split; [done|]. split; [|done].
    rewrite <- Ht. apply list_elem_of_fmap. exists te. split; [done|].
    by eapply list_elem_of_lookup_2.
  - unfold CallsOk. by rewrite calls_executeTask_settled.
  - unfold CallsOk. by rewrite calls_settle.
  - unfold CallsOk. by rewrite calls_executeTask.
Qed.

Lemma runJob_calls j w c :
  c ∈ calls w -> c ∈ calls (runJob loader options pipeline executionId j w).
Proof.
  intros Hc. destruct j as [i|i a|i a o|i res|i]; cbn [runJob].
  - unfold launch. cbn. by rewrite calls_executeTask.
  - unfold executeTask_afterLoad. destruct (tasks w !! i) as [te|];
      [|by rewrite calls_settle].
    destruct (loader _); [|by rewrite calls_executeTask_catch].
    destruct (awaited _ _ _ _). cbn. apply elem_of_app. by left.
  - by rewrite calls_executeTask_settled.
  - by rewrite calls_settle.
  - by rewrite calls_executeTask.
Qed.

(** The list of calls only grows. *)
Lemma drain_calls fuel : forall w w' c,
  drain loader options pipeline executionId fuel w = Some w' ->
  c ∈ calls w -> c ∈ calls w'.
Proof.
  assert (Hstep : forall w w1 c,
            step loader options pipeline executionId w = Some w1 ->
            c ∈ calls w -> c ∈ calls w1).
  { intros w w1 c. unfold step. destruct (microtasks w) as [|j rest].
    - destruct (macrotasks w) as [|[due j] rest]; [done|].
      intros [= <-] Hc. by apply runJob_calls.
    - intros [= <-] Hc. by apply runJob_calls. }
  induction fuel as [|fuel IH]; intros w w' c; cbn [drain].
  - destruct (step _ _ _ _ w); [done|]. by intros [= <-].
  - destruct (step _ _ _ _ w) as [w1|] eqn:Hs; [|by intros [= <-]].
    intros Hd Hc. eapply IH; [exact Hd|]. by eapply Hstep.
Qed.

(** *** The loops *)

Lemma step_Core D w w' :
  step loader options pipeline executionId w = Some w' ->
  Core pipeline executionId D w -> Core pipeline executionId D w'.
Proof.
  intros Hs [HS HI Ht HC].
  destruct (ExecutorProofs.step_spec _ _ _ _ _ _ Hs HI) as (HI' & _ & [St _]).
  split; [by eapply step_Sane|done|by rewrite St|].
  revert Hs. unfold step.
  destruct (microtasks w) as [|j rest] eqn:Hm.
  - destruct (macrotasks w) as [|[due j] rest] eqn:Hmac; [done|].
    intros [= <-].
    match goal with |- CallsOk _ _ (runJob _ _ _ _ j ?w0) =>
      destruct (Sane_open j D w w0 HS) as (H1 & H2 & H3); [done|done| |] end.
    + unfold jobs. by rewrite Hm, Hmac.
    + by apply (runJob_CallsOk j D).
  - intros [= <-].
    match goal with |- CallsOk _ _ (runJob _ _ _ _ j ?w0) =>
      destruct (Sane_open j D w w0 HS) as (H1 & H2 & H3); [done|done| |] end.
    + unfold jobs. by rewrite Hm.
    + by apply (runJob_CallsOk j D).
Qed.

Lemma awaitAll_Core D fuel : forall w w' e,
  awaitAll loader options pipeline executionId fuel w = (w', e) ->
  Core pipeline executionId D w ->
  Core pipeline executionId D w' /\ (e = Done -> allSettled w' = true).
Proof.
  induction fuel as [|fuel IH]; intros w w' e; cbn [awaitAll].
  - destruct (rejected w); [by intros [= <- <-]|].
    destruct (allSettled w) eqn:Hs; by intros [= <- <-].
  - destruct (rejected w); [by intros [= <- <-]|].
    destruct (allSettled w) eqn:Hs; [by intros [= <- <-]|].
    destruct (step _ _ _ _ w) as [w1|] eqn:Hst; [|by intros [= <- <-]].
    intros H HC. eapply IH; [exact H|]. by eapply step_Core.
Qed.

Lemma drain_Core D fuel : forall w w',
  drain loader options pipeline executionId fuel w = Some w' ->
  Core pipeline executionId D w -> Core pipeline executionId D w'.
Proof.
  induction fuel as [|fuel IH]; intros w w'; cbn [drain].
  - destruct (step _ _ _ _ w); [done|]. by intros [= <-].
  - destruct (step _ _ _ _ w) as [w1|] eqn:Hs; [|by intros [= <-]].
    intros H HS. eapply IH; [exact H|]. by eapply step_Core.
Qed.

Lemma calls_dispatch l : forall w, calls (dispatch options l w) = calls w.
Proof.
  induction l as [|i l IH]; intros w; cbn [dispatch fold_left]; [done|].
  unfold dispatch in IH. rewrite IH. unfold executeTaskWithConcurrency.
  destruct (_ <=? _); [by destruct (_ <? _)%nat|]. unfold launch. cbn.
  apply calls_executeTask.
Qed.

(** One turn of the loop of [executeTasks]: the executable records are
    dispatched and awaited. *)
Lemma round_spec D executed w :
  Head pipeline executionId D executed w ->
  let l := getExecutableTasks (tasks w) executed in
  let w1 := dispatch options l w in
  (forall i, i ∈ l -> (i ∉ D) /\ exists te, tasks w !! i = Some te /\
                                          isExecutable (tasks w) executed te = true) /\
  exists w2 e,
    awaitAll loader options pipeline executionId (budget w1) w1 = (w2, e) /\
    e <> Diverges /\
    Core pipeline executionId (list_to_set l ∪ D) w2 /\
    Stable w w2 /\
    (e = Done ->
     Head pipeline executionId (list_to_set l ∪ D)
          (executed ∪ list_to_set (map (fun i => taskIdAt i w2) l)) w2) /\
    Core pipeline executionId (list_to_set l ∪ D) w1.
Proof.
  intros [[HS HI Ht HC] Hset Hex Hdis Hdom] l w1.
  assert (Hl : forall i, i ∈ l -> (i ∉ D) /\ exists te, tasks w !! i = Some te /\
                                   isExecutable (tasks w) executed te = true).
  { intros i Hi. apply elem_of_getExecutableTasks in Hi as (te & Hte & Hx).
    split; [|by exists te]. intros HiD. apply Hex in HiD.
    apply isExecutable_pending in Hx as (Hn & _). apply Hn.
    revert HiD. unfold taskIdAt. by rewrite Hte. }
  split; [done|].
  destruct (ExecutorProofs.dispatch_spec options l w HI)
    as [HI1 St1].
  assert (HS1 : Sane None (list_to_set l ∪ D) w1).
  { apply dispatch_Sane; [done|apply positions_NoDup|intros i Hi; by apply Hl|].
    intros i te Hi Hte. destruct (Hl i Hi) as (HiD & te' & Hte' & Hx).
    rewrite Hte in Hte'. injection Hte' as <-.
    apply isExecutable_pending in Hx as (_ & Hp & _). split; [done|].
    eapply (sane_rest _ _ _ HS i te); [done| |done|done].
    intros Htok. apply HiD. apply (sane_D _ _ _ HS). by left. }
  destruct (ExecutorProofs.awaitAll_spec loader options pipeline executionId
              (budget w1) w1 HI1 (le_n _)) as (w2 & e & Hw & He & HI2 & St2).
  exists w2, e. split; [done|]. split; [done|].
  assert (HC1 : Core pipeline executionId (list_to_set l ∪ D) w1).
  { split; [done|done|unfold w1; by rewrite (st_tasks _ _ St1)|].
    unfold CallsOk, w1. by rewrite calls_dispatch. }
  destruct (awaitAll_Core _ _ _ _ _ Hw HC1) as [HC2 Hd].
  assert (St : Stable w w2) by by eapply ExecutorProofs.Stable_trans.
  split; [done|]. split; [done|]. split; [|done]. intros ->.
  assert (Hid : forall i, taskIdAt i w2 = taskIdAt i w).
  { intros i. apply ExecutorProofs.taskIdAt_stable, St. }
  split; [done|by apply Hd| | |].
  - intros i [Hi|Hi]%elem_of_union; apply elem_of_union.
    + right. apply elem_of_list_to_set, list_elem_of_fmap. exists i.
      split; [done|]. by apply elem_of_list_to_set in Hi.
    + left. rewrite Hid. by apply Hex.
  - intros id [Hin|Hin]%elem_of_union.
    + destruct (Hdis id Hin) as (i & Hi & <-). exists i. split; [set_solver|apply Hid].
    + apply elem_of_list_to_set, list_elem_of_fmap in Hin as (i & -> & Hi).
      exists i. split; [|done]. apply elem_of_union. left. by apply elem_of_list_to_set.
  - rewrite (ExecutorProofs.Stable_length _ _ St).
    intros i [Hi|Hi]%elem_of_union; [|by apply Hdom].
    apply elem_of_list_to_set, Hl in Hi as (_ & te & Hte & _). by eapply lookup_lt_Some.
Qed.

(** The loop of [executeTasks] keeps the invariant of the event loop. *)
Lemma executeTasks_loop_Core fuel : forall D executed w w' e,
  executeTasks_loop loader options pipeline executionId fuel executed w = (w', e) ->
  Head pipeline executionId D executed w ->
  exists D', Core pipeline executionId D' w'.
Proof.
  induction fuel as [|fuel IH]; intros D executed w w' e; cbn [executeTasks_loop].
  { intros [= <- <-] H. exists D. apply H. }
  destruct (size executed <? length (tasks w))%nat; [|intros [= <- <-] H; exists D; apply H].
  destruct (Nat.eqb _ 0); [intros [= <- <-] H; exists D; apply H|].
  intros H HH. destruct (round_spec D executed w HH) as (_ & w2 & e2 & Hw & _ & HC & _ & Hd & _).
  cbn zeta in Hw. rewrite Hw in H.
  destruct e2 as [|err|].
  - eapply IH; [exact H|]. by apply Hd.
  - injection H as <- <-. by eexists.
  - injection H as <- <-. by eexists.
Qed.

Lemma Shape_newExecution task : Shape (newExecution task).
Proof. unfold Shape. cbn. auto. Qed.

Lemma Head_initialWorld startTime :
  Head pipeline executionId ∅ ∅
       (initialWorld startTime (map newExecution (pipeline_tasks pipeline))).
Proof.
  assert (Hnew : forall i te,
            map newExecution (pipeline_tasks pipeline) !! i = Some te ->
            exists task, te = newExecution task).
  { intros i te Hte. apply list_elem_of_lookup_2, list_elem_of_fmap in Hte as (t & -> & _).
    by exists t. }
  split; [split| | | |]; cbn.
  - split; cbn.
    + constructor.
    + intros i [Hi|?]; [by apply elem_of_nil in Hi|done].
    + intros i te _ Hte. by destruct (Hnew i te Hte) as (t & ->).
    + intros i te _ Hte. destruct (Hnew i te Hte) as (t & ->). apply Shape_newExecution.
    + by intros J ?%elem_of_nil.
    + by intros k snap ?%elem_of_nil.
    + intros i te _ _ Hte. by destruct (Hnew i te Hte) as (t & ->).
  - apply ExecutorProofs.Inv_initialWorld.
  - rewrite map_map. cbn. apply map_id.
  - by intros c ?%elem_of_nil.
  - done.
  - by intros i ?%elem_of_empty.
  - by intros id ?%elem_of_empty.
  - by intros i ?%elem_of_empty.
Qed.

(** The event loop as [executePipeline] leaves it. *)
Lemma executePipeline_try_Core {S} `{Store.StateManager S} (startTime : Z) (store : S) :
  exists D,
    Core pipeline executionId D
         (fst (fst (executePipeline_try loader options pipeline executionId startTime store))).
Proof.
  unfold executePipeline_try. cbn [newRun run_tasks].
  destruct (Store.savePipelineRun _ store) as [store1|err].
  - destruct (executeTasks _ _ _ _ _) as [w e] eqn:Hex. cbn.
    eapply executeTasks_loop_Core; [exact Hex|apply Head_initialWorld].
  - exists ∅. cbn. apply Head_initialWorld.
Qed.

End Run.


Lemma Shape_attempts te : Shape te -> 0 <= te_attempts te <= maxAttempts (te_task te).
Proof.
  unfold Shape, Started. pose proof (maxAttempts_pos (te_task te)) as Hm.
  destruct (te_status te).
  - intros (_ & _ & _ & [->|(_ & r & Hr & Ha)]); [lia|].
    unfold maxAttempts. rewrite Hr. lia.
  - intros ((_ & _ & Ha) & _). lia.
  - intros ((_ & _ & Ha) & _). lia.
  - intros ((_ & _ & Ha) & _). lia.
  - intros (_ & _ & _ & _ & ->). lia.
  - done.
Qed.

Lemma Core_shapes pipeline executionId D w :
  Core pipeline executionId D w -> Forall Shape (tasks w).
Proof.
  intros [HS _ _ _]. apply Forall_forall. intros te Hte.
  apply list_elem_of_lookup in Hte as (i & Hi). by apply (sane_shape _ _ _ HS i).
Qed.

(** [executePipeline] comes back: it returns a run, or rethrows what the
    state store threw at the last save of the run.  The records of the run
    (returned, or handed to the store at the last save) have the shape of their
    status, and so do the records once the timers and plugin calls left
    pending at the return have run: a pending record was never started or
    awaits a retry that its policy allows; a running, successful or failed
    record belongs to an enabled task, with a start date and no more attempts
    than the retry policy allows; the result of a successful record says
    success, that of a failed one says failure, and a failed record has used
    up its retries; a skipped record belongs to a task that is not enabled and
    was never started; no record is cancelled. *)
Theorem executePipeline_keeps_records_coherent {S} `{Store.StateManager S}
    (loader : PluginLoader) (options : Options) (pipeline : Pipeline)
    (executionId : string) (startTime : Z) (store : S) :
  match executePipeline loader options pipeline executionId startTime store with
  | Ret (run, w, _) =>
      Forall (fun te => Shape te /\ 0 <= te_attempts te <= maxAttempts (te_task te))
             (run_tasks run) /\
      exists w', drain loader options pipeline executionId (budget w) w = Some w' /\
                 jobs w' = [] /\
                 Forall (fun te => Shape te /\
                                   0 <= te_attempts te <= maxAttempts (te_task te))
                        (tasks w')
  | Throw e =>
      exists run store1,
        Store.savePipelineRun run store1 = Err e /\
        run_completedAt run <> None /\
        Forall (fun te => Shape te /\ 0 <= te_attempts te <= maxAttempts (te_task te))
               (run_tasks run)
  | OutOfFuel => False
  end.
Proof.
  unfold executePipeline.
  destruct (executePipeline_try_Core loader options pipeline executionId startTime store)
    as (D & HC).
  destruct (ExecutorProofs.executePipeline_try_spec loader options pipeline executionId
              startTime store) as (w & store1 & e & Heq & He & _).
  rewrite Heq in HC |- *. cbn [fst] in HC.
  assert (Hall : forall w0, Core pipeline executionId D w0 ->
            Forall (fun te => Shape te /\ 0 <= te_attempts te <= maxAttempts (te_task te))
                   (tasks w0)).
  { intros w0 H0. eapply Forall_impl; [by eapply Core_shapes|].
    intros te Hte. split; [done|]. by apply Shape_attempts. }
  assert (Hgoal : forall run, run_tasks run = tasks w -> run_completedAt run <> None ->
    match (match Store.savePipelineRun run store1 with
           | Ok store2 => Ret (run, w, store2)
           | Err err => Throw err
           end : Outcome (PipelineRun * World * S)) with
    | Ret (run, w, _) =>
        Forall (fun te => Shape te /\ 0 <= te_attempts te <= maxAttempts (te_task te))
               (run_tasks run) /\
        exists w', drain loader options pipeline executionId (budget w) w = Some w' /\
                   jobs w' = [] /\
                   Forall (fun te => Shape te /\
                                     0 <= te_attempts te <= maxAttempts (te_task te))
                          (tasks w')
    | Throw e =>
        exists run store1,
          Store.savePipelineRun run store1 = Err e /\
          run_completedAt run <> None /\
          Forall (fun te => Shape te /\ 0 <= te_attempts te <= maxAttempts (te_task te))
                 (run_tasks run)
    | OutOfFuel => False
    end).
  { intros run Hrun Hdone. destruct (Store.savePipelineRun run store1) eqn:Hsave.
    - rewrite Hrun. split; [by apply Hall|].
      destruct (ExecutorProofs.drain_spec loader options pipeline executionId (budget w) w
                  (core_inv _ _ _ _ HC) (le_n _)) as (w' & Hd & Hj & _).
      exists w'. split; [done|]. split; [done|]. apply Hall. by eapply drain_Core.
    - exists run, store1. split; [done|]. split; [done|]. rewrite Hrun. by apply Hall. }
  destruct e; [by apply Hgoal|by apply Hgoal|by destruct He].
Qed.

(** Every context that the executor hands to a plugin is that of an enabled
    task of the pipeline, for this execution; this holds of the calls made
    before [executePipeline] returns and of those that retries make later. *)
Theorem plugins_run_for_enabled_tasks_only {S} `{Store.StateManager S}
    (loader : PluginLoader) (options : Options) (pipeline : Pipeline)
    (executionId : string) (startTime : Z) (store : S) :
  let w := fst (fst (executePipeline_try loader options pipeline executionId
                       startTime store)) in
  exists w', drain loader options pipeline executionId (budget w) w = Some w' /\
    (forall c, c ∈ calls w -> c ∈ calls w') /\
    Forall (fun c => enabled (ctx_task c) = true /\
                     ctx_task c ∈ pipeline_tasks pipeline /\
                     ctx_pipeline c = pipeline /\ ctx_executionId c = executionId)
           (calls w').
Proof.
  intros w.
  destruct (executePipeline_try_Core loader options pipeline executionId startTime store)
    as (D & HC). fold w in HC.
  destruct (ExecutorProofs.drain_spec loader options pipeline executionId (budget w) w
              (core_inv _ _ _ _ HC) (le_n _)) as (w' & Hd & _ & _).
  exists w'. split; [done|]. split.
  - intros c Hc. by eapply drain_calls.
  - apply Forall_forall. intros c Hc.
    by apply (core_calls _ _ _ _ (drain_Core _ _ _ _ _ _ _ _ Hd HC)).
Qed.

(** Once the timers and plugin calls that [executePipeline] left pending
    have run, the executor is at rest: no job is left, no flow waits for a
    slot, no execution is registered in [activeExecutions], and no record is
    running; a record that is still pending was never started, so every task
    that was started has ended as [success] or [failed]. *)
Theorem executor_comes_to_rest {S} `{Store.StateManager S}
    (loader : PluginLoader) (options : Options) (pipeline : Pipeline)
    (executionId : string) (startTime : Z) (store : S) :
  let w := fst (fst (executePipeline_try loader options pipeline executionId
                       startTime store)) in
  exists w', drain loader options pipeline executionId (budget w) w = Some w' /\
    jobs w' = [] /\ waiting w' = [] /\ activeExecutions w' = ∅ /\
    Forall (fun te => te_status te <> TaskStatus.running /\
                      (te_status te = TaskStatus.pending -> te_attempts te = 0) /\
                      (0 < te_attempts te ->
                       te_status te = TaskStatus.success \/
                       te_status te = TaskStatus.failed))
           (tasks w').
Proof.
  intros w.
  destruct (executePipeline_try_Core loader options pipeline executionId startTime store)
    as (D & HC). fold w in HC.
  destruct (ExecutorProofs.drain_spec loader options pipeline executionId (budget w) w
              (core_inv _ _ _ _ HC) (le_n _)) as (w' & Hd & Hj & _).
  pose proof (drain_Core _ _ _ _ _ _ _ _ Hd HC) as [HS [Hw Ha] _ _].
  assert (Hwait : waiting w' = []).
  { destruct (waiting w') as [|[k snap] rest] eqn:E; [done|]. exfalso.
    destruct (Hw k snap) as (i & _ & J & HJ & _); [by left|].
    rewrite Hj in HJ. by apply elem_of_nil in HJ. }
  exists w'. split; [done|]. split; [done|]. split; [done|]. split.
  - apply map_eq. intros id. rewrite lookup_empty.
    destruct (activeExecutions w' !! id) as [i|] eqn:E; [|done]. exfalso.
    destruct (Ha id i E) as [(J & HJ & _) _]. rewrite Hj in HJ. by apply elem_of_nil in HJ.
  - apply Forall_forall. intros te Hte. apply list_elem_of_lookup in Hte as (i & Hi).
    assert (Htok : i ∉ tokens w').
    { unfold tokens. rewrite Hj, Hwait. apply not_elem_of_nil. }
    destruct (sane_rest _ _ _ HS i te) as [Hrun Hpend]; [done|done|done|].
    split; [done|]. split; [done|]. intros Hpos.
    pose proof (sane_shape _ _ _ HS i te ltac:(done) Hi) as Hsh.
    unfold Shape in Hsh. destruct (te_status te) eqn:Hst; try done; auto.
    + specialize (Hpend eq_refl). lia.
    + destruct Hsh as (_ & _ & _ & _ & Hz). lia.
Qed.

End BookkeepingProofs.

Module OrderingProofs.
Import Executor ExecutorSpec Bookkeeping Ordering.

Lemma Ready_dependenciesDone ts task : Ready ts task <-> dependenciesDone ts task.
Proof.
  unfold Ready, dependenciesDone, depSatisfied, final, statusIs.
  split; intros H d Hd; specialize (H d Hd).
  - destruct (find _ ts) as [dep|]; [|done]. exists dep. split; [done|].
    apply orb_true_iff in H as [H|H]; apply bool_decide_eq_true in H; auto.
  - destruct H as (dep & -> & [Hs|Hs]); apply orb_true_iff; [left|right];
      by apply bool_decide_eq_true.
Qed.

Lemma Grows_refl ts : Grows ts ts.
Proof. apply Forall_Forall2_diag, Forall_forall. by intros. Qed.

Lemma Grows_trans a b c : Grows a b -> Grows b c -> Grows a c.
Proof.
  apply Forall2_trans. intros x y z [T1 F1] [T2 F2].
  split; [congruence|]. intros Hx. rewrite <- (F1 Hx). apply F2.
  unfold final. rewrite (F1 Hx). exact Hx.
Qed.

Lemma Grows_update ts i te te' :
  ts !! i = Some te -> te_task te' = te_task te -> ~ final te -> Grows ts (<[i := te']> ts).
Proof.
  intros Hi Ht Hf. rewrite <- (list_insert_id ts i te Hi) at 1.
  apply Forall2_insert; [apply Grows_refl|]. split; [done|]. by intros ?.
Qed.

Lemma Grows_length ts ts' : Grows ts ts' -> length ts' = length ts.
Proof. intros H. symmetry. by eapply Forall2_length. Qed.

Lemma depSatisfied_Grows ts ts' d :
  Grows ts ts' -> depSatisfied ts d = true -> depSatisfied ts' d = true.
Proof.
  unfold depSatisfied. induction 1 as [|te te' ts ts' [Ht Hf] _ IH]; [done|].
  cbn [find]. rewrite Ht. destruct (String.eqb _ d); [|done].
  unfold statusIs. intros H. assert (Hfin : final te).
  { apply orb_true_iff in H as [H|H]; apply bool_decide_eq_true in H; [by left|by right]. }
  by rewrite (Hf Hfin).
Qed.

Lemma Ready_Grows ts ts' task : Grows ts ts' -> Ready ts task -> Ready ts' task.
Proof. intros G H d Hd. eapply depSatisfied_Grows; [done|by apply H]. Qed.

Lemma not_final_pending te : te_status te = TaskStatus.pending -> ~ final te.
Proof. intros H [F|F]; congruence. Qed.

Lemma not_final_running te : te_status te = TaskStatus.running -> ~ final te.
Proof. intros H [F|F]; congruence. Qed.

Lemma not_final_failed te : te_status te = TaskStatus.failed -> ~ final te.
Proof. intros H [F|F]; congruence. Qed.

Section Run.
Context (loader : PluginLoader) (options : Options)
        (pipeline : Pipeline) (executionId : string).

Lemma tasks_settle i attached res w : tasks (settle i attached res w) = tasks w.
Proof. unfold settle. by destruct attached. Qed.

Lemma executeTask_Grows i attached w :
  (forall te, tasks w !! i = Some te -> ~ final te) ->
  Grows (tasks w) (tasks (executeTask i attached w)).
Proof.
  intros Hi. unfold executeTask. destruct (tasks w !! i) as [te|] eqn:Hte.
  2:{ destruct attached; apply Grows_refl. }
  destruct (negb _); [destruct attached|]; cbn; eapply Grows_update; eauto.
Qed.

Lemma executeTask_catch_Grows i attached error w :
  (forall te, tasks w !! i = Some te -> ~ final te) ->
  Grows (tasks w) (tasks (executeTask_catch options i attached error w)).
Proof.
  intros Hi. unfold executeTask_catch. destruct (tasks w !! i) as [te|] eqn:Hte.
  2:{ rewrite tasks_settle. apply Grows_refl. }
  destruct (task_retry (te_task te)) as [retry|]; [destruct (_ <? _)|];
    rewrite tasks_settle; cbn; eapply Grows_update; eauto.
Qed.

Lemma executeTask_afterLoad_Grows i attached w :
  (forall te, tasks w !! i = Some te -> ~ final te) ->
  Grows (tasks w)
        (tasks (executeTask_afterLoad loader options pipeline executionId i attached w)).
Proof.
  intros Hi. unfold executeTask_afterLoad. destruct (tasks w !! i) as [te|] eqn:Hte.
  2:{ rewrite tasks_settle. apply Grows_refl. }
  destruct (loader _).
  - destruct (awaited _ _ _ _). cbn. apply Grows_refl.
  - apply executeTask_catch_Grows. by rewrite Hte.
Qed.

Lemma executeTask_settled_Grows i attached outcome w :
  (forall te, tasks w !! i = Some te -> ~ final te) ->
  Grows (tasks w) (tasks (executeTask_settled options i attached outcome w)).
Proof.
  intros Hi. unfold executeTask_settled. destruct outcome as [result|error].
  2:{ by apply executeTask_catch_Grows. }
  destruct (tasks w !! i) as [te|] eqn:Hte.
  2:{ rewrite tasks_settle. apply Grows_refl. }
  assert (Hlen : (i < length (tasks w))%nat) by by eapply lookup_lt_Some.
  destruct (res_success result).
  - rewrite tasks_settle. cbn. eapply Grows_update; eauto.
  - eapply Grows_trans; [|apply executeTask_catch_Grows].
    + cbn. eapply Grows_update; eauto.
    + cbn. rewrite list_lookup_insert_eq by done. intros ? [= <-].
      by apply not_final_failed.
Qed.

Lemma runJob_Grows j w :
  tokenOk (tasks w) j ->
  Grows (tasks w) (tasks (runJob loader options pipeline executionId j w)).
Proof.
  intros Hj. destruct j as [i|i a|i a o|i res|i]; cbn [runJob] in *.
  - unfold launch. cbn. apply executeTask_Grows. intros te Hte.
    apply not_final_pending. by apply Hj.
  - apply executeTask_afterLoad_Grows. destruct Hj as (te & Hte & Hst).
    intros te' Hte'. rewrite Hte in Hte'. injection Hte' as <-. by apply not_final_running.
  - apply executeTask_settled_Grows. destruct Hj as (te & Hte & Hst).
    intros te' Hte'. rewrite Hte in Hte'. injection Hte' as <-. by apply not_final_running.
  - rewrite tasks_settle. apply Grows_refl.
  - apply executeTask_Grows. destruct Hj as (te & Hte & Hst & _).
    intros te' Hte'. rewrite Hte in Hte'. injection Hte' as <-. by apply not_final_pending.
Qed.

(** A turn of the event loop runs the first job of the queue. *)
Lemma step_inv w w' :
  step loader options pipeline executionId w = Some w' ->
  exists j w0, w' = runJob loader options pipeline executionId j w0 /\
               tasks w0 = tasks w /\ calls w0 = calls w /\ waiting w0 = waiting w /\
               rejected w0 = rejected w /\ jobs w = j :: jobs w0.
Proof.
  unfold step. destruct (microtasks w) as [|j rest] eqn:Hm.
  - destruct (macrotasks w) as [|[due j] rest] eqn:Hmac; [done|].
    intros [= <-]. eexists j, _. split; [done|]. cbn. unfold jobs. by rewrite Hm, Hmac.
  - intros [= <-]. eexists j, _. split; [done|]. cbn. unfold jobs. by rewrite Hm.
Qed.

Lemma step_Grows D w w' :
  Sane None D w -> step loader options pipeline executionId w = Some w' ->
  Grows (tasks w) (tasks w').
Proof.
  intros HS Hs. apply step_inv in Hs as (j & w0 & -> & Ht & _ & _ & _ & Hj).
  rewrite <- Ht. apply runJob_Grows. rewrite Ht. apply (sane_jobs _ _ _ HS).
  rewrite Hj. by left.
Qed.

(** A job calls no plugin but that of its record. *)
Lemma runJob_calls_from j w c :
  c ∈ calls (runJob loader options pipeline executionId j w) ->
  c ∈ calls w \/ exists te, tasks w !! jobIndex j = Some te /\ ctx_task c = te_task te.
Proof.
  destruct j as [i|i a|i a o|i res|i]; cbn [runJob jobIndex].
  - unfold launch. cbn. rewrite BookkeepingProofs.calls_executeTask. auto.
  - unfold executeTask_afterLoad. destruct (tasks w !! i) as [te|] eqn:Hte.
    2:{ rewrite BookkeepingProofs.calls_settle. auto. }
    destruct (loader _); [|rewrite BookkeepingProofs.calls_executeTask_catch; auto].
    destruct (awaited _ _ _ _). cbn. intros [Hc|Hc]%elem_of_app; [by left|].
    apply list_elem_of_singleton in Hc as ->. right. by exists te.
  - rewrite BookkeepingProofs.calls_executeTask_settled. auto.
  - rewrite BookkeepingProofs.calls_settle. auto.
  - rewrite BookkeepingProofs.calls_executeTask. auto.
Qed.

Lemma Order_Grows D w w' :
  Order D w -> Grows (tasks w) (tasks w') ->
  (forall c, c ∈ calls w' ->
             c ∈ calls w \/
             exists i te, i ∈ D /\ tasks w !! i = Some te /\ ctx_task c = te_task te) ->
  Order D w'.
Proof.
  intros [HD HC] G Hc. split.
  - intros i te' Hi Hte'.
    destruct (Forall2_lookup_r _ _ _ _ _ G Hte') as (te & Hte & Ht & _).
    rewrite Ht. eapply Ready_Grows; [done|]. by eapply HD.
  - intros c Hin. destruct (Hc c Hin) as [Hold|(i & te & Hi & Hte & ->)];
      (eapply Ready_Grows; [done|]); [by apply HC|by eapply HD].
Qed.

Lemma step_Order D w w' :
  Sane None D w -> step loader options pipeline executionId w = Some w' ->
  Order D w -> Order D w'.
Proof.
  intros HS Hs HO. pose proof (step_Grows D w w' HS Hs) as G.
  eapply Order_Grows; [done|done|].
  apply step_inv in Hs as (j & w0 & -> & Ht & Hc & _ & _ & Hj).
  intros c Hin. apply runJob_calls_from in Hin as [Hin|(te & Hte & Hct)].
  - left. by rewrite <- Hc.
  - right. exists (jobIndex j), te. split; [|by rewrite <- Ht].
    apply (sane_D _ _ _ HS). left. apply BookkeepingProofs.elem_of_tokens_job.
    rewrite Hj. by left.
Qed.

Lemma awaitAll_Order D fuel : forall w w' e,
  awaitAll loader options pipeline executionId fuel w = (w', e) ->
  Sane None D w -> Order D w -> Order D w'.
Proof.
  induction fuel as [|fuel IH]; intros w w' e; cbn [awaitAll].
  - destruct (rejected w); [by intros [= <- _]|].
    destruct (allSettled w); by intros [= <- _].
  - destruct (rejected w); [by intros [= <- _]|].
    destruct (allSettled w); [by intros [= <- _]|].
    destruct (step _ _ _ _ w) as [w1|] eqn:Hs; [|by intros [= <- _]].
    intros H HS HO. eapply IH; [exact H| |].
    + by eapply BookkeepingProofs.step_Sane.
    + by eapply step_Order.
Qed.

Lemma drain_Order D fuel : forall w w',
  drain loader options pipeline executionId fuel w = Some w' ->
  Sane None D w -> Order D w -> Order D w'.
Proof.
  induction fuel as [|fuel IH]; intros w w'; cbn [drain].
  - destruct (step _ _ _ _ w); [done|]. by intros [= <-].
  - destruct (step _ _ _ _ w) as [w1|] eqn:Hs; [|by intros [= <-]].
    intros H HS HO. eapply IH; [exact H| |].
    + by eapply BookkeepingProofs.step_Sane.
    + by eapply step_Order.
Qed.

Lemma executeTaskWithConcurrency_Grows i w :
  (forall te, tasks w !! i = Some te -> ~ final te) ->
  Grows (tasks w) (tasks (executeTaskWithConcurrency options i w)).
Proof.
  intros Hi. unfold executeTaskWithConcurrency.
  destruct (_ <=? _); [destruct (_ <? _)%nat; apply Grows_refl|].
  unfold launch. cbn. by apply executeTask_Grows.
Qed.

Lemma dispatch_Grows l : forall w,
  NoDup l ->
  (forall i te, i ∈ l -> tasks w !! i = Some te -> te_status te = TaskStatus.pending) ->
  Grows (tasks w) (tasks (dispatch options l w)).
Proof.
  induction l as [|i l IH]; intros w Hnd Hp; cbn [dispatch fold_left]; [apply Grows_refl|].
  apply NoDup_cons in Hnd as [Hi Hnd].
  eapply Grows_trans; [apply (executeTaskWithConcurrency_Grows i)|apply IH].
  - intros te Hte. apply not_final_pending. eapply Hp; [by left|done].
  - done.
  - intros k te Hk. rewrite BookkeepingProofs.executeTaskWithConcurrency_other by set_solver.
    apply Hp. by right.
Qed.

(** One turn of the loop of [executeTasks]. *)
Lemma round_Order D executed w :
  Head pipeline executionId D executed w -> Order D w ->
  let l := getExecutableTasks (tasks w) executed in
  let w1 := dispatch options l w in
  forall w2 e, awaitAll loader options pipeline executionId (budget w1) w1 = (w2, e) ->
               Order (list_to_set l ∪ D) w2.
Proof.
  intros HH HO l w1 w2 e Hw.
  destruct (BookkeepingProofs.round_spec loader options pipeline executionId D executed w HH)
    as (Hl & _ & _ & _ & _ & _ & _ & _ & HC1).
  fold l in Hl, HC1. fold w1 in HC1.
  eapply awaitAll_Order; [exact Hw|apply HC1|].
  assert (G : Grows (tasks w) (tasks w1)).
  { apply dispatch_Grows; [apply BookkeepingProofs.positions_NoDup|].
    intros i te Hi Hte. destruct (Hl i Hi) as (_ & te' & Hte' & Hx).
    rewrite Hte in Hte'. injection Hte' as <-.
    by apply BookkeepingProofs.isExecutable_pending in Hx as (_ & Hp & _). }
  split.
  - intros i te1 Hi Hte1.
    destruct (Forall2_lookup_r _ _ _ _ _ G Hte1) as (te & Hte & Ht & _).
    rewrite Ht. eapply Ready_Grows; [done|].
    apply elem_of_union in Hi as [Hi|Hi]; [|by eapply (ord_dispatched _ _ HO)].
    apply elem_of_list_to_set in Hi. destruct (Hl i Hi) as (_ & te' & Hte' & Hx).
    rewrite Hte in Hte'. injection Hte' as <-.
    by apply BookkeepingProofs.isExecutable_pending in Hx as (_ & _ & Hr).
  - intros c Hc. unfold w1 in Hc. rewrite BookkeepingProofs.calls_dispatch in Hc.
    eapply Ready_Grows; [done|]. by apply (ord_calls _ _ HO).
Qed.

Lemma executeTasks_loop_Order fuel : forall D executed w w' e,
  executeTasks_loop loader options pipeline executionId fuel executed w = (w', e) ->
  Head pipeline executionId D executed w -> Order D w ->
  exists D', Core pipeline executionId D' w' /\ Order D' w'.
Proof.
  induction fuel as [|fuel IH]; intros D executed w w' e; cbn [executeTasks_loop].
  { intros [= <- <-] H HO. exists D. split; [apply H|done]. }
  destruct (size executed <? length (tasks w))%nat;
    [|intros [= <- <-] H HO; exists D; split; [apply H|done]].
  destruct (Nat.eqb _ 0); [intros [= <- <-] H HO; exists D; split; [apply H|done]|].
  intros H HH HO.
  destruct (BookkeepingProofs.round_spec loader options pipeline executionId D executed w HH)
    as (_ & w2 & e2 & Hw & _ & HC & _ & Hd & _).
  pose proof (round_Order D executed w HH HO w2 e2 Hw) as HO2.
  cbn zeta in Hw. rewrite Hw in H.
  destruct e2 as [|err|].
  - eapply IH; [exact H|by apply Hd|done].
  - injection H as <- <-. by eexists.
  - injection H as <- <-. by eexists.
Qed.

Lemma Order_initialWorld startTime ts : Order ∅ (initialWorld startTime ts).
Proof. split; [by intros i te ?%elem_of_empty|by intros c ?%elem_of_nil]. Qed.

Lemma executePipeline_try_Order {S} `{Store.StateManager S} (startTime : Z) (store : S) :
  let w := fst (fst (executePipeline_try loader options pipeline executionId
                       startTime store)) in
  exists D, Core pipeline executionId D w /\ Order D w.
Proof.
  unfold executePipeline_try. cbn [newRun run_tasks].
  destruct (Store.savePipelineRun _ store) as [store1|err].
  - destruct (executeTasks _ _ _ _ _) as [w e] eqn:Hex. cbn.
    eapply executeTasks_loop_Order;
      [exact Hex|apply BookkeepingProofs.Head_initialWorld|apply Order_initialWorld].
  - exists ∅. cbn. split; [apply BookkeepingProofs.Head_initialWorld|].
    apply Order_initialWorld.
Qed.

End Run.

(** The executor calls the plugin of a task only after each of its
    dependencies ended well: every id in [dependsOn] of a task whose plugin
    was called is the id of a record, and the first record with this id is
    [success] or [skipped].  This holds of the records when [executePipeline]
    returns and of the records once the retries pending at that point have
    run. *)
Theorem plugins_run_after_dependencies {S} `{Store.StateManager S}
    (loader : PluginLoader) (options : Options) (pipeline : Pipeline)
    (executionId : string) (startTime : Z) (store : S) :
  let w := fst (fst (executePipeline_try loader options pipeline executionId
                       startTime store)) in
  Forall (fun c => dependenciesDone (tasks w) (ctx_task c)) (calls w) /\
  exists w', drain loader options pipeline executionId (budget w) w = Some w' /\
    Forall (fun c => dependenciesDone (tasks w') (ctx_task c)) (calls w').
Proof.
  intros w.
  destruct (executePipeline_try_Order loader options pipeline executionId startTime store)
    as (D & HC & HO). fold w in HC, HO.
  split.
  - apply Forall_forall. intros c Hc. apply Ready_dependenciesDone.
    by apply (ord_calls _ _ HO).
  - destruct (ExecutorProofs.drain_spec loader options pipeline executionId (budget w) w
                (core_inv _ _ _ _ HC) (le_n _)) as (w' & Hd & _ & _).
    exists w'. split; [done|]. apply Forall_forall. intros c Hc.
    apply Ready_dependenciesDone.
    apply (ord_calls D w'); [|done].
    eapply drain_Order; [exact Hd|apply HC|done].
Qed.

End OrderingProofs.

Module HappyPathProofs.
Import Executor ExecutorSpec Bookkeeping Ordering HappyPath.

Lemma tokens_settle_None i attached w : tokens (settle i attached None w) ≡ₚ tokens w.
Proof.
  unfold settle. destruct attached; [|done].
  set (woken := filter (fun x => races i x) (waiting w)).
  set (others := filter (fun x => negb (races i x)) (waiting w)).
  assert (Hw : woken ++ others ≡ₚ waiting w) by apply BookkeepingProofs.filter_split.
  unfold tokens, jobs. cbn. rewrite <- Hw, !map_app, map_map. cbn.
  set (a := map jobIndex (microtasks w)). set (b := map jobIndex (map snd (macrotasks w))).
  set (c := map fst woken). set (d := map fst others).
  rewrite <- !app_assoc. f_equiv. rewrite !app_assoc. f_equiv. apply Permutation_app_comm.
Qed.

Lemma Happy_settle_None x D i attached w :
  Happy x D w -> Happy x D (settle i attached None w).
Proof.
  intros [R J C Dm]. pose proof (tokens_settle_None i attached w) as Hk.
  split.
  - unfold settle. destruct attached; [|done]. cbn. by rewrite R.
  - intros j Hj. unfold settle in Hj. destruct attached; [|by apply J].
    unfold jobs in Hj. cbn in Hj. rewrite <- app_assoc, !elem_of_app in Hj.
    destruct Hj as [Hj|[Hj|Hj]].
    + apply J. unfold jobs. apply elem_of_app; by left.
    + apply list_elem_of_fmap in Hj as (y & -> & _). by split.
    + apply J. unfold jobs. apply elem_of_app; by right.
  - intros k te Hk1 Hx Hnot. rewrite OrderingProofs.tasks_settle.
    apply C; [done|done|]. by rewrite <- Hk.
  - by rewrite OrderingProofs.tasks_settle.
Qed.

Lemma Happy_update i D w te' :
  Happy (Some i) D w -> Happy (Some i) D (setTasks (<[i := te']> (tasks w)) w).
Proof.
  intros [R J C Dm]. split; cbn.
  - done.
  - done.
  - intros k te Hk Hx Hnot. rewrite list_lookup_insert_ne by congruence. by apply C.
  - intros k Hk. rewrite length_insert. by apply Dm.
Qed.

Lemma Happy_close_job i D w w' J :
  Happy (Some i) D w ->
  tasks w' = tasks w -> waiting w' = waiting w -> jobs w' ≡ₚ J :: jobs w ->
  rejected w' = rejected w -> jobIndex J = i -> goodJob J ->
  Happy None D w'.
Proof.
  intros [R Jb C Dm] Ht Hw Hj Hr Hi HJ.
  assert (Hk : tokens w' ≡ₚ i :: tokens w).
  { unfold tokens. rewrite Hw, Hj. cbn. by rewrite Hi. }
  split; rewrite ?Ht, ?Hr.
  - done.
  - intros J' HJ'. rewrite Hj in HJ'. apply elem_of_cons in HJ' as [->|HJ']; auto.
  - intros k te Hk1 _ Hnot Hte. rewrite Hk in Hnot.
    apply not_elem_of_cons in Hnot as [Hne Hnot].
    apply (C k); [done|congruence|done|done].
  - done.
Qed.

Lemma Happy_close_waiting i D w w' snap :
  Happy (Some i) D w ->
  tasks w' = tasks w -> jobs w' = jobs w -> waiting w' = waiting w ++ [(i, snap)] ->
  rejected w' = rejected w ->
  Happy None D w'.
Proof.
  intros [R Jb C Dm] Ht Hj Hw Hr.
  assert (Hk : tokens w' ≡ₚ i :: tokens w).
  { unfold tokens. rewrite Hw, Hj, map_app. cbn.
    by rewrite app_assoc, <- Permutation_cons_append. }
  split; rewrite ?Ht, ?Hr, ?Hj.
  - done.
  - done.
  - intros k te Hk1 _ Hnot Hte. rewrite Hk in Hnot.
    apply not_elem_of_cons in Hnot as [Hne Hnot].
    apply (C k); [done|congruence|done|done].
  - done.
Qed.

Lemma Happy_close_idle i D w :
  Happy (Some i) D w -> (forall te, tasks w !! i = Some te -> final te) -> Happy None D w.
Proof.
  intros [R J C Dm] Hf. split; [done|done| |done].
  intros k te Hk _ Hnot Hte. destruct (decide (k = i)) as [->|Hne]; [by apply Hf|].
  apply (C k); [done|congruence|done|done].
Qed.

Lemma Happy_same x D w w' :
  Happy x D w -> tasks w' = tasks w -> jobs w' = jobs w -> waiting w' = waiting w ->
  rejected w' = rejected w -> Happy x D w'.
Proof.
  intros [R J C Dm] Ht Hj Hw Hr.
  assert (Hk : tokens w' = tokens w) by (unfold tokens; by rewrite Hj, Hw).
  split; rewrite ?Hk, ?Ht, ?Hj, ?Hr; done.
Qed.

Lemma Happy_open j D w w0 :
  Happy None D w ->
  tasks w0 = tasks w -> waiting w0 = waiting w -> rejected w0 = rejected w ->
  jobs w = j :: jobs w0 ->
  Happy (Some (jobIndex j)) D w0 /\ goodJob j.
Proof.
  intros [R J C Dm] Ht Hw Hr Hj.
  assert (Hk : tokens w = jobIndex j :: tokens w0).
  { unfold tokens. by rewrite Hj, Hw. }
  split; [|apply J; rewrite Hj; by left].
  split; rewrite ?Ht, ?Hr.
  - done.
  - intros J' HJ'. apply J. rewrite Hj. by right.
  - intros k te Hk1 Hx Hnot. apply C; [done|done|]. rewrite Hk.
    apply not_elem_of_cons. split; [congruence|done].
  - done.
Qed.

Lemma Happy_dispatch i D w :
  Happy None D w -> (i < length (tasks w))%nat -> Happy (Some i) ({[i]} ∪ D) w.
Proof.
  intros [R J C Dm] Hi. split; [done|done| |].
  - intros k te Hk Hx Hnot Hte. apply (C k); [|done|done|done].
    apply elem_of_union in Hk as [->%elem_of_singleton|Hk]; [done|done].
  - intros k [->%elem_of_singleton|Hk]%elem_of_union; auto.
Qed.

(** When [Promise.all] has settled in such a run, the loop is idle. *)
Lemma Happy_quiet D w : Happy None D w -> allSettled w = true -> tokens w = [].
Proof.
  intros [_ J _ _]. unfold allSettled. intros H.
  apply andb_true_iff in H as [H Hw]. apply andb_true_iff in H as [Hmi Hma].
  assert (Hno : forall j, j ∈ jobs w -> negb (isAttached j) = true -> False).
  { intros j Hj Hn. destruct (J j Hj) as [Ha _]. by rewrite Ha in Hn. }
  assert (microtasks w = []) as Emi.
  { destruct (microtasks w) as [|j rest] eqn:E; [done|]. exfalso. cbn in Hmi.
    apply andb_true_iff in Hmi as [Hj _]. apply (Hno j); [|done].
    unfold jobs. rewrite E. by left. }
  assert (macrotasks w = []) as Ema.
  { destruct (macrotasks w) as [|[due j] rest] eqn:E; [done|]. exfalso. cbn in Hma.
    apply andb_true_iff in Hma as [Hj _]. apply (Hno j); [|done].
    unfold jobs. rewrite E, Emi. by left. }
  apply Nat.eqb_eq in Hw. apply nil_length_inv in Hw.
  unfold tokens, jobs. by rewrite Emi, Ema, Hw.
Qed.

Lemma find_by_id {A} (f : A -> string) (l : list A) i x id :
  NoDup (map f l) -> l !! i = Some x -> f x = id ->
  find (fun y => String.eqb (f y) id) l = Some x.
Proof.
  intros Hnd Hi <-. revert i Hnd Hi.
  induction l as [|y l IH]; intros i Hnd Hi; [done|].
  cbn in Hnd. apply NoDup_cons in Hnd as [Hy Hnd]. cbn [find].
  destruct i as [|i]; cbn in Hi.
  - injection Hi as ->. by rewrite String.eqb_refl.
  - destruct (String.eqb_spec (f y) (f x)) as [E|_]; [|by eapply IH].
    exfalso. apply Hy. rewrite E. apply list_elem_of_fmap. exists x.
    split; [done|by eapply list_elem_of_lookup_2].
Qed.

Lemma positions_complete {A} (p : A -> bool) l : forall k j x,
  l !! j = Some x -> p x = true -> (k + j)%nat ∈ positions p k l.
Proof.
  induction l as [|y l IH]; intros k j x Hj Hp; [done|]. cbn [positions].
  destruct j as [|j]; cbn in Hj.
  - injection Hj as ->. rewrite Hp, Nat.add_0_r. by left.
  - replace (k + S j)%nat with (S k + j)%nat by lia.
    destruct (p y); [right|]; by eapply IH.
Qed.

Lemma forallb_false {A} (p : A -> bool) l :
  forallb p l = false -> exists x, x ∈ l /\ p x = false.
Proof.
  induction l as [|y l IH]; [done|]. cbn. destruct (p y) eqn:E.
  - intros H. destruct (IH H) as (x & Hx & Hp). exists x. split; [by right|done].
  - intros _. exists y. split; [by left|done].
Qed.

Section Run.
Context (loader : PluginLoader) (options : Options)
        (pipeline : Pipeline) (executionId : string).
Hypothesis Hvalid : ParseSpec.Valid pipeline.
Hypothesis Hsucc : forall task,
  task ∈ pipeline_tasks pipeline -> enabled task = true -> Succeeds loader options task.

Lemma executeTask_Happy i D w :
  Happy (Some i) D w -> i ∈ D -> Happy None D (executeTask i true w).
Proof.
  intros HH Hi. unfold executeTask.
  destruct (lookup_lt_is_Some_2 (tasks w) i (happy_dom _ _ _ HH i Hi)) as (te & Hte).
  rewrite Hte. destruct (negb _).
  - match goal with |- context [setTasks ?l w] =>
      pose proof (Happy_update i D w _ HH : Happy (Some i) D (setTasks l w)) as H1 end.
    eapply (Happy_close_job i D _ _ (FlowSettled i None) H1); [done|done| |done|done|by split].
    apply (BookkeepingProofs.jobs_queueMicrotask _ (setTasks _ w)).
  - match goal with |- context [setTasks ?l w] =>
      pose proof (Happy_update i D w _ HH : Happy (Some i) D (setTasks l w)) as H1 end.
    eapply (Happy_close_job i D _ _ (AfterLoad i true) H1); [done|done| |done|done|by split].
    apply (BookkeepingProofs.jobs_queueMicrotask _ (setTasks _ w)).
Qed.

Lemma awaited_Succeeds plugin context attempt d result :
  execute plugin (task_config (ctx_task context)) context attempt = (d, Resolved result) ->
  (taskTimeout options (ctx_task context) <= 0 \/
   Z.of_nat d < timerDelay (taskTimeout options (ctx_task context))) ->
  awaited options plugin context attempt = (Z.of_nat d, Resolved result).
Proof.
  unfold awaited. intros -> Ht.
  destruct (Z.ltb_spec 0 (taskTimeout options (ctx_task context)));
    destruct (Z.leb_spec (timerDelay (taskTimeout options (ctx_task context)))
                (Z.of_nat d));
    cbn; try done; lia.
Qed.

Lemma executeTask_afterLoad_Happy i D w :
  Happy (Some i) D w -> i ∈ D ->
  (forall te, tasks w !! i = Some te ->
              te_task te ∈ pipeline_tasks pipeline /\ enabled (te_task te) = true) ->
  Happy None D (executeTask_afterLoad loader options pipeline executionId i true w).
Proof.
  intros HH Hi Hen. unfold executeTask_afterLoad.
  destruct (lookup_lt_is_Some_2 (tasks w) i (happy_dom _ _ _ HH i Hi)) as (te & Hte).
  rewrite Hte. destruct (Hen te Hte) as [Hin He].
  destruct (Hsucc _ Hin He) as (plugin & -> & Hcall).
  match goal with |- context [awaited options plugin ?c ?a] =>
    destruct (Hcall c a eq_refl) as (d & result & Hex & Hok & Hto);
    rewrite (awaited_Succeeds plugin c a d result Hex Hto) end.
  eapply (Happy_close_job i D w _ (PluginSettled i true (Resolved result)) HH);
    [done|done| |done|done|split; [done|by exists result]].
  apply (BookkeepingProofs.jobs_arm _ _ w).
Qed.

Lemma executeTask_settled_Happy i D w result :
  Happy (Some i) D w -> i ∈ D -> res_success result = true ->
  Happy None D (executeTask_settled options i true (Resolved result) w).
Proof.
  intros HH Hi Hok. unfold executeTask_settled.
  destruct (lookup_lt_is_Some_2 (tasks w) i (happy_dom _ _ _ HH i Hi)) as (te & Hte).
  assert (Hlen : (i < length (tasks w))%nat) by by eapply lookup_lt_Some.
  rewrite Hte, Hok.
  apply (Happy_close_idle i); [apply Happy_settle_None, Happy_update, HH|].
  intros te'. rewrite OrderingProofs.tasks_settle. cbn.
  rewrite list_lookup_insert_eq by done. intros [= <-]. by left.
Qed.

Lemma runJob_Happy j D w :
  Happy (Some (jobIndex j)) D w -> goodJob j -> tokenOk (tasks w) j -> jobIndex j ∈ D ->
  (forall te, tasks w !! jobIndex j = Some te -> Shape te) ->
  map te_task (tasks w) = pipeline_tasks pipeline ->
  Happy None D (runJob loader options pipeline executionId j w).
Proof.
  intros HH [Ha Hg] Hj Hi Hsh Ht.
  destruct j as [i|i a|i a o|i res|i]; cbn [runJob jobIndex isAttached] in *.
  - unfold launch. eapply Happy_same; [by apply executeTask_Happy|done..].
  - subst a. apply executeTask_afterLoad_Happy; [done|done|]. intros te Hte.
    destruct Hj as (te' & Hte' & Hst). rewrite Hte in Hte'. injection Hte' as <-.
    split.
    + rewrite <- Ht. apply list_elem_of_fmap. exists te.
      split; [done|by eapply list_elem_of_lookup_2].
    + by destruct (BookkeepingProofs.running_Started _ Hst (Hsh _ Hte)).
  - subst a. destruct Hg as (result & -> & Hok). by apply executeTask_settled_Happy.
  - destruct res; [done|]. apply (Happy_close_idle i); [by apply Happy_settle_None|].
    intros te. rewrite OrderingProofs.tasks_settle. intros Hte.
    destruct Hj as (te' & Hte' & Hst). rewrite Hte in Hte'. injection Hte' as <-. by right.
  - done.
Qed.

Lemma step_Happy D w w' :
  Core pipeline executionId D w -> Happy None D w ->
  step loader options pipeline executionId w = Some w' -> Happy None D w'.
Proof.
  intros [HS _ Ht _] HH Hs.
  apply OrderingProofs.step_inv in Hs as (j & w0 & -> & Ht0 & _ & Hw0 & Hr0 & Hj).
  destruct (Happy_open j D w w0 HH Ht0 Hw0 Hr0 Hj) as [H1 Hg].
  apply runJob_Happy; [done|done| | | |].
  - rewrite Ht0. apply (sane_jobs _ _ _ HS). rewrite Hj. by left.
  - apply (sane_D _ _ _ HS). left. apply BookkeepingProofs.elem_of_tokens_job.
    rewrite Hj. by left.
  - rewrite Ht0. intros te. by apply (sane_shape _ _ _ HS).
  - by rewrite Ht0.
Qed.

Lemma awaitAll_Happy D fuel : forall w w' e,
  awaitAll loader options pipeline executionId fuel w = (w', e) ->
  Core pipeline executionId D w -> Happy None D w ->
  Happy None D w' /\ forall err, e <> Threw err.
Proof.
  induction fuel as [|fuel IH]; intros w w' e H HC HH; cbn [awaitAll] in H;
    rewrite (happy_rejected _ _ _ HH) in H.
  - destruct (allSettled w); by injection H as <- <-.
  - destruct (allSettled w); [by injection H as <- <-|].
    destruct (step _ _ _ _ w) as [w1|] eqn:Hs; [|by injection H as <- <-].
    eapply IH; [exact H| |].
    + by eapply BookkeepingProofs.step_Core.
    + by eapply step_Happy.
Qed.

Lemma length_executeTaskWithConcurrency i w :
  length (tasks (executeTaskWithConcurrency options i w)) = length (tasks w).
Proof.
  unfold executeTaskWithConcurrency.
  destruct (_ <=? _); [by destruct (_ <? _)%nat|].
  unfold launch. cbn. unfold executeTask. destruct (tasks w !! i); [|done].
  destruct (negb _); cbn; by rewrite length_insert.
Qed.

Lemma executeTaskWithConcurrency_Happy i D w :
  Happy None D w -> (i < length (tasks w))%nat ->
  Happy None ({[i]} ∪ D) (executeTaskWithConcurrency options i w).
Proof.
  intros HH Hi. pose proof (Happy_dispatch i D w HH Hi) as H1.
  unfold executeTaskWithConcurrency.
  destruct (_ <=? _).
  - destruct (_ <? _)%nat.
    + by eapply (Happy_close_waiting i _ w).
    + eapply (Happy_close_job i _ w _ (Launch i)); [done|done|done| |done|done|by split].
      apply BookkeepingProofs.jobs_queueMicrotask.
  - unfold launch. eapply Happy_same; [apply executeTask_Happy; [done|set_solver]|done..].
Qed.

Lemma dispatch_Happy l : forall D w,
  Happy None D w -> (forall i, i ∈ l -> (i < length (tasks w))%nat) ->
  Happy None (list_to_set l ∪ D) (dispatch options l w).
Proof.
  induction l as [|i l IH]; intros D w HH Hl; cbn [dispatch fold_left list_to_set].
  - by rewrite union_empty_l_L.
  - assert (list_to_set l ∪ ({[i]} ∪ D) = {[i]} ∪ list_to_set l ∪ D) as <- by set_solver.
    apply IH.
    + apply executeTaskWithConcurrency_Happy; [done|]. apply Hl. by left.
    + intros k Hk. rewrite length_executeTaskWithConcurrency. apply Hl. by right.
Qed.

(** *** No deadlock *)

Lemma ids_tasks w :
  map te_task (tasks w) = pipeline_tasks pipeline ->
  map (fun t => task_id (te_task t)) (tasks w) = map task_id (pipeline_tasks pipeline).
Proof. intros <-. by rewrite map_map. Qed.

(** While a record is left to dispatch, one is executable. *)
Lemma progress D executed w :
  Head pipeline executionId D executed w -> Happy None D w ->
  (size executed < length (tasks w))%nat ->
  getExecutableTasks (tasks w) executed <> [].
Proof.
  intros [[HS HI Ht HC] Hset Hex Hdis Hdom] HH Hlt Hnil.
  pose proof (Happy_quiet D w HH Hset) as Hq.
  pose proof (ParseSpec.valid_ids _ Hvalid) as Hids.
  pose proof (ids_tasks w Ht) as Hmap.
  assert (Hfinal : forall i te, i ∈ D -> tasks w !! i = Some te -> final te).
  { intros i te Hi Hte.
    eapply (happy_closed _ _ _ HH i); [done|done|rewrite Hq; apply not_elem_of_nil|done]. }
  assert (Hnone : forall i te, tasks w !! i = Some te ->
                               isExecutable (tasks w) executed te = false).
  { intros i te Hte. destruct (isExecutable (tasks w) executed te) eqn:E; [|done].
    exfalso. pose proof (positions_complete _ _ 0%nat i te Hte E) as Hin.
    unfold getExecutableTasks in Hnil. rewrite Hnil in Hin. by apply elem_of_nil in Hin. }
  assert (Hrec : forall id, id ∈ map task_id (pipeline_tasks pipeline) ->
            exists i te, tasks w !! i = Some te /\ task_id (te_task te) = id).
  { intros id Hid. rewrite <- Hmap in Hid.
    apply list_elem_of_fmap in Hid as (te & -> & Hte).
    apply list_elem_of_lookup in Hte as (i & Hi). by exists i, te. }
  set (U := list_to_set (map task_id (pipeline_tasks pipeline)) ∖ executed : gset string).
  destruct (DagProofs.closed_set_has_cycle (pipeline_tasks pipeline) U) as (x & Hx).
  - intros HU.
    assert (Hsub : (list_to_set (map task_id (pipeline_tasks pipeline)) : gset string)
                   ⊆ executed).
    { intros id Hid. destruct (decide (id ∈ executed)) as [|Hn]; [done|].
      exfalso. assert (id ∈ U) as Hin by (by apply elem_of_difference).
      rewrite HU in Hin. by apply elem_of_empty in Hin. }
    apply subseteq_size in Hsub. rewrite size_list_to_set in Hsub by done.
    rewrite <- Ht, !length_map in Hsub. lia.
  - intros x Hx. apply elem_of_difference in Hx as [Hin Hnex].
    apply elem_of_list_to_set in Hin. destruct (Hrec x Hin) as (i & te & Hte & Hid).
    assert (HiD : i ∉ D).
    { intros HiD. apply Hnex. apply Hex in HiD. revert HiD. unfold taskIdAt.
      by rewrite Hte, Hid. }
    pose proof (sane_fresh _ _ _ HS i te HiD Hte) as Hpend.
    pose proof (Hnone i te Hte) as Hx. unfold isExecutable in Hx.
    rewrite Hid, (bool_decide_eq_false_2 _ Hnex) in Hx. unfold statusIs in Hx.
    rewrite (bool_decide_eq_true_2 _ Hpend) in Hx. cbn in Hx.
    apply forallb_false in Hx as (d & Hd & Hsat).
    assert (Htask : te_task te ∈ pipeline_tasks pipeline).
    { rewrite <- Ht. apply list_elem_of_fmap. exists te.
      split; [done|by eapply list_elem_of_lookup_2]. }
    exists d. split.
    + exists (te_task te). split; [|done].
      apply (find_by_id task_id _ i); [done| |done].
      by rewrite <- Ht, list_lookup_fmap, Hte.
    + apply elem_of_difference.
      pose proof (ParseSpec.valid_deps _ Hvalid _ _ Htask Hd) as Hdin.
      split; [by apply elem_of_list_to_set|]. intros Hdex.
      destruct (Hdis d Hdex) as (k & Hk & Hkid).
      destruct (lookup_lt_is_Some_2 (tasks w) k (Hdom k Hk)) as (tk & Htk).
      unfold taskIdAt in Hkid. rewrite Htk in Hkid.
      assert (Hfind : find (fun t => String.eqb (task_id (te_task t)) d) (tasks w)
                      = Some tk).
      { apply (find_by_id (fun t => task_id (te_task t)) _ k); [by rewrite Hmap|done|done]. }
      unfold depSatisfied in Hsat. rewrite Hfind in Hsat. unfold statusIs in Hsat.
      destruct (Hfinal k tk Hk Htk) as [Hs|Hs].
      * by rewrite (bool_decide_eq_true_2 _ Hs) in Hsat.
      * rewrite (bool_decide_eq_true_2 (_ = TaskStatus.skipped) Hs), orb_true_r in Hsat.
        done.
  - by apply (ParseSpec.valid_acyclic _ Hvalid x).
Qed.

(** When the loop of [executeTasks] ends, every record was dispatched. *)
Lemma all_dispatched D executed w :
  Head pipeline executionId D executed w ->
  (length (tasks w) <= size executed)%nat ->
  forall i, (i < length (tasks w))%nat -> i ∈ D.
Proof.
  intros [[HS HI Ht HC] Hset Hex Hdis Hdom] Hge i Hi.
  destruct (decide (i ∈ D)) as [|HiD]; [done|]. exfalso.
  pose proof (ParseSpec.valid_ids _ Hvalid) as Hids.
  pose proof (ids_tasks w Ht) as Hmap.
  destruct (lookup_lt_is_Some_2 (tasks w) i Hi) as (te & Hte).
  set (ids := (list_to_set (map task_id (pipeline_tasks pipeline)) : gset string)).
  assert (Hin : task_id (te_task te) ∈ ids).
  { apply elem_of_list_to_set. rewrite <- Hmap. apply list_elem_of_fmap. exists te.
    split; [done|by eapply list_elem_of_lookup_2]. }
  assert (Hsub : executed ⊆ ids ∖ {[task_id (te_task te)]}).
  { intros id Hid. destruct (Hdis id Hid) as (k & Hk & Hkid).
    destruct (lookup_lt_is_Some_2 (tasks w) k (Hdom k Hk)) as (tk & Htk).
    unfold taskIdAt in Hkid. rewrite Htk in Hkid. subst id.
    apply elem_of_difference. split.
    - apply elem_of_list_to_set. rewrite <- Hmap. apply list_elem_of_fmap. exists tk.
      split; [done|by eapply list_elem_of_lookup_2].
    - intros Heq%elem_of_singleton. apply HiD.
      assert (k = i) as <-; [|done].
      rewrite <- Hmap in Hids.
      eapply (NoDup_lookup _ k i); [exact Hids| |].
      + by rewrite list_lookup_fmap, Htk.
      + rewrite list_lookup_fmap, Hte. cbn. by rewrite Heq. }
  apply subseteq_size in Hsub.
  rewrite size_difference in Hsub by (by apply singleton_subseteq_l).
  unfold ids in Hsub. rewrite size_list_to_set, size_singleton in Hsub by done.
  rewrite <- Ht, !length_map in Hsub. lia.
Qed.

Lemma executeTasks_loop_Happy fuel : forall D executed w w' e,
  executeTasks_loop loader options pipeline executionId fuel executed w = (w', e) ->
  e <> Diverges ->
  Head pipeline executionId D executed w -> Happy None D w ->
  e = Done /\
  exists D', Core pipeline executionId D' w' /\ Forall final (tasks w') /\ tokens w' = [].
Proof.
  induction fuel as [|fuel IH]; intros D executed w w' e; cbn [executeTasks_loop].
  { by intros [= <- <-] He. }
  destruct (Nat.ltb_spec (size executed) (length (tasks w))) as [Hlt|Hge].
  2:{ intros [= <- <-] _ HH Hp. split; [done|]. exists D. split; [apply HH|].
      pose proof (Happy_quiet D w Hp (head_settled _ _ _ _ _ HH)) as Hq.
      split; [|done]. apply Forall_forall. intros te Hte.
      apply list_elem_of_lookup in Hte as (i & Hi).
      eapply (happy_closed _ _ _ Hp i); [|done|rewrite Hq; apply not_elem_of_nil|done].
      eapply all_dispatched; [done|done|by eapply lookup_lt_Some]. }
  destruct (Nat.eqb_spec (length (getExecutableTasks (tasks w) executed)) 0) as [Hz|_].
  { intros _ _ HH Hp. exfalso. apply nil_length_inv in Hz. by eapply progress. }
  intros H He HH Hp.
  destruct (BookkeepingProofs.round_spec loader options pipeline executionId D executed w HH)
    as (Hl & w2 & e2 & Hw & He2 & HC2 & _ & Hd & HC1).
  assert (Hp1 : Happy None (list_to_set (getExecutableTasks (tasks w) executed) ∪ D)
                      (dispatch options (getExecutableTasks (tasks w) executed) w)).
  { apply dispatch_Happy; [done|]. intros i Hi.
    destruct (Hl i Hi) as (_ & te & Hte & _). by eapply lookup_lt_Some. }
  destruct (awaitAll_Happy _ _ _ _ _ Hw HC1 Hp1) as [Hp2 Hno].
  cbn zeta in Hw. rewrite Hw in H.
  destruct e2 as [|err|]; [|by destruct (Hno err)|done].
  eapply IH; [exact H|done|by apply Hd|done].
Qed.

Lemma Happy_initialWorld startTime ts : Happy None ∅ (initialWorld startTime ts).
Proof.
  split; [done|by intros j ?%elem_of_nil|by intros i te ?%elem_of_empty|].
  by intros i ?%elem_of_empty.
Qed.

(** [executeTasks] runs to its end and leaves every record in its last
    state, with nothing pending. *)
Lemma executeTasks_Happy startTime :
  exists w D,
    executeTasks loader options pipeline executionId
      (initialWorld startTime (map newExecution (pipeline_tasks pipeline))) = (w, Done) /\
    Core pipeline executionId D w /\ Forall final (tasks w) /\ tokens w = [].
Proof.
  destruct (ExecutorProofs.executeTasks_spec loader options pipeline executionId _
              (ExecutorProofs.Inv_initialWorld startTime
                 (map newExecution (pipeline_tasks pipeline))))
    as (w & e & Hex & He & _).
  destruct (executeTasks_loop_Happy _ _ _ _ _ _ Hex He
              (BookkeepingProofs.Head_initialWorld pipeline executionId startTime)
              (Happy_initialWorld _ _)) as (-> & D & HC & Hf & Hq).
  by exists w, D.
Qed.

End Run.

Lemma carriedOut_final te : Shape te -> final te -> carriedOut te.
Proof.
  unfold Shape, Started, carriedOut. intros Hsh [Hs|Hs]; rewrite Hs in *.
  - destruct Hsh as ((-> & _) & _). done.
  - destruct Hsh as (-> & _). done.
Qed.

Lemma finalStatus_carriedOut ts :
  Forall carriedOut ts ->
  finalStatus ts = if forallb (fun t => negb (enabled t)) (map te_task ts)
                   then PipelineStatus.cancelled else PipelineStatus.success.
Proof.
  intros HF. unfold finalStatus.
  assert (H1 : existsb (statusIs TaskStatus.running) ts = false).
  { clear -HF. induction HF as [|te ts Hte _ IH]; [done|]. cbn. rewrite IH, orb_false_r.
    unfold statusIs, carriedOut in *. apply bool_decide_eq_false. rewrite Hte.
    by destruct (enabled _). }
  assert (H2 : existsb (statusIs TaskStatus.failed) ts = false).
  { clear -HF. induction HF as [|te ts Hte _ IH]; [done|]. cbn. rewrite IH, orb_false_r.
    unfold statusIs, carriedOut in *. apply bool_decide_eq_false. rewrite Hte.
    by destruct (enabled _). }
  assert (H3 : forallb (statusIs TaskStatus.skipped) ts
               = forallb (fun t => negb (enabled t)) (map te_task ts)).
  { clear -HF. induction HF as [|te ts Hte _ IH]; [done|]. cbn. rewrite IH. f_equal.
    unfold statusIs, carriedOut in *. rewrite Hte.
    destruct (enabled _); cbn; [by apply bool_decide_eq_false|by apply bool_decide_eq_true]. }
  by rewrite H1, H2, H3.
Qed.



End HappyPathProofs.

Module PipelineSchedulerProofs.
Import PipelineScheduler.

(** *** Keyed collections *)

Lemma getKey_setKey {V} k k' (v : V) m :
  getKey k (setKey k' v m) = if String.eqb k' k then Some v else getKey k m.
Proof.
  unfold getKey. induction m as [|[k0 v0] m IH]; cbn [setKey find fst].
  - by destruct (String.eqb k' k).
  - destruct (String.eqb_spec k0 k') as [->|Hne]; cbn [find fst].
    + by destruct (String.eqb k' k).
    + destruct (String.eqb_spec k0 k) as [->|Hne']; [|done].
      by rewrite (proj2 (String.eqb_neq k' k)) by congruence.
Qed.

Lemma getKey_deleteKey {V} k k' (m : list (string * V)) :
  getKey k (deleteKey k' m) = if String.eqb k' k then None else getKey k m.
Proof.
  unfold getKey, deleteKey. induction m as [|[k0 v0] m IH]; cbn [find fst].
  - by destruct (String.eqb k' k).
  - rewrite filter_cons. cbn [fst].
    destruct (String.eqb_spec k0 k') as [->|Hne]; cbn [negb].
    + rewrite decide_False by (by intros []). rewrite IH.
      by destruct (String.eqb k' k).
    + rewrite decide_True by done. cbn [find fst].
      destruct (String.eqb_spec k0 k) as [->|Hne']; [|done].
      by rewrite (proj2 (String.eqb_neq k' k)) by congruence.
Qed.

Lemma setKey_fresh {V} k (v : V) m : k ∉ map fst m -> setKey k v m = m ++ [(k, v)].
Proof.
  induction m as [|[k0 v0] m IH]; cbn [setKey map fst app]; [done|].
  intros [Hne Hnot]%not_elem_of_cons.
  rewrite (proj2 (String.eqb_neq k0 k)) by congruence. by rewrite IH.
Qed.

Lemma deleteKey_fresh {V} k (m : list (string * V)) : k ∉ map fst m -> deleteKey k m = m.
Proof.
  unfold deleteKey. induction m as [|[k0 v0] m IH]; cbn [map fst]; [done|].
  intros [Hne Hnot]%not_elem_of_cons. rewrite filter_cons. cbn [fst].
  rewrite (proj2 (String.eqb_neq k0 k)) by congruence. cbn [negb].
  rewrite decide_True by done. by rewrite IH.
Qed.

Lemma deleteKey_app {V} k (a b : list (string * V)) :
  deleteKey k (a ++ b) = deleteKey k a ++ deleteKey k b.
Proof. unfold deleteKey. apply filter_app. Qed.

Lemma deleteKey_setKey {V} k (v : V) m : k ∉ map fst m -> deleteKey k (setKey k v m) = m.
Proof.
  intros Hk. rewrite setKey_fresh, deleteKey_app, deleteKey_fresh by done.
  unfold deleteKey. rewrite filter_cons. cbn [fst]. rewrite String.eqb_refl. cbn [negb].
  rewrite decide_False by (by intros []). by rewrite filter_nil, app_nil_r.
Qed.

Lemma Forall_setKey {V} (P : string * V -> Prop) k v m :
  P (k, v) -> Forall P m -> Forall P (setKey k v m).
Proof.
  intros Hk. induction 1 as [|[k0 v0] m H0 Hm IH]; cbn [setKey]; [by constructor|].
  destruct (String.eqb k0 k); constructor; auto.
Qed.

Lemma Forall_deleteKey {V} (P : string * V -> Prop) k m :
  Forall P m -> Forall P (deleteKey k m).
Proof.
  rewrite !Forall_forall. intros H x Hx. unfold deleteKey in Hx.
  apply list_elem_of_filter in Hx as [_ Hx]. by apply H.
Qed.

Lemma getKey_elem_of {V} k (m : list (string * V)) v :
  getKey k m = Some v -> (k, v) ∈ m.
Proof.
  unfold getKey. destruct (find _ m) as [[k0 v0]|] eqn:E; [|done]. intros [= <-].
  apply find_some in E as [Hin Hk]. apply String.eqb_eq in Hk. cbn in Hk. subst k0.
  by apply list_elem_of_In.
Qed.

(** *** The jobs that run *)

Lemma halted_createCronJob expression tz : halted (Scheduler.createCronJob expression tz).
Proof. by split. Qed.

Lemma halted_stop job : halted (Scheduler.stop job).
Proof. by split. Qed.

Lemma halted_fire job : halted job -> Scheduler.fire job = None.
Proof. intros [_ Ht]. unfold Scheduler.fire. by rewrite Ht. Qed.

Lemma running_fire job t job' :
  Scheduler.fire job = Some (t, job') -> Scheduler.running job' = true.
Proof.
  unfold Scheduler.fire. destruct (Scheduler.timeoutId job); [|done].
  destruct (Scheduler.running job); [|done]. by intros [= _ <-].
Qed.

Section Calls.
Context (uuid : nat -> string).

(** What [schedulePipeline] does to the scheduler: nothing, or it registers
    a job that it does not start. *)
Lemma schedulePipeline_sched pipeline trigger now w :
  let w' := snd (schedulePipeline uuid pipeline trigger now w) in
  isRunning (sched w') = isRunning (sched w) /\
  cleanupJob (sched w') = cleanupJob (sched w) /\
  (jobs (sched w') = jobs (sched w) \/
   exists job, halted job /\
     jobs (sched w') = setKey (uuid (issued w))
                         {| entry_job := job; entry_pipeline := pipeline;
                            entry_trigger := trigger |} (jobs (sched w))).
Proof.
  unfold schedulePipeline.
  destruct (trigger_type trigger); [|cbn; auto..].
  assert (Hreg : forall config expression,
    let w' := snd (match StateFile.set (jobKey (uuid (issued w)))
                           {| sj_id := uuid (issued w); sj_pipeline := pipeline;
                              sj_trigger := trigger; sj_nextRun := Date (now + 60000);
                              sj_enabled := true |} (file w) with
                   | Ok file1 =>
                       (Ok (uuid (issued w)),
                        {| sched := withJobs
                                      (setKey (uuid (issued w))
                                         {| entry_job := Scheduler.createCronJob expression
                                              (timezoneOf config (options (sched w)));
                                            entry_pipeline := pipeline;
                                            entry_trigger := trigger |}
                                         (jobs (sched w))) (sched w);
                           file := file1; issued := S (issued w) |})
                   | Err error =>
                       (Err (ValidationError ("Invalid cron expression: " +:+ message error)),
                        {| sched := withJobs
                                      (setKey (uuid (issued w))
                                         {| entry_job := Scheduler.createCronJob expression
                                              (timezoneOf config (options (sched w)));
                                            entry_pipeline := pipeline;
                                            entry_trigger := trigger |}
                                         (jobs (sched w))) (sched w);
                           file := file w; issued := S (issued w) |})
                   end) in
    isRunning (sched w') = isRunning (sched w) /\
    cleanupJob (sched w') = cleanupJob (sched w) /\
    (jobs (sched w') = jobs (sched w) \/
     exists job, halted job /\
       jobs (sched w') = setKey (uuid (issued w))
                           {| entry_job := job; entry_pipeline := pipeline;
                              entry_trigger := trigger |} (jobs (sched w)))).
  { intros config expression.
    destruct (StateFile.set _ _ (file w)); cbn; (split; [done|]); (split; [done|]);
      right; eexists; (split; [apply halted_createCronJob|done]). }
  destruct (trigger_config trigger) as [| | | | |fields] eqn:Hc; cbn [prop];
    try (cbn; by auto).
  destruct (assoc "expression" fields) as [[| | |expression| |]|];
    [cbn; by auto|cbn; by auto|cbn; by auto|apply (Hreg (JObj fields))
    |cbn; by auto|cbn; by auto|cbn; by auto].
Qed.

Lemma timerFires_idle jobId w : idle (sched w) -> timerFires jobId w = w.
Proof.
  intros [Hj _]. unfold timerFires.
  destruct (getKey jobId (jobs (sched w))) as [e|] eqn:He; [|done].
  apply getKey_elem_of in He. rewrite Forall_forall in Hj. specialize (Hj _ He).
  cbn in Hj. by rewrite (halted_fire _ Hj).
Qed.

Lemma timerFires_sched jobId w :
  isRunning (sched (timerFires jobId w)) = isRunning (sched w) /\
  cleanupJob (sched (timerFires jobId w)) = cleanupJob (sched w).
Proof.
  unfold timerFires. destruct (getKey _ _); [|done].
  by destruct (Scheduler.fire _) as [[]|].
Qed.

Lemma call_Quiet c w : Quiet w -> Quiet (call uuid c w).
Proof.
  unfold Quiet. intros [Hoff Hon].
  destruct c as [pipeline trigger now|jobId|now| |jobId|]; cbn [call].
  - destruct (schedulePipeline_sched pipeline trigger now w) as (Hr & Hc & Hj).
    cbn zeta in Hr, Hc, Hj. split; rewrite Hr, ?Hc; [|done].
    intros Hf. destruct (Hoff Hf) as [H1 H2]. split; [|by rewrite Hc].
    destruct Hj as [->|(job & Hh & ->)]; [done|]. by apply Forall_setKey.
  - unfold unschedulePipeline. destruct (getKey jobId _); [|by split].
    destruct (StateFile.delete _ _); cbn; (split; [|done]);
      intros Hf; destruct (Hoff Hf) as [H1 H2]; (split; [|done]); by apply Forall_deleteKey.
  - unfold start. destruct (isRunning (sched w)) eqn:Hr; [rewrite Hr; by split|].
    split; [done|].
    intros _. by eexists.
  - unfold stop. destruct (isRunning (sched w)) eqn:Hr; cbn [negb];
      [|rewrite Hr; by split].
    split; [|done]. intros _. split; cbn.
    + apply Forall_forall. intros kv Hkv. apply list_elem_of_fmap in Hkv as (kv0 & -> & _).
      apply halted_stop.
    + destruct (cleanupJob (sched w)); [apply halted_stop|done].
  - destruct (timerFires_sched jobId w) as [Hr Hc]. split; rewrite Hr, ?Hc; [|done].
    intros Hf. by rewrite (timerFires_idle jobId w (Hoff Hf)); auto.
  - unfold cleanupFires. destruct (cleanupJob (sched w)) as [job|] eqn:Hc;
      [|rewrite Hc; by split].
    destruct (Scheduler.fire job) as [[t job']|] eqn:Hfire; [|rewrite Hc; by split].
    split; cbn.
    + intros Hf. destruct (Hoff Hf) as [_ H2]. rewrite Hc in H2.
      by rewrite (halted_fire _ H2) in Hfire.
    + intros _. exists job'. split; [done|by eapply running_fire].
Qed.

Lemma calls_Quiet cs : forall w, Quiet w -> Quiet (calls uuid cs w).
Proof.
  induction cs as [|c cs IH]; intros w H; [done|]. cbn. by apply IH, call_Quiet.
Qed.

End Calls.

(** A scheduler whose methods are called one at a time, each call awaited
    before the next one is made: from its construction on, whatever is called
    and whichever of its timers fire between the calls, when it is not running
    ([isRunning] is false: before the first [start], after a [stop]) it has no
    running job and no timer armed, for the pipelines and for the cleanup; and
    when it is running its cleanup job is running.  (Calls of [start] that
    overlap are not covered: [start] tests [isRunning] before its [await] and
    sets it afterwards.) *)
Theorem stopped_scheduler_runs_nothing (uuid : nat -> string) (cs : list Call)
    (o : SchedulerOptions) (file : StateFile.JobFile) (n : nat) :
  let w := calls uuid cs {| sched := new o; file := file; issued := n |} in
  (isRunning (sched w) = false ->
   Forall (fun kv => halted (entry_job (snd kv)) /\
                     Scheduler.fire (entry_job (snd kv)) = None) (jobs (sched w)) /\
   forall job, cleanupJob (sched w) = Some job ->
               halted job /\ Scheduler.fire job = None) /\
  (isRunning (sched w) = true ->
   exists job, cleanupJob (sched w) = Some job /\ Scheduler.running job = true).
Proof.
  intros w.
  assert (HQ : Quiet w).
  { apply calls_Quiet. split; [|done]. intros _. split; [constructor|done]. }
  destruct HQ as [Hoff Hon]. split; [|done].
  intros Hf. destruct (Hoff Hf) as [H1 H2]. split.
  - eapply Forall_impl; [exact H1|]. intros kv Hh. split; [done|by apply halted_fire].
  - intros job Hc. rewrite Hc in H2. split; [done|by apply halted_fire].
Qed.

Lemma schedulePipeline_Ok (uuid : nat -> string) pipeline trigger now w jobId w1 :
  schedulePipeline uuid pipeline trigger now w = (Ok jobId, w1) ->
  jobId = uuid (issued w) /\
  exists expression file1,
    prop "expression" (trigger_config trigger) = Some (JStr expression) /\
    StateFile.set (jobKey jobId)
      {| sj_id := jobId; sj_pipeline := pipeline; sj_trigger := trigger;
         sj_nextRun := Date (now + 60000); sj_enabled := true |} (file w) = Ok file1 /\
    w1 = {| sched := withJobs
                       (setKey jobId
                          {| entry_job := Scheduler.createCronJob expression
                                            (timezoneOf (trigger_config trigger)
                                               (options (sched w)));
                             entry_pipeline := pipeline; entry_trigger := trigger |}
                          (jobs (sched w))) (sched w);
            file := file1; issued := S (issued w) |}.
Proof.
  unfold schedulePipeline. destruct (trigger_type trigger); [|done..].
  destruct (trigger_config trigger) as [| | | | |fields] eqn:Hc; cbn [prop]; try done.
  destruct (assoc "expression" fields) as [[| | |expression| |]|]; try done.
  destruct (StateFile.set _ _ (file w)) as [file1|e] eqn:Hset; [|done].
  intros [= <- <-]. split; [done|]. by exists expression, file1.
Qed.

Lemma call_Late (uuid : nat -> string) jobId c w :
  c <> Stop ->
  isRunning (sched w) = true ->
  (forall e, getKey jobId (jobs (sched w)) = Some e -> halted (entry_job e)) ->
  isRunning (sched (call uuid c w)) = true /\
  (forall e, getKey jobId (jobs (sched (call uuid c w))) = Some e -> halted (entry_job e)).
Proof.
  intros Hc Hr Hh. destruct c as [pipeline trigger now|id|now| |id|]; cbn [call].
  - destruct (schedulePipeline_sched uuid pipeline trigger now w) as (Hr' & _ & Hj).
    cbn zeta in Hr', Hj. rewrite Hr'. split; [done|].
    destruct Hj as [->|(job & Hjob & ->)]; [done|].
    intros e. rewrite getKey_setKey. destruct (String.eqb _ jobId); [|by apply Hh].
    by intros [= <-].
  - unfold unschedulePipeline. destruct (getKey id _) as [e0|]; [|done].
    destruct (StateFile.delete _ _) as [file1|err]; unfold withJobs;
      cbn [sched jobs isRunning snd]; (split; [done|]); intros e;
      rewrite getKey_deleteKey; (destruct (String.eqb id jobId); [done|by apply Hh]).
  - unfold start. by rewrite Hr.
  - done.
  - unfold timerFires. destruct (getKey id (jobs (sched w))) as [e'|] eqn:He'; [|done].
    destruct (Scheduler.fire (entry_job e')) as [[t job']|] eqn:Hf; [|done].
    unfold withJobs. cbn [sched jobs isRunning]. split; [done|].
    intros e. rewrite getKey_setKey.
    destruct (String.eqb_spec id jobId) as [->|Hne]; [|by apply Hh].
    by rewrite (halted_fire _ (Hh _ He')) in Hf.
  - unfold cleanupFires. destruct (cleanupJob (sched w)); [|done].
    by destruct (Scheduler.fire _) as [[]|].
Qed.

(** A pipeline scheduled on a running scheduler is registered and not
    started; and whatever is called afterwards, short of [stop], the
    scheduler stays running and the job registered under the identifier that
    was returned stays without a timer: it never fires. *)
Theorem job_scheduled_on_running_scheduler_never_fires (uuid : nat -> string)
    (pipeline : Pipeline) (trigger : PipelineTrigger) (now : Z) (w w1 : World)
    (jobId : string) :
  isRunning (sched w) = true ->
  schedulePipeline uuid pipeline trigger now w = (Ok jobId, w1) ->
  (exists e, getKey jobId (jobs (sched w1)) = Some e /\ entry_pipeline e = pipeline) /\
  forall cs, Stop ∉ cs ->
    isRunning (sched (calls uuid cs w1)) = true /\
    forall e, getKey jobId (jobs (sched (calls uuid cs w1))) = Some e ->
              halted (entry_job e) /\ Scheduler.fire (entry_job e) = None.
Proof.
  intros Hr Hs.
  apply schedulePipeline_Ok in Hs as (-> & expression & file1 & _ & _ & ->).
  unfold withJobs. cbn [sched jobs isRunning].
  split.
  { eexists. rewrite getKey_setKey, String.eqb_refl. by split. }
  assert (H1 : forall e,
    getKey (uuid (issued w))
      (setKey (uuid (issued w))
         {| entry_job := Scheduler.createCronJob expression
                           (timezoneOf (trigger_config trigger) (options (sched w)));
            entry_pipeline := pipeline; entry_trigger := trigger |}
         (jobs (sched w))) = Some e -> halted (entry_job e)).
  { intros e. rewrite getKey_setKey, String.eqb_refl. by intros [= <-]. }
  intros cs Hcs.
  match goal with |- context [calls uuid cs ?w0] => set (w1 := w0) end.
  assert (Hgen : forall w2,
    isRunning (sched w2) = true ->
    (forall e, getKey (uuid (issued w)) (jobs (sched w2)) = Some e -> halted (entry_job e)) ->
    isRunning (sched (calls uuid cs w2)) = true /\
    (forall e, getKey (uuid (issued w)) (jobs (sched (calls uuid cs w2))) = Some e ->
               halted (entry_job e))).
  { clear w1. induction cs as [|c cs IH]; intros w2 H2 H3; [done|]. cbn.
    apply not_elem_of_cons in Hcs as [Hc Hcs].
    destruct (call_Late uuid (uuid (issued w)) c w2) as [H4 H5]; [done|done|done|].
    by apply IH. }
  destruct (Hgen w1 Hr H1) as [H2 H3]. split; [done|].
  intros e He. split; [by apply H3|by apply halted_fire, H3].
Qed.

Lemma job_scheduled_on_running_scheduler_never_fires_witness :
  let w := start pretty 0 {| sched := new {| opt_concurrency := None; opt_timezone := None;
                                             opt_maxRetention := None |};
                             file := StateFile.Entries []; issued := 0 |} in
  exists w1,
    isRunning (sched w) = true /\
    schedulePipeline pretty ExecutorSpec.linear (cronTrigger "* * * * *") 5 w
    = (Ok "0", w1) /\
    forall e, getKey "0" (jobs (sched (calls pretty [Start 7; TimerFires "0"] w1))) = Some e ->
              Scheduler.fire (entry_job e) = None.
Proof.
  intros w. eexists. split; [reflexivity|]. split; [reflexivity|].
  intros e He.
  refine (proj2 (proj2 (proj2 (job_scheduled_on_running_scheduler_never_fires pretty
            ExecutorSpec.linear (cronTrigger "* * * * *") 5 w _ "0" eq_refl eq_refl)
            [Start 7; TimerFires "0"] _) e He)).
  intros Hin. apply elem_of_cons in Hin as [?|Hin]; [done|].
  apply elem_of_cons in Hin as [?|Hin]; [done|]. by apply elem_of_nil in Hin.
Defined.

(** *** The file *)

Lemma json_job_idemp sj : json_job (json_job sj) = json_job sj.
Proof. unfold json_job. cbn. f_equal. by destruct (sj_nextRun sj). Qed.

Lemma written_idemp state :
  map (fun kv => (fst kv, json_job (snd kv)))
      (map (fun kv : string * SchedulerJob => (fst kv, json_job (snd kv))) state)
  = map (fun kv => (fst kv, json_job (snd kv))) state.
Proof. rewrite map_map. apply map_ext. intros [k v]. cbn. by rewrite json_job_idemp. Qed.

Lemma map_fst_json (state : list (string * SchedulerJob)) :
  map fst (map (fun kv => (fst kv, json_job (snd kv))) state) = map fst state.
Proof. rewrite map_map. by apply map_ext. Qed.

Lemma deleteKey_json k (state : list (string * SchedulerJob)) :
  deleteKey k (map (fun kv => (fst kv, json_job (snd kv))) state)
  = map (fun kv => (fst kv, json_job (snd kv))) (deleteKey k state).
Proof.
  unfold deleteKey. induction state as [|[k0 v0] state IH]; [done|].
  cbn [map fst snd]. rewrite !filter_cons. cbn [fst].
  destruct (decide _); cbn [map fst snd]; by rewrite IH.
Qed.

Lemma getKey_json k (state : list (string * SchedulerJob)) :
  getKey k (map (fun kv => (fst kv, json_job (snd kv))) state)
  = json_job <$> getKey k state.
Proof.
  unfold getKey. induction state as [|[k0 v0] state IH]; [done|].
  cbn [map find fst snd]. by destruct (String.eqb k0 k).
Qed.

Lemma getKey_app {V} k (a b : list (string * V)) :
  k ∈ map fst a -> getKey k (a ++ b) = getKey k a.
Proof.
  unfold getKey. induction a as [|[k0 v0] a IH]; cbn [map fst app find].
  - by intros ?%elem_of_nil.
  - intros [->|Hin]%elem_of_cons; [by rewrite String.eqb_refl|].
    destruct (String.eqb k0 k); [done|by apply IH].
Qed.

Lemma getKey_NoDup {V} (m : list (string * V)) k v :
  NoDup (map fst m) -> (k, v) ∈ m -> getKey k m = Some v.
Proof.
  unfold getKey. induction m as [|[k0 v0] m IH]; cbn [map fst find].
  - by intros _ ?%elem_of_nil.
  - intros [Hk0 Hnd]%NoDup_cons [[= -> ->]|Hin]%elem_of_cons.
    + by rewrite String.eqb_refl.
    + destruct (String.eqb_spec k0 k) as [->|_]; [|by apply IH].
      exfalso. apply Hk0. apply list_elem_of_fmap. by exists (k, v).
Qed.

Lemma getKey_setKey_last {V} k (v : V) (a : list (string * V)) :
  k ∉ map fst a -> getKey k (a ++ [(k, v)]) = Some v.
Proof.
  intros Hk. rewrite <- (setKey_fresh k v a Hk), getKey_setKey. by rewrite String.eqb_refl.
Qed.

Lemma jobKey_inj a b : jobKey a = jobKey b -> a = b.
Proof. unfold jobKey. apply (inj (String.app "scheduler:job:")). Qed.

Lemma startsWith_jobKey jobId : startsWith "scheduler:job:" (jobKey jobId) = true.
Proof. unfold startsWith, jobKey. cbv. by destruct jobId. Qed.

(** Scheduling a pipeline under a new identifier and unscheduling it again
    leaves the scheduler as it was, and the file as any write leaves it: a
    cron trigger with a string for expression, whatever the string, is
    accepted when the file can be read and written; the job is then
    persisted under [scheduler:job:<id>]; [unschedulePipeline] of the
    identifier returns [true] and removes the job from the scheduler and from
    the file. *)
Theorem unschedulePipeline_undoes_schedulePipeline (uuid : nat -> string)
    (pipeline : Pipeline) (trigger : PipelineTrigger) (expression : string) (now : Z)
    (s : State) (state : list (string * SchedulerJob)) (n : nat) :
  trigger_type trigger = cron ->
  prop "expression" (trigger_config trigger) = Some (JStr expression) ->
  uuid n ∉ map fst (jobs s) ->
  jobKey (uuid n) ∉ map fst state ->
  exists w1 w2 sj,
    schedulePipeline uuid pipeline trigger now
      {| sched := s; file := StateFile.Entries state; issued := n |} = (Ok (uuid n), w1) /\
    StateFile.get (jobKey (uuid n)) (file w1) = Ok (Some sj) /\
    sj_pipeline sj = pipeline /\ sj_trigger sj = trigger /\ sj_enabled sj = true /\
    unschedulePipeline (uuid n) w1 = (Ok true, w2) /\
    sched w2 = s /\
    file w2 = StateFile.written state.
Proof.
  intros Ht He Hs Hf. unfold schedulePipeline. cbn [issued sched file]. rewrite Ht.
  destruct (trigger_config trigger) as [| | | | |fields] eqn:Hc; try done.
  rewrite He. cbn [StateFile.set StateFile.loadState StateFile.saveState rbind].
  do 3 eexists. split; [reflexivity|].
  cbn [StateFile.saveState rbind]. unfold StateFile.written.
  rewrite (setKey_fresh _ _ state Hf), map_app.
  cbn [map fst snd file StateFile.get StateFile.loadState rbind].
  split.
  { f_equal. rewrite getKey_setKey_last; [reflexivity|]. by rewrite map_fst_json. }
  split; [done|]. split; [done|]. split; [done|].
  unfold unschedulePipeline, withJobs. cbn [sched jobs file issued].
  rewrite getKey_setKey, String.eqb_refl.
  cbn [StateFile.delete StateFile.loadState StateFile.saveState rbind].
  rewrite (deleteKey_setKey _ _ _ Hs).
  split; [reflexivity|]. cbn [sched file]. split; [by destruct s|].
  cbn [StateFile.saveState rbind]. unfold StateFile.written. f_equal.
  rewrite deleteKey_app, deleteKey_fresh by (by rewrite map_fst_json).
  unfold deleteKey. rewrite filter_cons. cbn [fst]. rewrite String.eqb_refl. cbn [negb].
  rewrite decide_False by (by intros []).
  by rewrite filter_nil, app_nil_r, written_idemp.
Qed.

Lemma unschedulePipeline_undoes_schedulePipeline_witness :
  exists w1 w2 sj,
    schedulePipeline pretty ExecutorSpec.linear (cronTrigger "not a cron expression") 5
      {| sched := new {| opt_concurrency := None; opt_timezone := None;
                         opt_maxRetention := None |};
         file := StateFile.Entries []; issued := 0 |} = (Ok "0", w1) /\
    StateFile.get "scheduler:job:0" (file w1) = Ok (Some sj) /\
    unschedulePipeline "0" w1 = (Ok true, w2) /\
    jobs (sched w2) = [] /\
    file w2 = StateFile.Entries [].
Proof.
  destruct (unschedulePipeline_undoes_schedulePipeline pretty ExecutorSpec.linear
              (cronTrigger "not a cron expression") "not a cron expression" 5
              (new {| opt_concurrency := None; opt_timezone := None;
                      opt_maxRetention := None |}) [] 0 eq_refl eq_refl)
    as (w1 & w2 & sj & H1 & H2 & _ & _ & _ & H3 & H4 & H5).
  - apply not_elem_of_nil.
  - apply not_elem_of_nil.
  - exists w1, w2, sj. split; [exact H1|]. split; [exact H2|]. split; [exact H3|].
    split; [by rewrite H4|exact H5].
Defined.

(** The error path of [schedulePipeline].  When the state file cannot be
    read, or cannot be written, scheduling a cron trigger whose expression is
    a string throws a [ValidationError] that blames the cron expression for
    the failure of the file, and the job stays registered in the scheduler,
    not started, although the file is as it was; [unschedulePipeline] of its
    identifier then removes the job from the scheduler and throws the error
    of the file in turn. *)
Theorem schedulePipeline_failure_leaves_job_registered (uuid : nat -> string)
    (pipeline : Pipeline) (trigger : PipelineTrigger) (expression : string) (now : Z)
    (w : World) :
  trigger_type trigger = cron ->
  prop "expression" (trigger_config trigger) = Some (JStr expression) ->
  (forall state, file w <> StateFile.Entries state) ->
  exists why code w1 e w2,
    schedulePipeline uuid pipeline trigger now w
    = (Err (ValidationError ("Invalid cron expression: Failed to " +:+ why)), w1) /\
    file w1 = file w /\
    getKey (uuid (issued w)) (jobs (sched w1)) = Some e /\
    entry_pipeline e = pipeline /\ entry_trigger e = trigger /\ halted (entry_job e) /\
    unschedulePipeline (uuid (issued w)) w1
    = (Err (PipeJSError ("Failed to " +:+ why) code), w2) /\
    getKey (uuid (issued w)) (jobs (sched w2)) = None.
Proof.
  intros Ht He Hfile. unfold schedulePipeline. rewrite Ht.
  destruct (trigger_config trigger) as [| | | | |fields] eqn:Hc; try done.
  rewrite He.
  destruct (file w) as [why|state|state why] eqn:Hf; [|by destruct (Hfile state)|].
  - cbn [StateFile.set StateFile.loadState rbind message].
    exists ("load state: " +:+ why), "STATE_LOAD_ERROR". do 3 eexists.
    split; [reflexivity|]. cbn [file sched jobs withJobs].
    split; [done|]. rewrite getKey_setKey, String.eqb_refl.
    split; [reflexivity|]. split; [done|]. split; [done|].
    split; [apply halted_createCronJob|].
    unfold unschedulePipeline. cbn [sched jobs withJobs file issued].
    rewrite getKey_setKey, String.eqb_refl.
    cbn [StateFile.delete StateFile.loadState rbind].
    split; [reflexivity|]. cbn [sched jobs withJobs]. by rewrite getKey_deleteKey, String.eqb_refl.
  - cbn [StateFile.set StateFile.loadState StateFile.saveState rbind message].
    exists ("save state: " +:+ why), "STATE_SAVE_ERROR". do 3 eexists.
    split; [reflexivity|]. cbn [file sched jobs withJobs].
    split; [done|]. rewrite getKey_setKey, String.eqb_refl.
    split; [reflexivity|]. split; [done|]. split; [done|].
    split; [apply halted_createCronJob|].
    unfold unschedulePipeline. cbn [sched jobs withJobs file issued].
    rewrite getKey_setKey, String.eqb_refl.
    cbn [StateFile.delete StateFile.loadState StateFile.saveState rbind].
    split; [reflexivity|]. cbn [sched jobs withJobs]. by rewrite getKey_deleteKey, String.eqb_refl.
Qed.

Lemma schedulePipeline_failure_leaves_job_registered_witness :
  exists why code w1 e w2,
    schedulePipeline pretty ExecutorSpec.linear (cronTrigger "0 * * * *") 5
      {| sched := defaultScheduler;
         file := StateFile.ReadOnly persisted "EACCES: permission denied"; issued := 0 |}
    = (Err (ValidationError ("Invalid cron expression: Failed to " +:+ why)), w1) /\
    getKey "0" (jobs (sched w1)) = Some e /\
    unschedulePipeline "0" w1 = (Err (PipeJSError ("Failed to " +:+ why) code), w2) /\
    getKey "0" (jobs (sched w2)) = None.
Proof.
  destruct (schedulePipeline_failure_leaves_job_registered pretty ExecutorSpec.linear
              (cronTrigger "0 * * * *") "0 * * * *" 5
              {| sched := defaultScheduler;
                 file := StateFile.ReadOnly persisted "EACCES: permission denied";
                 issued := 0 |} eq_refl eq_refl)
    as (why & code & w1 & e & w2 & H1 & _ & H2 & _ & _ & _ & H3 & H4).
  - intros state. discriminate.
  - exists why, code, w1, e, w2. split; [exact H1|]. split; [exact H2|].
    split; [exact H3|exact H4].
Defined.

(** *** Loading the persisted jobs *)

Lemma reloadable_json sj : reloadable (json_job sj) = reloadable sj.
Proof. reflexivity. Qed.

Lemma filter_ext_elem {A} (p q : A -> bool) (l : list A) :
  (forall x, x ∈ l -> p x = q x) -> filter (fun x => p x) l = filter (fun x => q x) l.
Proof.
  induction l as [|x l IH]; intros H; [done|]. rewrite !filter_cons.
  rewrite (H x) by (by left). rewrite IH by (intros y Hy; apply H; by right). done.
Qed.

Lemma Fresh_next uuid n taken keys :
  Fresh uuid n taken keys ->
  Fresh uuid (S n) (taken ++ [uuid n]) (keys ++ [jobKey (uuid n)]).
Proof.
  intros [Hinj Hf]. split; [done|]. intros i Hi.
  destruct (Hf i ltac:(lia)) as [H1 H2]. split.
  - intros [?|Hin]%elem_of_app; [done|]. apply list_elem_of_singleton, Hinj in Hin. lia.
  - intros [?|Hin]%elem_of_app; [done|].
    apply list_elem_of_singleton, jobKey_inj, Hinj in Hin. lia.
Qed.

Lemma Fresh_skip uuid n taken keys : Fresh uuid n taken keys -> Fresh uuid (S n) taken keys.
Proof. intros [Hinj Hf]. split; [done|]. intros i Hi. apply Hf. lia. Qed.

Lemma omap_ext_elem {A B} (f g : A -> option B) (l : list A) :
  (forall x, x ∈ l -> f x = g x) -> omap f l = omap g l.
Proof.
  induction l as [|x l IH]; intros H; [done|]. cbn [omap list_omap].
  rewrite (H x) by (by left). rewrite IH by (intros y Hy; apply H; by right). done.
Qed.

(** The loop of [loadPersistedJobs] over keys of the file: each job that
    can be loaded is registered under a new identifier and written to the
    file under a new key.  [loaded] holds the new identifiers, each with the
    pipeline and the trigger registered under it. *)
Lemma loadJobs_spec (uuid : nat -> string) (now : Z) (jobKeys : list string) :
  forall (w : World) (state : list (string * SchedulerJob)),
    file w = StateFile.Entries state ->
    (forall key, key ∈ jobKeys -> key ∈ map fst state) ->
    Fresh uuid (issued w) (map fst (jobs (sched w))) (map fst state) ->
    exists loaded state',
      map snd loaded
      = omap (fun key => about <$> getKey key state)
             (filter (fun key => reloadsKey state key) jobKeys) /\
      file (loadJobs uuid jobKeys now w) = StateFile.Entries state' /\
      map (fun kv => (fst kv, about (snd kv))) state'
      = map (fun kv => (fst kv, about (snd kv))) state
        ++ map (fun l => (jobKey (fst l), snd l)) loaded /\
      map (fun kv => (fst kv, aboutEntry (snd kv)))
          (jobs (sched (loadJobs uuid jobKeys now w)))
      = map (fun kv => (fst kv, aboutEntry (snd kv))) (jobs (sched w)) ++ loaded /\
      Forall (fun l => exists i, (issued w <= i)%nat /\ fst l = uuid i) loaded /\
      NoDup (map fst loaded).
Proof.
  induction jobKeys as [|key rest IH]; intros w state Hfile Hkeys Hfresh.
  { exists [], state. cbn. rewrite !app_nil_r.
    split; [done|]. split; [done|]. split; [done|]. split; [done|].
    split; constructor. }
  assert (Hrest : forall k, k ∈ rest -> k ∈ map fst state).
  { intros k Hk. apply Hkeys. by right. }
  assert (Hskip : forall w0,
            file w0 = file w -> sched w0 = sched w ->
            (issued w <= issued w0)%nat ->
            reloadsKey state key = false ->
            exists loaded state',
              map snd loaded
              = omap (fun key => about <$> getKey key state)
                     (filter (fun key => reloadsKey state key) (key :: rest)) /\
              file (loadJobs uuid rest now w0) = StateFile.Entries state' /\
              map (fun kv => (fst kv, about (snd kv))) state'
              = map (fun kv => (fst kv, about (snd kv))) state
                ++ map (fun l => (jobKey (fst l), snd l)) loaded /\
              map (fun kv => (fst kv, aboutEntry (snd kv)))
                  (jobs (sched (loadJobs uuid rest now w0)))
              = map (fun kv => (fst kv, aboutEntry (snd kv))) (jobs (sched w)) ++ loaded /\
              Forall (fun l => exists i, (issued w <= i)%nat /\ fst l = uuid i) loaded /\
              NoDup (map fst loaded)).
  { intros w0 Hf0 Hs0 Hi0 Hno.
    destruct (IH w0 state) as (loaded & state' & Hl & Hf' & Hk' & Hj' & Hids & Hnd).
    - by rewrite Hf0.
    - done.
    - rewrite Hs0. destruct Hfresh as [Hinj Hf]. split; [done|].
      intros i Hi. apply Hf. lia.
    - exists loaded, state'. rewrite filter_cons, Hno. cbn.
      split; [done|]. split; [done|]. split; [done|]. split; [by rewrite <- Hs0|].
      split; [|done].
      eapply Forall_impl; [exact Hids|]. intros l (i & Hi & ?). exists i. split; [lia|done]. }
  cbn [loadJobs]. rewrite Hfile. cbn [StateFile.get StateFile.loadState rbind].
  destruct (getKey key state) as [sj|] eqn:Hget.
  2:{ apply (Hskip w); [done|done|lia|]. unfold reloadsKey. by rewrite Hget. }
  destruct (sj_enabled sj) eqn:Hen.
  2:{ apply (Hskip w); [done|done|lia|].
      unfold reloadsKey, reloadable. by rewrite Hget, Hen. }
  unfold schedulePipeline.
  destruct (trigger_type (sj_trigger sj)) eqn:Hty.
  2,3: cbn [snd]; apply Hskip; [done|done|lia|];
       unfold reloadsKey, reloadable; by rewrite Hget, Hen, Hty.
  assert (Hbad : prop "expression" (trigger_config (sj_trigger sj)) = None \/
                 (exists v, prop "expression" (trigger_config (sj_trigger sj)) = Some v /\
                            forall e, v <> JStr e) ->
                 reloadsKey state key = false).
  { unfold reloadsKey, reloadable. rewrite Hget, Hen, Hty.
    intros [->|(v & -> & Hv)]; [done|]. destruct v; try done. by destruct (Hv s). }
  destruct (trigger_config (sj_trigger sj)) as [| | | | |fields] eqn:Hc; cbn [prop snd] in *;
    try (apply Hskip; [done|done|cbn; lia|apply Hbad; by left]).
  destruct (assoc "expression" fields) as [[| | |expression| |]|] eqn:Hexp; cbn [snd];
    try (apply Hskip; [done|done|cbn; lia|apply Hbad; right; eexists; by split]);
    try (apply Hskip; [done|done|cbn; lia|apply Hbad; by left]).
  (* the job is registered again *)
  rewrite Hfile. cbn [StateFile.set StateFile.loadState StateFile.saveState rbind snd].
  destruct Hfresh as [Hinj Hf]. destruct (Hf (issued w) (le_n _)) as [Hid Hkey].
  rewrite (setKey_fresh _ _ state Hkey), (setKey_fresh _ _ (jobs (sched w)) Hid).
  cbn [StateFile.saveState rbind]. unfold StateFile.written.
  match goal with |- context [loadJobs uuid rest now ?w0] => set (w1 := w0) end.
  match goal with w1 := {| file := StateFile.Entries ?st |} |- _ => set (state1 := st) in * end.
  assert (Hk1 : map fst state1 = map fst state ++ [jobKey (uuid (issued w))]).
  { unfold state1. by rewrite map_fst_json, map_app. }
  assert (Ha1 : map (fun kv => (fst kv, about (snd kv))) state1
                = map (fun kv => (fst kv, about (snd kv))) state
                  ++ [(jobKey (uuid (issued w)), about sj)]).
  { unfold state1. rewrite map_map, map_app. done. }
  destruct (IH w1 state1) as (loaded & state' & Hl & Hf' & Hk' & Hj' & Hids & Hnd).
  - done.
  - intros k Hk. rewrite Hk1. apply elem_of_app. left. by apply Hrest.
  - unfold w1, withJobs. cbn [issued sched jobs]. rewrite Hk1, map_app. cbn [map fst].
    by apply Fresh_next.
  - exists ((uuid (issued w), about sj) :: loaded), state'.
    split; [|split; [done|split; [|split; [|split]]]].
    + rewrite filter_cons.
      assert (reloadsKey state key = true) as ->.
      { unfold reloadsKey, reloadable. rewrite Hget, Hen, Hty, Hc. cbn [prop].
        by rewrite Hexp. }
      rewrite decide_True by done. cbn [omap list_omap map snd]. rewrite Hget.
      cbn [fmap option_fmap option_map]. f_equal. rewrite Hl.
      assert (Hsame : forall k, k ∈ rest -> getKey k state1 = json_job <$> getKey k state).
      { intros k Hk. unfold state1. by rewrite getKey_json, getKey_app by (by apply Hrest). }
      rewrite (filter_ext_elem (reloadsKey state1) (reloadsKey state)).
      * apply omap_ext_elem. intros k Hk. apply list_elem_of_filter in Hk as [_ Hk].
        rewrite (Hsame k Hk). by destruct (getKey k state).
      * intros k Hk. unfold reloadsKey. rewrite (Hsame k Hk). by destruct (getKey k state).
    + rewrite Hk', Ha1, <- app_assoc. done.
    + rewrite Hj'. unfold w1, withJobs. cbn [sched jobs]. rewrite map_app, <- app_assoc. done.
    + constructor; [by exists (issued w)|].
      eapply Forall_impl; [exact Hids|]. intros l (i & Hi & ?). exists i.
      cbn in Hi. split; [lia|done].
    + cbn [map fst]. apply NoDup_cons. split; [|done].
      intros Hin. apply list_elem_of_fmap in Hin as (l & Hl' & Hin).
      rewrite Forall_forall in Hids. destruct (Hids l Hin) as (i & Hi & Hli).
      cbn in Hi. rewrite Hli in Hl'. apply Hinj in Hl'. lia.
Qed.

Ltac decided H := rewrite H; cbn; first [exact I | intros []].

Lemma loaded_keys (state sub : list (string * SchedulerJob)) :
  NoDup (map fst state) -> (forall kv, kv ∈ sub -> kv ∈ state) ->
  omap (fun key => about <$> getKey key state)
       (filter (fun key => reloadsKey state key)
               (filter (fun key => startsWith "scheduler:job:" key) (map fst sub)))
  = map (fun kv => about (snd kv)) (filter (fun kv => reloaded kv) sub).
Proof.
  intros Hnd. induction sub as [|[k sj] sub IH]; intros Hsub; [done|].
  assert (Hget : getKey k state = Some sj).
  { apply getKey_NoDup; [done|]. apply Hsub. by left. }
  specialize (IH ltac:(intros kv Hkv; apply Hsub; by right)).
  assert (Hre : reloaded (k, sj) = startsWith "scheduler:job:" k && reloadable sj) by done.
  assert (Hrk : reloadsKey state k = reloadable sj) by (unfold reloadsKey; by rewrite Hget).
  cbn [map fst].
  destruct (startsWith "scheduler:job:" k) eqn:Hp.
  - rewrite (filter_cons_True _ k) by decided Hp.
    destruct (reloadable sj) eqn:Hrl.
    + rewrite (filter_cons_True _ k) by decided Hrk.
      rewrite (filter_cons_True _ (k, sj)) by decided Hre.
      cbn [omap list_omap map snd]. rewrite Hget.
      cbn [fmap option_fmap option_map]. f_equal. exact IH.
    + rewrite (filter_cons_False _ k) by decided Hrk.
      rewrite (filter_cons_False _ (k, sj)) by decided Hre. exact IH.
  - rewrite (filter_cons_False _ k) by decided Hp.
    rewrite (filter_cons_False _ (k, sj)) by decided Hre. exact IH.
Qed.

Lemma start_spec (uuid : nat -> string) (now : Z)
    (s : State) (state : list (string * SchedulerJob)) (n : nat) :
  isRunning s = false ->
  NoDup (map fst state) ->
  Fresh uuid n (map fst (jobs s)) (map fst state) ->
  exists loaded state',
    map snd loaded = map (fun kv => about (snd kv)) (filter (fun kv => reloaded kv) state) /\
    file (start uuid now {| sched := s; file := StateFile.Entries state; issued := n |})
    = StateFile.Entries state' /\
    map (fun kv => (fst kv, about (snd kv))) state'
    = map (fun kv => (fst kv, about (snd kv))) state
      ++ map (fun l => (jobKey (fst l), snd l)) loaded /\
    map (fun kv => (fst kv, aboutEntry (snd kv)))
        (jobs (sched (start uuid now
                        {| sched := s; file := StateFile.Entries state; issued := n |})))
    = map (fun kv => (fst kv, aboutEntry (snd kv))) (jobs s) ++ loaded /\
    Forall (fun kv => Scheduler.running (entry_job (snd kv)) = true)
           (jobs (sched (start uuid now
                           {| sched := s; file := StateFile.Entries state; issued := n |}))) /\
    Forall (fun l => exists i, (n <= i)%nat /\ fst l = uuid i) loaded /\
    NoDup (map fst loaded).
Proof.
  intros Hr Hnd Hfresh. unfold start, loadPersistedJobs. cbn [sched file]. rewrite Hr.
  cbn [StateFile.list StateFile.loadState rbind].
  destruct (loadJobs_spec uuid now
              (filter (fun key => startsWith "scheduler:job:" key) (map fst state))
              {| sched := s; file := StateFile.Entries state; issued := n |} state)
    as (loaded & state' & Hl & Hf & Hk & Hj & Hids & Hndl).
  - done.
  - intros key Hkey. by apply list_elem_of_filter in Hkey as [_ ?].
  - done.
  - exists loaded, state'. cbn [sched file jobs].
    split; [by rewrite Hl, loaded_keys|]. split; [done|]. split; [done|].
    split; [|split; [|split; [|done]]].
    + rewrite map_map. cbn [fst snd]. exact Hj.
    + apply Forall_forall. intros kv Hkv.
      apply list_elem_of_fmap in Hkv as (kv0 & -> & _). cbn.
      unfold Scheduler.start. by destruct (Scheduler.running (entry_job (snd kv0))) eqn:E.
    + exact Hids.
Qed.

(** [start] on a scheduler that is not running registers every job of the
    file that can be loaded (enabled, with a cron trigger whose expression
    is a string) once more, under a new identifier, and writes it to the
    file once more, under the new key: the jobs that were registered stay,
    the entries of the file stay, and for each entry that was loaded the
    scheduler has one more job and the file one more entry with the same
    pipeline and trigger; then every job is running. *)
Theorem start_registers_persisted_jobs_again (uuid : nat -> string) (now : Z)
    (s : State) (state : list (string * SchedulerJob)) (n : nat) :
  isRunning s = false ->
  NoDup (map fst state) ->
  Fresh uuid n (map fst (jobs s)) (map fst state) ->
  exists loaded state',
    map snd loaded = map (fun kv => about (snd kv)) (filter (fun kv => reloaded kv) state) /\
    file (start uuid now {| sched := s; file := StateFile.Entries state; issued := n |})
    = StateFile.Entries state' /\
    map (fun kv => (fst kv, about (snd kv))) state'
    = map (fun kv => (fst kv, about (snd kv))) state
      ++ map (fun l => (jobKey (fst l), snd l)) loaded /\
    map (fun kv => (fst kv, aboutEntry (snd kv)))
        (jobs (sched (start uuid now
                        {| sched := s; file := StateFile.Entries state; issued := n |})))
    = map (fun kv => (fst kv, aboutEntry (snd kv))) (jobs s) ++ loaded /\
    Forall (fun kv => Scheduler.running (entry_job (snd kv)) = true)
           (jobs (sched (start uuid now
                           {| sched := s; file := StateFile.Entries state; issued := n |}))).
Proof.
  intros Hr Hnd Hfresh.
  destruct (start_spec uuid now s state n Hr Hnd Hfresh)
    as (loaded & state' & H1 & H2 & H3 & H4 & H5 & _ & _).
  by exists loaded, state'.
Qed.

Lemma filter_reloaded_json (state : list (string * SchedulerJob)) :
  filter (fun kv => reloaded kv) (map (fun kv => (fst kv, json_job (snd kv))) state)
  = map (fun kv => (fst kv, json_job (snd kv))) (filter (fun kv => reloaded kv) state).
Proof.
  induction state as [|[k sj] state IH]; [done|]. cbn [map fst snd].
  assert (Hj : reloaded (k, json_job sj) = reloaded (k, sj)) by done.
  destruct (reloaded (k, sj)) eqn:Hre.
  - rewrite (filter_cons_True _ (k, json_job sj)) by decided Hj.
    rewrite (filter_cons_True _ (k, sj)) by decided Hre. cbn [map fst snd]. by rewrite IH.
  - rewrite (filter_cons_False _ (k, json_job sj)) by decided Hj.
    rewrite (filter_cons_False _ (k, sj)) by decided Hre. exact IH.
Qed.

(** Scheduling a pipeline and then starting the scheduler, as the
    [schedule] command does, registers the pipeline twice: [start] loads the
    job that [schedulePipeline] has just written to the file and registers
    it under a second identifier, next to the first; both jobs run, and so
    does one more job for every job that the file held before. *)
Theorem schedule_then_start_registers_twice (uuid : nat -> string) (pipeline : Pipeline)
    (trigger : PipelineTrigger) (expression : string) (now now' : Z)
    (o : SchedulerOptions) (state : list (string * SchedulerJob)) (n : nat) :
  trigger_type trigger = cron ->
  prop "expression" (trigger_config trigger) = Some (JStr expression) ->
  NoDup (map fst state) ->
  Fresh uuid n [] (map fst state) ->
  exists w1 jobId',
    schedulePipeline uuid pipeline trigger now
      {| sched := new o; file := StateFile.Entries state; issued := n |}
    = (Ok (uuid n), w1) /\
    jobId' <> uuid n /\
    (exists e, getKey (uuid n) (jobs (sched (start uuid now' w1))) = Some e /\
               aboutEntry e = (pipeline, trigger) /\
               Scheduler.running (entry_job e) = true) /\
    (exists e, getKey jobId' (jobs (sched (start uuid now' w1))) = Some e /\
               aboutEntry e = (pipeline, trigger) /\
               Scheduler.running (entry_job e) = true) /\
    jobCount (start uuid now' w1)
    = (2 + length (filter (fun kv => reloaded kv) state))%nat.
Proof.
  intros Ht He Hnd Hfresh. unfold schedulePipeline. cbn [issued sched file]. rewrite Ht.
  destruct (trigger_config trigger) as [| | | | |fields] eqn:Hc; try done.
  rewrite He. cbn [StateFile.set StateFile.loadState StateFile.saveState rbind].
  destruct Hfresh as [Hinj Hf]. destruct (Hf n (le_n _)) as [_ Hkey].
  cbn [StateFile.saveState rbind]. unfold StateFile.written. rewrite (setKey_fresh _ _ state Hkey).
  cbn [new jobs setKey]. unfold withJobs. cbn [jobs options isRunning cleanupJob].
  match goal with
  | |- ex (fun w1 => ex (fun j =>
         (_, {| sched := ?s1; file := StateFile.Entries ?st; issued := _ |}) = _ /\ _)) =>
      set (s := s1); set (state1 := st)
  end.
  exists {| sched := s; file := StateFile.Entries state1; issued := S n |}.
  assert (Hk1 : map fst state1 = map fst state ++ [jobKey (uuid n)]).
  { unfold state1. by rewrite map_fst_json, map_app. }
  destruct (start_spec uuid now' s state1 (S n))
    as (loaded & state' & H1 & _ & _ & H4 & H5 & H6 & H7).
  { done. }
  { rewrite Hk1. apply NoDup_app. split; [done|]. split; [|apply NoDup_singleton].
    intros k Hk ->%list_elem_of_singleton. done. }
  { change (map fst (jobs s)) with ([] ++ [uuid n]). rewrite Hk1.
    apply Fresh_next. by split. }
  set (w2 := start uuid now' {| sched := s; file := StateFile.Entries state1; issued := S n |})
    in *.
  (* the copy that [start] makes of the new job *)
  unfold state1 in H1. rewrite filter_reloaded_json, filter_app, !map_app, !map_map in H1.
  rewrite (filter_cons_True _ (jobKey (uuid n), _)) in H1.
  2:{ unfold reloaded, reloadable. cbn [fst snd sj_enabled sj_trigger]. rewrite Ht, Hc.
      cbn [prop trigger_config] in He |- *.
      rewrite startsWith_jobKey. rewrite He. exact I. }
  rewrite filter_nil in H1. cbn [map fst snd about json_job sj_pipeline sj_trigger] in H1.
  apply fmap_app_inv in H1 as (loaded0 & last & H1a & H1b & ->).
  destruct last as [|[jobId' pt] [|]]; try done. cbn in H1b. injection H1b as <-.
  assert (Hkeys : map fst (jobs (sched w2))
                  = uuid n :: map fst (loaded0 ++ [(jobId', (pipeline, trigger))])).
  { apply (f_equal (map fst)) in H4. rewrite map_map, map_app in H4. cbn [fst] in H4.
    rewrite map_map in H4. cbn in H4. exact H4. }
  assert (Hnew : jobId' <> uuid n).
  { rewrite Forall_app, Forall_singleton in H6. destruct H6 as (_ & i & Hi & Hid).
    cbn in Hid. rewrite Hid. intros E%Hinj. lia. }
  assert (Hndj : NoDup (map fst (jobs (sched w2)))).
  { rewrite Hkeys. apply NoDup_cons. split; [|done].
    intros Hin. apply list_elem_of_fmap in Hin as (l & Hl & Hin).
    rewrite Forall_forall in H6. destruct (H6 l Hin) as (i & Hi & Hid).
    rewrite Hid in Hl. apply Hinj in Hl. lia. }
  assert (Hfind : forall id,
            (id, (pipeline, trigger)) ∈ map (fun kv => (fst kv, aboutEntry (snd kv)))
                                            (jobs (sched w2)) ->
            exists e, getKey id (jobs (sched w2)) = Some e /\
                      aboutEntry e = (pipeline, trigger) /\
                      Scheduler.running (entry_job e) = true).
  { intros id Hin. apply list_elem_of_fmap in Hin as ([k e] & Heq & Hin).
    unfold aboutEntry in Heq. cbn [fst snd] in Heq. injection Heq as Hk Hp Htr. subst k.
    exists e. split; [by apply getKey_NoDup|].
    split; [unfold aboutEntry; by rewrite <- Hp, <- Htr|].
    rewrite Forall_forall in H5. apply (H5 _ Hin). }
  exists jobId'. split; [done|]. split; [done|]. split; [|split].
  - apply Hfind. rewrite H4. left.
  - apply Hfind. rewrite H4. cbn. right. apply elem_of_app. right. by left.
  - unfold jobCount. rewrite <- (length_map fst (jobs (sched w2))), Hkeys. cbn [length].
    rewrite length_map, length_app. cbn [length].
    apply (f_equal length) in H1a. rewrite !length_map in H1a. lia.
Qed.

Lemma exampleUuid_inj i j : exampleUuid i = exampleUuid j -> i = j.
Proof.
  unfold exampleUuid. intros H. apply (inj (String.app "job-")) in H.
  by apply (inj pretty) in H.
Qed.

Lemma exampleUuid_not_x i : exampleUuid i <> "x".
Proof.
  unfold exampleUuid. set (s := pretty i). clearbody s. intros H. vm_compute in H.
  discriminate H.
Qed.

Lemma Fresh_example n : Fresh exampleUuid n [] (map fst persisted).
Proof.
  split; [exact exampleUuid_inj|]. intros i _. split; [apply not_elem_of_nil|].
  cbn [map fst persisted]. intros Hin. apply list_elem_of_singleton, jobKey_inj in Hin.
  by apply exampleUuid_not_x in Hin.
Qed.

Lemma start_registers_persisted_jobs_again_witness :
  exists (loaded : list (string * (Pipeline * PipelineTrigger))) state',
    map snd loaded = [(ExecutorSpec.linear, cronTrigger "* * * * *")] /\
    file (start exampleUuid 0
            {| sched := defaultScheduler; file := StateFile.Entries persisted; issued := 0 |})
    = StateFile.Entries state' /\
    length state' = 2%nat /\
    jobCount (start exampleUuid 0
                {| sched := defaultScheduler; file := StateFile.Entries persisted;
                   issued := 0 |}) = 1%nat.
Proof.
  destruct (start_registers_persisted_jobs_again exampleUuid 0 defaultScheduler persisted 0)
    as (loaded & state' & Hl & Hf & Hk & Hj & _).
  - reflexivity.
  - apply NoDup_singleton.
  - apply Fresh_example.
  - assert (Hfil : filter (fun kv => reloaded kv) persisted = persisted) by reflexivity.
    rewrite Hfil in Hl.
    assert (Hlen : length loaded = 1%nat).
    { apply (f_equal length) in Hl. by rewrite length_map in Hl. }
    exists loaded, state'. split; [exact Hl|]. split; [exact Hf|].
    apply (f_equal length) in Hk. apply (f_equal length) in Hj.
    rewrite length_app, !length_map, Hlen in Hk. rewrite length_app, !length_map, Hlen in Hj.
    unfold jobCount. split; [exact Hk|exact Hj].
Defined.

Lemma schedule_then_start_registers_twice_witness :
  exists w1 jobId',
    schedulePipeline exampleUuid ExecutorSpec.chain (cronTrigger "0 * * * *") 5
      {| sched := defaultScheduler; file := StateFile.Entries persisted; issued := 0 |}
    = (Ok "job-0", w1) /\
    jobId' <> "job-0" /\
    (exists e, getKey jobId' (jobs (sched (start exampleUuid 9 w1))) = Some e /\
               aboutEntry e = (ExecutorSpec.chain, cronTrigger "0 * * * *")) /\
    jobCount (start exampleUuid 9 w1) = 3%nat.
Proof.
  destruct (schedule_then_start_registers_twice exampleUuid ExecutorSpec.chain
              (cronTrigger "0 * * * *") "0 * * * *" 5 9
              {| opt_concurrency := None; opt_timezone := None; opt_maxRetention := None |}
              persisted 0 eq_refl eq_refl)
    as (w1 & jobId' & H1 & H2 & _ & (e & H3 & H4 & _) & H5).
  - apply NoDup_singleton.
  - apply Fresh_example.
  - exists w1, jobId'. split; [exact H1|]. split; [exact H2|].
    split; [by exists e|exact H5].
Defined.

End PipelineSchedulerProofs.

Module TriggersProofs.
Import Parser ParserSpec TriggersSpec.
Import ParserProofs.

Lemma app_eq_self (l e : list string) : l ++ e = l -> e = [].
Proof.
  intros H. apply (f_equal length) in H. rewrite length_app in H.
  destruct e; [done|cbn in H; lia].
Qed.

Lemma validateCronTrigger_clean c index d d' :
  validateCronTrigger c index d = Ret (tt, d') -> es d' = es d ->
  exists e, prop "expression" c = Some (JStr e) /\ trim e <> EmptyString.
Proof.
  unfold validateCronTrigger, vbind, when, err, warn, vret, notNonEmptyString.
  intros H Hes.
  destruct (prop "expression" c) as [[| | |e| |]|] eqn:He;
    repeat case_match; simplify_eq; cbn in *;
    try match goal with
        | Hes : _ ++ _ = _ |- _ => apply app_eq_self in Hes; discriminate Hes
        end.
  all: exists e; split; [done|]; by apply String.eqb_neq.
Qed.

Lemma validateWebhookTrigger_clean c index d d' :
  validateWebhookTrigger c index d = Ret (tt, d') -> es d' = es d ->
  exists p, prop "path" c = Some (JStr p) /\ trim p <> EmptyString.
Proof.
  unfold validateWebhookTrigger, vbind, when, err, warn, vret, notNonEmptyString.
  intros H Hes.
  destruct (prop "path" c) as [[| | |p| |]|] eqn:He;
    repeat case_match; simplify_eq; cbn in *;
    try match goal with
        | Hes : _ ++ _ = _ |- _ => apply app_eq_self in Hes; discriminate Hes
        end.
  all: exists p; split; [done|]; by apply String.eqb_neq.
Qed.

Lemma Tame_es_eq {A} (m : V A) d a d' :
  Tame m -> m d = Ret (a, d') -> exists e, es d' = es d ++ e.
Proof. intros T H. specialize (T d). rewrite H in T. apply T. Qed.

(** A step that added no error, followed by steps that only append,
    leaves the errors as they were at each point. *)
Lemma es_between (a b c e1 e2 : list string) :
  b = a ++ e1 -> c = b ++ e2 -> c = a -> b = a /\ c = b.
Proof.
  intros -> -> H. rewrite <- app_assoc in H. apply app_eq_self in H.
  apply app_eq_nil in H as [-> ->]. by rewrite !app_nil_r.
Qed.

Lemma validateTrigger_clean index trigger acc d acc' d' :
  validateTrigger index trigger acc d = Ret (acc', d') -> es d' = es d ->
  Forall checked acc -> Forall checked acc'.
Proof.
  unfold validateTrigger. intros H Hes HF.
  destruct (negb (isObject (Some trigger)) || isNullish (Some trigger)).
  { apply vbind_Ret in H as ([] & d1 & H1 & H). injection H as <- <-.
    injection H1 as <-. cbn in Hes. apply app_eq_self in Hes. discriminate Hes. }
  destruct (prop "type" trigger) as [[| | |ty| |]|];
    try (apply vbind_Ret in H as ([] & d1 & H1 & H); injection H as <- <-;
         injection H1 as <-; cbn in Hes; apply app_eq_self in Hes; discriminate Hes).
  destruct (negb (truthy (prop "config" trigger)) || negb (isObject (prop "config" trigger))).
  { apply vbind_Ret in H as ([] & d1 & H1 & H). injection H as <- <-.
    injection H1 as <-. cbn in Hes. apply app_eq_self in Hes. discriminate Hes. }
  destruct (String.eqb ty "cron").
  { apply vbind_Ret in H as ([] & d1 & H1 & H). injection H as <- <-.
    apply Forall_app. split; [done|]. constructor; [|done].
    by eapply validateCronTrigger_clean. }
  destruct (String.eqb ty "webhook").
  { apply vbind_Ret in H as ([] & d1 & H1 & H). injection H as <- <-.
    apply Forall_app. split; [done|]. constructor; [|done].
    by eapply validateWebhookTrigger_clean. }
  destruct (String.eqb ty "manual").
  { injection H as <- <-. apply Forall_app. split; [done|]. by constructor. }
  apply vbind_Ret in H as ([] & d1 & H1 & H). by injection H as <- <-.
Qed.

Lemma validateTriggers_loop_clean triggers : forall index acc d l d',
  validateTriggers_loop index triggers acc d = Ret (l, d') -> es d' = es d ->
  Forall checked acc -> Forall checked l.
Proof.
  induction triggers as [|t triggers IH]; intros index acc d l d';
    cbn [validateTriggers_loop].
  { by intros [= <- <-]. }
  intros H Hes HF. apply vbind_Ret in H as (acc1 & d1 & H1 & H).
  destruct (Tame_es_eq _ _ _ _ (Tame_validateTrigger index t acc) H1) as (e1 & E1).
  destruct (Tame_es_eq _ _ _ _ (Tame_validateTriggers_loop triggers (S index) acc1) H)
    as (e2 & E2).
  destruct (es_between _ _ _ _ _ E1 E2 Hes) as [Hd1 Hd'].
  eapply IH; [exact H|done|]. by eapply validateTrigger_clean.
Qed.

Lemma validateTriggers_clean v d triggers d' :
  validateTriggers v d = Ret (triggers, d') -> es d' = es d ->
  Forall checked (default [] triggers).
Proof.
  unfold validateTriggers. intros H Hes.
  destruct v as [| | | |items|];
    try (apply vbind_Ret in H as ([] & d1 & H1 & H); injection H as <- <-;
         injection H1 as <-; cbn in Hes; apply app_eq_self in Hes; discriminate Hes).
  apply vbind_Ret in H as (l & d1 & H1 & H). injection H as <- <-. cbn.
  eapply validateTriggers_loop_clean; [exact H1|done|constructor].
Qed.

(** The triggers of the pipeline that [validatePipeline] returns without
    having recorded an error passed the check of their type. *)
Lemma validatePipeline_triggers pv d pl d' :
  validatePipeline pv d = Ret (pl, d') -> es d' = [] ->
  Forall checked (default [] (pipeline_triggers pl)).
Proof.
  unfold validatePipeline.
  destruct (negb (isObject (Some pv)) || isNullish (Some pv)); [done|].
  intros H Hes.
  do 7 (apply vbind_Ret in H as (? & ? & _ & H)).
  apply vbind_Ret in H as (tasks & d1 & Htasks & H).
  apply vbind_Ret in H as (triggers & d2 & Htrig & H).
  apply vbind_Ret in H as (name & d3 & Hname & H).
  apply vbind_Ret in H as (version & d4 & Hversion & H).
  apply vbind_Ret in H as ([] & d5 & Hdag & H).
  injection H as <- <-. cbn [pipeline_triggers].
  assert (Htame : Tame (match prop "triggers" pv with
                        | Some v => if truthy (Some v) then validateTriggers v else vret None
                        | None => vret None
                        end)).
  { destruct (prop "triggers" pv) as [v|]; [|apply Tame_vret].
    destruct (truthy (Some v)); [apply Tame_validateTriggers|apply Tame_vret]. }
  destruct (Tame_es_eq _ _ _ _ Htame Htrig) as (e2 & E2).
  destruct (Tame_es_eq _ _ _ _ (Tame_trimOr _ _ _) Hname) as (e3 & E3).
  destruct (Tame_es_eq _ _ _ _ (Tame_trimOr _ _ _) Hversion) as (e4 & E4).
  destruct (Tame_es_eq _ _ _ _ (Tame_checkDAG _) Hdag) as (e5 & E5).
  rewrite Hes in E5. symmetry in E5. apply app_eq_nil in E5 as [E5 _].
  rewrite E5 in E4. symmetry in E4. apply app_eq_nil in E4 as [E4 _].
  rewrite E4 in E3. symmetry in E3. apply app_eq_nil in E3 as [E3 _].
  rewrite E3 in E2. symmetry in E2. apply app_eq_nil in E2 as [E2 _].
  destruct (prop "triggers" pv) as [v|]; [|injection Htrig as <- _; constructor].
  destruct (truthy (Some v)); [|injection Htrig as <- _; constructor].
  eapply validateTriggers_clean; [exact Htrig|congruence].
Qed.

(** From the parser to the scheduler.  With validation on, the triggers of
    the pipeline that [parse] returns passed the check of their type (a cron
    trigger has a string that is not blank for expression, a webhook trigger
    one for path); and [schedulePipeline] accepts each of its cron triggers
    when the state file can be read and written. *)
Theorem parse_returns_triggers_that_can_be_scheduled (D : Decoders) (o : Options)
    (content : string) (r : ParseResult) :
  validate o = true ->
  parse D o content = Ret r ->
  Forall (fun trigger =>
            checked trigger /\
            (trigger_type trigger = cron ->
             forall uuid now s state n,
               fst (PipelineScheduler.schedulePipeline uuid (pipeline r) trigger now
                      {| PipelineScheduler.sched := s;
                         PipelineScheduler.file :=
                           PipelineScheduler.StateFile.Entries state;
                         PipelineScheduler.issued := n |})
               = Ok (uuid n)))
         (default [] (pipeline_triggers (pipeline r))).
Proof.
  intros Hv. unfold parse, parse_try.
  destruct (decode D content) as [config|e|]; cbn [obind].
  2:{ by destruct (isValidationError e). }
  2:{ done. }
  destruct (rootPipeline config) as [[pv|]|e|]; cbn [obind]; try done.
  2:{ by destruct (isValidationError e). }
  destruct (negb (truthy (Some pv))); [done|].
  destruct (validatePipeline pv {| ws := []; es := [] |}) as [[pl d]|e|] eqn:Hvp; cbn [obind].
  2:{ by destruct (isValidationError e). }
  2:{ done. }
  rewrite Hv. cbn [andb].
  destruct (0 <? length (es d))%nat eqn:Hlen; [done|].
  intros [= <-]. cbn [pipeline].
  assert (es d = []) as Hes.
  { apply Nat.ltb_ge in Hlen. destruct (es d); [done|cbn in Hlen; lia]. }
  eapply Forall_impl; [by eapply validatePipeline_triggers|].
  intros trigger Hc. split; [done|]. intros Hty uuid now s state n.
  unfold checked in Hc. rewrite Hty in Hc. destruct Hc as (e & He & _).
  unfold PipelineScheduler.schedulePipeline. rewrite Hty.
  destruct (trigger_config trigger); try done. by rewrite He.
Qed.

Lemma parse_returns_triggers_that_can_be_scheduled_witness :
  exists r,
    parse (exampleDecoders hourlyDoc) defaultParser "{}" = Ret r /\
    pipeline_triggers (pipeline r)
    = Some [PipelineScheduler.cronTrigger "0 * * * *";
            {| trigger_type := manual; trigger_config := JObj [] |}] /\
    fst (PipelineScheduler.schedulePipeline PipelineScheduler.exampleUuid (pipeline r)
           (PipelineScheduler.cronTrigger "0 * * * *") 0
           {| PipelineScheduler.sched := PipelineScheduler.defaultScheduler;
              PipelineScheduler.file := PipelineScheduler.StateFile.Entries [];
              PipelineScheduler.issued := 0 |})
    = Ok "job-0".
Proof.
  eexists. split; [by vm_compute|]. split; [by vm_compute|].
  match goal with |- context [PipelineScheduler.schedulePipeline _ (pipeline ?r)] =>
    pose proof (parse_returns_triggers_that_can_be_scheduled (exampleDecoders hourlyDoc)
                  defaultParser "{}" r eq_refl ltac:(by vm_compute)) as H
  end.
  apply Forall_cons in H as [[_ H] _].
  exact (H eq_refl PipelineScheduler.exampleUuid 0 PipelineScheduler.defaultScheduler [] 0%nat).
Defined.

End TriggersProofs.
